(** * JojoDiff: a shallow embedding of the differencing core

    The development follows the C++ sources of JojoDiff 0.8.5:
    - [JDefs.h]        global constants (EOF, EOB, exit codes, operator bytes);
    - [JDiff.cpp]      the rolling hash, the source scans and the tail of
                       [JDiff::search];
    - [JHashPos.cpp]   the source index (a lossy hash table of positions);
    - [JMatchTable.cpp] the table of candidate matches;
    - [JFileAhead.cpp] the buffered, byte-addressed reader;
    - [JPatcht.cpp]    the length decoder of the patch applier;
    - [main.cpp]       the mapping of results to process exit codes.

    Conventions.  A C++ [int] or [off_t] is a [Z]; signed overflow is undefined
    behaviour in C++, so signed arithmetic is the arithmetic of [Z] (the model
    covers the executions without overflow).  The unsigned hash word [hkey]
    wraps around and the wrap-around is written out.  Pointers into the pool of
    match records are [option nat] ([None] is [null]).  Reference parameters
    that a function assigns are returned next to its result. *)

From Stdlib Require Import ZArith Lia Bool List.
From Stdlib Require Strings.Byte.
From stdpp Require Import base tactics option list.
Import ListNotations.

#[local] Open Scope Z_scope.
#[local] Unset Default Proof Using.

(** ** JDefs.h *)

Module JDefs.

(** [EOF] of <stdio.h>. *)
Definition EOF : Z := -1.
Definition EOB : Z := EOF - 1.

Definition EXI_OK  : Z := 0.
Definition EXI_DIF : Z := 1.
Definition EXI_EQL : Z := 2.
Definition EXI_ARG : Z := -2.
Definition EXI_FRT : Z := -3.
Definition EXI_SCD : Z := -4.
Definition EXI_OUT : Z := -5.
Definition EXI_SEK : Z := -6.
Definition EXI_LRG : Z := -7.
Definition EXI_RED : Z := -8.
Definition EXI_WRI : Z := -9.
Definition EXI_MEM : Z := -10.
Definition EXI_ERR : Z := -20.

Definition ESC : Z := 0xA7.
Definition MOD : Z := 0xA6.
Definition INS : Z := 0xA5.
Definition DEL : Z := 0xA4.
Definition EQL : Z := 0xA3.
Definition BKT : Z := 0xA2.

End JDefs.

(** ** The hash word and the rolling hash ([JDefs.h], [JDiff::hash]) *)

Section HashWord.

(** [sizeof(hkey)]: 4 or 8 depending on the platform and on _LARGESAMPLE. *)
Variable sizeof_hkey : Z.

(** [const int SMPSZE = (int) sizeof(hkey) * 8]. *)
Definition SMPSZE : Z := sizeof_hkey * 8.

(** Arithmetic on [hkey] is modulo [2^SMPSZE]. *)
Definition hkey_wrap (z : Z) : Z := z mod 2 ^ SMPSZE.

(** [JDiff::hash (akCurHsh, &acOld, acNew, &aiEql)]: the result is the new
      hash together with the updated [acOld] and [aiEql]. *)
Definition hash (akCurHsh acOld acNew aiEql : Z) : Z * Z * Z :=
    let '(acOld1, aiEql1) :=
      if acOld =? acNew
      then (acOld, if aiEql <? SMPSZE then aiEql + 1 else aiEql)
      else (acNew, if negb (aiEql =? 0) then 0 else aiEql) in
    (hkey_wrap (hkey_wrap (hkey_wrap (akCurHsh * 2) + acNew) + aiEql1),
     acOld1, aiEql1).

End HashWord.

(** ** JHashPos: the source index *)

Module JHashPos.

Definition COLLISION_THRESHOLD : Z := 4.
Definition COLLISION_HIGH : Z := 4.
Definition COLLISION_LOW : Z := 1.

(** The object state.  The two arrays [mzHshTblPos] and [mkHshTblHsh] have
      [miHshPme] elements each. *)
Record t : Type := mk {
    mzHshTblPos : list Z;
    mkHshTblHsh : list Z;
    miHshPme    : Z;
    miHshSze    : Z;
    miHshColMax : Z;
    miHshColCnt : Z;
    miHshRlb    : Z;
    miLodCnt    : Z;
    miHshHit    : Z
  }.

(** Array read [a[i]]. *)
Definition rd (a : list Z) (i : Z) : Z := default 0 (a !! Z.to_nat i).
(** Array write [a[i] = v]. *)
Definition wr (a : list Z) (i : Z) (v : Z) : list Z := <[Z.to_nat i := v]> a.

Section WithSample.

Variable sizeof_hkey : Z.
Abbreviation SMPSZE := (SMPSZE sizeof_hkey).

(** The state the constructor leaves behind for a table of [aiPme]
        slots.  The table comes from [malloc] and is not initialised: its
        content [azPos], [akHsh] is whatever the memory held. *)
Definition create (aiPme aiSze : Z) (azPos akHsh : list Z) : t :=
      {| mzHshTblPos := azPos; mkHshTblHsh := akHsh;
         miHshPme := aiPme; miHshSze := aiSze;
         miHshColMax := COLLISION_THRESHOLD;
         miHshColCnt := COLLISION_THRESHOLD;
         miHshRlb := SMPSZE + SMPSZE / 2;
         miLodCnt := aiPme;
         miHshHit := 0 |}.

(** First statement of [add]: the load counter. *)
Definition add_load (s : t) : t :=
      if 0 <? miLodCnt s then
        {| mzHshTblPos := mzHshTblPos s; mkHshTblHsh := mkHshTblHsh s;
           miHshPme := miHshPme s; miHshSze := miHshSze s;
           miHshColMax := miHshColMax s;
           miHshColCnt := miHshColCnt s;
           miHshRlb := miHshRlb s;
           miLodCnt := miLodCnt s - 1;
           miHshHit := miHshHit s |}
      else
        {| mzHshTblPos := mzHshTblPos s; mkHshTblHsh := mkHshTblHsh s;
           miHshPme := miHshPme s; miHshSze := miHshSze s;
           miHshColMax := miHshColMax s + COLLISION_THRESHOLD;
           miHshColCnt := miHshColCnt s;
           miHshRlb := miHshRlb s + 4;
           miLodCnt := miHshPme s;
           miHshHit := miHshHit s |}.

(** Second statement of [add]: the amount taken from the collision
        counter, by the quality of the sample. *)
Definition add_rate (aiEqlCnt : Z) : Z :=
      if aiEqlCnt <=? SMPSZE * 2 then COLLISION_HIGH else COLLISION_LOW.

(** Remainder of [add], once the collision counter has been lowered by
        [aiRate]. *)
Definition add_store (s : t) (aiRate akCurHsh azPos : Z) : t :=
      let liColCnt := miHshColCnt s - aiRate in
      if liColCnt <=? 0 then
        let liIdx := akCurHsh mod miHshPme s in
        {| mzHshTblPos := wr (mzHshTblPos s) liIdx azPos;
           mkHshTblHsh := wr (mkHshTblHsh s) liIdx akCurHsh;
           miHshPme := miHshPme s; miHshSze := miHshSze s;
           miHshColMax := miHshColMax s;
           miHshColCnt := miHshColMax s;
           miHshRlb := miHshRlb s;
           miLodCnt := miLodCnt s;
           miHshHit := miHshHit s |}
      else
        {| mzHshTblPos := mzHshTblPos s; mkHshTblHsh := mkHshTblHsh s;
           miHshPme := miHshPme s; miHshSze := miHshSze s;
           miHshColMax := miHshColMax s;
           miHshColCnt := liColCnt;
           miHshRlb := miHshRlb s;
           miLodCnt := miLodCnt s;
           miHshHit := miHshHit s |}.

(** [JHashPos::add (akCurHsh, azPos, aiEqlCnt)]. *)
Definition add (s : t) (akCurHsh azPos aiEqlCnt : Z) : t :=
      add_store (add_load s) (add_rate aiEqlCnt) akCurHsh azPos.

(** [JHashPos::reset ()]. *)
Definition reset (s : t) : t :=
      {| mzHshTblPos := mzHshTblPos s; mkHshTblHsh := mkHshTblHsh s;
         miHshPme := miHshPme s; miHshSze := miHshSze s;
         miHshColMax := COLLISION_THRESHOLD;
         miHshColCnt := COLLISION_THRESHOLD;
         miHshRlb := SMPSZE + SMPSZE / 2;
         miLodCnt := miHshPme s;
         miHshHit := miHshHit s |}.

End WithSample.

(** [JHashPos::get (akCurHsh, &azPos)]: the result is the found flag, the
      value of [azPos] on return and the object state. *)
Definition get (s : t) (akCurHsh azPos : Z) : bool * Z * t :=
    let liIdx := akCurHsh mod miHshPme s in
    if rd (mkHshTblHsh s) liIdx =? akCurHsh then
      (true, rd (mzHshTblPos s) liIdx,
       {| mzHshTblPos := mzHshTblPos s; mkHshTblHsh := mkHshTblHsh s;
          miHshPme := miHshPme s; miHshSze := miHshSze s;
          miHshColMax := miHshColMax s;
          miHshColCnt := miHshColCnt s;
          miHshRlb := miHshRlb s;
          miLodCnt := miLodCnt s;
          miHshHit := miHshHit s + 1 |})
    else (false, azPos, s).

(** [JHashPos::get_reliability ()]. *)
Definition get_reliability (s : t) : Z := miHshRlb s.

(** One call of [add], as the driver issues it. *)
Record call : Type := Call { c_hsh : Z; c_pos : Z; c_eql : Z }.

(** The index after a sequence of [add] calls, oldest first. *)
Definition adds (sizeof_hkey : Z) (s : t) (cs : list call) : t :=
    fold_left (fun s c => add sizeof_hkey s (c_hsh c) (c_pos c) (c_eql c)) cs s.

(** The arrays are as large as the constructor made them. *)
Definition wf (s : t) : Prop :=
    0 < miHshPme s /\
    Z.of_nat (length (mzHshTblPos s)) = miHshPme s /\
    Z.of_nat (length (mkHshTblHsh s)) = miHshPme s.

End JHashPos.

(** ** JDiff: the source scans and the offsets of a search *)

Module JDiff.

(** The registers of the rolling hash over the source file: the members
    [mlHshOrg], [miPrvOrg], [miEqlOrg] and the scan cursor [mzAhdOrg] of
    [JDiff] (in [buildFullIndex]: its locals [lkHshOrg], [lcValPrv],
    [liEqlOrg] and [lzPosOrg]). *)
Record scan : Type := Scan {
  mlHshOrg : Z;
  miPrvOrg : Z;
  miEqlOrg : Z;
  mzAhdOrg : Z
}.

Section WithSample.

Variable sizeof_hkey : Z.
Abbreviation SMPSZE := (SMPSZE sizeof_hkey).

(** The registers of [buildFullIndex] on entry:
    [lkHshOrg=0], [liEqlOrg=0], [lcValPrv=EOF], [lzPosOrg=-1]. *)
Definition scan_start : scan :=
  {| mlHshOrg := 0; miPrvOrg := JDefs.EOF; miEqlOrg := 0; mzAhdOrg := -1 |}.

(** [mlHshOrg = hash (mlHshOrg, miPrvOrg, lcOrg, miEqlOrg)]. *)
Definition scan_hash (r : scan) (lcOrg : Z) : scan :=
  let '(h, p, e) :=
    hash sizeof_hkey (mlHshOrg r) (miPrvOrg r) lcOrg (miEqlOrg r) in
  {| mlHshOrg := h; miPrvOrg := p; miEqlOrg := e; mzAhdOrg := mzAhdOrg r |}.

(** The block that feeds the index, as it stands in [jdiff] (twice) and in
    [search]:
    [mlHshOrg = hash (mlHshOrg, miPrvOrg, lcOrg, miEqlOrg) ;
     gpHsh->add (mlHshOrg, mzAhdOrg, miEqlOrg) ; mzAhdOrg ++ ;]
    The call of [add] is returned next to the registers. *)
Definition scan_add (r : scan) (lcOrg : Z) : scan * JHashPos.call :=
  let r1 := scan_hash r lcOrg in
  ({| mlHshOrg := mlHshOrg r1; miPrvOrg := miPrvOrg r1;
      miEqlOrg := miEqlOrg r1; mzAhdOrg := mzAhdOrg r1 + 1 |},
   JHashPos.Call (mlHshOrg r1) (mzAhdOrg r1) (miEqlOrg r1)).

(** The incremental source scan of [jdiff]:
    [if (miSrcScn == 0 && lzPosOrg == mzAhdOrg) { ... }]. *)
Definition jdiff_scan (miSrcScn lzPosOrg lcOrg : Z) (r : scan)
  : scan * list JHashPos.call :=
  if (miSrcScn =? 0) && (lzPosOrg =? mzAhdOrg r)
  then let '(r1, c) := scan_add r lcOrg in (r1, [c])
  else (r, []).

(** The scan-ahead loop of [search], case [miSrcScn == 0]:
    [for ( ; liMax > 0 ; liMax --) { lcOrg = get (mzAhdOrg, SoftAhead) ;
       if (lcOrg <= EOF) break ; ... }].
    [reads] are the values the successive calls of [get] return. *)
Fixpoint search_scan (liMax : nat) (reads : list Z) (r : scan)
  : scan * list JHashPos.call :=
  match liMax, reads with
  | S n, lcOrg :: reads1 =>
      if lcOrg <=? JDefs.EOF then (r, [])
      else
        let '(r1, c) := scan_add r lcOrg in
        let '(r2, cs) := search_scan n reads1 r1 in
        (r2, c :: cs)
  | _, _ => (r, [])
  end.

(** First loop of [buildFullIndex]: up to [SMPSZE - 1] bytes initialise the
    hash, [lzPosOrg] is incremented before each read.  The result is the
    last value read ([lcValOrg]), the registers and the reads left. *)
Fixpoint buildFullIndex_init (n : nat) (lcValOrg : Z) (reads : list Z)
  (r : scan) : Z * scan * list Z :=
  match n, reads with
  | S n1, c :: reads1 =>
      let r1 := {| mlHshOrg := mlHshOrg r; miPrvOrg := miPrvOrg r;
                   miEqlOrg := miEqlOrg r; mzAhdOrg := mzAhdOrg r + 1 |} in
      if c <=? JDefs.EOF then (c, r1, reads1)
      else buildFullIndex_init n1 c reads1 (scan_hash r1 c)
  | _, _ => (lcValOrg, r, reads)
  end.

(** Second loop of [buildFullIndex] (both variants run the same
    statements on the index):
    [while (lcValOrg > EOF) { lcValOrg = get (++ lzPosOrg, HardAhead) ;
       if (lcValOrg <= EOF) break ;
       lkHshOrg = hash (...) ; gpHsh->add (lkHshOrg, lzPosOrg, liEqlOrg) ; }] *)
Fixpoint buildFullIndex_loop (lcValOrg : Z) (reads : list Z) (r : scan)
  : Z * scan * list JHashPos.call :=
  match reads with
  | c :: reads1 =>
      if lcValOrg >? JDefs.EOF then
        let r1 := {| mlHshOrg := mlHshOrg r; miPrvOrg := miPrvOrg r;
                     miEqlOrg := miEqlOrg r; mzAhdOrg := mzAhdOrg r + 1 |} in
        if c <=? JDefs.EOF then (c, r1, [])
        else
          let r2 := scan_hash r1 c in
          let '(v, r3, cs) := buildFullIndex_loop c reads1 r2 in
          (v, r3,
           JHashPos.Call (mlHshOrg r2) (mzAhdOrg r2) (miEqlOrg r2) :: cs)
      else (lcValOrg, r, [])
  | [] => (lcValOrg, r, [])
  end.

(** [JDiff::buildFullIndex ()] over the values [reads] that the successive
    calls [mpFilOrg->get (++ lzPosOrg, JFile::HardAhead)] return.  The
    result is the return code and the calls of [add], oldest first. *)
Definition buildFullIndex (reads : list Z) : Z * list JHashPos.call :=
  let '(lcValOrg, r, reads1) :=
    buildFullIndex_init (Z.to_nat (SMPSZE - 1)) 0 reads scan_start in
  let '(v, _, cs) := buildFullIndex_loop lcValOrg reads1 r in
  (if v <? JDefs.EOB then v else 0, cs).

(** The end of [JDiff::search], from the call of [getbest] on: [lbFnd] and
    [(lzFndOrg, lzFndNew)] are what [gpMch->getbest] returned.  The result
    is the return value and the outputs [(azSkpOrg, azSkpNew, azAhd)]. *)
Definition search_offsets (lbFnd : bool)
  (lzFndOrg lzFndNew azRedOrg azRedNew lzBseOrg mzAhdNew : Z)
  : Z * (Z * Z * Z) :=
  if negb lbFnd then
    let azAhd := mzAhdNew - azRedNew in
    (0, (0, 0, if azAhd <? SMPSZE then SMPSZE else azAhd))
  else if lzFndOrg >=? azRedOrg then
    if lzFndOrg - azRedOrg >=? lzFndNew - azRedNew then
      (1, (lzFndOrg - azRedOrg + azRedNew - lzFndNew, 0, lzFndNew - azRedNew))
    else
      (1, (0, lzFndNew - azRedNew + azRedOrg - lzFndOrg, lzFndOrg - azRedOrg))
  else
    let azSkpOrg := azRedOrg - lzFndOrg + lzFndNew - azRedNew in
    if azSkpOrg <=? azRedOrg - lzBseOrg then
      (1, (- azSkpOrg, 0, lzFndNew - azRedNew))
    else
      let azSkpNew := azSkpOrg - (azRedOrg - lzBseOrg) in
      (1, (lzBseOrg - azRedOrg, azSkpNew, (lzFndNew - azRedNew) - azSkpNew)).

End WithSample.

End JDiff.

(** ** JPatcht: the length decoder *)

Module JPatcht.

(** The patch file as [ufGetInt] reads it: [apFil.get ()] returns the next
    byte of the file, or [EOF] when there is none.  The model follows the
    code up to the first [EOF]: here a file at its end keeps answering
    [EOF], whereas the buffered reader of the code restarts at another
    position when it is read again after an [EOF]. *)
Definition get (apFil : list Z) : Z * list Z :=
  match apFil with
  | c :: rest => (c, rest)
  | [] => (JDefs.EOF, [])
  end.

Section WithOffset.

(** [sizeof(off_t) * 8], and whether JDIFF_LARGEFILE is defined. *)
Variable off_t_bits : Z.
Variable JDIFF_LARGEFILE : bool.

(** The value of an [off_t] expression, in two's complement. *)
Definition off_t_wrap (z : Z) : Z :=
  (z + 2 ^ (off_t_bits - 1)) mod 2 ^ off_t_bits - 2 ^ (off_t_bits - 1).

(** [liVal = (liVal << 8) + apFil.get ()]. *)
Definition shift_in (liVal : Z) (apFil : list Z) : Z * list Z :=
  let '(c, apFil1) := get apFil in
  (off_t_wrap (off_t_wrap (Z.shiftl liVal 8) + c), apFil1).

(** [JPatcht::ufGetInt (apFil)]: the result is the offset and the file. *)
Definition ufGetInt (apFil : list Z) : Z * list Z :=
  let '(liVal, f1) := get apFil in
  if liVal <? 252 then (liVal + 1, f1)
  else if liVal =? 252 then
    let '(c, f2) := get f1 in (253 + c, f2)
  else if liVal =? 253 then
    let '(liVal, f2) := get f1 in
    shift_in liVal f2
  else if liVal =? 254 then
    let '(liVal, f2) := get f1 in
    let '(liVal, f3) := shift_in liVal f2 in
    let '(liVal, f4) := shift_in liVal f3 in
    shift_in liVal f4
  else if JDIFF_LARGEFILE then
    let '(liVal, f2) := get f1 in
    let '(liVal, f3) := shift_in liVal f2 in
    let '(liVal, f4) := shift_in liVal f3 in
    let '(liVal, f5) := shift_in liVal f4 in
    let '(liVal, f6) := shift_in liVal f5 in
    let '(liVal, f7) := shift_in liVal f6 in
    let '(liVal, f8) := shift_in liVal f7 in
    shift_in liVal f8
  else (JDefs.EXI_LRG, f1).

End WithOffset.

(** The value of a big-endian sequence of bytes. *)
Definition big_endian (bs : list Z) : Z :=
  fold_left (fun acc b => acc * 256 + b) bs 0.

End JPatcht.

(** ** main: results and exit codes *)

Module Main.

Import JDefs.

(** [enum {Diff, Patch, Dedup, Test} liFun]. *)
Inductive eFun : Type := Diff | Patch | Dedup | Test.

(** The return code [liRet] of [main] once the required functions have run:
    [liJDiff] is what [loJDiff.jdiff ()] returned, [gzOutBytDta] the number
    of data bytes the output counted, [liJPatch] what [loJPatcht.jpatch ()]
    returned. *)
Definition run (liFun : eFun) (liJDiff gzOutBytDta liJPatch : Z) : Z :=
  let liRet := EXI_ARG in
  let liRet :=
    match liFun with
    | Diff | Test | Dedup =>
        if liJDiff =? EXI_OK
        then (if gzOutBytDta >? 0 then EXI_DIF else EXI_EQL)
        else liJDiff
    | Patch => liRet
    end in
  match liFun with
  | Patch | Test => liJPatch
  | Diff | Dedup => liRet
  end.

(** The final [switch (liRet)] of [main]: the argument of [exit]. *)
Definition exit_code (liRet : Z) : Z :=
  if liRet =? EXI_SEK then - EXI_SEK
  else if liRet =? EXI_LRG then - EXI_LRG
  else if liRet =? EXI_RED then - EXI_RED
  else if liRet =? EXI_WRI then - EXI_WRI
  else if liRet =? EXI_MEM then - EXI_MEM
  else if liRet =? EXI_ARG then - EXI_ARG
  else if liRet =? EXI_ERR then - EXI_ERR
  else if liRet =? EXI_OK then EXI_OK
  else if liRet =? EXI_EQL then EXI_OK
  else if liRet =? EXI_DIF then EXI_DIF
  else - EXI_ERR.

(** The exit code of a run of the program that reaches the end of [main]. *)
Definition main (liFun : eFun) (liJDiff gzOutBytDta liJPatch : Z) : Z :=
  exit_code (run liFun liJDiff gzOutBytDta liJPatch).

End Main.

(** ** JFile: the byte-addressed input interface *)

Module JFile.

(** [enum eAhead { Read, HardAhead, SoftAhead }]. *)
Inductive eAhead : Type := Read | HardAhead | SoftAhead.

(** The part of the abstract class [JFile] that the match table uses:
    [get (azPos, aiSft)] returns a byte, [EOF], [EOB] or an error code, and
    may change the state of the file object. *)
Class ops (F : Type) : Type := {
  get : F -> Z -> eAhead -> Z * F
}.

(** A [JFile] over data held in memory: every position is always
    available, [get] returns the byte at [azPos] or [EOF]. *)
Definition mem_get (f : list Z) (azPos : Z) (aiSft : eAhead) : Z * list Z :=
  (if (0 <=? azPos) && (azPos <? Z.of_nat (length f))
   then default JDefs.EOF (f !! Z.to_nat azPos)
   else JDefs.EOF, f).

#[global] Instance mem_ops : ops (list Z) := {| get := mem_get |}.

End JFile.

(** ** JFileAhead: the buffered reader *)

Module JFileAhead.

Import JDefs.
Export JFile(eAhead(..)).

(** [enum eBufOpr { Append, Reset, Scrollback }]. *)
Inductive eBufOpr : Type := Append | Reset | Scrollback.

(** [enum eBufDne { Added, EndOfFile = EOF, EndOfBuffer = EOB,
    SeekError = EXI_SEK, ReadError = EXI_RED }]. *)
Inductive eBufDne : Type :=
  Added | EndOfFile | EndOfBuffer | SeekError | ReadError.

(** The pure virtual methods [jseek] and [jread] that a descendant
    provides on its file or stream [U]: [jseek] returns [EXI_OK] or
    [EXI_SEK], [jread (count)] returns the bytes it read. *)
Class sys (U : Type) : Type := {
  jseek : U -> Z -> Z * U;
  jread : U -> Z -> list Byte.byte * U
}.

(** The value of a [jchar] (an unsigned char). *)
Definition jchar_val (b : Byte.byte) : Z := Z.of_N (Byte.to_N b).

(** The members of [JFile] and [JFileAhead].  Pointers into the buffer are
    offsets from [mpBuf]; [mpMax] is the offset [mlBufSze]. *)
Record t (U : Type) : Type := mk {
  mbSeq : bool;
  miRedSze : Z;
  mpRed : option Z;
  mzPosInp : Z;
  mzPosRed : Z;
  mzPosEof : Z;
  mlFabSek : Z;
  mlBufSze : Z;
  miBlkSze : Z;
  miBufUsd : Z;
  mpBuf : list Byte.byte;
  mpInp : Z;
  mzPosBse : Z;
  mpFil : U
}.

Arguments mbSeq {U} _.
Arguments miRedSze {U} _.
Arguments mpRed {U} _.
Arguments mzPosInp {U} _.
Arguments mzPosRed {U} _.
Arguments mzPosEof {U} _.
Arguments mlFabSek {U} _.
Arguments mlBufSze {U} _.
Arguments miBlkSze {U} _.
Arguments miBufUsd {U} _.
Arguments mpBuf {U} _.
Arguments mpInp {U} _.
Arguments mzPosBse {U} _.
Arguments mpFil {U} _.
Arguments mk {U}.

(** [mbSeq = v]. *)
Definition set_mbSeq {U : Type} (v : bool) (s : t U) : t U :=
  mk v (miRedSze s) (mpRed s) (mzPosInp s) (mzPosRed s) (mzPosEof s) (mlFabSek s) (mlBufSze s) (miBlkSze s) (miBufUsd s) (mpBuf s) (mpInp s) (mzPosBse s) (mpFil s).

(** [miRedSze = v]. *)
Definition set_miRedSze {U : Type} (v : Z) (s : t U) : t U :=
  mk (mbSeq s) v (mpRed s) (mzPosInp s) (mzPosRed s) (mzPosEof s) (mlFabSek s) (mlBufSze s) (miBlkSze s) (miBufUsd s) (mpBuf s) (mpInp s) (mzPosBse s) (mpFil s).

(** [mpRed = v]. *)
Definition set_mpRed {U : Type} (v : option Z) (s : t U) : t U :=
  mk (mbSeq s) (miRedSze s) v (mzPosInp s) (mzPosRed s) (mzPosEof s) (mlFabSek s) (mlBufSze s) (miBlkSze s) (miBufUsd s) (mpBuf s) (mpInp s) (mzPosBse s) (mpFil s).

(** [mzPosInp = v]. *)
Definition set_mzPosInp {U : Type} (v : Z) (s : t U) : t U :=
  mk (mbSeq s) (miRedSze s) (mpRed s) v (mzPosRed s) (mzPosEof s) (mlFabSek s) (mlBufSze s) (miBlkSze s) (miBufUsd s) (mpBuf s) (mpInp s) (mzPosBse s) (mpFil s).

(** [mzPosRed = v]. *)
Definition set_mzPosRed {U : Type} (v : Z) (s : t U) : t U :=
  mk (mbSeq s) (miRedSze s) (mpRed s) (mzPosInp s) v (mzPosEof s) (mlFabSek s) (mlBufSze s) (miBlkSze s) (miBufUsd s) (mpBuf s) (mpInp s) (mzPosBse s) (mpFil s).

(** [mzPosEof = v]. *)
Definition set_mzPosEof {U : Type} (v : Z) (s : t U) : t U :=
  mk (mbSeq s) (miRedSze s) (mpRed s) (mzPosInp s) (mzPosRed s) v (mlFabSek s) (mlBufSze s) (miBlkSze s) (miBufUsd s) (mpBuf s) (mpInp s) (mzPosBse s) (mpFil s).

(** [mlFabSek = v]. *)
Definition set_mlFabSek {U : Type} (v : Z) (s : t U) : t U :=
  mk (mbSeq s) (miRedSze s) (mpRed s) (mzPosInp s) (mzPosRed s) (mzPosEof s) v (mlBufSze s) (miBlkSze s) (miBufUsd s) (mpBuf s) (mpInp s) (mzPosBse s) (mpFil s).

(** [mlBufSze = v]. *)
Definition set_mlBufSze {U : Type} (v : Z) (s : t U) : t U :=
  mk (mbSeq s) (miRedSze s) (mpRed s) (mzPosInp s) (mzPosRed s) (mzPosEof s) (mlFabSek s) v (miBlkSze s) (miBufUsd s) (mpBuf s) (mpInp s) (mzPosBse s) (mpFil s).

(** [miBlkSze = v]. *)
Definition set_miBlkSze {U : Type} (v : Z) (s : t U) : t U :=
  mk (mbSeq s) (miRedSze s) (mpRed s) (mzPosInp s) (mzPosRed s) (mzPosEof s) (mlFabSek s) (mlBufSze s) v (miBufUsd s) (mpBuf s) (mpInp s) (mzPosBse s) (mpFil s).

(** [miBufUsd = v]. *)
Definition set_miBufUsd {U : Type} (v : Z) (s : t U) : t U :=
  mk (mbSeq s) (miRedSze s) (mpRed s) (mzPosInp s) (mzPosRed s) (mzPosEof s) (mlFabSek s) (mlBufSze s) (miBlkSze s) v (mpBuf s) (mpInp s) (mzPosBse s) (mpFil s).

(** [mpBuf = v]. *)
Definition set_mpBuf {U : Type} (v : list Byte.byte) (s : t U) : t U :=
  mk (mbSeq s) (miRedSze s) (mpRed s) (mzPosInp s) (mzPosRed s) (mzPosEof s) (mlFabSek s) (mlBufSze s) (miBlkSze s) (miBufUsd s) v (mpInp s) (mzPosBse s) (mpFil s).

(** [mpInp = v]. *)
Definition set_mpInp {U : Type} (v : Z) (s : t U) : t U :=
  mk (mbSeq s) (miRedSze s) (mpRed s) (mzPosInp s) (mzPosRed s) (mzPosEof s) (mlFabSek s) (mlBufSze s) (miBlkSze s) (miBufUsd s) (mpBuf s) v (mzPosBse s) (mpFil s).

(** [mzPosBse = v]. *)
Definition set_mzPosBse {U : Type} (v : Z) (s : t U) : t U :=
  mk (mbSeq s) (miRedSze s) (mpRed s) (mzPosInp s) (mzPosRed s) (mzPosEof s) (mlFabSek s) (mlBufSze s) (miBlkSze s) (miBufUsd s) (mpBuf s) (mpInp s) v (mpFil s).

(** [mpFil = v]. *)
Definition set_mpFil {U : Type} (v : U) (s : t U) : t U :=
  mk (mbSeq s) (miRedSze s) (mpRed s) (mzPosInp s) (mzPosRed s) (mzPosEof s) (mlFabSek s) (mlBufSze s) (miBlkSze s) (miBufUsd s) (mpBuf s) (mpInp s) (mzPosBse s) v.

Section WithSys.

Context {U : Type} `{sys U}.

(** [*p] and a block write [p[0..] = bs] in the buffer. *)
Definition peek (s : t U) (p : Z) : Z :=
  jchar_val (default Byte.x00 (mpBuf s !! Z.to_nat p)).

Definition poke (buf : list Byte.byte) (p : Z) (bs : list Byte.byte)
  : list Byte.byte :=
  take (Z.to_nat p) buf ++ bs ++ drop (Z.to_nat p + length bs) buf.

(** [JFileAhead::getBufPos ()]. *)
Definition getBufPos (s : t U) : Z := mzPosInp s - miBufUsd s.

(** [JFileAhead::set_lookahead_base (azBse)]. *)
Definition set_lookahead_base (azBse : Z) (s : t U) : t U :=
  set_mzPosBse azBse s.

(** [JFileAhead::readblocks (apInp, azInp, azEnd)].  [liDne] is the local
    of that name; the result holds the return value and the final values
    of the reference parameters [apInp] and [azInp].  [None]: the loop has
    not ended within [fuel] rounds. *)
Fixpoint readblocks (fuel : nat) (s : t U) (liDne apInp azInp azEnd : Z)
  : option (Z * Z * Z * t U) :=
  if azInp <=? azEnd then
    match fuel with
    | O => None
    | S fuel1 =>
        let liTdo := miBlkSze s in
        let '(apInp, liTdo) :=
          if apInp =? mlBufSze s then (0, liTdo)
          else if mlBufSze s - apInp <? liTdo then (apInp, mlBufSze s - apInp)
          else (apInp, liTdo) in
        let '(bs, fil) := jread (mpFil s) liTdo in
        let bs := take (Z.to_nat liTdo) bs in
        let liDne := Z.of_nat (length bs) in
        let s := set_mpFil fil (set_mpBuf (poke (mpBuf s) apInp bs) s) in
        let apInp := apInp + liDne in
        let azInp := azInp + liDne in
        let s := set_miBufUsd (miBufUsd s + liDne) s in
        if liDne <? liTdo then
          let s := set_mzPosEof azInp s in
          let s := if miBufUsd s >? mlBufSze s
                   then set_miBufUsd (mlBufSze s) s else s in
          if azEnd >=? mzPosEof s then Some (EOF, apInp, azInp, s)
          else Some (liDne, apInp, azInp, s)
        else readblocks fuel1 s liDne apInp azInp azEnd
    end
  else
    let s := if miBufUsd s >? mlBufSze s
             then set_miBufUsd (mlBufSze s) s else s in
    Some (liDne, apInp, azInp, s).

(** Rounds that [readblocks] needs at most when every block it reads
    advances the position. *)
Definition readblocks_fuel (azInp azEnd : Z) : nat :=
  Z.to_nat (azEnd - azInp + 1).

(** The preparation of [get_fromfile]: either the result is known at
    once, or the operation on the buffer is chosen. *)
Definition get_fromfile_prep (s : t U) (azPos : Z) (aiSft : eAhead)
  : eBufDne + eBufOpr :=
  if azPos <? mzPosInp s - miBufUsd s then
    match aiSft with
    | SoftAhead => inl EndOfBuffer
    | _ =>
        if mbSeq s then
          match aiSft with
          | HardAhead => inl EndOfBuffer
          | _ => inl SeekError
          end
        else if azPos + mlBufSze s - miBlkSze s >? mzPosInp s - miBufUsd s
        then inr Scrollback
        else inr Reset
    end
  else if azPos >=? mzPosInp s + mlBufSze s then
    match aiSft with
    | SoftAhead => inl EndOfBuffer
    | _ => inr Reset
    end
  else
    match aiSft with
    | SoftAhead =>
        if azPos >? mzPosBse s + mlBufSze s - miBlkSze s
        then inl EndOfBuffer else inr Append
    | _ => inr Append
    end.

(** [case Append:] of [get_fromfile]. *)
Definition do_append (s : t U) (azPos : Z) : option (eBufDne * t U) :=
  match readblocks (readblocks_fuel (mzPosInp s) azPos) s 0
          (mpInp s) (mzPosInp s) azPos with
  | None => None
  | Some (liDne, apInp, azInp, s) =>
      let s := set_mzPosInp azInp (set_mpInp apInp s) in
      if liDne =? EOF then Some (EndOfFile, s) else Some (Added, s)
  end.

(** [case Reset:] of [get_fromfile]. *)
Definition do_reset (s : t U) (azPos : Z) : option (eBufDne * t U) :=
  let s :=
    if negb (mbSeq s)
    then set_mzPosInp (Z.quot azPos (miBlkSze s) * miBlkSze s) s
    else set_mzPosInp
           (Z.quot (azPos - mlBufSze s + miBlkSze s) (miBlkSze s)
            * miBlkSze s) s in
  let s := set_mpInp 0 s in
  let s := set_mzPosBse (mzPosInp s) s in
  let s := set_miBufUsd 0 s in
  let '(r, fil) := jseek (mpFil s) (mzPosInp s) in
  let s := set_mpFil fil s in
  if negb (r =? EXI_OK) then Some (SeekError, s)
  else
    let s := set_mlFabSek (mlFabSek s + 1) s in
    do_append s azPos.

(** [case Scrollback:] of [get_fromfile]. *)
Definition do_scrollback (s : t U) (azPos : Z) : option (eBufDne * t U) :=
  let lzPos := Z.quot azPos (miBlkSze s) * miBlkSze s in
  let lzLen := mzPosInp s - lzPos in
  let lpInp := mpInp s - lzLen in
  let lpInp := if lzLen >? mpInp s then lpInp + mlBufSze s else lpInp in
  let '(lpInp, s) :=
    if lzLen >? mlBufSze s then
      let lzLen := lzLen - mlBufSze s in
      let s := set_miBufUsd (miBufUsd s - lzLen) s in
      let s := set_mzPosInp (lzPos + mlBufSze s) s in
      let lpInp := if lzLen >? mpInp s then lpInp + mlBufSze s else lpInp in
      (lpInp, set_mpInp lpInp s)
    else (lpInp, s) in
  let '(r, fil) := jseek (mpFil s) lzPos in
  let s := set_mpFil fil s in
  if negb (r =? EXI_OK) then Some (SeekError, s)
  else
    let s := set_mlFabSek (mlFabSek s + 1) s in
    let azEnd := mzPosInp s - miBufUsd s - 1 in
    match readblocks (readblocks_fuel lzPos azEnd) s 0 lpInp lzPos azEnd with
    | None => None
    | Some (liDne, lpInp, lzPos, s) =>
        if liDne =? EOF then
          Some (ReadError,
                set_miBufUsd liDne (set_mzPosInp lzPos (set_mpInp lpInp s)))
        else
          let '(r, fil) := jseek (mpFil s) (mzPosInp s) in
          let s := set_mpFil fil s in
          if negb (r =? EXI_OK) then Some (SeekError, s)
          else Some (Added, set_mlFabSek (mlFabSek s + 1) s)
    end.

(** [JFileAhead::get_fromfile (azPos, aiSft)]. *)
Definition get_fromfile (s : t U) (azPos : Z) (aiSft : eAhead)
  : option (eBufDne * t U) :=
  match get_fromfile_prep s azPos aiSft with
  | inl r => Some (r, s)
  | inr Reset => do_reset s azPos
  | inr Append => do_append s azPos
  | inr Scrollback => do_scrollback s azPos
  end.

(** The end of [getbuf]: the address of [azPos] in the buffer and the
    number of bytes that follow it without a wrap. *)
Definition getbuf_addr (s : t U) (azPos : Z) : Z * Z :=
  let azLen := mzPosInp s - azPos in
  if azLen <=? mpInp s then (mpInp s - azLen, azLen)
  else
    let lpDta := mpInp s + mlBufSze s - azLen in
    (lpDta, mlBufSze s - lpDta).

(** [JFileAhead::getbuf (azPos, azLen, aiSft)]: the result is the pointer
    ([None] is [null]), the value of [azLen] on return and the state. *)
Definition getbuf (s : t U) (azPos : Z) (aiSft : eAhead)
  : option (option Z * Z * t U) :=
  if azPos >=? mzPosEof s then Some (None, EOF, s)
  else if (azPos <? mzPosInp s) && (azPos >=? mzPosInp s - miBufUsd s) then
    let '(lpDta, azLen) := getbuf_addr s azPos in
    Some (Some lpDta, azLen, s)
  else
    match get_fromfile s azPos aiSft with
    | None => None
    | Some (EndOfBuffer, s) => Some (None, EOB, s)
    | Some (EndOfFile, s) => Some (None, EOF, s)
    | Some (SeekError, s) => Some (None, EXI_SEK, s)
    | Some (ReadError, s) => Some (None, EXI_RED, s)
    | Some (Added, s) =>
        let '(lpDta, azLen) := getbuf_addr s azPos in
        Some (Some lpDta, azLen, s)
    end.

(** [JFileAhead::get_frombuffer (azPos, aiSft)]. *)
Definition get_frombuffer (s : t U) (azPos : Z) (aiSft : eAhead)
  : option (Z * t U) :=
  match getbuf s azPos aiSft with
  | None => None
  | Some (None, lzLen, s) =>
      Some (lzLen, set_miRedSze 0 (set_mpRed None (set_mzPosRed (-1) s)))
  | Some (Some lpDta, lzLen, s) =>
      let s := set_mzPosRed (azPos + 1) s in
      let s := set_miRedSze (lzLen - 1) s in
      let s := set_mpRed (Some (if lpDta + 1 =? mlBufSze s
                                then 0 else lpDta + 1)) s in
      Some (peek s lpDta, s)
  end.

(** [JFile::get (azPos, aiSft)] on a [JFileAhead]. *)
Definition get (s : t U) (azPos : Z) (aiSft : eAhead) : option (Z * t U) :=
  if (azPos =? mzPosRed s) && (miRedSze s >? 0) then
    let p := default 0 (mpRed s) in
    Some (peek s p,
          set_mpRed (Some (p + 1))
            (set_miRedSze (miRedSze s - 1)
               (set_mzPosRed (mzPosRed s + 1) s)))
  else get_frombuffer s azPos aiSft.

(** The members after the constructors of [JFile] and [JFileAhead], for a
    buffer of [alBufSze] bytes (a non-zero multiple of the block size
    [aiBlkSze]); [buf] is what [malloc] returned, [azEof] is [MAX_OFF_T]
    (or the size of the file, when [chkSeq] could seek to its end). *)
Definition create (fil : U) (alBufSze aiBlkSze : Z) (abSeq : bool)
  (azEof : Z) (buf : list Byte.byte) : t U :=
  {| mbSeq := abSeq; miRedSze := 0; mpRed := Some 0; mzPosInp := 0;
     mzPosRed := 0; mzPosEof := azEof; mlFabSek := 0;
     mlBufSze := alBufSze; miBlkSze := aiBlkSze; miBufUsd := 0;
     mpBuf := buf; mpInp := 0; mzPosBse := 0; mpFil := fil |}.

End WithSys.

(** A descendant over a file held in memory: the content and the
    position of the file pointer.  Seeking always works. *)
Definition memfile : Type := list Byte.byte * Z.

Definition mem_jseek (f : memfile) (azPos : Z) : Z * memfile :=
  (EXI_OK, (fst f, azPos)).

Definition mem_jread (f : memfile) (aiLen : Z) : list Byte.byte * memfile :=
  let bs := take (Z.to_nat aiLen) (drop (Z.to_nat (snd f)) (fst f)) in
  (bs, (fst f, snd f + Z.of_nat (length bs))).

#[global] Instance mem_sys : sys memfile :=
  {| jseek := mem_jseek; jread := mem_jread |}.

End JFileAhead.

(** ** JMatchTable: the table of matches *)

Module JMatchTable.

Import JDefs.
Export JFile(eAhead(..)).

Definition EQLSZE : Z := 8.
Definition EQLMIN : Z := 4.
Definition EQLMAX : Z := 256.
Definition MAXDST : Z := 2 * 1024 * 1024.
Definition MINDST : Z := 1024.
Definition MAXGLD : Z := 128.
Definition FZY : Z := 0.
Definition CMPINV : Z := -1.
Definition CMPSKP : Z := -2.
Definition CMPEOB : Z := -3.

(** The macros [min], [max] and [abs]. *)
Definition min (a b : Z) : Z := if a <? b then a else b.
Definition max (a b : Z) : Z := if a >? b then a else b.
Definition abs (a : Z) : Z := if a <? 0 then - a else a.

(** [enum eMatchReturn {Error, Full, Enlarged, Invalid, Good, Best, Valid}]. *)
Inductive eMatchReturn : Type :=
  Error | Full | Enlarged | Invalid | Good | Best | Valid.

(** A pointer to a record of the pool [msMch]: its index, [None] is [null]. *)
Definition ptr : Type := option nat.

Definition ptr_eqb (p q : ptr) : bool :=
  match p, q with
  | Some i, Some j => Nat.eqb i j
  | None, None => true
  | _, _ => false
  end.

(** [struct tMch]. *)
Record rMch : Type := mkMch {
  ipNxt : ptr;
  ipCol : ptr;
  ipGld : ptr;
  iiCnt : Z;
  iiGld : Z;
  izBeg : Z;
  izNew : Z;
  izOrg : Z;
  izDlt : Z;
  izTst : Z;
  iiCmp : Z
}.

Definition set_ipNxt (v : ptr) (r : rMch) : rMch :=
  mkMch v (ipCol r) (ipGld r) (iiCnt r) (iiGld r) (izBeg r) (izNew r) (izOrg r) (izDlt r) (izTst r) (iiCmp r).

Definition set_ipCol (v : ptr) (r : rMch) : rMch :=
  mkMch (ipNxt r) v (ipGld r) (iiCnt r) (iiGld r) (izBeg r) (izNew r) (izOrg r) (izDlt r) (izTst r) (iiCmp r).

Definition set_ipGld (v : ptr) (r : rMch) : rMch :=
  mkMch (ipNxt r) (ipCol r) v (iiCnt r) (iiGld r) (izBeg r) (izNew r) (izOrg r) (izDlt r) (izTst r) (iiCmp r).

Definition set_iiCnt (v : Z) (r : rMch) : rMch :=
  mkMch (ipNxt r) (ipCol r) (ipGld r) v (iiGld r) (izBeg r) (izNew r) (izOrg r) (izDlt r) (izTst r) (iiCmp r).

Definition set_iiGld (v : Z) (r : rMch) : rMch :=
  mkMch (ipNxt r) (ipCol r) (ipGld r) (iiCnt r) v (izBeg r) (izNew r) (izOrg r) (izDlt r) (izTst r) (iiCmp r).

Definition set_izBeg (v : Z) (r : rMch) : rMch :=
  mkMch (ipNxt r) (ipCol r) (ipGld r) (iiCnt r) (iiGld r) v (izNew r) (izOrg r) (izDlt r) (izTst r) (iiCmp r).

Definition set_izNew (v : Z) (r : rMch) : rMch :=
  mkMch (ipNxt r) (ipCol r) (ipGld r) (iiCnt r) (iiGld r) (izBeg r) v (izOrg r) (izDlt r) (izTst r) (iiCmp r).

Definition set_izOrg (v : Z) (r : rMch) : rMch :=
  mkMch (ipNxt r) (ipCol r) (ipGld r) (iiCnt r) (iiGld r) (izBeg r) (izNew r) v (izDlt r) (izTst r) (iiCmp r).

Definition set_izDlt (v : Z) (r : rMch) : rMch :=
  mkMch (ipNxt r) (ipCol r) (ipGld r) (iiCnt r) (iiGld r) (izBeg r) (izNew r) (izOrg r) v (izTst r) (iiCmp r).

Definition set_izTst (v : Z) (r : rMch) : rMch :=
  mkMch (ipNxt r) (ipCol r) (ipGld r) (iiCnt r) (iiGld r) (izBeg r) (izNew r) (izOrg r) (izDlt r) v (iiCmp r).

Definition set_iiCmp (v : Z) (r : rMch) : rMch :=
  mkMch (ipNxt r) (ipCol r) (ipGld r) (iiCnt r) (iiGld r) (izBeg r) (izNew r) (izOrg r) (izDlt r) (izTst r) v.

(** The members of [JMatchTable].  [msMch] is the pool of records,
    [mpCol] and [mpGld] are the two arrays of bucket heads.  The hash table
    [mpHsh] belongs to the driver, which changes it between the calls: the
    functions that read it take its current state as an argument. *)
Record t (F : Type) : Type := mk {
  miMchSze : nat;
  miMchFre : nat;
  miMchPme : Z;
  msMch : nat -> rMch;
  mpCol : nat -> ptr;
  mpGld : nat -> ptr;
  mpOld : ptr;
  mpNew : ptr;
  mpLst : ptr;
  mpBst : ptr;
  mzBstOrg : Z;
  mzBstNew : Z;
  miBstCmp : Z;
  mzOld : Z;
  mpFilOrg : F;
  mpFilNew : F;
  mbCmpAll : bool;
  miAhdMax : Z;
  miRlb : Z;
  miHshRpr : Z
}.

Arguments miMchSze {F} _.
Arguments miMchFre {F} _.
Arguments miMchPme {F} _.
Arguments msMch {F} _.
Arguments mpCol {F} _.
Arguments mpGld {F} _.
Arguments mpOld {F} _.
Arguments mpNew {F} _.
Arguments mpLst {F} _.
Arguments mpBst {F} _.
Arguments mzBstOrg {F} _.
Arguments mzBstNew {F} _.
Arguments miBstCmp {F} _.
Arguments mzOld {F} _.
Arguments mpFilOrg {F} _.
Arguments mpFilNew {F} _.
Arguments mbCmpAll {F} _.
Arguments miAhdMax {F} _.
Arguments miRlb {F} _.
Arguments miHshRpr {F} _.
Arguments mk {F}.

Definition set_miMchFre {F : Type} (v : nat) (s : t F) : t F :=
  mk (miMchSze s) v (miMchPme s) (msMch s) (mpCol s) (mpGld s) (mpOld s) (mpNew s) (mpLst s) (mpBst s) (mzBstOrg s) (mzBstNew s) (miBstCmp s) (mzOld s) (mpFilOrg s) (mpFilNew s) (mbCmpAll s) (miAhdMax s) (miRlb s) (miHshRpr s).

Definition set_msMch {F : Type} (v : nat -> rMch) (s : t F) : t F :=
  mk (miMchSze s) (miMchFre s) (miMchPme s) v (mpCol s) (mpGld s) (mpOld s) (mpNew s) (mpLst s) (mpBst s) (mzBstOrg s) (mzBstNew s) (miBstCmp s) (mzOld s) (mpFilOrg s) (mpFilNew s) (mbCmpAll s) (miAhdMax s) (miRlb s) (miHshRpr s).

Definition set_mpCol {F : Type} (v : nat -> ptr) (s : t F) : t F :=
  mk (miMchSze s) (miMchFre s) (miMchPme s) (msMch s) v (mpGld s) (mpOld s) (mpNew s) (mpLst s) (mpBst s) (mzBstOrg s) (mzBstNew s) (miBstCmp s) (mzOld s) (mpFilOrg s) (mpFilNew s) (mbCmpAll s) (miAhdMax s) (miRlb s) (miHshRpr s).

Definition set_mpGld {F : Type} (v : nat -> ptr) (s : t F) : t F :=
  mk (miMchSze s) (miMchFre s) (miMchPme s) (msMch s) (mpCol s) v (mpOld s) (mpNew s) (mpLst s) (mpBst s) (mzBstOrg s) (mzBstNew s) (miBstCmp s) (mzOld s) (mpFilOrg s) (mpFilNew s) (mbCmpAll s) (miAhdMax s) (miRlb s) (miHshRpr s).

Definition set_mpOld {F : Type} (v : ptr) (s : t F) : t F :=
  mk (miMchSze s) (miMchFre s) (miMchPme s) (msMch s) (mpCol s) (mpGld s) v (mpNew s) (mpLst s) (mpBst s) (mzBstOrg s) (mzBstNew s) (miBstCmp s) (mzOld s) (mpFilOrg s) (mpFilNew s) (mbCmpAll s) (miAhdMax s) (miRlb s) (miHshRpr s).

Definition set_mpNew {F : Type} (v : ptr) (s : t F) : t F :=
  mk (miMchSze s) (miMchFre s) (miMchPme s) (msMch s) (mpCol s) (mpGld s) (mpOld s) v (mpLst s) (mpBst s) (mzBstOrg s) (mzBstNew s) (miBstCmp s) (mzOld s) (mpFilOrg s) (mpFilNew s) (mbCmpAll s) (miAhdMax s) (miRlb s) (miHshRpr s).

Definition set_mpLst {F : Type} (v : ptr) (s : t F) : t F :=
  mk (miMchSze s) (miMchFre s) (miMchPme s) (msMch s) (mpCol s) (mpGld s) (mpOld s) (mpNew s) v (mpBst s) (mzBstOrg s) (mzBstNew s) (miBstCmp s) (mzOld s) (mpFilOrg s) (mpFilNew s) (mbCmpAll s) (miAhdMax s) (miRlb s) (miHshRpr s).

Definition set_mpBst {F : Type} (v : ptr) (s : t F) : t F :=
  mk (miMchSze s) (miMchFre s) (miMchPme s) (msMch s) (mpCol s) (mpGld s) (mpOld s) (mpNew s) (mpLst s) v (mzBstOrg s) (mzBstNew s) (miBstCmp s) (mzOld s) (mpFilOrg s) (mpFilNew s) (mbCmpAll s) (miAhdMax s) (miRlb s) (miHshRpr s).

Definition set_mzBstOrg {F : Type} (v : Z) (s : t F) : t F :=
  mk (miMchSze s) (miMchFre s) (miMchPme s) (msMch s) (mpCol s) (mpGld s) (mpOld s) (mpNew s) (mpLst s) (mpBst s) v (mzBstNew s) (miBstCmp s) (mzOld s) (mpFilOrg s) (mpFilNew s) (mbCmpAll s) (miAhdMax s) (miRlb s) (miHshRpr s).

Definition set_mzBstNew {F : Type} (v : Z) (s : t F) : t F :=
  mk (miMchSze s) (miMchFre s) (miMchPme s) (msMch s) (mpCol s) (mpGld s) (mpOld s) (mpNew s) (mpLst s) (mpBst s) (mzBstOrg s) v (miBstCmp s) (mzOld s) (mpFilOrg s) (mpFilNew s) (mbCmpAll s) (miAhdMax s) (miRlb s) (miHshRpr s).

Definition set_miBstCmp {F : Type} (v : Z) (s : t F) : t F :=
  mk (miMchSze s) (miMchFre s) (miMchPme s) (msMch s) (mpCol s) (mpGld s) (mpOld s) (mpNew s) (mpLst s) (mpBst s) (mzBstOrg s) (mzBstNew s) v (mzOld s) (mpFilOrg s) (mpFilNew s) (mbCmpAll s) (miAhdMax s) (miRlb s) (miHshRpr s).

Definition set_mzOld {F : Type} (v : Z) (s : t F) : t F :=
  mk (miMchSze s) (miMchFre s) (miMchPme s) (msMch s) (mpCol s) (mpGld s) (mpOld s) (mpNew s) (mpLst s) (mpBst s) (mzBstOrg s) (mzBstNew s) (miBstCmp s) v (mpFilOrg s) (mpFilNew s) (mbCmpAll s) (miAhdMax s) (miRlb s) (miHshRpr s).

Definition set_mpFilOrg {F : Type} (v : F) (s : t F) : t F :=
  mk (miMchSze s) (miMchFre s) (miMchPme s) (msMch s) (mpCol s) (mpGld s) (mpOld s) (mpNew s) (mpLst s) (mpBst s) (mzBstOrg s) (mzBstNew s) (miBstCmp s) (mzOld s) v (mpFilNew s) (mbCmpAll s) (miAhdMax s) (miRlb s) (miHshRpr s).

Definition set_mpFilNew {F : Type} (v : F) (s : t F) : t F :=
  mk (miMchSze s) (miMchFre s) (miMchPme s) (msMch s) (mpCol s) (mpGld s) (mpOld s) (mpNew s) (mpLst s) (mpBst s) (mzBstOrg s) (mzBstNew s) (miBstCmp s) (mzOld s) (mpFilOrg s) v (mbCmpAll s) (miAhdMax s) (miRlb s) (miHshRpr s).

Definition set_miRlb {F : Type} (v : Z) (s : t F) : t F :=
  mk (miMchSze s) (miMchFre s) (miMchPme s) (msMch s) (mpCol s) (mpGld s) (mpOld s) (mpNew s) (mpLst s) (mpBst s) (mzBstOrg s) (mzBstNew s) (miBstCmp s) (mzOld s) (mpFilOrg s) (mpFilNew s) (mbCmpAll s) (miAhdMax s) v (miHshRpr s).

Definition set_miHshRpr {F : Type} (v : Z) (s : t F) : t F :=
  mk (miMchSze s) (miMchFre s) (miMchPme s) (msMch s) (mpCol s) (mpGld s) (mpOld s) (mpNew s) (mpLst s) (mpBst s) (mzBstOrg s) (mzBstNew s) (miBstCmp s) (mzOld s) (mpFilOrg s) (mpFilNew s) (mbCmpAll s) (miAhdMax s) (miRlb s) v.

(** Sequencing of steps that may have no result: [None] stands for a walk
    over a chain that does not end, or for the use of a [null] pointer. *)
Notation "'do' x <- m ; k" :=
  (match m with Some x => k | None => None end)
  (at level 10, x pattern, m at level 100, k at level 200, only parsing).

(** [a[i] = v] on an array given as a function of the index. *)
Definition upd {A : Type} (a : nat -> A) (i : nat) (v : A) : nat -> A :=
  fun j => if Nat.eqb j i then v else a j.

(** [p->field = ...] on the record [p] of the pool. *)
Definition modify {F : Type} (s : t F) (p : nat) (g : rMch -> rMch) : t F :=
  set_msMch (upd (msMch s) p (g (msMch s p))) s.

(** The index of a bucket: [x % miMchPme].  In the code the remainder is
    defined for [miMchPme <> 0] only, and it is an index of the arrays of
    buckets for [0 <= x] and [0 < miMchPme]; here the function is total
    ([Z.rem] by 0 is the dividend, a negative remainder becomes 0), so the
    model has states and calls that the code has not. *)
Definition bucket {F : Type} (s : t F) (x : Z) : nat :=
  Z.to_nat (Z.rem x (miMchPme s)).

(** Rounds granted to a walk over a chain of records: a chain without a
    cycle has at most [miMchSze] records. *)
Definition walk_fuel {F : Type} (s : t F) : nat := S (miMchSze s).

Section WithFile.

Context {F : Type} `{JFile.ops F}.
Variable sizeof_hkey : Z.
Abbreviation SMPSZE := (SMPSZE sizeof_hkey).

(** The members after the constructor.  The pool comes from [malloc] and
    [miHshRpr] has no initialiser: [pool] and [aiHshRpr] are whatever the
    memory held.  [aiMchPme] is [getLowerPrime (aiMchSze * 2)]. *)
Definition create (aiMchSze : Z) (aiMchPme : Z) (abCmpAll : bool)
  (aiAhdMax : Z) (apFilOrg apFilNew : F) (pool : nat -> rMch)
  (aiHshRpr : Z) : t F :=
  let liSze := Z.to_nat (if aiMchSze <? 13 then 13 else aiMchSze) in
  {| miMchSze := liSze; miMchFre := liSze; miMchPme := aiMchPme;
     msMch := pool; mpCol := fun _ => None; mpGld := fun _ => None;
     mpOld := None; mpNew := None; mpLst := None; mpBst := None;
     mzBstOrg := 0; mzBstNew := 0; miBstCmp := 0; mzOld := 0;
     mpFilOrg := apFilOrg; mpFilNew := apFilNew; mbCmpAll := abCmpAll;
     miAhdMax := aiAhdMax; miRlb := 0; miHshRpr := aiHshRpr |}.

(** The loop of [check]; the result is the final value of
    [(lcOrg, lcNew, liEql, azPosOrg, azPosNew)] and the two files. *)
Fixpoint check_loop (fuel : nat) (aiGld : Z) (aiSft : eAhead) (fo fn : F)
  (lcOrg lcNew liEql azPosOrg azPosNew aiLen : Z)
  : option (Z * Z * Z * Z * Z * F * F) :=
  if liEql <? EQLMAX then
    match fuel with
    | O => None
    | S fuel1 =>
        let '(lcOrg, fo) := JFile.get fo azPosOrg aiSft in
        if lcOrg <? 0 then Some (lcOrg, lcNew, liEql, azPosOrg, azPosNew, fo, fn)
        else
          let '(lcNew, fn) := JFile.get fn azPosNew aiSft in
          if lcNew <? 0
          then Some (lcOrg, lcNew, liEql, azPosOrg, azPosNew, fo, fn)
          else if lcOrg =? lcNew then
            check_loop fuel1 aiGld aiSft fo fn lcOrg lcNew (liEql + 1)
              (azPosOrg + 1) (azPosNew + 1) (aiLen - 1)
          else if liEql >=? EQLSZE
          then Some (lcOrg, lcNew, liEql, azPosOrg, azPosNew, fo, fn)
          else if aiLen <=? 0
          then Some (lcOrg, lcNew, liEql, azPosOrg, azPosNew, fo, fn)
          else
            check_loop fuel1 aiGld aiSft fo fn lcOrg lcNew 0
              (if negb (aiGld =? 0) then azPosOrg - liEql else azPosOrg + 1)
              (azPosNew + 1) (aiLen - 1)
    end
  else Some (lcOrg, lcNew, liEql, azPosOrg, azPosNew, fo, fn).

(** The loop of [check] ends within this number of rounds. *)
Definition check_fuel (aiLen : Z) : nat := Z.to_nat (Z.max aiLen 0 + EQLMAX + 1).

(** The statements of [check] after the loop. *)
Definition check_result (r : Z * Z * Z * Z * Z * F * F)
  : Z * Z * Z * F * F :=
  let '(lcOrg, lcNew, liEql, azPosOrg, azPosNew, fo, fn) := r in
  if liEql >? EQLMIN then (liEql, azPosOrg - liEql, azPosNew - liEql, fo, fn)
  else if (lcOrg =? EOB) || (lcNew =? EOB)
  then (CMPEOB, azPosOrg, azPosNew, fo, fn)
  else (0, azPosOrg, azPosNew, fo, fn).

(** [JMatchTable::check (azPosOrg, azPosNew, aiLen, aiGld, aiSft)] on the
    files [fo] and [fn]: the result is the return value, the values of
    [azPosOrg] and [azPosNew] on return and the two files. *)
Definition check (fo fn : F) (azPosOrg azPosNew aiLen aiGld : Z)
  (aiSft : eAhead) : Z * Z * Z * F * F :=
  match check_loop (check_fuel aiLen) aiGld aiSft fo fn 0 0 0
          azPosOrg azPosNew aiLen with
  | Some r => check_result r
  | None => (0, azPosOrg, azPosNew, fo, fn)
  end.

(** [JMatchTable::calcPosOrg (lpCur, azTstOrg, azTstNew)]: the result is
    the return value and [(azTstOrg, azTstNew)] on return. *)
Definition calcPosOrg (s : t F) (lpCur : nat) (azTstNew : Z) : bool * Z * Z :=
  let r := msMch s lpCur in
  if (iiGld r >? 0) && (azTstNew >=? izBeg r) then (true, izOrg r, azTstNew)
  else if azTstNew + izDlt r >=? 0 then (false, azTstNew + izDlt r, azTstNew)
  else (false, 0, - izDlt r).

(** [JMatchTable::isOld2Skip (lpCur, azRedNew)]. *)
Definition isOld2Skip (s : t F) (lpCur : nat) (azRedNew : Z) : bool :=
  let r := msMch s lpCur in
  if iiCmp r =? CMPSKP then true
  else if (iiCmp r =? CMPINV) || (iiCmp r =? 0)
  then izNew r + MAXDST <=? azRedNew
  else (izNew r + MAXDST <=? azRedNew) && (izTst r + abs (iiCmp r) <? azRedNew).

(** [JMatchTable::isOld2Reuse (lpCur, azRedNew)]. *)
Definition isOld2Reuse (s : t F) (lpCur : nat) (azRedNew : Z) : bool :=
  let r := msMch s lpCur in
  if iiCmp r =? CMPSKP then true
  else if iiCmp r =? CMPINV then true
  else if iiCmp r =? CMPEOB
  then negb (ptr_eqb (Some lpCur) (mpBst s)) && (izNew r <? mzOld s)
  else if iiCmp r =? 0
  then (izNew r <? izTst r) || (izNew r <? mzOld s)
  else negb (ptr_eqb (Some lpCur) (mpBst s)) && (izNew r <? mzOld s)
       && (izTst r + abs (iiCmp r) <? mzOld s).

(** The hash counter of a record, as [isBest] computes it when the
    candidates tie. *)
Definition hash_count (r : rMch) : Z :=
  if iiGld r >? 0 then Z.quot (iiCnt r) 2 else iiCnt r.

(** First part of [isBest]: the potential of a match whose compare ended
    on [EOB].  The result is [(liCurCnt, liCurCmp, lzTstNew, lzTstOrg)] and
    the state.  The division by [miRlb / 8] of an aging match is defined
    in the code for [8 <= miRlb] (or [miRlb <= -8]) only; here it is total
    ([Z.quot] by 0 is 0), so on a table whose [miRlb] is still 0 the model
    goes on where the code stops. *)
Definition isBest_eob (s : t F) (lpCur : nat) (lzTstOrg lzTstNew liCurCmp : Z)
  : Z * Z * Z * Z * t F :=
  let liCurCnt := -1 in
  if liCurCmp <=? CMPEOB then
    let r := msMch s lpCur in
    let liCurCnt :=
      if liCurCnt <? 0
      then (if iiGld r >? 0 then 1 + Z.quot (iiCnt r) 2 else iiCnt r)
      else liCurCnt in
    let '(liCurCmp, lzTstNew, lzTstOrg) :=
      if lzTstNew <=? izBeg r then (liCurCnt, izBeg r, izOrg r)
      else if lzTstNew <=? izNew r + miRlb s then
        let lzDst := 1 + miRlb s - min (miRlb s) (iiCnt r) in
        (liCurCnt, lzTstNew + lzDst, lzTstOrg + lzDst)
      else
        let liCurCmp :=
          liCurCnt - 1
          - Z.quot (lzTstNew - izNew r) (Z.quot (miRlb s) 8) in
        let lzDst := liCurCnt - liCurCmp in
        (liCurCmp, lzTstNew + lzDst, lzTstOrg + lzDst) in
    let liCurCmp :=
      if liCurCmp <? 1 then 1 else 1 + Z.quot (min EQLMAX liCurCmp) 2 in
    let s := if liCurCmp >? 3
             then modify s lpCur (set_iiCmp (- liCurCmp)) else s in
    (liCurCnt, liCurCmp, lzTstNew, lzTstOrg, s)
  else (liCurCnt, liCurCmp, lzTstNew, lzTstOrg, s).

(** Second part of [isBest]: the choice of [mpBst], for [liCurCmp > 0]. *)
Definition isBest_elect (s : t F) (lpCur : nat)
  (liCurCnt liCurCmp lzTstNew : Z) : t F :=
  match mpBst s with
  | None => set_mpBst (Some lpCur) s
  | Some b =>
      if (liCurCmp <? 2) && (miBstCmp s >? 4) then s
      else if (miBstCmp s <? 2) && (liCurCmp >? 4)
      then set_mpBst (Some lpCur) s
      else if lzTstNew + FZY <? mzBstNew s then set_mpBst (Some lpCur) s
      else if lzTstNew <=? mzBstNew s + FZY then
        if lzTstNew - liCurCmp <? mzBstNew s - miBstCmp s
        then set_mpBst (Some lpCur) s
        else if lzTstNew - liCurCmp =? mzBstNew s - miBstCmp s then
          let liCurCnt :=
            if liCurCnt <? 0 then hash_count (msMch s lpCur) else liCurCnt in
          let liBstCnt := hash_count (msMch s b) in
          if liCurCnt >? liBstCnt then set_mpBst (Some lpCur) s else s
        else s
      else s
  end.

(** [JMatchTable::isBest (lpCur, azRedNew, lzTstOrg, lzTstNew, liCurCmp)]. *)
Definition isBest (s : t F) (lpCur : nat)
  (azRedNew lzTstOrg lzTstNew liCurCmp : Z) : bool * t F :=
  let '(liCurCnt, liCurCmp, lzTstNew, lzTstOrg, s) :=
    isBest_eob s lpCur lzTstOrg lzTstNew liCurCmp in
  let s :=
    if liCurCmp >? 0 then
      let s := isBest_elect s lpCur liCurCnt liCurCmp lzTstNew in
      if ptr_eqb (mpBst s) (Some lpCur) then
        let s := set_mzBstNew lzTstNew s in
        let s := set_mzBstOrg lzTstOrg s in
        let s := set_miBstCmp liCurCmp s in
        let r := msMch s lpCur in
        let s := set_mzOld (izTst r + min 0 (iiCmp r) - miRlb s) s in
        if mzOld s <? azRedNew then set_mzOld azRedNew s else s
      else s
    else s in
  (ptr_eqb (mpBst s) (Some lpCur), s).

(** The verdict at the end of [isGoodOrBest] (and of [cleanup], on the
    best match). *)
Definition verdict (liCurCmp lzTstNew azRedNew : Z) : eMatchReturn :=
  if liCurCmp =? 0 then Invalid
  else if negb (lzTstNew =? azRedNew) then Valid
  else if liCurCmp >=? EQLMAX then Best
  else if liCurCmp >=? EQLSZE then Good
  else Valid.

(** [JMatchTable::isGoodOrBest (azRedNew, lpCur)]. *)
Definition isGoodOrBest (s : t F) (azRedNew : Z) (lpCur : nat)
  : eMatchReturn * t F :=
  let lzTstNew := azRedNew in
  let '(lbGld, lzTstOrg, lzTstNew) := calcPosOrg s lpCur lzTstNew in
  let r := msMch s lpCur in
  let '(liCurCmp, lzTstOrg, lzTstNew, s) :=
    if lzTstNew <=? izTst r then
      let liCurCmp := iiCmp r in
      let liCurCmp :=
        if (liCurCmp =? CMPSKP) || (liCurCmp =? CMPINV) then 0
        else liCurCmp in
      if lbGld then (liCurCmp, izOrg r, izTst r, s)
      else (liCurCmp, lzTstOrg + (izTst r - lzTstNew), izTst r, s)
    else if negb lbGld && (iiCmp r >? 0)
            && (izTst r - lzTstNew + iiCmp r >? EQLMIN)
    then (izTst r - lzTstNew + iiCmp r, lzTstOrg, lzTstNew, s)
    else
      let lzDst := izBeg r - lzTstNew in
      let lzDst := if lzDst <? MINDST then MINDST
                   else if lzDst >? MAXDST then MAXDST else lzDst in
      let '(liCurCmp, lzTstOrg, lzTstNew, fo, fn) :=
        check (mpFilOrg s) (mpFilNew s) lzTstOrg lzTstNew lzDst
          (if lbGld then iiGld r else 0)
          (if mbCmpAll s then HardAhead else SoftAhead) in
      let s := set_mpFilNew fn (set_mpFilOrg fo s) in
      let s := modify s lpCur (set_izTst lzTstNew) in
      let s := if (iiCmp r =? CMPINV) && (liCurCmp <=? 0) then s
               else modify s lpCur (set_iiCmp liCurCmp) in
      (liCurCmp, lzTstOrg, lzTstNew, s) in
  let r := msMch s lpCur in
  let liCurCmp :=
    if (iiCmp r >=? EQLMAX) && (izNew r >? lzTstNew + liCurCmp)
    then liCurCmp + (izNew r - lzTstNew) else liCurCmp in
  let '(_, s) := isBest s lpCur azRedNew lzTstOrg lzTstNew liCurCmp in
  (verdict liCurCmp lzTstNew azRedNew, s).

(** [JMatchTable::addNew (lpCur)]. *)
Definition addNew (s : t F) (lpCur : nat) : option (t F) :=
  match mpNew s with
  | None => Some (set_mpLst (Some lpCur) (set_mpNew (Some lpCur) s))
  | Some _ =>
      do l <- mpLst s;
      Some (set_mpLst (Some lpCur) (modify s l (set_ipNxt (Some lpCur))))
  end.

(** The [while] loop of [delGld]. *)
Fixpoint delGld_walk (fuel : nat) (s : t F) (lpGld : ptr) (apGld : nat)
  : option (t F) :=
  match lpGld with
  | None => Some s
  | Some g =>
      match fuel with
      | O => None
      | S fuel1 =>
          if ptr_eqb (ipGld (msMch s g)) (Some apGld)
          then Some (modify s g (set_ipGld (ipGld (msMch s apGld))))
          else delGld_walk fuel1 s (ipGld (msMch s g)) apGld
      end
  end.

(** [JMatchTable::delGld (apGld)]. *)
Definition delGld (s : t F) (apGld : nat) : option (t F) :=
  let liIdx := bucket s (izOrg (msMch s apGld)) in
  let lpGld := mpGld s liIdx in
  if ptr_eqb lpGld (Some apGld)
  then Some (set_mpGld (upd (mpGld s) liIdx (ipGld (msMch s apGld))) s)
  else delGld_walk (walk_fuel s) s lpGld apGld.

(** The [while] loop of [delCol]. *)
Fixpoint delCol_walk (fuel : nat) (s : t F) (lpCol : ptr) (apCol : nat)
  : option (t F) :=
  match lpCol with
  | None => Some s
  | Some c =>
      match fuel with
      | O => None
      | S fuel1 =>
          if ptr_eqb (ipCol (msMch s c)) (Some apCol)
          then Some (modify s c (set_ipCol (ipCol (msMch s apCol))))
          else delCol_walk fuel1 s (ipCol (msMch s c)) apCol
      end
  end.

(** [JMatchTable::delCol (apCol)]. *)
Definition delCol (s : t F) (apCol : nat) : option (t F) :=
  let liIdx := bucket s (abs (izDlt (msMch s apCol))) in
  let lpCol := mpCol s liIdx in
  if ptr_eqb lpCol (Some apCol)
  then Some (set_mpCol (upd (mpCol s) liIdx (ipCol (msMch s apCol))) s)
  else delCol_walk (walk_fuel s) s lpCol apCol.

(** First loop of [nextold]: records that are not old leave the old list
    for the new one. *)
Fixpoint nextold_skip (fuel : nat) (s : t F) (azRedNew : Z) : option (t F) :=
  match mpOld s with
  | None => Some s
  | Some o =>
      if isOld2Reuse s o azRedNew then Some s
      else
        match fuel with
        | O => None
        | S fuel1 =>
            let s := set_mpOld (ipNxt (msMch s o)) s in
            do s <- addNew s o;
            nextold_skip fuel1 s azRedNew
        end
  end.

(** Second loop of [nextold], over the invalid records at the head of the
    new list; [lpCur] is the loop variable. *)
Fixpoint nextold_inv (fuel : nat) (s : t F) (lpCur : ptr) : option (t F) :=
  match lpCur with
  | None => Some s
  | Some c =>
      if iiCmp (msMch s c) =? CMPINV then
        match fuel with
        | O => None
        | S fuel1 =>
            let s := set_mpNew (ipNxt (msMch s c)) s in
            if (iiCnt (msMch s c) >? 1)
               && (izNew (msMch s c) >? izTst (msMch s c))
            then
              let s := modify s c (set_iiCmp 0) in
              do s <- addNew s c;
              nextold_inv fuel1 s (ipNxt (msMch s c))
            else
              let s := modify s c (set_ipNxt (mpOld s)) in
              Some (set_mpOld (Some c) s)
        end
      else Some s
  end.

(** [JMatchTable::nextold (azRedNew)]. *)
Definition nextold (s : t F) (azRedNew : Z) : option (bool * t F) :=
  do s <- nextold_skip (walk_fuel s) s azRedNew;
  do s <-
    match mpOld s, mpNew s with
    | None, Some n =>
        do l <- mpLst s;
        let s := modify s l (set_ipNxt None) in
        nextold_inv (walk_fuel s) s (mpNew s)
    | _, _ => Some s
    end;
  Some (negb (ptr_eqb (mpOld s) None), s).

(** The two statements that join the new list to the old one, in
    [cleanup] and in [getbest]. *)
Definition join (s : t F) : option (t F) :=
  match mpNew s with
  | None => Some s
  | Some n =>
      do l <- mpLst s;
      let s := modify s l (set_ipNxt (mpOld s)) in
      Some (set_mpLst None (set_mpNew None (set_mpOld (Some n) s)))
  end.

(** The search of [add] in a colliding bucket: the record found, if any. *)
Fixpoint find_col (fuel : nat) (s : t F) (lpCur : ptr) (lzDlt : Z)
  : option ptr :=
  match lpCur with
  | None => Some None
  | Some c =>
      match fuel with
      | O => None
      | S fuel1 =>
          if izDlt (msMch s c) =? lzDlt then Some (Some c)
          else find_col fuel1 s (ipCol (msMch s c)) lzDlt
      end
  end.

(** The search of [add] in a gliding bucket. *)
Fixpoint find_gld (fuel : nat) (s : t F) (lpCur : ptr) (azFndOrgAdd : Z)
  : option ptr :=
  match lpCur with
  | None => Some None
  | Some c =>
      match fuel with
      | O => None
      | S fuel1 =>
          if izOrg (msMch s c) =? azFndOrgAdd then Some (Some c)
          else find_gld fuel1 s (ipGld (msMch s c)) azFndOrgAdd
      end
  end.

(** [add], first part: join a colliding or a gliding match.  The result
    is [lpCur] and the state. *)
Definition add_join (s : t F) (azFndOrgAdd azFndNewAdd : Z)
  : option (ptr * t F) :=
  let lzDlt := azFndOrgAdd - azFndNewAdd in
  let liIdxDlt := bucket s (abs lzDlt) in
  do lpCur <- find_col (walk_fuel s) s (mpCol s liIdxDlt) lzDlt;
  match lpCur with
  | Some c =>
      do s <- (if iiCnt (msMch s c) =? 1 then delGld s c else Some s);
      let s := modify s c (fun r => set_iiCnt (iiCnt r + 1) r) in
      let s := modify s c (set_izNew azFndNewAdd) in
      Some (Some c, s)
  | None =>
      let liIdxGld := bucket s azFndOrgAdd in
      do lpCur <- find_gld (walk_fuel s) s (mpGld s liIdxGld) azFndOrgAdd;
      match lpCur with
      | Some c =>
          do s <- (if iiCnt (msMch s c) =? 1 then delCol s c else Some s);
          let s := modify s c (fun r => set_iiCnt (iiCnt r + 1) r) in
          let s := modify s c (set_izNew azFndNewAdd) in
          let s :=
            if iiGld (msMch s c) =? 0 then
              if azFndNewAdd <=? izBeg (msMch s c) + SMPSZE
              then modify s c (set_iiGld (azFndNewAdd - izBeg (msMch s c)))
              else modify s c (set_iiGld SMPSZE)
            else s in
          Some (Some c, s)
      | None => Some (None, s)
      end
  end.

(** [add], third part, the end: fill out the form of the record [c] and
    put it at the head of its two buckets. *)
Definition add_fill (s : t F) (c : nat) (azFndOrgAdd azFndNewAdd : Z) : t F :=
  let lzDlt := azFndOrgAdd - azFndNewAdd in
  let liIdxDlt := bucket s (abs lzDlt) in
  let liIdxGld := bucket s azFndOrgAdd in
  let s := modify s c (set_izOrg azFndOrgAdd) in
  let s := modify s c (set_izNew azFndNewAdd) in
  let s := modify s c (set_izBeg azFndNewAdd) in
  let s := modify s c (set_izDlt lzDlt) in
  let s := modify s c (set_iiCnt 1) in
  let s := modify s c (set_iiGld 0) in
  let s := modify s c (set_iiCmp 0) in
  let s := modify s c (set_izTst (-1)) in
  let s := modify s c (set_ipCol (mpCol s liIdxDlt)) in
  let s := set_mpCol (upd (mpCol s) liIdxDlt (Some c)) s in
  let s := modify s c (set_ipGld (mpGld s liIdxGld)) in
  set_mpGld (upd (mpGld s) liIdxGld (Some c)) s.

(** [add], third part: a record for a new match, from the free records
    or from the head of the old list.  [None] in the result: the table is
    unexpectedly full ([return Error]). *)
Definition add_alloc (s : t F) (azFndOrgAdd azFndNewAdd azRedNew : Z)
  : option (option (nat * t F)) :=
  do got <-
    (if (0 <? miMchFre s)%nat then
       let s := set_miMchFre (pred (miMchFre s)) s in
       Some (Some (miMchFre s, s))
     else
       match mpOld s with
       | Some c =>
           let s := set_mpOld (ipNxt (msMch s c)) s in
           do (_, s) <- nextold s azRedNew;
           do s <- (if (iiCnt (msMch s c) =? 1) || (iiGld (msMch s c) =? 0)
                    then delCol s c else Some s);
           do s <- (if (iiCnt (msMch s c) =? 1)
                       || negb (iiGld (msMch s c) =? 0)
                    then delGld s c else Some s);
           Some (Some (c, s))
       | None => Some None
       end);
  match got with
  | None => Some None
  | Some (c, s) => Some (Some (c, add_fill s c azFndOrgAdd azFndNewAdd))
  end.

(** [add], fourth part: evaluate a new or a skipped record and put a new
    one on the new list. *)
Definition add_eval (s : t F) (c : nat) (azRedNew : Z)
  : option (eMatchReturn * t F) :=
  if (iiCnt (msMch s c) =? 1) || (iiCmp (msMch s c) =? CMPSKP) then
    let s := if iiCmp (msMch s c) =? CMPSKP
             then modify s c (set_iiCmp 0) else s in
    let '(liRet, s) := isGoodOrBest s azRedNew c in
    let put_new (s : t F) : option (t F) :=
      if iiCnt (msMch s c) =? 1 then addNew s c else Some s in
    match liRet with
    | Invalid =>
        if izTst (msMch s c) >=? izNew (msMch s c) then
          let s := set_miHshRpr (miHshRpr s + 1) s in
          let s := modify s c (set_iiCmp CMPINV) in
          if iiCnt (msMch s c) =? 1 then
            let s := match mpNew s with
                     | None => set_mpLst (Some c) s
                     | Some _ => s
                     end in
            let s := modify s c (set_ipNxt (mpNew s)) in
            Some (liRet, set_mpNew (Some c) s)
          else Some (liRet, s)
        else do s <- put_new s; Some (liRet, s)
    | Valid | Good | Best => do s <- put_new s; Some (liRet, s)
    | Enlarged | Error | Full => Some (liRet, s)
    end
  else Some (Enlarged, s).

(** [JMatchTable::add (azFndOrgAdd, azFndNewAdd, azRedNew)]. *)
Definition add (s : t F) (azFndOrgAdd azFndNewAdd azRedNew : Z)
  : option (eMatchReturn * t F) :=
  do (lpCur, s) <- add_join s azFndOrgAdd azFndNewAdd;
  do s <-
    match lpCur with
    | Some c =>
        if ptr_eqb (mpOld s) (Some c) then
          let s := set_mpOld (ipNxt (msMch s c)) s in
          do (_, s) <- nextold s azRedNew;
          addNew s c
        else Some s
    | None => Some s
    end;
  do got <-
    match lpCur with
    | Some c => Some (Some (c, s))
    | None => add_alloc s azFndOrgAdd azFndNewAdd azRedNew
    end;
  match got with
  | None => Some (Error, s)
  | Some (c, s) =>
      do (liRet, s) <- add_eval s c azRedNew;
      if (miMchFre s =? 0)%nat && ptr_eqb (mpOld s) None
      then Some (Full, s) else Some (liRet, s)
  end.

(** The loop of [cleanup] over the old list. *)
Fixpoint cleanup_walk (fuel : nat) (s : t F) (lpCur : ptr) (azRedNew : Z)
  : option (t F) :=
  match lpCur with
  | None => Some s
  | Some c =>
      match fuel with
      | O => None
      | S fuel1 =>
          let s := if isOld2Skip s c azRedNew
                   then modify s c (set_iiCmp CMPSKP)
                   else snd (isGoodOrBest s azRedNew c) in
          cleanup_walk fuel1 s (ipNxt (msMch s c)) azRedNew
      end
  end.

(** [JMatchTable::cleanup (azBseOrg, azRedNew)]; [hsh] is the hash table
    [mpHsh] points to, as it is at the time of the call. *)
Definition cleanup (hsh : JHashPos.t) (s : t F) (azBseOrg azRedNew : Z)
  : option (eMatchReturn * t F) :=
  let s := set_miRlb (JHashPos.get_reliability hsh) s in
  do s <- join s;
  let s := set_mpBst None s in
  let s := set_mzOld azRedNew s in
  do s <- cleanup_walk (walk_fuel s) s (mpOld s) azRedNew;
  do (_, s) <- nextold s azRedNew;
  Some
    (if ptr_eqb (mpOld s) None && (miMchFre s =? 0)%nat then Full
     else if ptr_eqb (mpBst s) None then Invalid
     else if negb (mzBstNew s =? azRedNew) then Valid
     else if miBstCmp s >=? EQLMAX then Best
     else if miBstCmp s >=? EQLSZE then Good
     else Valid, s).

(** The loop of [getbest] over the old list; the result is [lbBstEob] and
    the state. *)
Fixpoint getbest_walk (fuel : nat) (s : t F) (lpCur : ptr) (azRedNew : Z)
  (lbBstEob : bool) : option (bool * t F) :=
  match lpCur with
  | None => Some (lbBstEob, s)
  | Some c =>
      match fuel with
      | O => None
      | S fuel1 =>
          let r := msMch s c in
          let '(lbBstEob, s) :=
            if negb (ptr_eqb (Some c) (mpBst s)) && (iiCmp r <=? CMPEOB)
               && (izNew r >? izTst r)
            then
              let '(b, s) := isBest s c azRedNew 0 (izTst r) (iiCmp r) in
              (if b then true else lbBstEob, s)
            else (lbBstEob, s) in
          getbest_walk fuel1 s (ipNxt (msMch s c)) azRedNew lbBstEob
      end
  end.

(** [JMatchTable::getbest (azRedOrg, azRedNew, azBstOrg, azBstNew)]: the
    result is the return value, [(azBstOrg, azBstNew)] on return and the
    state. *)
Definition getbest (s : t F) (azRedOrg azRedNew azBstOrg azBstNew : Z)
  : option (bool * Z * Z * t F) :=
  do s <-
    (if negb (mbCmpAll s) then
       do s <- join s;
       do (lbBstEob, s) <-
         getbest_walk (walk_fuel s) s (mpOld s) azRedNew false;
       if lbBstEob && (mzBstOrg s =? 0) then
         do b <- mpBst s;
         let '(_, lzOrg, lzNew) := calcPosOrg s b (mzBstNew s) in
         Some (set_mzBstNew lzNew (set_mzBstOrg lzOrg s))
       else Some s
     else Some s);
  match mpBst s with
  | Some _ => Some (true, mzBstOrg s, mzBstNew s, s)
  | None => Some (false, azBstOrg, azBstNew, s)
  end.

(** The records on the old list, counted as the sanity check of
    [cleanup] counts them:
    [for (lpCur = mpOld; lpCur != null; lpCur = lpCur->ipNxt) liOld++]. *)
Fixpoint count_to_null (fuel : nat) (s : t F) (lpCur : ptr) : option nat :=
  match lpCur with
  | None => Some O
  | Some c =>
      match fuel with
      | O => None
      | S fuel1 => do n <- count_to_null fuel1 s (ipNxt (msMch s c)); Some (S n)
      end
  end.

(** The records on the new list: from [mpNew] up to and including
    [mpLst] (the link of the last record is left dangling by [addNew]). *)
Fixpoint count_to_last (fuel : nat) (s : t F) (c : nat) (lst : nat)
  : option nat :=
  if Nat.eqb c lst then Some 1%nat
  else
    match fuel with
    | O => None
    | S fuel1 =>
        do n1 <- ipNxt (msMch s c);
        do n <- count_to_last fuel1 s n1 lst; Some (S n)
    end.

Definition count_old (s : t F) : option nat :=
  count_to_null (walk_fuel s) s (mpOld s).

Definition count_new (s : t F) : option nat :=
  match mpNew s with
  | None => Some O
  | Some n => do l <- mpLst s; count_to_last (walk_fuel s) s n l
  end.

End WithFile.

End JMatchTable.

(** ** JDefs.cpp: prime numbers *)

Module JDefsCpp.

(** The loop of [isPrime]:
    [for (int i = 3; number / i >= i; i += 2) if (number % i == 0) return false;]
    ([None]: the loop has not ended within [fuel] rounds). *)
Fixpoint isPrime_loop (fuel : nat) (number i : Z) : option bool :=
  if Z.quot number i >=? i then
    match fuel with
    | O => None
    | S fuel1 =>
        if Z.rem number i =? 0 then Some false
        else isPrime_loop fuel1 number (i + 2)
    end
  else Some true.

(** [bool isPrime (int number)]. *)
Definition isPrime (number : Z) : option bool :=
  if number <? 2 then Some false
  else if number =? 2 then Some true
  else if Z.rem number 2 =? 0 then Some false
  else isPrime_loop (Z.to_nat (Z.sqrt number)) number 3.

(** The [default] of [getLowerPrime]:
    [for (; aiNum > 0; aiNum --) if (isPrime (aiNum)) return aiNum; return aiNum;] *)
Fixpoint getLowerPrime_loop (fuel : nat) (aiNum : Z) : option Z :=
  if aiNum >? 0 then
    match fuel with
    | O => None
    | S fuel1 =>
        match isPrime aiNum with
        | None => None
        | Some true => Some aiNum
        | Some false => getLowerPrime_loop fuel1 (aiNum - 1)
        end
    end
  else Some aiNum.

(** [int getLowerPrime (int aiNum)]. *)
Definition getLowerPrime (aiNum : Z) : option Z :=
  if aiNum =? 1024 then Some 1021
  else if aiNum =? 32 * 1024 * 1024 then Some 33554393
  else if aiNum =? 16 * 1024 * 1024 then Some 16777213
  else if aiNum =? 8 * 1024 * 1024 then Some 8388593
  else if aiNum =? 128 * 1024 * 1024 then Some 134217689
  else if aiNum =? 512 * 1024 * 1024 then Some 536870909
  else getLowerPrime_loop (Z.to_nat aiNum) aiNum.

End JDefsCpp.

(** ** The sizes the constructors compute *)

Module Construct.

Import JDefsCpp.

(** [JHashPos::JHashPos (aiSze)] for a table of [aiSze] megabytes: the
    number of slots is the prime that [getLowerPrime] finds for the number
    of elements of [sizeof (hkey) + sizeof (off_t)] bytes that fit.  The
    products are computed in [int]: they are exact for [aiSze < 2048]. *)
Definition new_JHashPos (sizeof_hkey sizeof_off_t : Z) (aiSze : Z)
  (azPos akHsh : list Z) : option JHashPos.t :=
  let liSzeIdx := if aiSze <? 1 then 1 else aiSze in
  let liSzeIdx :=
    Z.quot (liSzeIdx * 1024 * 1024) (sizeof_hkey + sizeof_off_t) in
  match getLowerPrime liSzeIdx with
  | Some liSzeIdx =>
      Some (JHashPos.create sizeof_hkey liSzeIdx
              (liSzeIdx * (sizeof_off_t + sizeof_hkey)) azPos akHsh)
  | None => None
  end.

(** What a constructor that allocates memory ends with: the object, or
    the exception [bad_alloc] that it throws when the heap has no memory
    for it ([JDIFF_THROW_BAD_ALLOC] is defined, but for MinGW32). *)
Inductive made (A : Type) : Type :=
| Made (a : A)
| bad_alloc.

Arguments Made {A} a.
Arguments bad_alloc {A}.

(** [JMatchTable::JMatchTable (apHsh, apFilOrg, apFilNew, aiMchSze,
    abCmpAll, aiAhdMax)].  [okMch], [okCol] and [okGld] tell whether the
    heap has the memory that [malloc] is asked for the pool and [calloc]
    for each of the two bucket arrays.  The number of buckets is
    [getLowerPrime (aiMchSze * 2)]; the product is computed in [int], of
    [int_bits] bits: where it does not fit the behaviour of the code is
    not defined, and the result is [None].  A negative number of buckets
    is a huge [size_t] for [calloc], which grants no such array. *)
Definition new_JMatchTable {F : Type} (int_bits : Z)
  (okMch okCol okGld : bool) (aiMchSze : Z) (abCmpAll : bool)
  (aiAhdMax : Z) (apFilOrg apFilNew : F) (pool : nat -> JMatchTable.rMch)
  (aiHshRpr : Z) : option (made (JMatchTable.t F)) :=
  if negb okMch then Some bad_alloc
  else if (aiMchSze * 2 <? - (2 ^ (int_bits - 1)))
          || (2 ^ (int_bits - 1) <=? aiMchSze * 2)
  then None
  else
    match getLowerPrime (aiMchSze * 2) with
    | Some liMchPme =>
        let mpCol := okCol && (0 <=? liMchPme) in
        let mpGld := okGld && (0 <=? liMchPme) in
        if negb mpCol || negb mpGld then Some bad_alloc
        else
          Some (Made (JMatchTable.create aiMchSze liMchPme abCmpAll aiAhdMax
                        apFilOrg apFilNew pool aiHshRpr))
    | None => None
    end.

(** The sizes of the buffer and of a block that the constructor of
    [JFileAhead] settles on. *)
Definition buffer_sizes (alBufSze aiBlkSze : Z) : Z * Z :=
  let mlBufSze := if alBufSze =? 0 then 1024 else alBufSze in
  let miBlkSze := aiBlkSze in
  let miBlkSze := if miBlkSze =? 0 then 1 else miBlkSze in
  let mlBufSze :=
    if negb (Z.rem mlBufSze miBlkSze =? 0)
    then mlBufSze - Z.rem mlBufSze miBlkSze else mlBufSze in
  let mlBufSze := if mlBufSze =? 0 then miBlkSze else mlBufSze in
  (mlBufSze, miBlkSze).

(** [JFileAhead::JFileAhead (asJid, alBufSze, aiBlkSze, abSeq)]. *)
Definition new_JFileAhead {U : Type} (fil : U) (alBufSze aiBlkSze : Z)
  (abSeq : bool) (azEof : Z) (buf : list Byte.byte) : JFileAhead.t U :=
  let '(mlBufSze, miBlkSze) := buffer_sizes alBufSze aiBlkSze in
  JFileAhead.create fil mlBufSze miBlkSze abSeq azEof buf.

End Construct.

(** ** A buffered reader on a file in memory *)

Module MemReader.

Import JFileAhead.

(** [JFile::chkSeq ()]; [azEofPos] is the answer of [jeofpos ()]: the
    position of the end of the file, or [EXI_SEK] when the file cannot
    seek. *)
Definition chkSeq {U : Type} (MAX_OFF_T azEofPos : Z) (s : t U) : t U :=
  if negb (mbSeq s) then
    let s := set_mzPosEof azEofPos s in
    if mzPosEof s <? 0
    then set_mzPosEof MAX_OFF_T (set_mbSeq true s)
    else s
  else s.

(** The constructor of a descendant ([JFileAheadStdio],
    [JFileAheadIStream]) on the file [c] in memory: [jeofpos] seeks to the
    end, answers its position and seeks back to the start. *)
Definition new_memfile (MAX_OFF_T : Z) (c : list Byte.byte)
  (alBufSze aiBlkSze : Z) (abSeq : bool) (buf : list Byte.byte)
  : t memfile :=
  chkSeq MAX_OFF_T (Z.of_nat (length c))
    (Construct.new_JFileAhead (c, 0) alBufSze aiBlkSze abSeq MAX_OFF_T buf).

End MemReader.

(** ** JFileOut.cpp: the output file of the patch applier *)

Module JFileOut.

Import JDefs.

(** The stdio file [mpFil]: [fputc] returns the byte it wrote or [EOF],
    [fwrite] the number of bytes it wrote. *)
Class stdio (Out : Type) : Type := {
  fputc : Out -> Z -> Z * Out;
  fwrite : Out -> list Z -> Z * Out
}.

(** What [copyfrom] uses of its input [JFile], all in mode [Read]:
    [getbuf (azPos, azLen)] returns the bytes its pointer gives access to
    ([None] is [null]) and [azLen]; [get (azPos)]; [get ()]. *)
Class input (F : Type) : Type := {
  getbuf : F -> Z -> option (option (list Z) * Z * F);
  get : F -> Z -> option (Z * F);
  get_next : F -> option (Z * F)
}.

Section WithFiles.

Context {F Out : Type} `{input F} `{stdio Out}.

(** [JFileOut::putc (aiDta)]. *)
Definition putc (fo : Out) (aiDta : Z) : Z * Out := fputc fo aiDta.

(** The loop of the buffered copy of [copyfrom]. *)
Fixpoint copy_buffered (fuel : nat) (fi : F) (fo : Out)
  (lpBuf : option (list Z)) (lzLen azPos azLen : Z) : option (Z * F * Out) :=
  if azLen >? 0 then
    match fuel with
    | O => None
    | S fuel1 =>
        match lpBuf with
        | None => Some (EXI_RED, fi, fo)
        | Some bytes =>
            let lzLen := if lzLen >? azLen then azLen else lzLen in
            let '(n, fo) := fwrite fo (take (Z.to_nat lzLen) bytes) in
            if negb (n =? lzLen) then Some (EXI_WRI, fi, fo)
            else
              let azLen := azLen - lzLen in
              let azPos := azPos + lzLen in
              if azLen >? 0 then
                match getbuf fi azPos with
                | None => None
                | Some (lpBuf, lzLen, fi) =>
                    copy_buffered fuel1 fi fo lpBuf lzLen azPos azLen
                end
              else copy_buffered fuel1 fi fo lpBuf lzLen azPos azLen
        end
    end
  else Some (EXI_OK, fi, fo).

(** The loop of the copy character by character. *)
Fixpoint copy_chars (fuel : nat) (fi : F) (fo : Out) (azPos azLen : Z)
  : option (Z * F * Out) :=
  if azLen >? 0 then
    match fuel with
    | O => None
    | S fuel1 =>
        match get fi azPos with
        | None => None
        | Some (lcVal, fi) =>
            if lcVal <=? EOF then Some (EXI_RED, fi, fo)
            else
              let '(r, fo) := putc fo lcVal in
              if r <? 0 then Some (EXI_WRI, fi, fo)
              else
                match get_next fi with
                | None => None
                | Some (_, fi) =>
                    copy_chars fuel1 fi fo (azPos + 1) (azLen - 1)
                end
        end
    end
  else Some (EXI_OK, fi, fo).

(** [JFileOut::copyfrom (apFilInp, azPos, azLen)]: the result is the
    return value and the two files. *)
Definition copyfrom (fo : Out) (fi : F) (azPos azLen : Z)
  : option (Z * F * Out) :=
  match getbuf fi azPos with
  | None => None
  | Some (Some bytes, lzLen, fi) =>
      copy_buffered (Z.to_nat azLen) fi fo (Some bytes) lzLen azPos azLen
  | Some (None, _, fi) => copy_chars (Z.to_nat azLen) fi fo azPos azLen
  end.

End WithFiles.

(** An output file in memory: the bytes written so far.  Writing
    succeeds; [fputc] writes its argument as an unsigned char. *)
#[global] Instance mem_stdio : stdio (list Z) := {|
  fputc o c := (c mod 256, o ++ [c mod 256]);
  fwrite o bs := (Z.of_nat (length bs), o ++ bs)
|}.

(** A [JFile] over data held in memory, without a buffer: [getbuf] is that
    of the base class and returns [null]. *)
#[global] Instance plain_input : input (list Z) := {|
  getbuf f azPos := Some (None, 0, f);
  get f azPos := Some (JFile.mem_get f azPos JFile.Read);
  get_next f := Some (EOF, f)
|}.

(** A [JFileAhead]: [getbuf] returns a pointer into the buffer. *)
#[global] Instance ahead_input {U : Type} `{JFileAhead.sys U}
  : input (JFileAhead.t U) := {|
  getbuf s azPos :=
    match JFileAhead.getbuf s azPos JFile.Read with
    | None => None
    | Some (None, lzLen, s1) => Some (None, lzLen, s1)
    | Some (Some lpDta, lzLen, s1) =>
        Some (Some (map JFileAhead.jchar_val
                      (take (Z.to_nat lzLen)
                         (drop (Z.to_nat lpDta) (JFileAhead.mpBuf s1)))),
              lzLen, s1)
    end;
  get s azPos := JFileAhead.get s azPos JFile.Read;
  get_next s := JFileAhead.get s (JFileAhead.mzPosRed s) JFile.Read
|}.

End JFileOut.

(** ** JPatcht.cpp: the patch applier *)

Module Patch.

Import JDefs.

Section WithFiles.

Context {F Out : Type} `{JFileOut.input F} `{JFileOut.stdio Out}.

Variable off_t_bits : Z.
Variable JDIFF_LARGEFILE : bool.

(** [JPatcht::ufPutDta (lzPosOrg, lzPosOut, liOpr, aiDta, azOff)]. *)
Definition ufPutDta (fo : Out) (aiDta : Z) : Z * Out :=
  let '(_, fo) := JFileOut.putc fo aiDta in (1, fo).

(** The operators that may follow an [ESC]. *)
Definition is_opr (c : Z) : bool :=
  (c =? DEL) || (c =? EQL) || (c =? BKT) || (c =? MOD) || (c =? INS).

(** The read loop of [ufGetDta]; the result is the return value, [lzMod],
    the rest of the patch file and the output file. *)
Fixpoint ufGetDta_loop (fuel : nat) (pch : list Z) (fo : Out)
  (liOpr lzMod : Z) : option (Z * Z * list Z * Out) :=
  match fuel with
  | O => None
  | S fuel1 =>
      let '(liInp, pch) := JPatcht.get pch in
      if liInp =? EOF then Some (EOF, lzMod, pch, fo)
      else if liInp =? ESC then
        let '(liNew, pch) := JPatcht.get pch in
        if is_opr liNew then
          if liNew =? liOpr then
            let '(d, fo) := ufPutDta fo ESC in
            let lzMod := lzMod + d in
            let liInp := liNew in
            let '(d, fo) := ufPutDta fo liInp in
            ufGetDta_loop fuel1 pch fo liOpr (lzMod + d)
          else Some (liNew, lzMod, pch, fo)
        else if liNew =? ESC then
          let '(d, fo) := ufPutDta fo liInp in
          ufGetDta_loop fuel1 pch fo liOpr (lzMod + d)
        else
          let '(d, fo) := ufPutDta fo liInp in
          let lzMod := lzMod + d in
          let '(d, fo) := ufPutDta fo liNew in
          ufGetDta_loop fuel1 pch fo liOpr (lzMod + d)
      else
        let '(d, fo) := ufPutDta fo liInp in
        ufGetDta_loop fuel1 pch fo liOpr (lzMod + d)
  end.

(** [JPatcht::ufGetDta (lzPosOrg, lzPosOut, liOpr, lzMod, liPnd, liDbl)]. *)
Definition ufGetDta (pch : list Z) (fo : Out) (liOpr liPnd liDbl : Z)
  : option (Z * Z * list Z * Out) :=
  let lzMod := 0 in
  let '(lzMod, fo) :=
    if negb (liPnd =? EOF) then
      let '(d, fo) := ufPutDta fo liPnd in
      let lzMod := lzMod + d in
      if (liPnd =? ESC) && negb (liDbl =? ESC) then
        let '(d, fo) := ufPutDta fo liDbl in (lzMod + d, fo)
      else (lzMod, fo)
    else (lzMod, fo) in
  ufGetDta_loop (S (length pch)) pch fo liOpr lzMod.

(** What [jpatch] returns: its return value, the final values of
    [lzPosOrg] and [lzPosOut], and the files. *)
Record result : Type := Result {
  r_code : Z;
  r_PosOrg : Z;
  r_PosOut : Z;
  r_org : F;
  r_out : Out
}.

(** The loop of [jpatch]. *)
Fixpoint jpatch_loop (fuel : nat) (liOpr : Z) (pch : list Z) (fi : F)
  (fo : Out) (lzPosOrg lzPosOut : Z) : option result :=
  if negb (liOpr =? EOF) then
    match fuel with
    | O => None
    | S fuel1 =>
        (* Read operator from input, unless this has already been done *)
        let rd : option Z + (Z * Z * Z * list Z) :=
          if liOpr =? 0 then
            let '(liInp, pch1) := JPatcht.get pch in
            if liInp =? EOF then inl None
            else if liInp =? ESC then
              let '(liDbl, pch2) := JPatcht.get pch1 in
              if is_opr liDbl then inr (liDbl, EOF, EOF, pch2)
              else if liDbl =? EOF then inl (Some EXI_ERR)
              else inr (MOD, liInp, liDbl, pch2)
            else inr (MOD, liInp, EOF, pch1)
          else inr (liOpr, EOF, EOF, pch) in
        match rd with
        | inl None => Some (Result EXI_OK lzPosOrg lzPosOut fi fo)
        | inl (Some liRet) => Some (Result liRet lzPosOrg lzPosOut fi fo)
        | inr (liOpr, liInp, liDbl, pch) =>
            (* Execute the operator *)
            if liOpr =? MOD then
              match ufGetDta pch fo liOpr liInp liDbl with
              | None => None
              | Some (liOpr, lzOff, pch, fo) =>
                  jpatch_loop fuel1 liOpr pch fi fo
                    (lzPosOrg + lzOff) (lzPosOut + lzOff)
              end
            else if liOpr =? INS then
              match ufGetDta pch fo liOpr liInp liDbl with
              | None => None
              | Some (liOpr, lzOff, pch, fo) =>
                  jpatch_loop fuel1 liOpr pch fi fo
                    lzPosOrg (lzPosOut + lzOff)
              end
            else if liOpr =? DEL then
              let '(lzOff, pch) :=
                JPatcht.ufGetInt off_t_bits JDIFF_LARGEFILE pch in
              if lzOff <? 0 then
                Some (Result lzOff lzPosOrg lzPosOut fi fo)
              else
                jpatch_loop fuel1 0 pch fi fo (lzPosOrg + lzOff) lzPosOut
            else if liOpr =? EQL then
              let '(lzOff, pch) :=
                JPatcht.ufGetInt off_t_bits JDIFF_LARGEFILE pch in
              if lzOff <? 0 then
                Some (Result lzOff lzPosOrg lzPosOut fi fo)
              else
                match JFileOut.copyfrom fo fi lzPosOrg lzOff with
                | None => None
                | Some (liRet, fi, fo) =>
                    if negb (liRet =? EXI_OK) then
                      Some (Result liRet lzPosOrg lzPosOut fi fo)
                    else
                      jpatch_loop fuel1 0 pch fi fo
                        (lzPosOrg + lzOff) (lzPosOut + lzOff)
                end
            else if liOpr =? BKT then
              let '(lzOff, pch) :=
                JPatcht.ufGetInt off_t_bits JDIFF_LARGEFILE pch in
              if lzOff <? 0 then
                Some (Result lzOff lzPosOrg lzPosOut fi fo)
              else
                jpatch_loop fuel1 0 pch fi fo (lzPosOrg - lzOff) lzPosOut
            else jpatch_loop fuel1 liOpr pch fi fo lzPosOrg lzPosOut
        end
    end
  else Some (Result EXI_OK lzPosOrg lzPosOut fi fo).

(** [JPatcht::jpatch ()] on the patch file [pch], the source file [fi]
    and the output file [fo]. *)
Definition jpatch (pch : list Z) (fi : F) (fo : Out) : option result :=
  jpatch_loop (2 * length pch + 3) 0 pch fi fo 0 0.

End WithFiles.

End Patch.

(** ** The patch applier up to the end of the patch file *)

Module PatchEof.

Import JDefs.

(** The patch file as [get ()] reads it: the bytes still to read, or
    [None] once [get ()] has answered [EOF].  [get_frombuffer] then leaves
    the reader at position -1, and the next [get ()] does not answer
    [EOF] again: what it answers is not modelled. *)
Definition file : Type := option (list Z).

(** The bytes still to read. *)
Definition bytes (f : file) : list Z :=
  match f with Some l => l | None => [] end.

(** The number of calls of [get ()] a file still answers. *)
Definition size (f : file) : nat :=
  match f with Some l => S (length l) | None => O end.

(** How a piece of [jpatch] ends: with a result, with a call of [get ()]
    on a patch file that has answered [EOF] before, or without the rounds
    its loop needs. *)
Inductive run (A : Type) : Type :=
| Done (a : A)
| PastEnd
| NoFuel.

Arguments Done {A} a.
Arguments PastEnd {A}.
Arguments NoFuel {A}.

Notation "'step' x <- m ; k" :=
  (match m with Done x => k | PastEnd => PastEnd | NoFuel => NoFuel end)
  (at level 10, x pattern, m at level 100, k at level 200, only parsing).

(** [mpFilPch.get ()]. *)
Definition get (f : file) : run (Z * file) :=
  match f with
  | Some (c :: rest) => Done (c, Some rest)
  | Some [] => Done (EOF, None)
  | None => PastEnd
  end.

Section WithFiles.

Context {F Out : Type} `{JFileOut.input F} `{JFileOut.stdio Out}.

Variable off_t_bits : Z.
Variable JDIFF_LARGEFILE : bool.

(** [liVal = (liVal << 8) + apFil.get ()]. *)
Definition shift_in (liVal : Z) (f : file) : run (Z * file) :=
  step (c, f) <- get f;
  Done (JPatcht.off_t_wrap off_t_bits
          (JPatcht.off_t_wrap off_t_bits (Z.shiftl liVal 8) + c), f).

(** [JPatcht::ufGetInt (apFil)]. *)
Definition ufGetInt (f : file) : run (Z * file) :=
  step (liVal, f) <- get f;
  if liVal <? 252 then Done (liVal + 1, f)
  else if liVal =? 252 then
    step (c, f) <- get f; Done (253 + c, f)
  else if liVal =? 253 then
    step (liVal, f) <- get f;
    shift_in liVal f
  else if liVal =? 254 then
    step (liVal, f) <- get f;
    step (liVal, f) <- shift_in liVal f;
    step (liVal, f) <- shift_in liVal f;
    shift_in liVal f
  else if JDIFF_LARGEFILE then
    step (liVal, f) <- get f;
    step (liVal, f) <- shift_in liVal f;
    step (liVal, f) <- shift_in liVal f;
    step (liVal, f) <- shift_in liVal f;
    step (liVal, f) <- shift_in liVal f;
    step (liVal, f) <- shift_in liVal f;
    step (liVal, f) <- shift_in liVal f;
    shift_in liVal f
  else Done (EXI_LRG, f).

(** The read loop of [ufGetDta]; the result is the return value, [lzMod],
    the patch file and the output file. *)
Fixpoint ufGetDta_loop (fuel : nat) (pch : file) (fo : Out)
  (liOpr lzMod : Z) : run (Z * Z * file * Out) :=
  match fuel with
  | O => NoFuel
  | S fuel1 =>
      step (liInp, pch) <- get pch;
      if liInp =? EOF then Done (EOF, lzMod, pch, fo)
      else if liInp =? ESC then
        step (liNew, pch) <- get pch;
        if Patch.is_opr liNew then
          if liNew =? liOpr then
            let '(d, fo) := Patch.ufPutDta fo ESC in
            let lzMod := lzMod + d in
            let liInp := liNew in
            let '(d, fo) := Patch.ufPutDta fo liInp in
            ufGetDta_loop fuel1 pch fo liOpr (lzMod + d)
          else Done (liNew, lzMod, pch, fo)
        else if liNew =? ESC then
          let '(d, fo) := Patch.ufPutDta fo liInp in
          ufGetDta_loop fuel1 pch fo liOpr (lzMod + d)
        else
          let '(d, fo) := Patch.ufPutDta fo liInp in
          let lzMod := lzMod + d in
          let '(d, fo) := Patch.ufPutDta fo liNew in
          ufGetDta_loop fuel1 pch fo liOpr (lzMod + d)
      else
        let '(d, fo) := Patch.ufPutDta fo liInp in
        ufGetDta_loop fuel1 pch fo liOpr (lzMod + d)
  end.

(** [JPatcht::ufGetDta (lzPosOrg, lzPosOut, liOpr, lzMod, liPnd, liDbl)]. *)
Definition ufGetDta (pch : file) (fo : Out) (liOpr liPnd liDbl : Z)
  : run (Z * Z * file * Out) :=
  let lzMod := 0 in
  let '(lzMod, fo) :=
    if negb (liPnd =? EOF) then
      let '(d, fo) := Patch.ufPutDta fo liPnd in
      let lzMod := lzMod + d in
      if (liPnd =? ESC) && negb (liDbl =? ESC) then
        let '(d, fo) := Patch.ufPutDta fo liDbl in (lzMod + d, fo)
      else (lzMod, fo)
    else (lzMod, fo) in
  ufGetDta_loop (S (size pch)) pch fo liOpr lzMod.

(** The loop of [jpatch]. *)
Fixpoint jpatch_loop (fuel : nat) (liOpr : Z) (pch : file) (fi : F)
  (fo : Out) (lzPosOrg lzPosOut : Z) : run Patch.result :=
  if negb (liOpr =? EOF) then
    match fuel with
    | O => NoFuel
    | S fuel1 =>
        (* Read operator from input, unless this has already been done *)
        let rd : run (option Z + (Z * Z * Z * file)) :=
          if liOpr =? 0 then
            step (liInp, pch1) <- get pch;
            if liInp =? EOF then Done (inl None)
            else if liInp =? ESC then
              step (liDbl, pch2) <- get pch1;
              if Patch.is_opr liDbl then Done (inr (liDbl, EOF, EOF, pch2))
              else if liDbl =? EOF then Done (inl (Some EXI_ERR))
              else Done (inr (MOD, liInp, liDbl, pch2))
            else Done (inr (MOD, liInp, EOF, pch1))
          else Done (inr (liOpr, EOF, EOF, pch)) in
        step r <- rd;
        match r with
        | inl None => Done (Patch.Result EXI_OK lzPosOrg lzPosOut fi fo)
        | inl (Some liRet) =>
            Done (Patch.Result liRet lzPosOrg lzPosOut fi fo)
        | inr (liOpr, liInp, liDbl, pch) =>
            (* Execute the operator *)
            if liOpr =? MOD then
              step (liOpr, lzOff, pch, fo) <-
                ufGetDta pch fo liOpr liInp liDbl;
              jpatch_loop fuel1 liOpr pch fi fo
                (lzPosOrg + lzOff) (lzPosOut + lzOff)
            else if liOpr =? INS then
              step (liOpr, lzOff, pch, fo) <-
                ufGetDta pch fo liOpr liInp liDbl;
              jpatch_loop fuel1 liOpr pch fi fo lzPosOrg (lzPosOut + lzOff)
            else if liOpr =? DEL then
              step (lzOff, pch) <- ufGetInt pch;
              if lzOff <? 0 then
                Done (Patch.Result lzOff lzPosOrg lzPosOut fi fo)
              else
                jpatch_loop fuel1 0 pch fi fo (lzPosOrg + lzOff) lzPosOut
            else if liOpr =? EQL then
              step (lzOff, pch) <- ufGetInt pch;
              if lzOff <? 0 then
                Done (Patch.Result lzOff lzPosOrg lzPosOut fi fo)
              else
                match JFileOut.copyfrom fo fi lzPosOrg lzOff with
                | None => NoFuel
                | Some (liRet, fi, fo) =>
                    if negb (liRet =? EXI_OK) then
                      Done (Patch.Result liRet lzPosOrg lzPosOut fi fo)
                    else
                      jpatch_loop fuel1 0 pch fi fo
                        (lzPosOrg + lzOff) (lzPosOut + lzOff)
                end
            else if liOpr =? BKT then
              step (lzOff, pch) <- ufGetInt pch;
              if lzOff <? 0 then
                Done (Patch.Result lzOff lzPosOrg lzPosOut fi fo)
              else
                jpatch_loop fuel1 0 pch fi fo (lzPosOrg - lzOff) lzPosOut
            else jpatch_loop fuel1 liOpr pch fi fo lzPosOrg lzPosOut
        end
    end
  else Done (Patch.Result EXI_OK lzPosOrg lzPosOut fi fo).

(** [JPatcht::jpatch ()] on the patch file [pch], the source file [fi]
    and the output file [fo]. *)
Definition jpatch (pch : list Z) (fi : F) (fo : Out) : run Patch.result :=
  jpatch_loop (2 * length pch + 3) 0 (Some pch) fi fo 0 0.

End WithFiles.

End PatchEof.

(** ** JDiff.cpp: the difference function *)

Module DiffLoop.

Import JDefs.

(** Progress mark: [#define PGSMRK 0x100000]. *)
Definition PGSMRK : Z := 0x100000.

(** The output [JOut]: [put (aiOpr, azLen, aiOrg, aiNew, azPosOrg,
    azPosNew)] returns a flag and changes the output object. *)
Class JOut (Out : Type) : Type := {
  put : Out -> Z -> Z -> Z -> Z -> Z -> Z -> bool * Out
}.

(** The members of [JDiff] that [jdiff] uses: the two files, the index
    [gpHsh], the registers of the source scan, [miSrcScn] and [miHshErr].
    [priv] stands for the members that only [search] uses ([gpMch],
    [mzAhdNew], [mlHshNew], [miRlb], ...). *)
Record members (F M : Type) : Type := Members {
  mpFilOrg : F;
  mpFilNew : F;
  gpHsh : JHashPos.t;
  regs : JDiff.scan;
  miSrcScn : Z;
  miHshErr : Z;
  priv : M
}.

Arguments Members {F M}.
Arguments mpFilOrg {F M}.
Arguments mpFilNew {F M}.
Arguments gpHsh {F M}.
Arguments regs {F M}.
Arguments miSrcScn {F M}.
Arguments miHshErr {F M}.
Arguments priv {F M}.

(** The local variables of [jdiff]. *)
Record locals : Type := Locals {
  lcOrg : Z;
  lcNew : Z;
  lzPosOrg : Z;
  lzPosNew : Z;
  lbEql : bool;
  lzEql : Z;
  liFnd : Z;
  lzAhd : Z;
  lzSkpOrg : Z;
  lzSkpNew : Z;
  lzLapSml : Z
}.

Section WithFiles.

Context {F M Out : Type} `{JFile.ops F} `{JOut Out}.

Variable sizeof_hkey : Z.
Variable MAX_OFF_T : Z.
Variable miVerbse : Z.

(** [JDiff::search (azRedOrg, azRedNew, azSkpOrg, azSkpNew, azAhd)]: the
    result is the return value, the three offsets on return and the
    members. *)
Variable search :
  members F M -> Z -> Z -> Z -> Z -> Z -> Z * (Z * Z * Z) * members F M.

(** [lcOrg = mpFilOrg->get (azPos, JFile::Read)]. *)
Definition get_org (m : members F M) (azPos : Z) : Z * members F M :=
  let '(c, f) := JFile.get (mpFilOrg m) azPos JFile.Read in
  (c, Members f (mpFilNew m) (gpHsh m) (regs m) (miSrcScn m) (miHshErr m)
        (priv m)).

(** [lcNew = mpFilNew->get (azPos, JFile::Read)]. *)
Definition get_new (m : members F M) (azPos : Z) : Z * members F M :=
  let '(c, f) := JFile.get (mpFilNew m) azPos JFile.Read in
  (c, Members (mpFilOrg m) f (gpHsh m) (regs m) (miSrcScn m) (miHshErr m)
        (priv m)).

(** [mlHshOrg = hash (mlHshOrg, miPrvOrg, lcOrg, miEqlOrg) ;
     gpHsh->add (mlHshOrg, mzAhdOrg, miEqlOrg) ; mzAhdOrg ++ ;] *)
Definition index_org (m : members F M) (lcOrg : Z) : members F M :=
  let '(r1, c) := JDiff.scan_add sizeof_hkey (regs m) lcOrg in
  Members (mpFilOrg m) (mpFilNew m)
    (JHashPos.add sizeof_hkey (gpHsh m) (JHashPos.c_hsh c) (JHashPos.c_pos c)
       (JHashPos.c_eql c))
    r1 (miSrcScn m) (miHshErr m) (priv m).

(** Both files advance by one byte:
    [lcOrg = mpFilOrg->get (++ lzPosOrg, JFile::Read) ;
     lcNew = mpFilNew->get (++ lzPosNew, JFile::Read) ;] *)
Definition next_both (l : locals) (m : members F M)
  : locals * members F M :=
  let '(c1, m) := get_org m (lzPosOrg l + 1) in
  let '(c2, m) := get_new m (lzPosNew l + 1) in
  (Locals c1 c2 (lzPosOrg l + 1) (lzPosNew l + 1) (lbEql l) (lzEql l)
     (liFnd l) (lzAhd l) (lzSkpOrg l) (lzSkpNew l) (lzLapSml l), m).

(** [lcNew = mpFilNew->get (++ lzPosNew, JFile::Read) ;] *)
Definition next_new (l : locals) (m : members F M) : locals * members F M :=
  let '(c2, m) := get_new m (lzPosNew l + 1) in
  (Locals (lcOrg l) c2 (lzPosOrg l) (lzPosNew l + 1) (lbEql l) (lzEql l)
     (liFnd l) (lzAhd l) (lzSkpOrg l) (lzSkpNew l) (lzLapSml l), m).

(** [lzAhd -= azCnt]. *)
Definition less_ahead (l : locals) (azCnt : Z) : locals :=
  Locals (lcOrg l) (lcNew l) (lzPosOrg l) (lzPosNew l) (lbEql l) (lzEql l)
    (liFnd l) (lzAhd l - azCnt) (lzSkpOrg l) (lzSkpNew l) (lzLapSml l).

(** [JDiff::flushEql (lzPosOrg, lzPosNew, lzEql, lbEql)]. *)
Definition flushEql (l : locals) (o : Out) : locals * Out :=
  let '(lzEql1, o) :=
    if lzEql l >? 0 then
      let '(_, o) :=
        put o EQL (lzEql l) 0 0 (lzPosOrg l - lzEql l)
          (lzPosNew l - lzEql l) in
      (0, o)
    else (lzEql l, o) in
  (Locals (lcOrg l) (lcNew l) (lzPosOrg l) (lzPosNew l) false lzEql1
     (liFnd l) (lzAhd l) (lzSkpOrg l) (lzSkpNew l) (lzLapSml l), o).

(** The two loops that count equal bytes,
    [while (lcOrg == lcNew && lcNew >= 0 && lzPosNew < lzLapSml)]: with
    [abScn] the loop of case [miSrcScn == 0], which feeds the index,
    without it the other one.  The result is [lzCnt]. *)
Fixpoint count_equal (abScn : bool) (fuel : nat) (lzCnt : Z) (l : locals)
  (m : members F M) : option (Z * locals * members F M) :=
  if (lcOrg l =? lcNew l) && (lcNew l >=? 0) && (lzPosNew l <? lzLapSml l)
  then
    match fuel with
    | O => None
    | S fuel1 =>
        let lzCnt := lzCnt + 1 in
        let m :=
          if abScn && (lzPosOrg l =? JDiff.mzAhdOrg (regs m))
          then index_org m (lcOrg l) else m in
        let '(l, m) := next_both l m in
        count_equal abScn fuel1 lzCnt l m
    end
  else Some (lzCnt, l, m).

(** [while (lcOrg != lcNew && lcOrg >= 0 && lcNew >= 0 && lzAhd > 0)]:
    the bytes that differ. *)
Fixpoint put_mods (fuel : nat) (l : locals) (m : members F M) (o : Out)
  : option (locals * members F M * Out) :=
  if negb (lcOrg l =? lcNew l) && (lcOrg l >=? 0) && (lcNew l >=? 0)
     && (lzAhd l >? 0)
  then
    match fuel with
    | O => None
    | S fuel1 =>
        let '(_, o) :=
          put o MOD 1 (lcOrg l) (lcNew l) (lzPosOrg l) (lzPosNew l) in
        let l := less_ahead l 1 in
        let '(l, m) := next_both l m in
        put_mods fuel1 l m o
    end
  else Some (l, m, o).

(** [while (lzSkpNew > 0 && lcNew > EOF)]: the bytes to insert. *)
Fixpoint put_inss (fuel : nat) (l : locals) (m : members F M) (o : Out)
  : option (locals * members F M * Out) :=
  if (lzSkpNew l >? 0) && (lcNew l >? EOF) then
    match fuel with
    | O => None
    | S fuel1 =>
        let '(_, o) :=
          put o INS 1 0 (lcNew l) (lzPosOrg l) (lzPosNew l) in
        let l :=
          Locals (lcOrg l) (lcNew l) (lzPosOrg l) (lzPosNew l) (lbEql l)
            (lzEql l) (liFnd l) (lzAhd l) (lzSkpOrg l) (lzSkpNew l - 1)
            (lzLapSml l) in
        let '(l, m) := next_new l m in
        put_inss fuel1 l m o
    end
  else Some (l, m, o).

(** [Incremental source scan], the first statement of the loop of
    [jdiff]. *)
Definition source_scan (l : locals) (m : members F M) : members F M :=
  let '(r1, cs) :=
    JDiff.jdiff_scan sizeof_hkey (miSrcScn m) (lzPosOrg l) (lcOrg l)
      (regs m) in
  Members (mpFilOrg m) (mpFilNew m)
    (JHashPos.adds sizeof_hkey (gpHsh m) cs) r1 (miSrcScn m) (miHshErr m)
    (priv m).

(** The body of the loop of [jdiff] up to [show progress]: [inl] is a
    [return]. *)
Definition jdiff_turn (fuel : nat) (l : locals) (m : members F M) (o : Out)
  : option ((Z + locals) * members F M * Out) :=
  (* Incremental source scan *)
  let m := source_scan l m in
  (* Compare and process... *)
  if lcOrg l =? lcNew l then
    if negb (lbEql l) then
      let '(b, o) :=
        put o EQL 1 (lcOrg l) (lcNew l) (lzPosOrg l) (lzPosNew l) in
      let l :=
        Locals (lcOrg l) (lcNew l) (lzPosOrg l) (lzPosNew l) b (lzEql l)
          (liFnd l) (lzAhd l - 1) (lzSkpOrg l) (lzSkpNew l) (lzLapSml l) in
      let '(l, m) := next_both l m in
      Some (inr l, m, o)
    else
      match count_equal (miSrcScn m =? 0) fuel 0 l m with
      | None => None
      | Some (lzCnt, l, m) =>
          Some (inr (Locals (lcOrg l) (lcNew l) (lzPosOrg l) (lzPosNew l)
                       (lbEql l) (lzEql l + lzCnt) (liFnd l)
                       (lzAhd l - lzCnt) (lzSkpOrg l) (lzSkpNew l)
                       (lzLapSml l)), m, o)
      end
  else if lzAhd l >? 0 then
    (* Output accumulated equals *)
    let '(l, o) := flushEql l o in
    (* Output difference *)
    if lcOrg l <? 0 then
      let '(_, o) :=
        put o INS 1 (lcOrg l) (lcNew l) (lzPosOrg l) (lzPosNew l) in
      let l := less_ahead l 1 in
      let '(l, m) := next_new l m in
      Some (inr l, m, o)
    else
      match put_mods fuel l m o with
      | None => None
      | Some (l, m, o) => Some (inr l, m, o)
      end
  else if (liFnd l =? 1) && (lzAhd l =? 0) then
    Some (inr (Locals (lcOrg l) (lcNew l) (lzPosOrg l) (lzPosNew l)
                 (lbEql l) (lzEql l) 0
                 (Z.quot (JHashPos.get_reliability (gpHsh m)) 2)
                 (lzSkpOrg l) (lzSkpNew l) (lzLapSml l)),
          Members (mpFilOrg m) (mpFilNew m) (gpHsh m) (regs m) (miSrcScn m)
            (miHshErr m + 1) (priv m), o)
  else
    (* Output accumulated equals *)
    let '(l, o) := flushEql l o in
    (* Find a new equals-reqion *)
    let '(liFnd1, (lzSkpOrg1, lzSkpNew1, lzAhd1), m) :=
      search m (lzPosOrg l) (lzPosNew l) (lzSkpOrg l) (lzSkpNew l)
        (lzAhd l) in
    let l :=
      Locals (lcOrg l) (lcNew l) (lzPosOrg l) (lzPosNew l) (lbEql l)
        (lzEql l) liFnd1 lzAhd1 lzSkpOrg1 lzSkpNew1 (lzLapSml l) in
    if liFnd1 <? 0 then Some (inl liFnd1, m, o)
    else
      (* Execute offsets *)
      let '(l, m, o) :=
        if lzSkpOrg l >? 0 then
          let '(_, o) :=
            put o DEL (lzSkpOrg l) 0 0 (lzPosOrg l) (lzPosNew l) in
          let '(c, m) := get_org m (lzPosOrg l + lzSkpOrg l) in
          (Locals c (lcNew l) (lzPosOrg l + lzSkpOrg l) (lzPosNew l)
             (lbEql l) (lzEql l) (liFnd l) (lzAhd l) (lzSkpOrg l)
             (lzSkpNew l) (lzLapSml l), m, o)
        else if lzSkpOrg l <? 0 then
          let '(_, o) :=
            put o BKT (- lzSkpOrg l) 0 0 (lzPosOrg l) (lzPosNew l) in
          let '(c, m) := get_org m (lzPosOrg l + lzSkpOrg l) in
          (Locals c (lcNew l) (lzPosOrg l + lzSkpOrg l) (lzPosNew l)
             (lbEql l) (lzEql l) (liFnd l) (lzAhd l) (lzSkpOrg l)
             (lzSkpNew l) (lzLapSml l), m, o)
        else (l, m, o) in
      if lzSkpNew l >? 0 then
        match put_inss fuel l m o with
        | None => None
        | Some (l, m, o) => Some (inr l, m, o)
        end
      else Some (inr l, m, o).

(** [show progress], the end of the body: the next lap. *)
Definition next_lap (l : locals) : locals :=
  if (miVerbse >? 1) && (lzLapSml l <=? lzPosNew l) then
    Locals (lcOrg l) (lcNew l) (lzPosOrg l) (lzPosNew l) (lbEql l)
      (lzEql l) (liFnd l) (lzAhd l) (lzSkpOrg l) (lzSkpNew l)
      (lzPosNew l + PGSMRK)
  else l.

(** [while (lcNew >= 0) { ... }] *)
Fixpoint jdiff_loop (fuel : nat) (l : locals) (m : members F M) (o : Out)
  : option ((Z + locals) * members F M * Out) :=
  if lcNew l >=? 0 then
    match fuel with
    | O => None
    | S fuel1 =>
        match jdiff_turn fuel1 l m o with
        | None => None
        | Some (inl liRet, m, o) => Some (inl liRet, m, o)
        | Some (inr l, m, o) => jdiff_loop fuel1 (next_lap l) m o
        end
    end
  else Some (inr l, m, o).

(** [JDiff::jdiff ()]: the result is the return value, the members and
    the output. *)
Definition jdiff (fuel : nat) (m : members F M) (o : Out)
  : option (Z * members F M * Out) :=
  let lzLapSml :=
    if miVerbse >? 0 then (if miVerbse >? 1 then PGSMRK else MAX_OFF_T)
    else MAX_OFF_T in
  (* Take one byte from each file ... *)
  let '(c1, m) := get_org m 0 in
  let '(c2, m) := get_new m 0 in
  match jdiff_loop fuel (Locals c1 c2 0 0 false 0 0 0 0 0 lzLapSml) m o with
  | None => None
  | Some (inl liRet, m, o) => Some (liRet, m, o)
  | Some (inr l, m, o) =>
      (* Flush output buffer *)
      let '(l, o) := flushEql l o in
      let '(_, o) := put o ESC 0 0 0 (lzPosOrg l) (lzPosNew l) in
      (* Return code *)
      Some (if (lcNew l <? EOB) || (lcOrg l <? EOB)
            then (if lcNew l <? lcOrg l then lcNew l else lcOrg l)
            else EXI_OK, m, o)
  end.

End WithFiles.

(** One call of [put]. *)
Record call : Type := Call {
  aiOpr : Z;
  azLen : Z;
  aiOrg : Z;
  aiNew : Z;
  azPosOrg : Z;
  azPosNew : Z
}.

(** An output that notes the calls of [put], oldest first, and returns
    [true] as [JOutRgn::put] does. *)
#[global] Instance calls_out : JOut (list call) := {|
  put o aiOpr azLen aiOrg aiNew azPosOrg azPosNew :=
    (true, o ++ [Call aiOpr azLen aiOrg aiNew azPosOrg azPosNew])
|}.

End DiffLoop.

(** ** main.cpp: the sizes of the buffers *)

Module MainSizes.

Section WithInt.

(** The largest [long], and the number of bits of an [int]. *)
Variable LONG_MAX : Z.
Variable int_bits : Z.

(** The value of a [long] converted to [int], in two's complement. *)
Definition to_int (z : Z) : Z :=
  (z + 2 ^ (int_bits - 1)) mod 2 ^ int_bits - 2 ^ (int_bits - 1).

(** [if (llBuf % liBlkSze != 0) { llBuf -= llBuf % liBlkSze ;
      if (llBuf <= 0) llBuf = liBlkSze ; }] *)
Definition align (llBuf liBlkSze : Z) : Z :=
  if negb (Z.rem llBuf liBlkSze =? 0) then
    let llBuf := llBuf - Z.rem llBuf liBlkSze in
    if llBuf <=? 0 then liBlkSze else llBuf
  else llBuf.

(** What [main] makes of the options [-m], [-k] and [-a] once the
    arguments are read: the sizes of the two buffers in bytes, the size of
    a block and the lookahead range.  The result is [None] when a buffer
    size in bytes does not fit in a [long]. *)
Definition buffers (llBufOrg llBufNew liBlkSze liAhdMax : Z)
  (lbSeqOrg lbSeqNew : bool) : option (Z * Z * Z * Z) :=
  (* Set default values for llBlk and liBlk *)
  let llBufOrg :=
    if llBufOrg >? 0 then llBufOrg else if lbSeqOrg then 32 else 1 in
  let llBufNew :=
    (if llBufNew >? 0 then llBufNew else if lbSeqNew then 16 else llBufOrg)
    * 1024 * 1024 in
  let llBufOrg := llBufOrg * 1024 * 1024 in
  if (LONG_MAX <? llBufNew) || (LONG_MAX <? llBufOrg) then None
  else
    let liBlkSze := if liBlkSze <? 4096 then 4096 else liBlkSze in
    (* Buffer size cannot be zero and must be aligned on block size *)
    let llBufOrg := align llBufOrg liBlkSze in
    let llBufNew := align llBufNew liBlkSze in
    (* Default search ahead window *)
    let liAhdMax :=
      if liAhdMax =? 0 then
        let liAhdMax := to_int (llBufNew - liBlkSze) in
        let liAhdMax :=
          if liAhdMax >? llBufNew - liBlkSze
          then to_int (llBufNew - liBlkSze) else liAhdMax in
        if liAhdMax <? 4096 then 4096 else liAhdMax
      else liAhdMax in
    Some (llBufOrg, llBufNew, liBlkSze, liAhdMax).

End WithInt.

End MainSizes.

(** ** JOutRgn.cpp: the output of regions *)

Module JOutRgn.

Import JDefs.

(** A line [fprintf] writes: the two positions, the operator and the
    length of the region. *)
Record line : Type := Line {
  l_PosOrg : Z;
  l_PosNew : Z;
  l_Opr : Z;
  l_Cnt : Z
}.

(** The two static variables of [put], the counters of [JOut] and the
    lines written to [mpFilOut], oldest first. *)
Record t : Type := mk {
  siOprCur : Z;
  szOprCnt : Z;
  gzOutBytCtl : Z;
  gzOutBytDta : Z;
  gzOutBytDel : Z;
  gzOutBytBkt : Z;
  gzOutBytEql : Z;
  gzOutBytEsc : Z;
  mpFilOut : list line
}.

Section WithLargefile.

(** Whether JDIFF_LARGEFILE is defined. *)
Variable JDIFF_LARGEFILE : bool.

(** [JOutRgn::ufPutLen (azLen)]. *)
Definition ufPutLen (azLen : Z) : Z :=
  if azLen <=? 252 then 1
  else if azLen <=? 508 then 2
  else if azLen <=? 0xffff then 3
  else if JDIFF_LARGEFILE then (if azLen <=? 0xffffffff then 4 else 8)
  else 4.

(** [switch (siOprCur)]: output the old operator. *)
Definition put_old (o : t) (azPosOrg azPosNew : Z) : t :=
  let c := szOprCnt o in
  if siOprCur o =? MOD then
    (* a MOD sequence is only needed after an INS sequence *)
    let ctl :=
      if siOprCur o =? INS then gzOutBytCtl o + 2 else gzOutBytCtl o in
    mk (siOprCur o) c ctl (gzOutBytDta o + c) (gzOutBytDel o)
      (gzOutBytBkt o) (gzOutBytEql o) (gzOutBytEsc o)
      (mpFilOut o ++ [Line (azPosOrg - c) (azPosNew - c) MOD c])
  else if siOprCur o =? INS then
    mk (siOprCur o) c (gzOutBytCtl o + 2) (gzOutBytDta o + c)
      (gzOutBytDel o) (gzOutBytBkt o) (gzOutBytEql o) (gzOutBytEsc o)
      (mpFilOut o ++ [Line azPosOrg (azPosNew - c) INS c])
  else if siOprCur o =? DEL then
    mk (siOprCur o) c (gzOutBytCtl o + (2 + ufPutLen c)) (gzOutBytDta o)
      (gzOutBytDel o + c) (gzOutBytBkt o) (gzOutBytEql o) (gzOutBytEsc o)
      (mpFilOut o ++ [Line (azPosOrg - c) azPosNew DEL c])
  else if siOprCur o =? BKT then
    mk (siOprCur o) c (gzOutBytCtl o + (2 + ufPutLen c)) (gzOutBytDta o)
      (gzOutBytDel o) (gzOutBytBkt o + c) (gzOutBytEql o) (gzOutBytEsc o)
      (mpFilOut o ++ [Line (azPosOrg + c) azPosNew BKT c])
  else if siOprCur o =? EQL then
    mk (siOprCur o) c (gzOutBytCtl o + (2 + ufPutLen c)) (gzOutBytDta o)
      (gzOutBytDel o) (gzOutBytBkt o) (gzOutBytEql o + c) (gzOutBytEsc o)
      (mpFilOut o ++ [Line (azPosOrg - c) (azPosNew - c) EQL c])
  else o.

(** [JOutRgn::put (aiOpr, azLen, aiOrg, aiNew, azPosOrg, azPosNew)]. *)
Definition put (o : t) (aiOpr azLen aiOrg aiNew azPosOrg azPosNew : Z)
  : bool * t :=
  (* write output when operation code changes *)
  let o :=
    if negb (aiOpr =? siOprCur o) then
      let o := put_old o azPosOrg azPosNew in
      (* switch to the new operator *)
      mk aiOpr 0 (gzOutBytCtl o) (gzOutBytDta o) (gzOutBytDel o)
        (gzOutBytBkt o) (gzOutBytEql o) (gzOutBytEsc o) (mpFilOut o)
    else o in
  (* accumulate operation codes *)
  let o :=
    if (aiOpr =? INS) || (aiOpr =? MOD) then
      let esc :=
        if aiNew =? ESC then gzOutBytEsc o + 1 else gzOutBytEsc o in
      mk (siOprCur o) (szOprCnt o + azLen) (gzOutBytCtl o) (gzOutBytDta o)
        (gzOutBytDel o) (gzOutBytBkt o) (gzOutBytEql o) esc (mpFilOut o)
    else if (aiOpr =? DEL) || (aiOpr =? BKT) || (aiOpr =? EQL) then
      mk (siOprCur o) (szOprCnt o + azLen) (gzOutBytCtl o) (gzOutBytDta o)
        (gzOutBytDel o) (gzOutBytBkt o) (gzOutBytEql o) (gzOutBytEsc o)
        (mpFilOut o)
    else o in
  (true, o).

End WithLargefile.

End JOutRgn.

(** [JOutRgn] is a [JOut]. *)
#[global] Instance rgn_out (JDIFF_LARGEFILE : bool)
  : DiffLoop.JOut JOutRgn.t := {|
  DiffLoop.put := JOutRgn.put JDIFF_LARGEFILE
|}.

(** ** Predicates used to state the properties *)

Section Predicates.

Variable sz : Z.

(** What the claim says of a call of [add]: the sample quality is at most
    [SMPSZE], hence at most [2 * SMPSZE]; the rate is COLLISION_HIGH; on
    any index the call lowers the collision counter by exactly 4 (before
    the store resets it). *)
Definition high_quality (c : JHashPos.call) : Prop :=
  JHashPos.c_eql c <= SMPSZE sz
  /\ JHashPos.c_eql c <= 2 * SMPSZE sz
  /\ JHashPos.add_rate sz (JHashPos.c_eql c) = JHashPos.COLLISION_HIGH
  /\ forall s : JHashPos.t,
       JHashPos.add sz s (JHashPos.c_hsh c) (JHashPos.c_pos c)
         (JHashPos.c_eql c)
       = JHashPos.add_store (JHashPos.add_load s) 4
           (JHashPos.c_hsh c) (JHashPos.c_pos c).

(** The equal-tail counter of the scan registers is within its range. *)
Definition eql_ok (r : JDiff.scan) : Prop :=
  0 <= JDiff.miEqlOrg r <= SMPSZE sz.

End Predicates.

(** The value of a byte of a file. *)
Definition is_byte (b : Z) : Prop := 0 <= b < 256.

(** A [JFile] that records what is read from it: the file [F] together
    with the log of the calls of [get], the latest first, each with the
    position asked for and the value returned. *)
Definition logged (F : Type) : Type := (F * list (Z * Z))%type.

Definition logged_get {F : Type} `{JFile.ops F} (fl : logged F) (azPos : Z)
  (aiSft : JFile.eAhead) : Z * logged F :=
  let '(v, f) := JFile.get (fst fl) azPos aiSft in
  (v, (f, (azPos, v) :: snd fl)).

#[global] Instance logged_ops {F : Type} `{JFile.ops F} : JFile.ops (logged F) :=
  {| JFile.get := logged_get |}.

(** The log entries of a run of bytes [bs] read from position [p] on. *)
Fixpoint run_log (p : Z) (bs : list Z) : list (Z * Z) :=
  match bs with
  | [] => []
  | b :: bs1 => (p, b) :: run_log (p + 1) bs1
  end.

(** Rounds left for the loop of [check]. *)
Definition check_measure (liEql aiLen : Z) : Z :=
  if 0 <? aiLen then aiLen + JMatchTable.EQLMAX + 1
  else JMatchTable.EQLMAX - liEql + 1.

(** Every value of the log is a byte read. *)
Definition nonneg_log (l : list (Z * Z)) : Prop :=
  Forall (fun e => 0 <= snd e) l.

(** A call of [get] returned [EOB]. *)
Definition has_eob (l : list (Z * Z)) : Prop :=
  exists p, In (p, JDefs.EOB) l.

(** What holds of the variables of [check] and of the two logs each time
    the loop is entered, for a call [check (o, n, len0, aiGld, ...)] on two
    logged files. *)
Definition check_inv (aiGld o n len0 : Z)
  (lcOrg lcNew liEql azPosOrg azPosNew aiLen : Z) (lo ln : list (Z * Z))
  : Prop :=
  0 <= liEql <= JMatchTable.EQLMAX
  /\ (exists bs t_o t_n,
        Z.of_nat (length bs) = liEql
        /\ Forall (fun b => 0 <= b) bs
        /\ lo = rev (run_log (azPosOrg - liEql) bs) ++ t_o
        /\ ln = rev (run_log (azPosNew - liEql) bs) ++ t_n)
  /\ nonneg_log lo /\ nonneg_log ln
  /\ lcOrg <> JDefs.EOB /\ lcNew <> JDefs.EOB
  /\ azPosNew + aiLen = n + len0
  /\ n <= azPosNew - liEql <= n + Z.max len0 0
  /\ (if aiGld =? 0 then azPosOrg - azPosNew = o - n
      else azPosOrg - liEql = o).

(** What holds of them when the loop has ended. *)
Definition check_post {F : Type} (aiGld o n len0 : Z)
  (r : Z * Z * Z * Z * Z * logged F * logged F) : Prop :=
  let '(lcOrg, lcNew, liEql, azPosOrg, azPosNew, fo, fn) := r in
  0 <= liEql <= JMatchTable.EQLMAX
  /\ (exists bs p_o p_n t_o t_n,
        Z.of_nat (length bs) = liEql
        /\ Forall (fun b => 0 <= b) bs
        /\ (length p_o <= 1)%nat /\ (length p_n <= 1)%nat
        /\ snd fo = p_o ++ rev (run_log (azPosOrg - liEql) bs) ++ t_o
        /\ snd fn = p_n ++ rev (run_log (azPosNew - liEql) bs) ++ t_n)
  /\ (lcOrg = JDefs.EOB <-> has_eob (snd fo))
  /\ (lcNew = JDefs.EOB <-> has_eob (snd fn))
  /\ n <= azPosNew - liEql <= n + Z.max len0 0
  /\ (if aiGld =? 0 then (azPosOrg - liEql) - (azPosNew - liEql) = o - n
      else azPosOrg - liEql = o).

(** A run of equal bytes that a call of [check] has read and matched: in
    rounds of its loop that follow one another the bytes [bs] were read
    from both files, from [po] on in the source file and from [pn] on in
    the destination file.  [lo] and [ln] are the two logs, the latest read
    first; [post_o] and [post_n] are the reads made after the run, the
    earliest first. *)
Definition matched_run (lo ln : list (Z * Z)) (po pn : Z) (bs : list Z)
  (post_o post_n : list (Z * Z)) : Prop :=
  Forall (fun b => 0 <= b) bs
  /\ exists pre_o pre_n,
       length pre_o = length pre_n
       /\ rev lo = pre_o ++ run_log po bs ++ post_o
       /\ rev ln = pre_n ++ run_log pn bs ++ post_n.

(** The scan goes on after a run: the run has fewer than [EQLSZE] bytes
    and the next round has read a byte from each file; the two bytes are
    equal (the run is part of a longer one), or they differ while budget
    is left, the destination file being read before [n + len] (the run is
    given up). *)
Definition goes_on (n len : Z) (bs : list Z) (post_o post_n : list (Z * Z))
  : Prop :=
  Z.of_nat (length bs) < JMatchTable.EQLSZE
  /\ exists p a ro q b rn,
       post_o = (p, a) :: ro /\ post_n = (q, b) :: rn
       /\ 0 <= a /\ 0 <= b /\ (a = b \/ q < n + len).

(** Why a call of [check (o, n, len, ...)] that returns [v] has stopped
    reading, on its two logs: [EQLMAX] equal bytes were counted, or the
    last read of the source file failed, or the last read of the
    destination file did, or the last two bytes differ and the run before
    them has [EQLSZE] bytes or more, or no budget is left (the destination
    file is read at [n + len] or after). *)
Definition stops (n len v : Z) (lo ln : list (Z * Z)) : Prop :=
  (v = JMatchTable.EQLMAX /\ length lo = length ln)
  \/ (exists p a lo1,
        lo = (p, a) :: lo1 /\ a < 0 /\ length lo1 = length ln)
  \/ (exists p a lo1 q b ln1,
        lo = (p, a) :: lo1 /\ ln = (q, b) :: ln1
        /\ length lo1 = length ln1 /\ 0 <= a
        /\ (b < 0
            \/ (0 <= b /\ a <> b
                /\ (JMatchTable.EQLSZE <= v \/ n + len <= q)))).

(** The reads made after a run are pairs of equal bytes. *)
Definition same_bytes (post_o post_n : list (Z * Z)) : Prop :=
  map snd post_o = map snd post_n /\ Forall (fun e => 0 <= snd e) post_o.

(** What holds of the runs in the two logs each time the loop of [check]
    is entered: the logs have one read for each round; the destination
    file was read at [n], [n + 1], ..., and so was the source file from
    [o] on for a colliding match; the last [liEql] rounds are a run, and
    no run at the end of the logs is longer; every run of more than
    [EQLMIN] bytes is part of it or the scan went on after it. *)
Definition check_runs_inv (aiGld o n len0 : Z)
  (liEql azPosOrg azPosNew aiLen : Z) (lo ln : list (Z * Z)) : Prop :=
  0 <= liEql <= JMatchTable.EQLMAX
  /\ length lo = length ln
  /\ azPosNew + aiLen = n + len0
  /\ azPosNew = n + Z.of_nat (length ln)
  /\ rev ln = run_log n (map snd (rev ln))
  /\ (aiGld = 0 ->
      azPosOrg = o + Z.of_nat (length lo)
      /\ rev lo = run_log o (map snd (rev lo)))
  /\ (exists bs t_o t_n,
        Z.of_nat (length bs) = liEql
        /\ Forall (fun b => 0 <= b) bs
        /\ length t_o = length t_n
        /\ lo = rev (run_log (azPosOrg - liEql) bs) ++ t_o
        /\ ln = rev (run_log (azPosNew - liEql) bs) ++ t_n)
  /\ (forall po pn bs,
        matched_run lo ln po pn bs [] [] -> Z.of_nat (length bs) <= liEql)
  /\ (forall po pn bs post_o post_n,
        matched_run lo ln po pn bs post_o post_n ->
        JMatchTable.EQLMIN + 1 <= Z.of_nat (length bs) ->
        (Z.of_nat (length bs + length post_o) <= liEql
         /\ same_bytes post_o post_n)
        \/ goes_on n len0 bs post_o post_n).

(** The reads that end the loop of [check], after the rounds that [lo] and
    [ln] log. *)
Definition check_stop (n len0 : Z) (liEql azPosOrg azPosNew : Z)
  (c_o c_n : list (Z * Z)) : Prop :=
  (c_o = [] /\ c_n = [] /\ liEql = JMatchTable.EQLMAX)
  \/ (exists a, c_o = [(azPosOrg, a)] /\ c_n = [] /\ a < 0)
  \/ (exists a b,
        c_o = [(azPosOrg, a)] /\ c_n = [(azPosNew, b)] /\ 0 <= a
        /\ (b < 0
            \/ (0 <= b /\ a <> b
                /\ (JMatchTable.EQLSZE <= liEql
                    \/ n + len0 <= azPosNew)))).

(** What holds of the runs in the two logs when the loop has ended. *)
Definition check_runs_post {F : Type} (aiGld o n len0 : Z)
  (r : Z * Z * Z * Z * Z * logged F * logged F) : Prop :=
  let '(lcOrg, lcNew, liEql, azPosOrg, azPosNew, fo, fn) := r in
  exists c_o c_n lo ln,
    snd fo = c_o ++ lo /\ snd fn = c_n ++ ln
    /\ check_stop n len0 liEql azPosOrg azPosNew c_o c_n
    /\ check_runs_inv aiGld o n len0 liEql azPosOrg azPosNew
         (n + len0 - azPosNew) lo ln.

(** The result of a loop of [check] on logged files, without the logs. *)
Definition erase_logs {F : Type}
  (r : Z * Z * Z * Z * Z * logged F * logged F) : Z * Z * Z * Z * Z * F * F :=
  let '(lcOrg, lcNew, liEql, azPosOrg, azPosNew, fo, fn) := r in
  (lcOrg, lcNew, liEql, azPosOrg, azPosNew, fst fo, fst fn).

(** ** Predicates on the state of a buffered reader *)

Section ReaderPredicates.

Import JFileAhead.

Context {U : Type}.

(** [get] serves [azPos] on its fast path. *)
Definition served_fast (s : t U) (azPos : Z) : Prop :=
  azPos = mzPosRed s /\ 0 < miRedSze s.

(** [azPos] is at or after the known end of the file. *)
Definition at_eof (s : t U) (azPos : Z) : Prop := mzPosEof s <= azPos.

(** [azPos] is in the buffer. *)
Definition in_buffer (s : t U) (azPos : Z) : Prop :=
  mzPosInp s - miBufUsd s <= azPos < mzPosInp s.

(** [azPos] is served neither by the fast path, nor by the end of file,
    nor from the buffer: [getbuf] calls [get_fromfile]. *)
Definition needs_file (s : t U) (azPos : Z) : Prop :=
  ~ served_fast s azPos /\ ~ at_eof s azPos /\ ~ in_buffer s azPos.

(** The block size and the input pointer fit the buffer, as the
    constructor leaves them. *)
Definition valid (s : t U) : Prop :=
  0 < miBlkSze s <= mlBufSze s
  /\ mpInp s <= mlBufSze s
  /\ 0 <= miBufUsd s
  /\ 0 <= mzPosInp s.

(** A sequence of calls of [get]: the state after the last one. *)
Fixpoint gets `{sys U} (s : t U) (calls : list (Z * eAhead)) : option (t U) :=
  match calls with
  | [] => Some s
  | (azPos, aiSft) :: calls1 =>
      match get s azPos aiSft with
      | Some (_, s1) => gets s1 calls1
      | None => None
      end
  end.

End ReaderPredicates.

(** ** The lists of the match table *)

Section TablePredicates.

Import JMatchTable.

Context {F : Type}.

(** The link [ipNxt] of a record of the pool. *)
Definition nxt (s : t F) (i : nat) : ptr := ipNxt (msMch s i).

(** The record [i] has been handed out: the free records are those below
    [miMchFre]. *)
Definition alloc (s : t F) (i : nat) : Prop :=
  (miMchFre s <= i < miMchSze s)%nat.

(** [l] is the list that starts at [p] and ends on [null]. *)
Fixpoint chain (nx : nat -> ptr) (p : ptr) (l : list nat) : Prop :=
  match l with
  | [] => p = None
  | i :: l1 => p = Some i /\ chain nx (nx i) l1
  end.

(** The records [l] follow [i], each linked to the next. *)
Fixpoint linked (nx : nat -> ptr) (i : nat) (l : list nat) : Prop :=
  match l with
  | [] => True
  | j :: l1 => nx i = Some j /\ linked nx j l1
  end.

(** [l] is the new list: it starts at [mpNew] and its last record is
    [mpLst], whose link is not looked at. *)
Definition newlist (nx : nat -> ptr) (pn pl : ptr) (l : list nat) : Prop :=
  match l with
  | [] => pn = None
  | i :: l1 => pn = Some i /\ linked nx i l1 /\ pl = Some (List.last l1 i)
  end.

(** The old list is [lo], the new list is [ln], no record is on both or
    twice on one, and all are handed out. *)
Definition Lists (s : t F) (lo ln : list nat) : Prop :=
  chain (nxt s) (mpOld s) lo
  /\ newlist (nxt s) (mpNew s) (mpLst s) ln
  /\ NoDup (lo ++ ln)
  /\ (forall i, i ∈ lo ++ ln -> alloc s i).

(** The heads of the buckets and the bucket links of the records handed
    out point to records handed out. *)
Definition Closed (s : t F) : Prop :=
  (forall b i, mpCol s b = Some i -> alloc s i)
  /\ (forall b i, mpGld s b = Some i -> alloc s i)
  /\ (forall i j, alloc s i -> ipCol (msMch s i) = Some j -> alloc s j)
  /\ (forall i j, alloc s i -> ipGld (msMch s i) = Some j -> alloc s j).

(** The records handed out have been found at least once. *)
Definition Counted (s : t F) : Prop :=
  forall i, alloc s i -> 1 <= iiCnt (msMch s i).

(** The invariant of the match table between two calls. *)
Definition Inv (s : t F) : Prop :=
  exists lo ln,
    Lists s lo ln
    /\ (length lo + length ln + miMchFre s = miMchSze s)%nat
    /\ Closed s /\ Counted s.

(** The changes that leave the lists alone. *)
Definition same_lists (s s1 : t F) : Prop :=
  miMchSze s1 = miMchSze s /\ miMchFre s1 = miMchFre s
  /\ mpOld s1 = mpOld s /\ mpNew s1 = mpNew s /\ mpLst s1 = mpLst s
  /\ (forall i, ipNxt (msMch s1 i) = ipNxt (msMch s i)).

(** The changes that leave the buckets alone, and what the place of a
    record in the buckets depends on. *)
Definition same_chains (s s1 : t F) : Prop :=
  miMchSze s1 = miMchSze s /\ miMchFre s1 = miMchFre s
  /\ miMchPme s1 = miMchPme s
  /\ (forall b, mpCol s1 b = mpCol s b)
  /\ (forall b, mpGld s1 b = mpGld s b)
  /\ (forall i, ipCol (msMch s1 i) = ipCol (msMch s i))
  /\ (forall i, ipGld (msMch s1 i) = ipGld (msMch s i))
  /\ (forall i, iiCnt (msMch s1 i) = iiCnt (msMch s i))
  /\ (forall i, iiGld (msMch s1 i) = iiGld (msMch s i))
  /\ (forall i, izDlt (msMch s1 i) = izDlt (msMch s i))
  /\ (forall i, izOrg (msMch s1 i) = izOrg (msMch s i))
  /\ (forall i, izBeg (msMch s1 i) = izBeg (msMch s i)).

(** The links of the buckets. *)
Definition colp (s : t F) (i : nat) : ptr := ipCol (msMch s i).
Definition gldp (s : t F) (i : nat) : ptr := ipGld (msMch s i).

(** The buckets the record [i] belongs to: that of its delta and that of
    its position in the source file. *)
Definition bcol (s : t F) (i : nat) : nat :=
  bucket s (abs (izDlt (msMch s i))).
Definition bgld (s : t F) (i : nat) : nat :=
  bucket s (izOrg (msMch s i)).

(** The colliding buckets: the bucket [b] holds the records [LC b], each
    one once; they have been handed out, [b] is the bucket of their delta
    and they have not been found gliding. *)
Definition ColOK (s : t F) (LC : nat -> list nat) : Prop :=
  forall b,
    chain (colp s) (mpCol s b) (LC b) /\ NoDup (LC b)
    /\ (forall i, i ∈ LC b ->
                   alloc s i /\ bcol s i = b /\ iiGld (msMch s i) = 0).

(** The gliding buckets: the bucket [b] holds the records [LG b]; a record
    found once has not been found gliding, the others have. *)
Definition GldOK (s : t F) (LG : nat -> list nat) : Prop :=
  forall b,
    chain (gldp s) (mpGld s b) (LG b) /\ NoDup (LG b)
    /\ (forall i, i ∈ LG b ->
           alloc s i /\ bgld s i = b
           /\ izDlt (msMch s i) = izOrg (msMch s i) - izBeg (msMch s i)
           /\ (iiCnt (msMch s i) = 1 /\ iiGld (msMch s i) = 0
               \/ iiCnt (msMch s i) <> 1 /\ iiGld (msMch s i) <> 0)).

(** A record of a gliding bucket that has been found once is in its
    colliding bucket too ([ex] is a record on its way out). *)
Definition Cross (s : t F) (LC LG : nat -> list nat) (ex : option nat)
  : Prop :=
  forall b i, i ∈ LG b -> ex <> Some i -> iiCnt (msMch s i) = 1 ->
              i ∈ LC (bcol s i).

(** The invariant of the buckets between two calls. *)
Definition Buckets (s : t F) : Prop :=
  exists LC LG, ColOK s LC /\ GldOK s LG /\ Cross s LC LG None.

(** The changes of an evaluation: neither the lists nor the buckets. *)
Definition frame (s s1 : t F) : Prop := same_lists s s1 /\ same_chains s s1.

End TablePredicates.

(** ** The states of a match table in use *)

Section TableStates.

Import JMatchTable.

Context {F : Type} `{JFile.ops F}.
Variable sizeof_hkey : Z.

(** The states of a table made for [aiMchSze] matches after any sequence
    of complete calls of [add], [cleanup] and [getbest]; between two calls
    the driver reads the two files. *)
Inductive reachable (aiMchSze : Z) : t F -> Prop :=
| reach_create (aiMchPme : Z) (abCmpAll : bool) (aiAhdMax : Z)
    (apFilOrg apFilNew : F) (pool : nat -> rMch) (aiHshRpr : Z) :
    reachable aiMchSze
      (create aiMchSze aiMchPme abCmpAll aiAhdMax apFilOrg apFilNew pool
         aiHshRpr)
| reach_add (s : t F) (azFndOrgAdd azFndNewAdd azRedNew : Z)
    (liRet : eMatchReturn) (s1 : t F) :
    reachable aiMchSze s ->
    add sizeof_hkey s azFndOrgAdd azFndNewAdd azRedNew = Some (liRet, s1) ->
    reachable aiMchSze s1
| reach_cleanup (s : t F) (hsh : JHashPos.t) (azBseOrg azRedNew : Z)
    (liRet : eMatchReturn) (s1 : t F) :
    reachable aiMchSze s ->
    cleanup hsh s azBseOrg azRedNew = Some (liRet, s1) ->
    reachable aiMchSze s1
| reach_getbest (s : t F) (azRedOrg azRedNew azBstOrg azBstNew : Z)
    (lbRet : bool) (lzBstOrg lzBstNew : Z) (s1 : t F) :
    reachable aiMchSze s ->
    getbest s azRedOrg azRedNew azBstOrg azBstNew
    = Some (lbRet, lzBstOrg, lzBstNew, s1) ->
    reachable aiMchSze s1
| reach_read (s : t F) (fo fn : F) :
    reachable aiMchSze s ->
    reachable aiMchSze (set_mpFilNew fn (set_mpFilOrg fo s)).

End TableStates.

(** ** A match table at work *)

(** Two files of 64 bytes; the second is the first one, three bytes
    further on. *)
Definition example_org : list Z :=
  map (fun i => Z.of_nat i mod 7) (seq 0 64).

Definition example_new : list Z :=
  map (fun i => Z.of_nat (i + 3) mod 7) (seq 0 64).

(** A table of 13 records on these files; the pool holds zeroes. *)
Definition example_table : JMatchTable.t (list Z) :=
  JMatchTable.create 13 23 false 1024 example_org example_new
    (fun _ => JMatchTable.mkMch None None None 0 0 0 0 0 0 0 0) 0.

(** The state after a call (the state before it, should the call not
    return). *)
Definition after_add (s : JMatchTable.t (list Z)) (m : Z * Z * Z)
  : JMatchTable.t (list Z) :=
  let '(o, n, r) := m in
  match JMatchTable.add 4 s o n r with Some (_, s1) => s1 | None => s end.

Definition after_cleanup (s : JMatchTable.t (list Z)) (m : Z * Z)
  : JMatchTable.t (list Z) :=
  match JMatchTable.cleanup (JHashPos.create 4 7 4 [] []) s (fst m) (snd m)
  with Some (_, s1) => s1 | None => s end.

Definition after_getbest (s : JMatchTable.t (list Z)) (m : Z * Z)
  : JMatchTable.t (list Z) :=
  match JMatchTable.getbest s (fst m) (snd m) 0 0
  with Some (_, _, _, s1) => s1 | None => s end.

(** Sixteen matches, a cleanup, a query and eight more matches. *)
Definition example_run : JMatchTable.t (list Z) :=
  let s :=
    fold_left after_add
      (map (fun i => (Z.of_nat (2 * i) + 3, Z.of_nat i, 0)) (seq 0 16))
      example_table in
  let s := after_cleanup s (0, 20) in
  let s := after_getbest s (0, 21) in
  fold_left after_add
    (map (fun i => (Z.of_nat (3 * i) + 40, Z.of_nat i + 22, 20)) (seq 0 8))
    s.

(** ** The content of the buffer of a reader *)

Section ReaderContent.

Import JFileAhead.

(** What [get] is to return for the position [azPos] of the file [c]. *)
Definition byte_at (c : list Byte.byte) (azPos : Z) : Z :=
  match c !! Z.to_nat azPos with
  | Some b => jchar_val b
  | None => JDefs.EOF
  end.

(** The cell of a circular buffer of [W] cells that the position [q]
    goes to, when the position [z] goes to the cell [a] ([d] is
    [a - z]). *)
Definition cell (W d q : Z) : Z := (q + d) mod W.

(** The buffer holds the byte of the position [q]. *)
Definition holds (c buf : list Byte.byte) (W d q : Z) : Prop :=
  buf !! Z.to_nat (cell W d q) = c !! Z.to_nat q.

(** The buffer of the reader [s] on the file [c]: the positions from
    [mzPosInp - miBufUsd] up to [mzPosInp] are in the buffer, the one
    before [mzPosInp] in the cell before [mpInp]. *)
Record Buffered (c : list Byte.byte) (s : t memfile) : Prop := {
  b_file : mpFil s = (c, mzPosInp s);
  b_blk : 0 < miBlkSze s;
  b_buf : 0 < mlBufSze s /\ mlBufSze s mod miBlkSze s = 0;
  b_len : Z.of_nat (length (mpBuf s)) = mlBufSze s;
  b_inp : 0 <= mpInp s <= mlBufSze s;
  b_usd : 0 <= miBufUsd s <= mlBufSze s /\ miBufUsd s <= mzPosInp s;
  b_eof : Z.of_nat (length c) <= mzPosEof s /\ mzPosInp s <= mzPosEof s;
  b_seek : mbSeq s = false -> mzPosEof s = Z.of_nat (length c);
  b_pos : mzPosInp s <= Z.of_nat (length c)
          \/ (miBufUsd s = 0 /\ mbSeq s = true);
  b_phase : (mzPosInp s - mpInp s) mod miBlkSze s = 0;
  b_start : (mzPosInp s - miBufUsd s) mod miBlkSze s = 0
            \/ miBufUsd s = mlBufSze s;
  b_data : forall q, mzPosInp s - miBufUsd s <= q < mzPosInp s ->
                     holds c (mpBuf s) (mlBufSze s)
                       (mpInp s - mzPosInp s) q
}.

(** The fast path of [get]: [mpRed] is the cell of [mzPosRed], and the
    [miRedSze] positions from there on are in the buffer, in the cells
    that follow. *)
Definition Fast (s : t memfile) : Prop :=
  0 < miRedSze s ->
  exists p, mpRed s = Some p
            /\ p = cell (mlBufSze s) (mpInp s - mzPosInp s) (mzPosRed s)
            /\ mzPosInp s - miBufUsd s <= mzPosRed s
            /\ mzPosRed s + miRedSze s <= mzPosInp s
            /\ p + miRedSze s <= mlBufSze s.

Definition Reads (c : list Byte.byte) (s : t memfile) : Prop :=
  Buffered c s /\ Fast s.

(** A sequence of calls of [get]: the values they return and the state
    after the last one. *)
Fixpoint reads (s : t memfile) (calls : list (Z * eAhead))
  : option (list Z * t memfile) :=
  match calls with
  | [] => Some ([], s)
  | (azPos, aiSft) :: calls1 =>
      match get s azPos aiSft with
      | Some (v, s1) =>
          match reads s1 calls1 with
          | Some (vs, s2) => Some (v :: vs, s2)
          | None => None
          end
      | None => None
      end
  end.

End ReaderContent.

(** ** The bytes a copy writes *)

Section CopyContent.

(** The bytes of the file [c] from [azPos] on, [azLen] of them or as many
    as there are. *)
Definition segment (c : list Byte.byte) (azPos azLen : Z) : list Z :=
  map JFileAhead.jchar_val
    (take (Z.to_nat azLen) (drop (Z.to_nat azPos) c)).

(** What [copyfrom] is to return for such a copy. *)
Definition copy_code (c : list Byte.byte) (azPos azLen : Z) : Z :=
  if (azLen <=? 0) || (azPos + azLen <=? Z.of_nat (length c))
  then JDefs.EXI_OK else JDefs.EXI_RED.

(** A sequence of calls of [copyfrom]: the output and the reader after
    the last one. *)
Fixpoint copies (fo : list Z) (fi : JFileAhead.t JFileAhead.memfile)
  (calls : list (Z * Z))
  : option (list Z * JFileAhead.t JFileAhead.memfile) :=
  match calls with
  | [] => Some (fo, fi)
  | (azPos, azLen) :: calls1 =>
      match JFileOut.copyfrom fo fi azPos azLen with
      | Some (_, fi1, fo1) => copies fo1 fi1 calls1
      | None => None
      end
  end.

End CopyContent.

(** ** The data of a patch file *)

(** Data as the comment of [jpatch] has it, [<data> = <chr>||<ESC><ESC>]:
    every [ESC] byte is doubled. *)
Definition escaped (data : list Z) : list Z :=
  flat_map (fun b => if b =? JDefs.ESC then [JDefs.ESC; JDefs.ESC] else [b])
    data.

(** ** What the calls of [put] describe *)

Section Replay.

Import JDefs.

(** The value [get (azPos, Read)] returns on a file held in memory. *)
Definition value_at (f : list Z) (azPos : Z) : Z :=
  fst (JFile.mem_get f azPos JFile.Read).

(** The file a patcher builds from the calls of [put], as [jpatch] executes
    the operators: [EQL] copies [azLen] bytes of the source file, [MOD]
    and [INS] write the byte [aiNew], [MOD], [DEL] and [BKT] move on the
    source file.  [lzPosOrg] is the position on the source file, [out] what
    has been written.  The result is [None] when a call does not carry
    these two positions, when [MOD] or [INS] come with another length than
    1, or when [EQL] asks for bytes the source file does not have. *)
Fixpoint replay (org : list Z) (cs : list DiffLoop.call) (lzPosOrg : Z)
  (out : list Z) : option (Z * list Z) :=
  match cs with
  | [] => Some (lzPosOrg, out)
  | c :: cs1 =>
      let aiOpr := DiffLoop.aiOpr c in
      let azLen := DiffLoop.azLen c in
      if (DiffLoop.azPosOrg c =? lzPosOrg)
         && (DiffLoop.azPosNew c =? Z.of_nat (length out))
      then
        if aiOpr =? EQL then
          if (0 <=? lzPosOrg) && (0 <=? azLen)
             && (lzPosOrg + azLen <=? Z.of_nat (length org))
          then
            replay org cs1 (lzPosOrg + azLen)
              (out ++ take (Z.to_nat azLen) (drop (Z.to_nat lzPosOrg) org))
          else None
        else if aiOpr =? MOD then
          if azLen =? 1
          then replay org cs1 (lzPosOrg + 1) (out ++ [DiffLoop.aiNew c])
          else None
        else if aiOpr =? INS then
          if azLen =? 1
          then replay org cs1 lzPosOrg (out ++ [DiffLoop.aiNew c])
          else None
        else if aiOpr =? DEL then replay org cs1 (lzPosOrg + azLen) out
        else if aiOpr =? BKT then replay org cs1 (lzPosOrg - azLen) out
        else replay org cs1 lzPosOrg out
      else None
  end.

(** A [search] that finds no solution: it returns 0 and asks to advance
    by [SMPSZE] bytes. *)
Definition search_none {F M : Type} (sizeof_hkey : Z)
  (m : DiffLoop.members F M)
  (azRedOrg azRedNew azSkpOrg azSkpNew azAhd : Z)
  : Z * (Z * Z * Z) * DiffLoop.members F M :=
  (0, (0, 0, SMPSZE sizeof_hkey), m).

End Replay.

(** ** What [jdiff] has put so far *)

Section DiffInvariant.

Context {M Out : Type}.

(** The calls an output has received. *)
Variable calls : Out -> list DiffLoop.call.

(** The content of the source file and of the destination file. *)
Variables org new : list Z.

(** The two files of [jdiff] are these. *)
Definition Files (m : DiffLoop.members (list Z) M) : Prop :=
  DiffLoop.mpFilOrg m = org /\ DiffLoop.mpFilNew m = new.

(** With [lzEql = e] equal bytes pending, the calls so far describe the
    destination file up to [lzPosNew - e] and leave a patcher at
    [lzPosOrg - e] on the source file; the pending bytes are equal. *)
Record Described (e cO cN pO pN : Z) (b : bool) (o : Out) : Prop := {
  d_org : cO = value_at org pO;
  d_new : cN = value_at new pN;
  d_eql : 0 <= e <= pN;
  d_len : pN <= Z.of_nat (length new);
  d_flag : b = false -> e = 0;
  d_same : forall i, 0 <= i < e ->
                     0 <= value_at org (pO - e + i)
                     /\ value_at org (pO - e + i)
                        = value_at new (pN - e + i);
  d_out : replay org (calls o) 0 []
          = Some (pO - e, take (Z.to_nat (pN - e)) new)
}.

(** The invariant of the loop of [jdiff]. *)
Definition DiffInv (l : DiffLoop.locals) (m : DiffLoop.members (list Z) M)
  (o : Out) : Prop :=
  Files m
  /\ Described (DiffLoop.lzEql l) (DiffLoop.lcOrg l) (DiffLoop.lcNew l)
       (DiffLoop.lzPosOrg l) (DiffLoop.lzPosNew l) (DiffLoop.lbEql l) o.

End DiffInvariant.

(** ** How far [jdiff] is from the end *)

Section DiffMeasure.

Import DiffLoop.

(** What the next turn of the loop of [jdiff] does: 0 when it advances on
    the destination file, 1 when it drops a solution that was none, 2 when
    it calls [search]. *)
Definition phase (l : locals) : Z :=
  if (lcOrg l =? lcNew l) || (lzAhd l >? 0) then 0
  else if (liFnd l =? 1) && (lzAhd l =? 0) then 1
  else 2.

(** The turns the loop has left at most, on a destination file of [n]
    bytes. *)
Definition rank (n : Z) (l : locals) : Z := 3 * (n - lzPosNew l) + phase l.

(** The index tells a distance of at least two bytes. *)
Definition Reliable {F M : Type} (m : members F M) : Prop :=
  2 <= JHashPos.get_reliability (gpHsh m).

(** The lap of the progress messages is ahead. *)
Definition Lap (miVerbse n : Z) (l : locals) : Prop :=
  (1 < miVerbse /\ lzPosNew l < lzLapSml l) \/ n < lzLapSml l.

End DiffMeasure.

(** ** An example run of [jdiff] *)

(** Two small files, a fresh index of seven slots and the scan registers
    of an incremental source scan. *)
Definition example_members : DiffLoop.members (list Z) unit :=
  DiffLoop.Members [1; 2; 3; 4; 5; 6] [1; 2; 9; 4; 5; 6; 7]
    (JHashPos.create 4 7 56 (repeat 0 7) (repeat 0 7))
    {| JDiff.mlHshOrg := 0; JDiff.miPrvOrg := JDefs.EOF;
       JDiff.miEqlOrg := 0; JDiff.mzAhdOrg := 0 |}
    0 0 tt.

(** The calls of [put] of that run. *)
Definition example_calls : list DiffLoop.call :=
  Eval vm_compute in
    match DiffLoop.jdiff 4 (2 ^ 63 - 1) 0 (search_none 4) 24
            example_members [] with
    | Some (_, _, o) => o
    | None => []
    end.

(** ** The counters of the output of regions *)

Section RgnCounters.

Import DiffLoop.

(** The output after a sequence of calls of [put], oldest first. *)
Definition puts (JDIFF_LARGEFILE : bool) (o : JOutRgn.t) (cs : list call)
  : JOutRgn.t :=
  fold_left
    (fun o c =>
       snd (JOutRgn.put JDIFF_LARGEFILE o (aiOpr c) (azLen c) (aiOrg c)
              (aiNew c) (azPosOrg c) (azPosNew c)))
    cs o.

(** The bytes that the calls with operator [opr] announce. *)
Definition total (opr : Z) (cs : list call) : Z :=
  fold_right (fun c n => if aiOpr c =? opr then azLen c + n else n) 0 cs.

(** The calls that bring an [ESC] byte as data. *)
Definition escapes (cs : list call) : Z :=
  fold_right
    (fun c n =>
       if ((aiOpr c =? JDefs.INS) || (aiOpr c =? JDefs.MOD))
          && (aiNew c =? JDefs.ESC)
       then 1 + n else n) 0 cs.

(** The bytes of the region that is not yet written, when it is one of
    operator [opr]. *)
Definition pending (opr : Z) (o : JOutRgn.t) : Z :=
  if JOutRgn.siOprCur o =? opr then JOutRgn.szOprCnt o else 0.

End RgnCounters.

(** ** A file and a beginning of it *)

Section DiffAbreast.

Context {M : Type}.

Variables org new : list Z.

(** [jdiff] stands at the same position on both files. *)
Definition Abreast (l : DiffLoop.locals) (m : DiffLoop.members (list Z) M)
  : Prop :=
  Files org new m
  /\ DiffLoop.lzPosOrg l = DiffLoop.lzPosNew l
  /\ 0 <= DiffLoop.lzPosNew l <= Z.of_nat (length new)
  /\ DiffLoop.lcOrg l = value_at org (DiffLoop.lzPosNew l)
  /\ DiffLoop.lcNew l = value_at new (DiffLoop.lzPosNew l).

(** The output of regions has counted no data byte. *)
Definition NoData (o : JOutRgn.t) : Prop :=
  JOutRgn.gzOutBytDta o = 0
  /\ (JOutRgn.siOprCur o = JDefs.ESC \/ JOutRgn.siOprCur o = JDefs.EQL).

End DiffAbreast.

(** ** Two outputs that answer alike *)

(** Two runs end alike: with the same values, and with outputs that are
    related. *)
Definition same_run {A Out1 Out2 : Type} (R : Out1 -> Out2 -> Prop)
  (r1 : option (A * Out1)) (r2 : option (A * Out2)) : Prop :=
  match r1, r2 with
  | Some (a1, o1), Some (a2, o2) => a1 = a2 /\ R o1 o2
  | None, None => True
  | _, _ => False
  end.

(** * Properties *)

(** ** The rolling hash *)

Section HashFacts.

Variable sz : Z.

Lemma hkey_wrap_add_l (a b : Z) :
  hkey_wrap sz (hkey_wrap sz a + b) = hkey_wrap sz (a + b).
Proof. unfold hkey_wrap. apply Zplus_mod_idemp_l. Qed.

Lemma hash_value (h p c e : Z) :
  fst (fst (hash sz h p c e))
  = hkey_wrap sz (h * 2 + c + snd (hash sz h p c e)).
Proof.
  unfold hash.
  destruct (p =? c); cbv beta iota zeta; cbn [fst snd];
    now rewrite hkey_wrap_add_l, <- Z.add_assoc, hkey_wrap_add_l, Z.add_assoc.
Qed.

(** The equal-tail counter stays within [0, SMPSZE]. *)
Lemma hash_eql_range (h p c e : Z) :
  0 <= e <= SMPSZE sz -> 0 <= snd (hash sz h p c e) <= SMPSZE sz.
Proof.
  intros He. unfold hash.
  destruct (p =? c); cbv beta iota zeta; cbn [snd].
  - destruct (Z.ltb_spec e (SMPSZE sz)); lia.
  - destruct (Z.eqb_spec e 0); cbn [negb]; lia.
Qed.

(** C3.  For a counter [e] in [0, SMPSZE], [hash] first updates the state:
    [e := min (e + 1, SMPSZE)] when the new byte [c] equals the previous
    byte [p], else [e := 0] and [p := c]; it then returns
    [(h << 1) + c + e] in the arithmetic of the hash word. *)
Theorem hash_update (h p c e : Z) :
  0 <= e <= SMPSZE sz ->
  let e1 := if c =? p then Z.min (e + 1) (SMPSZE sz) else 0 in
  let p1 := if c =? p then p else c in
  hash sz h p c e = (hkey_wrap sz (Z.shiftl h 1 + c + e1), p1, e1).
Proof.
  intros He e1 p1.
  assert (Hs : snd (hash sz h p c e) = e1).
  { unfold hash, e1. rewrite (Z.eqb_sym c p).
    destruct (p =? c); cbv beta iota zeta; cbn [snd].
    - destruct (Z.ltb_spec e (SMPSZE sz)); lia.
    - destruct (Z.eqb_spec e 0); cbn [negb]; lia. }
  assert (Hp : snd (fst (hash sz h p c e)) = p1).
  { unfold hash, p1. rewrite (Z.eqb_sym c p).
    destruct (Z.eqb_spec p c); cbv beta iota zeta; cbn [fst snd]; congruence. }
  pose proof (hash_value h p c e) as Hv.
  rewrite Hs in Hv. rewrite Z.shiftl_mul_pow2 by lia. change (2 ^ 1) with 2.
  destruct (hash sz h p c e) as [[v q] f]; cbn [fst snd] in *.
  now subst.
Qed.

End HashFacts.

Lemma hash_update_witness :
  hash 4 5 65 65 3 = (hkey_wrap 4 (Z.shiftl 5 1 + 65 + 4), 65, 4).
Proof. apply (hash_update 4 5 65 65 3). unfold SMPSZE. lia. Defined.

(** ** The source index *)

Section IndexFacts.

Import JHashPos.

Variable sz : Z.

Lemma rd_wr_same (a : list Z) (i v : Z) :
  0 <= i < Z.of_nat (length a) -> rd (wr a i v) i = v.
Proof.
  intros Hi. unfold rd, wr.
  rewrite list_lookup_insert_eq by lia. reflexivity.
Qed.

Lemma rd_wr_other (a : list Z) (i j v : Z) :
  0 <= i -> 0 <= j -> i <> j -> rd (wr a i v) j = rd a j.
Proof.
  intros Hi Hj Hij. unfold rd, wr.
  rewrite list_lookup_insert_ne by lia. reflexivity.
Qed.

Lemma length_wr (a : list Z) (i v : Z) : length (wr a i v) = length a.
Proof. unfold wr. apply length_insert. Qed.

Lemma add_load_mono (s : t) :
  miHshRlb s <= miHshRlb (add_load s)
  /\ miHshColMax s <= miHshColMax (add_load s).
Proof.
  unfold add_load, COLLISION_THRESHOLD.
  destruct (0 <? miLodCnt s); cbn; lia.
Qed.

Lemma add_store_keeps (s : t) (r h p : Z) :
  miHshRlb (add_store s r h p) = miHshRlb s
  /\ miHshColMax (add_store s r h p) = miHshColMax s
  /\ miLodCnt (add_store s r h p) = miLodCnt s
  /\ miHshPme (add_store s r h p) = miHshPme s.
Proof.
  unfold add_store. destruct (miHshColCnt s - r <=? 0); cbn; auto.
Qed.

Lemma add_mono (s : t) (h p e : Z) :
  miHshRlb s <= miHshRlb (add sz s h p e)
  /\ miHshColMax s <= miHshColMax (add sz s h p e).
Proof.
  unfold add.
  destruct (add_store_keeps (add_load s) (add_rate sz e) h p)
    as (-> & -> & _).
  apply add_load_mono.
Qed.

(** Index monotonicity over a run of calls. *)
Lemma adds_mono (cs : list call) (s : t) :
  miHshRlb s <= miHshRlb (adds sz s cs)
  /\ miHshColMax s <= miHshColMax (adds sz s cs).
Proof.
  revert s. induction cs as [|c cs IH]; intros s; cbn.
  - lia.
  - specialize (IH (add sz s (c_hsh c) (c_pos c) (c_eql c))).
    pose proof (add_mono s (c_hsh c) (c_pos c) (c_eql c)).
    unfold adds in IH. lia.
Qed.

(** C4.  One call [add (h, pos, eq)] on an index with arrays of [P] slots:
    the collision counter goes down by 4 when [eq <= 2 * SMPSZE] and by 1
    otherwise; [(h, pos)] is stored in slot [h mod P] exactly when the
    counter has reached [<= 0], and the counter is then reset to [colMax];
    every other slot, and slot [h mod P] otherwise, keeps its content.  The
    load counter goes down by one, and when it has run out it is reset to
    [P] while [colMax] and [rlb] grow by 4.  Over any sequence of calls
    [rlb] and [colMax] do not decrease. *)
Theorem add_spec (s : t) (h pos eq : Z) :
  wf s -> 0 <= h ->
  let s1 := add sz s h pos eq in
  let rate := if eq <=? 2 * SMPSZE sz then 4 else 1 in
  let wrapped := negb (0 <? miLodCnt s) in
  let colmax1 := if wrapped then miHshColMax s + 4 else miHshColMax s in
  let stored := miHshColCnt s - rate <=? 0 in
  miLodCnt s1 = (if wrapped then miHshPme s else miLodCnt s - 1)
  /\ miHshColMax s1 = colmax1
  /\ miHshRlb s1 = (if wrapped then miHshRlb s + 4 else miHshRlb s)
  /\ miHshColCnt s1 = (if stored then colmax1 else miHshColCnt s - rate)
  /\ (forall i, 0 <= i < miHshPme s ->
        (rd (mkHshTblHsh s1) i, rd (mzHshTblPos s1) i)
        = if stored && (i =? h mod miHshPme s) then (h, pos)
          else (rd (mkHshTblHsh s) i, rd (mzHshTblPos s) i))
  /\ wf s1
  /\ (forall cs : list call,
        miHshRlb s <= miHshRlb (adds sz s cs)
        /\ miHshColMax s <= miHshColMax (adds sz s cs)).
Proof.
  intros (HP & Hlp & Hlh) Hh s1 rate wrapped colmax1 stored.
  assert (Hidx : 0 <= h mod miHshPme s < miHshPme s)
    by (apply Z.mod_pos_bound; lia).
  assert (Hrate : add_rate sz eq = rate).
  { unfold add_rate, rate, COLLISION_HIGH, COLLISION_LOW.
    now rewrite (Z.mul_comm (SMPSZE sz) 2). }
  assert (Hl : miHshPme (add_load s) = miHshPme s
               /\ miHshColCnt (add_load s) = miHshColCnt s
               /\ mkHshTblHsh (add_load s) = mkHshTblHsh s
               /\ mzHshTblPos (add_load s) = mzHshTblPos s
               /\ miHshColMax (add_load s) = colmax1
               /\ miLodCnt (add_load s)
                  = (if wrapped then miHshPme s else miLodCnt s - 1)
               /\ miHshRlb (add_load s)
                  = (if wrapped then miHshRlb s + 4 else miHshRlb s)).
  { unfold add_load, colmax1, wrapped, COLLISION_THRESHOLD.
    destruct (0 <? miLodCnt s); cbn; auto 10. }
  destruct Hl as (HlP & HlC & HlH & HlZ & HlM & HlL & HlR).
  subst s1. unfold add. rewrite Hrate.
  unfold add_store. rewrite HlP, HlC, HlH, HlZ, HlM.
  fold stored. destruct stored; cbn [miLodCnt miHshColMax miHshRlb miHshColCnt
    mkHshTblHsh mzHshTblPos miHshPme andb].
  - split; [exact HlL|]. split; [reflexivity|]. split; [exact HlR|].
    split; [reflexivity|]. split; [|split; [|intros cs; apply adds_mono]].
    + intros i Hi. destruct (Z.eqb_spec i (h mod miHshPme s)) as [->|Hne].
      * now rewrite !rd_wr_same by lia.
      * now rewrite !rd_wr_other by lia.
    + unfold wf; cbn. rewrite ?length_wr, ?HlP. auto.
  - split; [exact HlL|]. split; [reflexivity|]. split; [exact HlR|].
    split; [reflexivity|]. split; [|split; [|intros cs; apply adds_mono]].
    + intros i Hi. reflexivity.
    + unfold wf; cbn. rewrite ?HlP. auto.
Qed.

(** C8, as the code has it.  [reset] puts the four counters back to their
    initial values and leaves the two arrays alone: a lookup after [reset]
    finds what it found before, stale positions included. *)
Theorem reset_keeps_content (s : t) (h azPos : Z) :
  mkHshTblHsh (reset sz s) = mkHshTblHsh s
  /\ mzHshTblPos (reset sz s) = mzHshTblPos s
  /\ miHshColMax (reset sz s) = COLLISION_THRESHOLD
  /\ miHshColCnt (reset sz s) = COLLISION_THRESHOLD
  /\ miHshRlb (reset sz s) = SMPSZE sz + SMPSZE sz / 2
  /\ miLodCnt (reset sz s) = miHshPme s
  /\ fst (get (reset sz s) h azPos) = fst (get s h azPos).
Proof.
  repeat split. unfold get. cbn.
  destruct (rd (mkHshTblHsh s) (h mod miHshPme s) =? h); reflexivity.
Qed.

End IndexFacts.

(** The slot of a hash that has just been stored answers [get]. *)
Lemma add_spec_witness :
  let s := JHashPos.create 4 7 0 [0; 0; 0; 0; 0; 0; 0] [0; 0; 0; 0; 0; 0; 0] in
  JHashPos.miHshColCnt (JHashPos.add 4 s 12 9 0) = 4
  /\ (JHashPos.rd (JHashPos.mkHshTblHsh (JHashPos.add 4 s 12 9 0)) 5,
      JHashPos.rd (JHashPos.mzHshTblPos (JHashPos.add 4 s 12 9 0)) 5) = (12, 9).
Proof.
  intros s.
  assert (Hwf : JHashPos.wf s) by (unfold JHashPos.wf; cbn; lia).
  destruct (add_spec 4 s 12 9 0 Hwf ltac:(lia)) as (_ & _ & _ & Hc & Hs & _).
  split.
  - exact Hc.
  - exact (Hs 5 ltac:(cbn; lia)).
Defined.


(** C8, as stated, fails: the key 12 is stored with position 9, the index
    is reset, and the lookup of 12 still answers the stale position 9. *)
Lemma reset_forgets_counterexample :
  let s := JHashPos.create 4 7 0 [0; 0; 0; 0; 0; 0; 0] [0; 0; 0; 0; 0; 0; 0] in
  let s1 := JHashPos.add 4 s 12 9 0 in
  fst (JHashPos.get s1 12 0) = (true, 9)
  /\ fst (JHashPos.get (JHashPos.reset 4 s1) 12 0) = (true, 9).
Proof. split; reflexivity. Qed.

(** ** The scans of the driver *)

Section ScanFacts.

Import JDiff.

Variable sz : Z.

Lemma high_quality_intro (h p e : Z) :
  0 <= e <= SMPSZE sz -> high_quality sz (JHashPos.Call h p e).
Proof.
  intros He. unfold high_quality; cbn.
  assert (Hr : JHashPos.add_rate sz e = JHashPos.COLLISION_HIGH).
  { unfold JHashPos.add_rate.
    destruct (Z.leb_spec e (SMPSZE sz * 2)); [reflexivity | lia]. }
  repeat split; try lia; try assumption.
  intros s. unfold JHashPos.add. now rewrite Hr.
Qed.

Lemma scan_hash_ok (r : scan) (c : Z) :
  eql_ok sz r -> eql_ok sz (scan_hash sz r c)
              /\ mzAhdOrg (scan_hash sz r c) = mzAhdOrg r.
Proof.
  intros Hr. unfold eql_ok, scan_hash in *.
  pose proof (hash_eql_range sz (mlHshOrg r) (miPrvOrg r) c (miEqlOrg r) Hr).
  destruct (hash sz (mlHshOrg r) (miPrvOrg r) c (miEqlOrg r)) as [[h p] e].
  cbn in *. auto.
Qed.

Lemma scan_add_ok (r : scan) (c : Z) :
  eql_ok sz r ->
  eql_ok sz (fst (scan_add sz r c)) /\ high_quality sz (snd (scan_add sz r c)).
Proof.
  intros Hr. destruct (scan_hash_ok r c Hr) as [H1 _].
  unfold scan_add; cbn. split.
  - exact H1.
  - apply high_quality_intro, H1.
Qed.

Lemma search_scan_ok (n : nat) (reads : list Z) (r : scan) :
  eql_ok sz r ->
  eql_ok sz (fst (search_scan sz n reads r))
  /\ Forall (high_quality sz) (snd (search_scan sz n reads r)).
Proof.
  revert reads r. induction n as [|n IH]; intros reads r Hr.
  - cbn. auto.
  - destruct reads as [|c reads]; [cbn; auto|]. cbn [search_scan].
    destruct (c <=? JDefs.EOF); [cbn; auto|].
    destruct (scan_add_ok r c Hr) as [H1 H2].
    destruct (scan_add sz r c) as [r1 c1]. cbn [fst snd] in H1, H2.
    destruct (IH reads r1 H1) as [H3 H4].
    destruct (search_scan sz n reads r1) as [r2 cs]. cbn [fst snd] in *.
    split; [assumption | now constructor].
Qed.

Lemma buildFullIndex_init_ok (n : nat) (v : Z) (reads : list Z) (r : scan) :
  eql_ok sz r -> eql_ok sz (snd (fst (buildFullIndex_init sz n v reads r))).
Proof.
  revert v reads r. induction n as [|n IH]; intros v reads r Hr; [exact Hr|].
  destruct reads as [|c reads]; [exact Hr|]. cbn [buildFullIndex_init].
  destruct (c <=? JDefs.EOF); [exact Hr|].
  apply IH. now apply scan_hash_ok.
Qed.

Lemma buildFullIndex_loop_ok (reads : list Z) (v : Z) (r : scan) :
  eql_ok sz r -> Forall (high_quality sz) (snd (buildFullIndex_loop sz v reads r)).
Proof.
  revert v r. induction reads as [|c reads IH]; intros v r Hr; [cbn; auto|].
  cbn [buildFullIndex_loop].
  destruct (v >? JDefs.EOF); [|cbn; auto].
  destruct (c <=? JDefs.EOF); [cbn; auto|].
  set (r1 := {| mlHshOrg := mlHshOrg r; miPrvOrg := miPrvOrg r;
                miEqlOrg := miEqlOrg r; mzAhdOrg := mzAhdOrg r + 1 |}).
  assert (H1 : eql_ok sz (scan_hash sz r1 c)) by (now apply scan_hash_ok).
  specialize (IH c _ H1).
  destruct (buildFullIndex_loop sz c reads (scan_hash sz r1 c))
    as [[v2 r3] cs]. cbn [fst snd] in *.
  constructor; [|assumption]. now apply high_quality_intro.
Qed.

(** C10.  Whatever the source holds, every call of [add] that the driver
    issues (incremental scan of [jdiff], scan ahead of [search], full
    prescan of [buildFullIndex]) passes a sample quality of at most
    [SMPSZE]: the branch of COLLISION_LOW is never taken and the collision
    counter goes down by exactly COLLISION_HIGH.  The registers of the
    incremental scans start with an equal-tail counter in [0, SMPSZE] and
    keep it there from call to call. *)
Theorem driver_adds_are_high_quality :
  0 <= SMPSZE sz ->
  (forall (r : scan) (miSrcScn lzPosOrg lcOrg : Z),
      eql_ok sz r ->
      eql_ok sz (fst (jdiff_scan sz miSrcScn lzPosOrg lcOrg r))
      /\ Forall (high_quality sz) (snd (jdiff_scan sz miSrcScn lzPosOrg lcOrg r)))
  /\ (forall (r : scan) (liMax : nat) (reads : list Z),
         eql_ok sz r ->
         eql_ok sz (fst (search_scan sz liMax reads r))
         /\ Forall (high_quality sz) (snd (search_scan sz liMax reads r)))
  /\ (forall reads : list Z,
         Forall (high_quality sz) (snd (buildFullIndex sz reads))).
Proof.
  intros Hsz. split; [|split].
  - intros r m p c Hr. unfold jdiff_scan.
    destruct ((m =? 0) && (p =? mzAhdOrg r)); [|cbn; auto].
    destruct (scan_add_ok r c Hr) as [H1 H2].
    destruct (scan_add sz r c) as [r1 c1]. cbn [fst snd] in *. auto.
  - intros r n reads Hr. now apply search_scan_ok.
  - intros reads. unfold buildFullIndex.
    assert (H0 : eql_ok sz (scan_start)) by (unfold eql_ok; cbn; lia).
    pose proof (buildFullIndex_init_ok (Z.to_nat (SMPSZE sz - 1)) 0 reads _ H0)
      as H1.
    destruct (buildFullIndex_init sz (Z.to_nat (SMPSZE sz - 1)) 0 reads
                scan_start) as [[v r] reads1]. cbn [fst snd] in H1.
    pose proof (buildFullIndex_loop_ok reads1 v r H1) as H2.
    destruct (buildFullIndex_loop sz v reads1 r) as [[v2 r2] cs].
    exact H2.
Qed.

End ScanFacts.

(** A prescan of a run of six equal bytes with 8-bit samples: the counter
    saturates at [SMPSZE] and every call keeps the rate of 4. *)
Lemma driver_adds_are_high_quality_witness :
  Forall (high_quality 1)
    (snd (JDiff.buildFullIndex 1 [7; 7; 7; 7; 7; 7; 7; 7; 7; 7; 7; 7; -1])).
Proof.
  apply (driver_adds_are_high_quality 1). unfold SMPSZE. lia.
Defined.

(** ** The offsets of a search *)

(** C2.  When [getbest] has elected a match [(fndOrg, fndNew)] for the
    read positions [(posOrg, posNew)] and the base [baseOrg], [search]
    returns 1 and
    - forward on the source, when [fndOrg >= posOrg] and
      [fndOrg - posOrg >= fndNew - posNew]:
      [skipOrg = (fndOrg - posOrg) - (fndNew - posNew)], [skipNew = 0],
      [ahd = fndNew - posNew];
    - forward on the destination, when [fndOrg >= posOrg] otherwise:
      [skipOrg = 0], [skipNew = (fndNew - posNew) - (fndOrg - posOrg)],
      [ahd = fndOrg - posOrg];
    - backwards on the source, when [fndOrg < posOrg], with
      [s = (posOrg - fndOrg) + (fndNew - posNew)]: either
      [s <= posOrg - baseOrg] and [skipOrg = - s], [skipNew = 0],
      [ahd = fndNew - posNew], or [skipOrg = baseOrg - posOrg],
      [skipNew = s - (posOrg - baseOrg)],
      [ahd = (fndNew - posNew) - skipNew]. *)
Theorem search_offsets_found
  (sz fndOrg fndNew posOrg posNew baseOrg ahdNew : Z) :
  let r := JDiff.search_offsets sz true fndOrg fndNew posOrg posNew
             baseOrg ahdNew in
  let s := (posOrg - fndOrg) + (fndNew - posNew) in
  fst r = 1
  /\ (fndOrg >= posOrg -> fndOrg - posOrg >= fndNew - posNew ->
      snd r = ((fndOrg - posOrg) - (fndNew - posNew), 0, fndNew - posNew))
  /\ (fndOrg >= posOrg -> fndOrg - posOrg < fndNew - posNew ->
      snd r = (0, (fndNew - posNew) - (fndOrg - posOrg), fndOrg - posOrg))
  /\ (fndOrg < posOrg -> s <= posOrg - baseOrg ->
      snd r = (- s, 0, fndNew - posNew))
  /\ (fndOrg < posOrg -> s > posOrg - baseOrg ->
      snd r = (baseOrg - posOrg, s - (posOrg - baseOrg),
               (fndNew - posNew) - (s - (posOrg - baseOrg)))).
Proof.
  intros r s. subst r s. unfold JDiff.search_offsets. cbn [negb].
  rewrite !Z.geb_leb.
  destruct (Z.leb_spec posOrg fndOrg) as [H1|H1].
  - destruct (Z.leb_spec (fndNew - posNew) (fndOrg - posOrg)) as [H2|H2];
      cbn [fst snd]; repeat split; intros; try lia; f_equal; try f_equal; lia.
  - destruct (Z.leb_spec (posOrg - fndOrg + fndNew - posNew)
                (posOrg - baseOrg)) as [H2|H2];
      cbn [fst snd]; repeat split; intros; try lia; f_equal; try f_equal; lia.
Qed.

(** A match 6 bytes behind the source position with the base at 8: the
    backtrack is clamped to the base. *)
Lemma search_offsets_found_witness :
  snd (JDiff.search_offsets 4 true 4 12 10 9 8 0) = (-2, 7, -4).
Proof.
  apply (proj2 (proj2 (proj2 (proj2
           (search_offsets_found 4 4 12 10 9 8 0))))); lia.
Defined.

(** ** The length decoder *)

Section DecoderFacts.

Import JPatcht.

Variable bits : Z.
Variable largefile : bool.

Lemma off_t_wrap_small (z : Z) :
  0 < bits -> - 2 ^ (bits - 1) <= z < 2 ^ (bits - 1) ->
  off_t_wrap bits z = z.
Proof.
  intros Hb Hz. unfold off_t_wrap.
  assert (H2 : 2 ^ bits = 2 * 2 ^ (bits - 1)).
  { replace bits with (Z.succ (bits - 1)) at 1 by lia.
    rewrite Z.pow_succ_r by lia. reflexivity. }
  rewrite Z.mod_small by lia. lia.
Qed.

Lemma off_t_wrap_add_l (a b : Z) :
  off_t_wrap bits (off_t_wrap bits a + b) = off_t_wrap bits (a + b).
Proof.
  unfold off_t_wrap. f_equal.
  replace ((a + 2 ^ (bits - 1)) mod 2 ^ bits - 2 ^ (bits - 1) + b
           + 2 ^ (bits - 1))
    with ((a + 2 ^ (bits - 1)) mod 2 ^ bits + b) by lia.
  rewrite Zplus_mod_idemp_l. f_equal. lia.
Qed.

Lemma off_t_wrap_shift (a : Z) :
  off_t_wrap bits (Z.shiftl (off_t_wrap bits a) 8)
  = off_t_wrap bits (a * 256).
Proof.
  rewrite Z.shiftl_mul_pow2 by lia. change (2 ^ 8) with 256.
  unfold off_t_wrap. f_equal.
  replace (((a + 2 ^ (bits - 1)) mod 2 ^ bits - 2 ^ (bits - 1)) * 256
           + 2 ^ (bits - 1))
    with ((a + 2 ^ (bits - 1)) mod 2 ^ bits * 256
          + (2 ^ (bits - 1) - 256 * 2 ^ (bits - 1))) by lia.
  rewrite <- Zplus_mod_idemp_l, Zmult_mod_idemp_l, Zplus_mod_idemp_l.
  f_equal. lia.
Qed.

(** One more byte shifted into a wrapped value. *)
Lemma shift_in_wrapped (a c : Z) (f : list Z) :
  shift_in bits (off_t_wrap bits a) (c :: f)
  = (off_t_wrap bits (a * 256 + c), f).
Proof.
  unfold shift_in, get. now rewrite off_t_wrap_shift, off_t_wrap_add_l.
Qed.

(** One more byte shifted into the first byte read. *)
Lemma shift_in_first (a c : Z) (f : list Z) :
  shift_in bits a (c :: f) = (off_t_wrap bits (a * 256 + c), f).
Proof.
  unfold shift_in, get. rewrite off_t_wrap_add_l.
  rewrite Z.shiftl_mul_pow2 by lia. reflexivity.
Qed.

(** C7, as the code has it.  With an [off_t] of more than 16 bits,
    [ufGetInt] decodes: a first byte [b] in 0..251 to [b + 1]; 252 and a
    byte [x] to [253 + x]; 253 and two bytes to their big-endian value; 254
    and four bytes to their big-endian value, as an [off_t]; 255 and eight
    bytes to their big-endian value, as an [off_t], when JDIFF_LARGEFILE is
    defined, and to the error code EXI_LRG, reading no further byte, when it
    is not.  A value below [2 ^ (bits - 1)] is itself as an [off_t]. *)
Theorem ufGetInt_table (rest : list Z) :
  16 < bits ->
  (forall b, 0 <= b < 252 -> ufGetInt bits largefile (b :: rest) = (b + 1, rest))
  /\ (forall x, ufGetInt bits largefile (252 :: x :: rest) = (253 + x, rest))
  /\ (forall x y, is_byte x -> is_byte y ->
        ufGetInt bits largefile (253 :: x :: y :: rest)
        = (big_endian [x; y], rest))
  /\ (forall b1 b2 b3 b4,
        ufGetInt bits largefile (254 :: b1 :: b2 :: b3 :: b4 :: rest)
        = (off_t_wrap bits (big_endian [b1; b2; b3; b4]), rest))
  /\ (forall b1 b2 b3 b4 b5 b6 b7 b8,
        largefile = true ->
        ufGetInt bits largefile
          (255 :: b1 :: b2 :: b3 :: b4 :: b5 :: b6 :: b7 :: b8 :: rest)
        = (off_t_wrap bits (big_endian [b1; b2; b3; b4; b5; b6; b7; b8]),
           rest))
  /\ (largefile = false ->
        ufGetInt bits largefile (255 :: rest) = (JDefs.EXI_LRG, rest))
  /\ (forall v, 0 <= v < 2 ^ (bits - 1) -> off_t_wrap bits v = v).
Proof.
  intros Hbits.
  assert (H16 : 2 ^ 16 <= 2 ^ (bits - 1))
    by (apply Z.pow_le_mono_r; lia).
  change (2 ^ 16) with 65536 in H16.
  refine (conj _ (conj _ (conj _ (conj _ (conj _ (conj _ _)))))).
  - intros b Hb. unfold ufGetInt, get.
    destruct (Z.ltb_spec b 252); [reflexivity | lia].
  - intros x. reflexivity.
  - intros x y Hx Hy. unfold is_byte in *. unfold ufGetInt, get.
    cbn [Z.ltb Z.eqb Z.compare Pos.compare Pos.compare_cont Pos.eqb].
    rewrite shift_in_first. unfold big_endian; cbn [fold_left].
    rewrite off_t_wrap_small by lia. f_equal; lia.
  - intros b1 b2 b3 b4. unfold ufGetInt, get.
    cbn [Z.ltb Z.eqb Z.compare Pos.compare Pos.compare_cont Pos.eqb].
    rewrite shift_in_first, !shift_in_wrapped.
    unfold big_endian; cbn [fold_left]. do 2 f_equal; lia.
  - intros b1 b2 b3 b4 b5 b6 b7 b8 ->. unfold ufGetInt, get.
    cbn [Z.ltb Z.eqb Z.compare Pos.compare Pos.compare_cont Pos.eqb].
    rewrite shift_in_first, !shift_in_wrapped.
    unfold big_endian; cbn [fold_left]. do 2 f_equal; lia.
  - intros ->. reflexivity.
  - intros v Hv. apply off_t_wrap_small; lia.
Qed.

End DecoderFacts.

(** The length 509 of the specification: [0xFD 0x01 0xFD]. *)
Lemma ufGetInt_table_witness :
  JPatcht.ufGetInt 64 true [253; 1; 253] = (509, []).
Proof.
  apply (proj1 (proj2 (proj2 (ufGetInt_table 64 true [] ltac:(lia))))).
  - unfold is_byte. lia.
  - unfold is_byte. lia.
Defined.

(** C7, as stated, fails in a build without JDIFF_LARGEFILE: a first byte
    255 followed by the eight bytes of the value 1 does not decode to 1 but
    to the error code EXI_LRG. *)
Lemma ufGetInt_table_counterexample :
  JPatcht.big_endian [0; 0; 0; 0; 0; 0; 0; 1] = 1
  /\ JPatcht.ufGetInt 64 false [255; 0; 0; 0; 0; 0; 0; 0; 1]
     = (-7, [0; 0; 0; 0; 0; 0; 0; 1]).
Proof. split; reflexivity. Qed.

(** ** Exit codes *)

(** The final [switch] of [main].  A run that differences the files ends
    with exit code 1 when data bytes were written and with exit code 0
    when none were: the result EXI_EQL (2) leaves as EXI_OK.  A run that
    patches ends with 0 when [jpatch] returned EXI_OK.  The other cases of
    the switch leave with 6, 7, 8, 9, 10, 2 and 20.  (The exits of [main]
    before the switch, 2 on an error in the arguments and 3, 4 and 5 on a
    file that cannot be opened, are not part of [Main.main].) *)
Lemma exit_switch :
  (forall gzOutBytDta liJPatch,
      Main.main Main.Diff JDefs.EXI_OK gzOutBytDta liJPatch
      = if gzOutBytDta >? 0 then 1 else 0)
  /\ (forall liJDiff gzOutBytDta,
         Main.main Main.Patch liJDiff gzOutBytDta JDefs.EXI_OK = 0)
  /\ map Main.exit_code
       [JDefs.EXI_OK; JDefs.EXI_DIF; JDefs.EXI_EQL; JDefs.EXI_SEK;
        JDefs.EXI_LRG; JDefs.EXI_RED; JDefs.EXI_WRI; JDefs.EXI_MEM;
        JDefs.EXI_ARG; JDefs.EXI_ERR]
     = [0; 1; 0; 6; 7; 8; 9; 10; 2; 20].
Proof.
  refine (conj _ (conj _ _)).
  - intros d p. unfold Main.main, Main.run. cbn.
    destruct (d >? 0); reflexivity.
  - reflexivity.
  - reflexivity.
Qed.

(** C9, the code at the failing input.  The two files are the same six
    bytes.  [jdiff] returns EXI_OK and its output has counted no data
    byte; [main] then sets [liRet] to EXI_EQL, which is 2 and stands for
    "no differences found", and the final [switch] leaves with
    [exit (EXI_OK)]: the exit code is 0, not 2.  Exit code 2 is the one
    of an error in the arguments.  With one data byte counted the exit
    code is 1, as the claim says. *)
Theorem main_exit_equal_files :
  let m :=
    DiffLoop.Members [1; 2; 3; 4; 5; 6] [1; 2; 3; 4; 5; 6]
      (JHashPos.create 4 7 56 (repeat 0 7) (repeat 0 7))
      {| JDiff.mlHshOrg := 0; JDiff.miPrvOrg := JDefs.EOF;
         JDiff.miEqlOrg := 0; JDiff.mzAhdOrg := 0 |}
      0 0 tt in
  exists m' o',
    DiffLoop.jdiff (H0 := rgn_out true) 4 (2 ^ 63 - 1) 0 (search_none 4) 24
      m (JOutRgn.mk JDefs.ESC 0 0 0 0 0 0 0 [])
    = Some (JDefs.EXI_OK, m', o')
    /\ JOutRgn.gzOutBytDta o' = 0
    /\ Main.run Main.Diff JDefs.EXI_OK (JOutRgn.gzOutBytDta o') 0
       = JDefs.EXI_EQL
    /\ JDefs.EXI_EQL = 2
    /\ Main.main Main.Diff JDefs.EXI_OK (JOutRgn.gzOutBytDta o') 0 = 0
    /\ Main.exit_code JDefs.EXI_ARG = 2
    /\ Main.main Main.Diff JDefs.EXI_OK 1 0 = 1.
Proof.
  intros m. eexists _, _. split; [vm_compute; reflexivity|].
  repeat split.
Qed.

(** ** The byte verifier of the match table *)

Section CheckFacts.

Import JMatchTable.

Context {F : Type} `{JFile.ops F}.

Lemma check_loop_total (fuel : nat) (aiGld : Z) (aiSft : eAhead) :
  forall (fo fn : F) (lcOrg lcNew liEql azPosOrg azPosNew aiLen : Z),
    0 <= liEql ->
    check_measure liEql aiLen <= Z.of_nat fuel ->
    is_Some (check_loop fuel aiGld aiSft fo fn lcOrg lcNew liEql
               azPosOrg azPosNew aiLen).
Proof.
  induction fuel as [|fuel IH]; intros fo fn lcOrg lcNew e po pn len He Hm.
  - cbn [check_loop]. destruct (Z.ltb_spec e EQLMAX); [|eauto].
    exfalso. unfold check_measure, EQLMAX in *.
    destruct (0 <? len) eqn:E; [apply Z.ltb_lt in E|]; lia.
  - cbn [check_loop]. destruct (Z.ltb_spec e EQLMAX) as [Hlt|]; [|eauto].
    destruct (JFile.get fo po aiSft) as [lcO fo1].
    destruct (lcO <? 0); [eauto|].
    destruct (JFile.get fn pn aiSft) as [lcN fn1].
    destruct (lcN <? 0); [eauto|].
    assert (Hstep : forall e1, 0 <= e1 <= e + 1 ->
               (e1 = e + 1 \/ 0 < len) ->
               check_measure e1 (len - 1) <= Z.of_nat fuel).
    { intros e1 He1 Hc. unfold check_measure, EQLMAX in *.
      destruct (Z.ltb_spec 0 len), (Z.ltb_spec 0 (len - 1)); lia. }
    destruct (lcO =? lcN).
    + apply IH; [lia|]. apply Hstep; lia.
    + destruct (e >=? EQLSZE); [eauto|].
      destruct (Z.leb_spec len 0); [eauto|].
      apply IH; [lia|]. apply Hstep; lia.
Qed.

(** The loop of [check] always ends within the rounds granted. *)
Lemma check_runs (fo fn : F) (azPosOrg azPosNew aiLen aiGld : Z)
  (aiSft : eAhead) :
  exists r,
    check_loop (check_fuel aiLen) aiGld aiSft fo fn 0 0 0
      azPosOrg azPosNew aiLen = Some r
    /\ check fo fn azPosOrg azPosNew aiLen aiGld aiSft = check_result r.
Proof.
  destruct (check_loop_total (check_fuel aiLen) aiGld aiSft fo fn 0 0 0
              azPosOrg azPosNew aiLen) as [r Hr]; [lia| |].
  - unfold check_measure, check_fuel, EQLMAX.
    destruct (Z.ltb_spec 0 aiLen); lia.
  - exists r. split; [exact Hr|]. unfold check. now rewrite Hr.
Qed.

End CheckFacts.

Section CheckLogged.

Import JMatchTable.

Context {F : Type} `{JFile.ops F}.

Variables (aiGld : Z) (aiSft : eAhead) (o n len0 : Z).

Lemma run_log_snoc (bs : list Z) (p b : Z) :
  run_log p (bs ++ [b]) = run_log p bs ++ [(p + Z.of_nat (length bs), b)].
Proof.
  revert p. induction bs as [|a bs IH]; intros p; cbn [run_log app length].
  - now rewrite Z.add_0_r.
  - rewrite IH. replace (p + 1 + Z.of_nat (length bs)) with (p + Z.of_nat (S (length bs))) by lia. reflexivity.
Qed.

Lemma nonneg_log_no_eob (l : list (Z * Z)) : nonneg_log l -> ~ has_eob l.
Proof.
  intros Hl [p Hp]. unfold nonneg_log in Hl. rewrite Forall_forall in Hl.
  apply list_elem_of_In in Hp. specialize (Hl _ Hp). cbn in Hl.
  unfold JDefs.EOB, JDefs.EOF in Hl. lia.
Qed.

Lemma has_eob_cons (p v : Z) (l : list (Z * Z)) :
  nonneg_log l -> (v = JDefs.EOB <-> has_eob ((p, v) :: l)).
Proof.
  intros Hl. split.
  - intros ->. exists p. now left.
  - intros [q [Hq|Hq]]; [congruence|].
    exfalso. apply (nonneg_log_no_eob l Hl). now exists q.
Qed.

Lemma has_eob_cons_nonneg (p v : Z) (l : list (Z * Z)) :
  nonneg_log l -> 0 <= v -> nonneg_log ((p, v) :: l).
Proof. intros Hl Hv. constructor; [exact Hv | exact Hl]. Qed.

Lemma check_loop_logged (fuel : nat) :
  forall (fo fn : F) (lo ln : list (Z * Z))
         (lcOrg lcNew liEql azPosOrg azPosNew aiLen : Z) r,
    check_inv aiGld o n len0 lcOrg lcNew liEql azPosOrg azPosNew aiLen lo ln ->
    check_loop fuel aiGld aiSft (fo, lo) (fn, ln) lcOrg lcNew liEql
      azPosOrg azPosNew aiLen = Some r ->
    check_post aiGld o n len0 r.
Proof.
  induction fuel as [|fuel IH];
    intros fo fn lo ln lcO lcN e po pn len r
      (He & (bs & t_o & t_n & Hbs & Hnn & Hlo & Hln) & Hnlo & Hnln & HcO & HcN
       & Hlen & Hst & Horg) Hr;
    cbn [check_loop] in Hr;
    destruct (Z.ltb_spec e EQLMAX) as [Hlt|Hge].
  1: discriminate.
  1,3: (injection Hr as <-; unfold check_post; cbn [fst snd];
        split; [exact He|]; split;
        [exists bs, [], [], t_o, t_n; cbn [length app]; repeat split;
           auto with arith|];
        split; [split; [congruence | intros Hx;
                         now apply nonneg_log_no_eob in Hx]|];
        split; [split; [congruence | intros Hx;
                         now apply nonneg_log_no_eob in Hx]|];
        split; [exact Hst|];
        destruct (aiGld =? 0); lia).
  cbn [JFile.get logged_ops logged_get fst snd] in Hr.
  unfold logged_get in Hr. cbn [fst snd] in Hr.
  destruct (JFile.get fo po aiSft) as [vO fo1].
  destruct (Z.ltb_spec vO 0) as [HvO|HvO].
  { injection Hr as <-. unfold check_post; cbn [fst snd].
    split; [exact He|]. split.
    { exists bs, [(po, vO)], [], t_o, t_n. cbn [length app].
      repeat split; auto with arith. now rewrite Hlo. }
    split; [now apply has_eob_cons|].
    split; [split; [congruence | intros Hx;
                     now apply nonneg_log_no_eob in Hx]|].
    split; [exact Hst|]. destruct (aiGld =? 0); lia. }
  destruct (JFile.get fn pn aiSft) as [vN fn1].
  assert (Hnlo1 : nonneg_log ((po, vO) :: lo))
    by (now apply has_eob_cons_nonneg).
  assert (Hbreak : 0 <= vN -> check_post aiGld o n len0
            (vO, vN, e, po, pn, (fo1, (po, vO) :: lo), (fn1, (pn, vN) :: ln))).
  { intros HvN. unfold check_post; cbn [fst snd].
    split; [exact He|]. split.
    { exists bs, [(po, vO)], [(pn, vN)], t_o, t_n. cbn [length app].
      repeat split; auto with arith; [now rewrite Hlo | now rewrite Hln]. }
    split; [now apply has_eob_cons|].
    split; [now apply has_eob_cons|].
    split; [exact Hst|]. destruct (aiGld =? 0); lia. }
  destruct (Z.ltb_spec vN 0) as [HvN|HvN].
  { injection Hr as <-. unfold check_post; cbn [fst snd].
    split; [exact He|]. split.
    { exists bs, [(po, vO)], [(pn, vN)], t_o, t_n. cbn [length app].
      repeat split; auto with arith; [now rewrite Hlo | now rewrite Hln]. }
    split; [now apply has_eob_cons|].
    split; [now apply has_eob_cons|].
    split; [exact Hst|]. destruct (aiGld =? 0); lia. }
  assert (Hnln1 : nonneg_log ((pn, vN) :: ln))
    by (now apply has_eob_cons_nonneg).
  assert (HE : JDefs.EOB = -2) by reflexivity.
  destruct (Z.eqb_spec vO vN) as [Heq|Hne].
  { (* one more equal byte *)
    apply IH in Hr; [exact Hr|]. unfold check_inv.
    split; [lia|]. split.
    { exists (bs ++ [vO]), t_o, t_n.
      rewrite length_app, Forall_app. cbn [length].
      split; [lia|]. split; [split; [exact Hnn | now constructor]|].
      replace (po + 1 - (e + 1)) with (po - e) by lia.
      replace (pn + 1 - (e + 1)) with (pn - e) by lia.
      rewrite !run_log_snoc, !rev_unit, Hlo, Hln, Hbs, <- Heq. cbn [app].
      split; do 2 f_equal; lia. }
    repeat split; try assumption; try lia.
    destruct (aiGld =? 0); lia. }
  destruct (e >=? EQLSZE); [injection Hr as <-; now apply Hbreak|].
  destruct (Z.leb_spec len 0) as [Hl0|Hl0];
    [injection Hr as <-; now apply Hbreak|].
  (* the run is given up *)
  apply IH in Hr; [exact Hr|]. unfold check_inv.
  split; [unfold EQLMAX; lia|]. split.
  { exists [], ((po, vO) :: lo), ((pn, vN) :: ln). cbn [length run_log rev app].
    repeat split; auto. }
  repeat split; try assumption; try lia.
  destruct (Z.eqb_spec aiGld 0); cbn [negb]; lia.
Qed.

End CheckLogged.

(** *** The runs that [check] reads *)

Section RunFacts.

Lemma run_log_length (p : Z) (bs : list Z) :
  length (run_log p bs) = length bs.
Proof.
  revert p. induction bs as [|b bs IH]; intros p; cbn; [reflexivity|].
  now rewrite IH.
Qed.

Lemma run_log_values (p : Z) (bs : list Z) : map snd (run_log p bs) = bs.
Proof.
  revert p. induction bs as [|b bs IH]; intros p; cbn; [reflexivity|].
  now rewrite IH.
Qed.

Lemma snoc_split {A : Type} (X : list A) (x : A) (P R Q : list A) :
  X ++ [x] = P ++ R ++ Q ->
  (Q = [] /\ X ++ [x] = P ++ R)
  \/ (exists Q', Q = Q' ++ [x] /\ X = P ++ R ++ Q').
Proof.
  intros E. destruct Q as [|q Q _] using rev_ind.
  - left. rewrite app_nil_r in E. now split.
  - right. exists Q. rewrite !app_assoc in E.
    apply List.app_inj_tail in E as [E ->].
    split; [reflexivity|]. now rewrite app_assoc.
Qed.

Lemma run_snoc_split (X : list (Z * Z)) (x : Z * Z) (P : list (Z * Z))
  (p : Z) (bs : list Z) :
  X ++ [x] = P ++ run_log p bs ->
  bs = []
  \/ exists bs0 b,
       bs = bs0 ++ [b] /\ X = P ++ run_log p bs0
       /\ x = (p + Z.of_nat (length bs0), b).
Proof.
  intros E. destruct bs as [|b bs _] using rev_ind; [now left|right].
  rewrite run_log_snoc, app_assoc in E.
  apply List.app_inj_tail in E as [-> ->]. now exists bs, b.
Qed.

(** A run at the end of two logs that each have one more read. *)
Lemma matched_run_end (x y : Z * Z) (lo ln : list (Z * Z)) (po pn : Z)
  (bs : list Z) :
  matched_run (x :: lo) (y :: ln) po pn bs [] [] ->
  bs = []
  \/ exists bs0 b,
       bs = bs0 ++ [b] /\ matched_run lo ln po pn bs0 [] []
       /\ snd x = b /\ snd y = b /\ 0 <= b.
Proof.
  intros (Hnn & pre_o & pre_n & Hl & Eo & En).
  cbn [rev] in Eo, En. rewrite app_nil_r in Eo, En.
  apply run_snoc_split in Eo as [->|(bs0 & b & -> & Eo & ->)]; [now left|].
  apply run_snoc_split in En as [En|(bs1 & b1 & En & En1 & ->)].
  { now destruct bs0. }
  apply List.app_inj_tail in En as [<- <-].
  right. exists bs0, b. apply Forall_app in Hnn as [Hnn Hb].
  split; [reflexivity|]. split.
  - split; [exact Hnn|]. exists pre_o, pre_n. now rewrite !app_nil_r.
  - split; [reflexivity|]. split; [reflexivity|].
    now apply Forall_inv in Hb.
Qed.

(** A run in two logs that each have one more read. *)
Lemma matched_run_post (x y : Z * Z) (lo ln : list (Z * Z)) (po pn : Z)
  (bs : list Z) (post_o post_n : list (Z * Z)) :
  length lo = length ln ->
  matched_run (x :: lo) (y :: ln) po pn bs post_o post_n ->
  (post_o = [] /\ post_n = [])
  \/ exists post_o' post_n',
       post_o = post_o' ++ [x] /\ post_n = post_n' ++ [y]
       /\ matched_run lo ln po pn bs post_o' post_n'.
Proof.
  intros Hlen (Hnn & pre_o & pre_n & Hl & Eo & En).
  cbn [rev] in Eo, En.
  pose proof (f_equal (@length _) Eo) as Lo.
  pose proof (f_equal (@length _) En) as Ln.
  rewrite !length_app, run_log_length, length_rev in Lo.
  rewrite !length_app, run_log_length, length_rev in Ln.
  cbn [length] in Lo, Ln.
  apply snoc_split in Eo as [[-> Eo]|(post_o' & -> & Eo)];
    apply snoc_split in En as [[-> En]|(post_n' & -> & En)].
  - now left.
  - rewrite length_app in Ln. cbn [length] in Lo, Ln. lia.
  - rewrite length_app in Lo. cbn [length] in Lo, Ln. lia.
  - right. exists post_o', post_n'. split; [reflexivity|].
    split; [reflexivity|]. split; [exact Hnn|]. now exists pre_o, pre_n.
Qed.

(** A run in two logs of which the first has one more read. *)
Lemma matched_run_org (x : Z * Z) (lo ln : list (Z * Z)) (po pn : Z)
  (bs : list Z) (post_o post_n : list (Z * Z)) :
  length lo = length ln ->
  matched_run (x :: lo) ln po pn bs post_o post_n ->
  exists post_o',
    post_o = post_o' ++ [x] /\ matched_run lo ln po pn bs post_o' post_n.
Proof.
  intros Hlen (Hnn & pre_o & pre_n & Hl & Eo & En).
  cbn [rev] in Eo.
  pose proof (f_equal (@length _) Eo) as Lo.
  pose proof (f_equal (@length _) En) as Ln.
  rewrite !length_app, run_log_length, length_rev in Lo.
  rewrite !length_app, run_log_length, length_rev in Ln.
  cbn [length] in Lo.
  apply snoc_split in Eo as [[-> Eo]|(post_o' & -> & Eo)].
  - cbn [length] in Lo. lia.
  - exists post_o'. split; [reflexivity|]. split; [exact Hnn|].
    now exists pre_o, pre_n.
Qed.

Lemma goes_on_snoc (n len : Z) (bs : list Z) (post_o post_n : list (Z * Z))
  (c_o c_n : list (Z * Z)) :
  goes_on n len bs post_o post_n ->
  goes_on n len bs (post_o ++ c_o) (post_n ++ c_n).
Proof.
  intros (Hk & p & a & ro & q & b & rn & -> & -> & Ha & Hb & Hc).
  split; [exact Hk|]. now exists p, a, (ro ++ c_o), q, b, (rn ++ c_n).
Qed.

End RunFacts.

Section CheckRuns.

Import JMatchTable.

Context {F : Type} `{JFile.ops F}.

Variables (aiGld : Z) (aiSft : eAhead) (o n len0 : Z).

(** A round that reads two equal bytes. *)
Lemma runs_inv_equal (e po pn len a : Z) (lo ln : list (Z * Z)) :
  check_runs_inv aiGld o n len0 e po pn len lo ln ->
  e < EQLMAX -> 0 <= a ->
  check_runs_inv aiGld o n len0 (e + 1) (po + 1) (pn + 1) (len - 1)
    ((po, a) :: lo) ((pn, a) :: ln).
Proof.
  intros (He & Hlen & Hbud & Hpn & Hposn & Hposo & Htail & Hmax & Hcov)
    Hlt Ha.
  assert (Hmax1 : forall po1 pn1 bs,
             matched_run ((po, a) :: lo) ((pn, a) :: ln) po1 pn1 bs [] [] ->
             Z.of_nat (length bs) <= e + 1).
  { intros po1 pn1 bs Hr.
    apply matched_run_end in Hr as [->|(bs0 & b & -> & Hr & _)];
      [cbn; lia|].
    apply Hmax in Hr. rewrite length_app. cbn [length]. lia. }
  split; [lia|]. split; [cbn [length]; lia|]. split; [lia|].
  split; [cbn [length]; lia|]. split.
  { cbn [rev]. rewrite map_app. cbn [map snd].
    rewrite run_log_snoc, <- Hposn, length_map, length_rev.
    do 3 f_equal. lia. }
  split.
  { intros Hg. destruct (Hposo Hg) as [Hpo Hro]. split; [cbn [length]; lia|].
    cbn [rev]. rewrite map_app. cbn [map snd].
    rewrite run_log_snoc, <- Hro, length_map, length_rev.
    do 3 f_equal. lia. }
  split.
  { destruct Htail as (bs & t_o & t_n & Hbs & Hnn & Ht & Hlo & Hln).
    exists (bs ++ [a]), t_o, t_n.
    rewrite length_app, Forall_app. cbn [length].
    split; [lia|]. split; [split; [exact Hnn | now constructor]|].
    split; [exact Ht|].
    replace (po + 1 - (e + 1)) with (po - e) by lia.
    replace (pn + 1 - (e + 1)) with (pn - e) by lia.
    rewrite !run_log_snoc, !rev_unit, Hlo, Hln, Hbs. cbn [app].
    split; do 2 f_equal; lia. }
  split; [exact Hmax1|].
  intros po1 pn1 bs post_o post_n Hr Hk.
  destruct (matched_run_post _ _ _ _ _ _ _ _ _ Hlen Hr)
    as [[-> ->]|(post_o' & post_n' & -> & -> & Hr1)].
  - left. apply Hmax1 in Hr. cbn [length]. split; [lia|].
    split; [reflexivity | constructor].
  - destruct (Hcov _ _ _ _ _ Hr1 Hk) as [[Hle [Hm Hp]]|Hgo].
    + left. rewrite length_app. cbn [length]. split; [lia|]. split.
      * rewrite !map_app, Hm. reflexivity.
      * apply Forall_app. split; [exact Hp|]. now repeat constructor.
    + right. now apply goes_on_snoc.
Qed.

(** A round that reads two bytes that differ, after which the scan goes
    on. *)
Lemma runs_inv_mismatch (e po pn len a b : Z) (lo ln : list (Z * Z)) :
  check_runs_inv aiGld o n len0 e po pn len lo ln ->
  0 <= a -> 0 <= b -> a <> b -> e < EQLSZE -> 0 < len ->
  check_runs_inv aiGld o n len0 0
    (if negb (aiGld =? 0) then po - e else po + 1) (pn + 1) (len - 1)
    ((po, a) :: lo) ((pn, b) :: ln).
Proof.
  intros (He & Hlen & Hbud & Hpn & Hposn & Hposo & Htail & Hmax & Hcov)
    Ha Hb Hne Hlt Hl.
  assert (Hmax1 : forall po1 pn1 bs,
             matched_run ((po, a) :: lo) ((pn, b) :: ln) po1 pn1 bs [] [] ->
             Z.of_nat (length bs) <= 0).
  { intros po1 pn1 bs Hr.
    apply matched_run_end in Hr as [->|(bs0 & c & -> & _ & Hx & Hy & _)];
      [cbn; lia|].
    cbn [snd] in Hx, Hy. congruence. }
  split; [unfold EQLMAX; lia|]. split; [cbn [length]; lia|]. split; [lia|].
  split; [cbn [length]; lia|]. split.
  { cbn [rev]. rewrite map_app. cbn [map snd].
    rewrite run_log_snoc, <- Hposn, length_map, length_rev.
    do 3 f_equal. lia. }
  split.
  { intros Hg. destruct (Hposo Hg) as [Hpo Hro]. rewrite Hg. cbn [negb Z.eqb].
    split; [cbn [length]; lia|].
    cbn [rev]. rewrite map_app. cbn [map snd].
    rewrite run_log_snoc, <- Hro, length_map, length_rev.
    do 3 f_equal. lia. }
  split.
  { exists [], ((po, a) :: lo), ((pn, b) :: ln).
    cbn [length run_log rev app]. repeat split; auto with zarith. }
  split; [exact Hmax1|].
  intros po1 pn1 bs post_o post_n Hr Hk.
  destruct (matched_run_post _ _ _ _ _ _ _ _ _ Hlen Hr)
    as [[-> ->]|(post_o' & post_n' & -> & -> & Hr1)].
  - apply Hmax1 in Hr. unfold EQLMIN in Hk. lia.
  - right. destruct (Hcov _ _ _ _ _ Hr1 Hk) as [[Hle [Hm Hp]]|Hgo];
      [|now apply goes_on_snoc].
    rewrite Nat2Z.inj_add in Hle.
    split; [lia|].
    destruct post_o' as [|[p1 a1] ro]; destruct post_n' as [|[q1 b1] rn];
      try discriminate.
    + exists po, a, [], pn, b, []. cbn [app]. repeat split; auto. right. lia.
    + cbn [map snd] in Hm. injection Hm as Hv Hm.
      apply Forall_inv in Hp. cbn [snd] in Hp.
      exists p1, a1, (ro ++ [(po, a)]), q1, b1, (rn ++ [(pn, b)]).
      cbn [app]. repeat split; auto; lia.
Qed.

Lemma runs_inv_budget (e po pn len : Z) (lo ln : list (Z * Z)) :
  check_runs_inv aiGld o n len0 e po pn len lo ln ->
  check_runs_inv aiGld o n len0 e po pn (n + len0 - pn) lo ln.
Proof.
  intros (He & Hlen & Hbud & Hrest).
  replace (n + len0 - pn) with len by lia.
  split; [exact He|]. split; [exact Hlen|]. split; [exact Hbud|]. exact Hrest.
Qed.

(** The loop of [check] keeps to the runs it reads. *)
Lemma check_loop_runs (fuel : nat) :
  forall (fo fn : F) (lo ln : list (Z * Z))
         (lcOrg lcNew liEql azPosOrg azPosNew aiLen : Z) r,
    check_runs_inv aiGld o n len0 liEql azPosOrg azPosNew aiLen lo ln ->
    check_loop fuel aiGld aiSft (fo, lo) (fn, ln) lcOrg lcNew liEql
      azPosOrg azPosNew aiLen = Some r ->
    check_runs_post aiGld o n len0 r.
Proof.
  induction fuel as [|fuel IH];
    intros fo fn lo ln lcO lcN e po pn len r HI Hr;
    cbn [check_loop] in Hr;
    destruct (Z.ltb_spec e EQLMAX) as [Hlt|Hge].
  1: discriminate.
  1,3: (injection Hr as <-; unfold check_runs_post; cbn [fst snd];
        exists [], [], lo, ln; split; [reflexivity|]; split; [reflexivity|];
        split; [left; repeat split; destruct HI as [He _]; lia
               | now apply runs_inv_budget with len]).
  cbn [JFile.get logged_ops logged_get fst snd] in Hr.
  unfold logged_get in Hr. cbn [fst snd] in Hr.
  destruct (JFile.get fo po aiSft) as [vO fo1].
  destruct (Z.ltb_spec vO 0) as [HvO|HvO].
  { injection Hr as <-. unfold check_runs_post; cbn [fst snd].
    exists [(po, vO)], [], lo, ln. split; [reflexivity|].
    split; [reflexivity|]. split; [|now apply runs_inv_budget with len].
    right; left. now exists vO. }
  destruct (JFile.get fn pn aiSft) as [vN fn1].
  assert (Hbreak : vN < 0
                   \/ (0 <= vN /\ vO <> vN
                       /\ (EQLSZE <= e \/ n + len0 <= pn)) ->
                   check_runs_post aiGld o n len0
                     (vO, vN, e, po, pn, (fo1, (po, vO) :: lo),
                      (fn1, (pn, vN) :: ln))).
  { intros Hc. unfold check_runs_post; cbn [fst snd].
    exists [(po, vO)], [(pn, vN)], lo, ln. split; [reflexivity|].
    split; [reflexivity|]. split; [|now apply runs_inv_budget with len].
    right; right. now exists vO, vN. }
  destruct (Z.ltb_spec vN 0) as [HvN|HvN].
  { injection Hr as <-. apply Hbreak. now left. }
  destruct (Z.eqb_spec vO vN) as [Heq|Hne].
  { apply IH in Hr; [exact Hr|]. subst vN. now apply runs_inv_equal. }
  destruct (Z.geb_spec e EQLSZE) as [Hsz|Hsz].
  { injection Hr as <-. apply Hbreak. right. repeat split; auto. }
  destruct (Z.leb_spec len 0) as [Hl0|Hl0].
  { injection Hr as <-. apply Hbreak. right. repeat split; auto.
    right. destruct HI as (_ & _ & Hbud & _). lia. }
  apply IH in Hr; [exact Hr|]. now apply runs_inv_mismatch.
Qed.

(** What the runs in the logs tell of the value of [liEql] at the end. *)
Lemma runs_post_iff (lcO lcN e po pn : Z) (flo fln : logged F) :
  check_runs_post aiGld o n len0 (lcO, lcN, e, po, pn, flo, fln) ->
  EQLMIN + 1 <= e
  <-> exists po1 pn1 bs post_o post_n,
        matched_run (snd flo) (snd fln) po1 pn1 bs post_o post_n
        /\ EQLMIN + 1 <= Z.of_nat (length bs)
        /\ ~ goes_on n len0 bs post_o post_n.
Proof.
  intros (c_o & c_n & lo & ln & -> & -> & Hstop & HI).
  destruct HI as (He & Hlen & Hbud & Hpn & Hposn & Hposo & Htail & Hmax
                  & Hcov).
  split.
  - intros Hk.
    destruct Htail as (bs & t_o & t_n & Hbs & Hnn & Ht & Hlo & Hln).
    exists (po - e), (pn - e), bs, (rev c_o), (rev c_n).
    split; [|split; [lia|]].
    + split; [exact Hnn|]. exists (rev t_o), (rev t_n).
      split; [now rewrite !length_rev|].
      rewrite Hlo, Hln, !rev_app_distr, !rev_involutive, <- !app_assoc.
      now split.
    + intros (Hsz & p & a & ro & q & b & rn & Eo & En & Ha & Hb & Hc).
      destruct Hstop as [(-> & _)|[(a1 & -> & _ & Ha1)
                                  |(a1 & b1 & -> & -> & _ & Hc1)]];
        cbn [rev app] in Eo, En; try discriminate.
      * injection Eo as _ <-. lia.
      * injection Eo as _ <-. injection En as <- <-.
        destruct Hc1 as [Hb1|(_ & Hne & [Hx|Hx])]; lia.
  - intros (po1 & pn1 & bs & post_o & post_n & Hr & Hk & Hkeep).
    assert (Hold : forall post_o' post_n' c_o' c_n',
               post_o = post_o' ++ c_o' -> post_n = post_n' ++ c_n' ->
               matched_run lo ln po1 pn1 bs post_o' post_n' ->
               EQLMIN + 1 <= e).
    { intros post_o' post_n' c_o' c_n' -> -> Hr1.
      destruct (Hcov _ _ _ _ _ Hr1 Hk) as [[Hle _]|Hgo].
      - rewrite Nat2Z.inj_add in Hle. lia.
      - contradiction Hkeep. now apply goes_on_snoc. }
    destruct Hstop as [(-> & -> & _)|[(a1 & -> & -> & Ha1)
                                     |(a1 & b1 & -> & -> & Ha1 & Hc1)]];
      cbn [app] in Hr.
    + apply (Hold post_o post_n [] []); try exact Hr;
        now rewrite app_nil_r.
    + apply matched_run_org in Hr as (post_o' & -> & Hr1); [|exact Hlen].
      apply (Hold post_o' post_n [(po, a1)] []); try exact Hr1;
        [reflexivity | now rewrite app_nil_r].
    + destruct (matched_run_post _ _ _ _ _ _ _ _ _ Hlen Hr)
        as [[-> ->]|(post_o' & post_n' & -> & -> & Hr1)].
      * apply matched_run_end in Hr
          as [->|(bs0 & c & -> & _ & Hx & Hy & Hc)].
        { unfold EQLMIN in Hk. cbn in Hk. lia. }
        cbn [snd] in Hx, Hy. subst a1 b1.
        destruct Hc1 as [Hb1|(_ & Hne & _)]; [lia | congruence].
      * now apply (Hold post_o' post_n' [(po, a1)] [(pn, b1)]).
Qed.

(** Why the loop has ended, and where it has read. *)
Lemma runs_post_stops (lcO lcN e po pn v : Z) (flo fln : logged F) :
  check_runs_post aiGld o n len0 (lcO, lcN, e, po, pn, flo, fln) ->
  (EQLMIN < e -> v = e) ->
  stops n len0 v (snd flo) (snd fln)
  /\ rev (snd fln) = run_log n (map snd (rev (snd fln)))
  /\ (aiGld = 0 -> rev (snd flo) = run_log o (map snd (rev (snd flo)))).
Proof.
  intros (c_o & c_n & lo & ln & -> & -> & Hstop & HI) Hv.
  destruct HI as (He & Hlen & Hbud & Hpn & Hposn & Hposo & _).
  assert (Hsnoc : forall (l : list (Z * Z)) (p0 p c : Z),
             rev l = run_log p0 (map snd (rev l)) ->
             p = p0 + Z.of_nat (length l) ->
             rev ((p, c) :: l) = run_log p0 (map snd (rev ((p, c) :: l)))).
  { intros l p0 p c Hl ->. cbn [rev]. rewrite map_app. cbn [map snd].
    now rewrite run_log_snoc, <- Hl, length_map, length_rev. }
  destruct Hstop as [(-> & -> & Hcap)|[(a1 & -> & -> & Ha1)
                                      |(a1 & b1 & -> & -> & Ha1 & Hc1)]];
    cbn [app].
  - split; [left; split; [unfold EQLMAX, EQLMIN in *; lia | exact Hlen]|].
    split; [exact Hposn|]. intros Hg. now apply Hposo.
  - split; [right; left; now exists po, a1, lo|].
    split; [exact Hposn|]. intros Hg. destruct (Hposo Hg) as [Hpo Hro].
    now apply Hsnoc.
  - split.
    { right; right. exists po, a1, lo, pn, b1, ln.
      split; [reflexivity|]. split; [reflexivity|]. split; [exact Hlen|].
      split; [exact Ha1|].
      destruct Hc1 as [Hb1|(Hb1 & Hne & [Hx|Hx])]; [now left|right|right];
        repeat split; auto.
      left. unfold EQLSZE, EQLMIN in *. lia. }
    split; [now apply Hsnoc|].
    intros Hg. destruct (Hposo Hg) as [Hpo Hro]. now apply Hsnoc.
Qed.

End CheckRuns.

Section CheckSpec.

Import JMatchTable.

Context {F : Type} `{JFile.ops F}.

(** Logging does not change what [check] does. *)
Lemma check_loop_erase (aiGld : Z) (aiSft : eAhead) (fuel : nat) :
  forall (fo fn : logged F) (lcOrg lcNew liEql azPosOrg azPosNew aiLen : Z),
    option_map erase_logs
      (check_loop fuel aiGld aiSft fo fn lcOrg lcNew liEql
         azPosOrg azPosNew aiLen)
    = check_loop fuel aiGld aiSft (fst fo) (fst fn) lcOrg lcNew liEql
        azPosOrg azPosNew aiLen.
Proof.
  induction fuel as [|fuel IH]; intros fo fn lcO lcN e po pn len;
    cbn [check_loop]; destruct (e <? EQLMAX); try reflexivity.
  cbn [JFile.get logged_ops]. unfold logged_get.
  destruct (JFile.get (fst fo) po aiSft) as [vO fo1].
  destruct (vO <? 0); [reflexivity|].
  destruct (JFile.get (fst fn) pn aiSft) as [vN fn1].
  destruct (vN <? 0); [reflexivity|].
  destruct (vO =? vN); [apply IH|].
  destruct (e >=? EQLSZE); [reflexivity|].
  destruct (len <=? 0); [reflexivity|].
  apply IH.
Qed.

Lemma check_erase (fo fn : logged F) (o n len aiGld : Z) (aiSft : eAhead) :
  let '(v, o1, n1, flo, fln) := check fo fn o n len aiGld aiSft in
  check (fst fo) (fst fn) o n len aiGld aiSft = (v, o1, n1, fst flo, fst fln).
Proof.
  destruct (check_runs fo fn o n len aiGld aiSft) as (r & Hr & ->).
  destruct (check_runs (fst fo) (fst fn) o n len aiGld aiSft)
    as (r1 & Hr1 & ->).
  pose proof (check_loop_erase aiGld aiSft (check_fuel len) fo fn 0 0 0 o n len)
    as He.
  rewrite Hr, Hr1 in He. cbn [option_map] in He. injection He as <-.
  destruct r as [[[[[[lcO lcN] e] po] pn] flo] fln].
  unfold check_result, erase_logs.
  destruct (e >? EQLMIN); [reflexivity|].
  destruct ((lcO =? JDefs.EOB) || (lcN =? JDefs.EOB)); reflexivity.
Qed.

(** The invariant of the runs holds when the loop is entered first. *)
Lemma runs_inv_start (o n len aiGld : Z) :
  check_runs_inv aiGld o n len 0 o n len [] [].
Proof.
  assert (Hnil : forall po pn bs post_o post_n,
             matched_run [] [] po pn bs post_o post_n -> bs = []).
  { intros po pn bs post_o post_n (_ & pre_o & pre_n & _ & Eo & _).
    cbn [rev] in Eo. symmetry in Eo.
    apply app_eq_nil in Eo as [_ Eo]. apply app_eq_nil in Eo as [Eo _].
    destruct bs; [reflexivity | discriminate]. }
  unfold check_runs_inv, EQLMAX. split; [lia|]. split; [reflexivity|].
  split; [lia|]. split; [cbn; lia|]. split; [reflexivity|].
  split; [intros _; split; [cbn; lia | reflexivity]|].
  split; [exists [], [], []; cbn; repeat split; auto|].
  split.
  - intros po pn bs Hr. apply Hnil in Hr as ->. cbn. lia.
  - intros po pn bs post_o post_n Hr Hk. apply Hnil in Hr as ->.
    unfold EQLMIN in Hk. cbn in Hk. lia.
Qed.

(** C1, as the code has it.  A call [check (o, n, len, aiGld, aiSft)] on
    two files whose reads are logged:
    - ends, and returns 0, CMPEOB or a value in EQLMIN+1 .. EQLMAX, never a
      value in 1 .. EQLMIN;
    - returns a value [v >= EQLMIN + 1] if and only if a run of more than
      EQLMIN equal bytes was read and matched after which the scan did not
      go on; the scan goes on after a run of fewer than EQLSZE bytes only,
      when the next two bytes are equal (the run is longer) or differ
      while budget is left (the destination file is read before
      [n + len]): such a run is given up;
    - when it returns [v >= EQLMIN + 1], the same [v] bytes were read from
      both files at the positions [o1 ..] and [n1 ..] it returns, and they
      are the last reads of the call but for at most one read that ended
      the loop; the run starts within the budget, [n <= n1 <= n + len], at
      the same offset in both files for a colliding match and at [o] for
      a gliding one;
    - it returns CMPEOB exactly when the run it ends with has at most
      EQLMIN bytes and one of the two files has returned EOB;
    - it reads the destination file at [n], [n + 1], ... (and the source
      file at [o], [o + 1], ... for a colliding match), a byte of each
      file in every round, and stops only when EQLMAX equal bytes are
      counted, when a read returns a negative value, or at two bytes that
      differ after a run of EQLSZE bytes or more or with no budget left. *)
Theorem check_spec (fo fn : F) (o n len aiGld : Z) (aiSft : eAhead) :
  let '(v, o1, n1, flo, fln) :=
    check (F := logged F) (fo, []) (fn, []) o n len aiGld aiSft in
  is_Some (check_loop (check_fuel len) aiGld aiSft fo fn 0 0 0 o n len)
  /\ (v = 0 \/ v = CMPEOB \/ EQLMIN + 1 <= v <= EQLMAX)
  /\ (EQLMIN + 1 <= v <->
      exists po pn bs post_o post_n,
        matched_run (snd flo) (snd fln) po pn bs post_o post_n
        /\ EQLMIN + 1 <= Z.of_nat (length bs)
        /\ ~ goes_on n len bs post_o post_n)
  /\ (EQLMIN + 1 <= v ->
      (exists bs p_o p_n t_o t_n,
          Z.of_nat (length bs) = v
          /\ Forall (fun b => 0 <= b) bs
          /\ (length p_o <= 1)%nat /\ (length p_n <= 1)%nat
          /\ snd flo = p_o ++ rev (run_log o1 bs) ++ t_o
          /\ snd fln = p_n ++ rev (run_log n1 bs) ++ t_n)
      /\ n <= n1 <= n + Z.max len 0
      /\ (if aiGld =? 0 then o1 - n1 = o - n else o1 = o))
  /\ (v = CMPEOB <->
      v <= EQLMIN /\ (has_eob (snd flo) \/ has_eob (snd fln)))
  /\ stops n len v (snd flo) (snd fln)
  /\ rev (snd fln) = run_log n (map snd (rev (snd fln)))
  /\ (aiGld = 0 -> rev (snd flo) = run_log o (map snd (rev (snd flo)))).
Proof.
  destruct (check_runs (F := logged F) (fo, []) (fn, []) o n len aiGld aiSft)
    as (r & Hr & ->).
  assert (Hinv : check_inv aiGld o n len 0 0 0 o n len [] []).
  { unfold check_inv, EQLMAX. split; [lia|]. split.
    { exists [], [], []. cbn. repeat split; auto. }
    unfold nonneg_log. repeat split; auto; try discriminate; try lia.
    destruct (aiGld =? 0); lia. }
  pose proof (check_loop_logged aiGld aiSft o n len _ fo fn [] [] 0 0 0 o n
                len r Hinv Hr) as Hpost.
  pose proof (check_loop_runs aiGld aiSft o n len _ fo fn [] [] 0 0 0 o n
                len r (runs_inv_start o n len aiGld) Hr) as Hruns.
  destruct r as [[[[[[lcO lcN] e] po] pn] flo] fln].
  pose proof (runs_post_iff aiGld o n len lcO lcN e po pn flo fln Hruns)
    as Hiff.
  unfold check_post in Hpost.
  destruct Hpost as (He & Hrun & HeO & HeN & Hst & Horg).
  unfold check_result.
  assert (HC : CMPEOB = -3) by reflexivity.
  assert (HM : EQLMIN = 4) by reflexivity.
  assert (Htot : is_Some (check_loop (check_fuel len) aiGld aiSft fo fn
                            0 0 0 o n len)).
  { apply check_loop_total; [lia|].
    unfold check_measure, check_fuel, EQLMAX.
    destruct (Z.ltb_spec 0 len); lia. }
  destruct (Z.gtb_spec e EQLMIN) as [Hgt|Hle].
  - destruct (runs_post_stops aiGld o n len lcO lcN e po pn e flo fln Hruns
                ltac:(auto)) as (Hs1 & Hs2 & Hs3).
    split; [exact Htot|].
    split; [right; right; lia|]. split; [exact Hiff|]. split.
    { intros _. split; [exact Hrun|]. split; [exact Hst|].
      destruct (aiGld =? 0); lia. }
    split; [split; [lia | intros [Hv _]; lia]|].
    split; [exact Hs1|]. split; [exact Hs2 | exact Hs3].
  - assert (Hno : forall v, v <= EQLMIN ->
               (EQLMIN + 1 <= v <->
                exists po1 pn1 bs post_o post_n,
                  matched_run (snd flo) (snd fln) po1 pn1 bs post_o post_n
                  /\ EQLMIN + 1 <= Z.of_nat (length bs)
                  /\ ~ goes_on n len bs post_o post_n)).
    { intros v Hv. split; [lia|]. intros Hx. apply Hiff in Hx. lia. }
    destruct ((lcO =? JDefs.EOB) || (lcN =? JDefs.EOB)) eqn:Eob.
    + destruct (runs_post_stops aiGld o n len lcO lcN e po pn CMPEOB flo fln
                  Hruns ltac:(lia)) as (Hs1 & Hs2 & Hs3).
      split; [exact Htot|]. split; [auto|].
      split; [apply Hno; lia|]. split; [lia|].
      split.
      { split; [|reflexivity]. intros _. split; [lia|].
        apply orb_true_iff in Eob. destruct Eob as [E|E];
          apply Z.eqb_eq in E; [left; now apply HeO | right; now apply HeN]. }
      split; [exact Hs1|]. split; [exact Hs2 | exact Hs3].
    + destruct (runs_post_stops aiGld o n len lcO lcN e po pn 0 flo fln
                  Hruns ltac:(lia)) as (Hs1 & Hs2 & Hs3).
      split; [exact Htot|]. split; [auto|].
      split; [apply Hno; lia|]. split; [lia|].
      split.
      { split; [lia|]. intros [_ Hx]. exfalso.
        apply orb_false_iff in Eob. destruct Eob as [E1 E2].
        apply Z.eqb_neq in E1, E2.
        destruct Hx as [Hx|Hx]; [apply HeO in Hx | apply HeN in Hx];
          congruence. }
      split; [exact Hs1|]. split; [exact Hs2 | exact Hs3].
Qed.

End CheckSpec.

(** Eight equal bytes after a mismatch: the run is found one byte further
    on, and the log shows its bytes. *)
Lemma check_spec_witness :
  let '(v, o1, n1, flo, fln) :=
    JMatchTable.check (F := logged (list Z))
      ([1; 2; 3; 4; 5; 6; 7; 8; 9], []) ([0; 2; 3; 4; 5; 6; 7; 8; 9], [])
      0 0 1024 0 JFile.HardAhead in
  (v, o1, n1) = (8, 1, 1)
  /\ exists bs p_o p_n t_o t_n,
       Z.of_nat (length bs) = v
       /\ Forall (fun b => 0 <= b) bs
       /\ (length p_o <= 1)%nat /\ (length p_n <= 1)%nat
       /\ snd flo = p_o ++ rev (run_log o1 bs) ++ t_o
       /\ snd fln = p_n ++ rev (run_log n1 bs) ++ t_n.
Proof.
  pose proof (check_spec (F := list Z)
                [1; 2; 3; 4; 5; 6; 7; 8; 9] [0; 2; 3; 4; 5; 6; 7; 8; 9]
                0 0 1024 0 JFile.HardAhead) as Hs.
  destruct (JMatchTable.check (F := logged (list Z))
      ([1; 2; 3; 4; 5; 6; 7; 8; 9], []) ([0; 2; 3; 4; 5; 6; 7; 8; 9], [])
      0 0 1024 0 JFile.HardAhead) as [[[[v o1] n1] flo] fln] eqn:E.
  vm_compute in E. injection E as <- <- <- <- <-.
  split; [reflexivity|].
  destruct Hs as (_ & _ & _ & Hrun & _).
  destruct Hrun as [Hrun _]; [unfold JMatchTable.EQLMIN; lia|].
  exact Hrun.
Defined.

(** C1, as stated, fails.  The two files start with the same five bytes,
    then differ.  [check] reads and matches these EQLMIN + 1 bytes well
    within its budget of 1024, gives the run up at the mismatch, because
    the run is shorter than EQLSZE and budget is left, and returns 0 at the
    end of the source file. *)
Lemma check_spec_counterexample :
  let '(v, o1, n1, flo, fln) :=
    JMatchTable.check (F := logged (list Z))
      ([65; 66; 67; 68; 69; 88], []) ([65; 66; 67; 68; 69; 89], [])
      0 0 1024 0 JFile.HardAhead in
  v = 0
  /\ rev (snd flo)
     = run_log 0 [65; 66; 67; 68; 69] ++ [(5, 88); (6, JDefs.EOF)]
  /\ rev (snd fln) = run_log 0 [65; 66; 67; 68; 69] ++ [(5, 89)].
Proof. vm_compute. repeat split. Qed.

(** ** The buffered reader *)

Section ReaderFacts.

Import JFileAhead.

Context {U : Type} `{sys U}.

Lemma jchar_val_range (b : Byte.byte) : 0 <= jchar_val b < 256.
Proof.
  unfold jchar_val. pose proof (Byte.to_N_bounded b). lia.
Qed.

Lemma peek_not_eob (s : t U) (p : Z) : peek s p <> JDefs.EOB.
Proof.
  unfold peek. pose proof (jchar_val_range
    (default Byte.x00 (mpBuf s !! Z.to_nat p))).
  unfold JDefs.EOB, JDefs.EOF. lia.
Qed.

(** The three operations on the buffer never answer [EndOfBuffer]. *)
Lemma do_append_not_eob (s s1 : t U) (azPos : Z) (r : eBufDne) :
  do_append s azPos = Some (r, s1) -> r <> EndOfBuffer.
Proof.
  unfold do_append.
  destruct (readblocks _ _ _ _ _ _) as [[[[d a] z] s2]|]; [|discriminate].
  destruct (d =? JDefs.EOF); intros [= <- _]; discriminate.
Qed.

Lemma do_reset_not_eob (s s1 : t U) (azPos : Z) (r : eBufDne) :
  do_reset s azPos = Some (r, s1) -> r <> EndOfBuffer.
Proof.
  unfold do_reset.
  destruct (jseek _ _) as [c fil].
  destruct (negb (c =? JDefs.EXI_OK)).
  - intros [= <- _]; discriminate.
  - apply do_append_not_eob.
Qed.

Lemma do_scrollback_not_eob (s s1 : t U) (azPos : Z) (r : eBufDne) :
  do_scrollback s azPos = Some (r, s1) -> r <> EndOfBuffer.
Proof.
  unfold do_scrollback.
  destruct (Z.quot azPos (miBlkSze s) * miBlkSze s
            >? mpInp s) eqn:E0; cbv zeta.
  all: repeat match goal with
       | |- context [let '(_, _) := ?x in _] =>
           let p := fresh in destruct x as [? ?] eqn:p
       | |- context [match ?x with Some _ => _ | None => _ end] =>
           destruct x as [[[[? ?] ?] ?]|]
       | |- context [if ?b then _ else _] => destruct b
       end; intros [=]; subst; discriminate.
Qed.

Lemma get_fromfile_eob (s s1 : t U) (azPos : Z) (aiSft : eAhead)
  (r : eBufDne) :
  get_fromfile s azPos aiSft = Some (r, s1) ->
  (r = EndOfBuffer <-> get_fromfile_prep s azPos aiSft = inl EndOfBuffer).
Proof.
  unfold get_fromfile.
  destruct (get_fromfile_prep s azPos aiSft) as [d|[| |]] eqn:E.
  - intros [= <- _]. split; congruence.
  - intros Hr. apply do_append_not_eob in Hr. split; [tauto|discriminate].
  - intros Hr. apply do_reset_not_eob in Hr. split; [tauto|discriminate].
  - intros Hr. apply do_scrollback_not_eob in Hr.
    split; [tauto|discriminate].
Qed.

Lemma prep_eob_read (s : t U) (azPos : Z) :
  get_fromfile_prep s azPos Read <> inl EndOfBuffer.
Proof.
  unfold get_fromfile_prep.
  repeat match goal with
         | |- context [if ?b then _ else _] => destruct b
         end; discriminate.
Qed.

Lemma prep_eob_soft (s : t U) (azPos : Z) :
  get_fromfile_prep s azPos SoftAhead = inl EndOfBuffer
  <-> (azPos < mzPosInp s - miBufUsd s
       \/ mzPosInp s + mlBufSze s <= azPos
       \/ mzPosBse s + mlBufSze s - miBlkSze s < azPos).
Proof.
  unfold get_fromfile_prep.
  destruct (Z.ltb_spec azPos (mzPosInp s - miBufUsd s)); [tauto|].
  rewrite Z.geb_leb, Z.gtb_ltb.
  destruct (Z.leb_spec (mzPosInp s + mlBufSze s) azPos); [tauto|].
  destruct (Z.ltb_spec (mzPosBse s + mlBufSze s - miBlkSze s) azPos);
    [tauto|].
  split; [discriminate | lia].
Qed.

Lemma prep_eob_hard (s : t U) (azPos : Z) :
  get_fromfile_prep s azPos HardAhead = inl EndOfBuffer
  <-> (mbSeq s = true /\ azPos < mzPosInp s - miBufUsd s).
Proof.
  unfold get_fromfile_prep.
  destruct (Z.ltb_spec azPos (mzPosInp s - miBufUsd s)).
  - destruct (mbSeq s); [tauto|].
    destruct (_ >? _); split; try discriminate; intros [? _]; discriminate.
  - destruct (_ >=? _); split; try discriminate; lia.
Qed.

(** [get] answers EOB exactly when the request reaches [get_fromfile] and
    its preparation decides so. *)
Lemma get_eob (s s1 : t U) (azPos v : Z) (aiSft : eAhead) :
  get s azPos aiSft = Some (v, s1) ->
  (v = JDefs.EOB <->
   needs_file s azPos
   /\ get_fromfile_prep s azPos aiSft = inl EndOfBuffer).
Proof.
  assert (HE : JDefs.EOB = -2) by reflexivity.
  unfold get, needs_file, served_fast, at_eof, in_buffer.
  destruct ((azPos =? mzPosRed s) && (miRedSze s >? 0)) eqn:Efast.
  { intros [= <- _]. apply andb_true_iff in Efast as [E1 E2].
    apply Z.eqb_eq in E1. apply Z.gtb_lt in E2.
    split; [intros Hx; now apply peek_not_eob in Hx | tauto]. }
  assert (Hnf : ~ (azPos = mzPosRed s /\ 0 < miRedSze s)).
  { intros [E1 E2]. apply Z.eqb_eq in E1. apply Z.gtb_lt in E2.
    rewrite E1, E2 in Efast. discriminate. }
  unfold get_frombuffer, getbuf. rewrite Z.geb_leb.
  destruct (Z.leb_spec (mzPosEof s) azPos) as [Heof|Heof].
  { intros [= <- _]. split; [discriminate | tauto]. }
  destruct ((azPos <? mzPosInp s) && (azPos >=? mzPosInp s - miBufUsd s))
    eqn:Ebuf.
  { apply andb_true_iff in Ebuf as [E1 E2].
    apply Z.ltb_lt in E1. rewrite Z.geb_leb in E2. apply Z.leb_le in E2.
    destruct (getbuf_addr s azPos) as [lpDta azLen].
    intros [= <- _]. split; [intros Hx; now apply peek_not_eob in Hx | lia]. }
  assert (Hnb : ~ (mzPosInp s - miBufUsd s <= azPos < mzPosInp s)).
  { intros [E1 E2]. apply Z.ltb_lt in E2. apply Z.leb_le in E1.
    rewrite <- Z.geb_leb in E1. rewrite E1, E2 in Ebuf. discriminate. }
  destruct (get_fromfile s azPos aiSft) as [[r s2]|] eqn:Eff; [|discriminate].
  pose proof (get_fromfile_eob _ _ _ _ _ Eff) as Hr.
  destruct r.
  - destruct (getbuf_addr s2 azPos) as [lpDta azLen]. intros [= <- _].
    split; [intros Hx; now apply peek_not_eob in Hx|].
    intros [_ Hp]. apply Hr in Hp. discriminate.
  - intros [= <- _]. split; [discriminate|].
    intros [_ Hp]. apply Hr in Hp. discriminate.
  - intros [= <- _]. split; [intros _; split; [lia | now apply Hr]|].
    reflexivity.
  - intros [= <- _]. split; [discriminate|].
    intros [_ Hp]. apply Hr in Hp. discriminate.
  - intros [= <- _]. split; [discriminate|].
    intros [_ Hp]. apply Hr in Hp. discriminate.
Qed.

(** [readblocks] ends when the blocks have a size and fit the buffer. *)
Lemma readblocks_ok (fuel : nat) :
  forall (s : t U) (liDne apInp azInp azEnd : Z),
    0 < miBlkSze s <= mlBufSze s ->
    apInp <= mlBufSze s ->
    0 <= miBufUsd s ->
    azEnd - azInp + 1 <= Z.of_nat fuel ->
    exists d a z s1,
      readblocks fuel s liDne apInp azInp azEnd = Some (d, a, z, s1)
      /\ a <= mlBufSze s /\ azInp <= z /\ 0 <= miBufUsd s1
      /\ miBlkSze s1 = miBlkSze s /\ mlBufSze s1 = mlBufSze s
      /\ mpInp s1 = mpInp s /\ mzPosInp s1 = mzPosInp s
      /\ mbSeq s1 = mbSeq s.
Proof.
  induction fuel as [|fuel IH]; intros s liDne apInp azInp azEnd HB Ha Hu Hf.
  - cbn [readblocks]. destruct (Z.leb_spec azInp azEnd); [lia|].
    eexists _, _, _, _. split; [reflexivity|].
    destruct (miBufUsd s >? mlBufSze s); cbn; repeat split; lia.
  - cbn [readblocks]. destruct (Z.leb_spec azInp azEnd) as [Hle|Hgt].
    2:{ eexists _, _, _, _. split; [reflexivity|].
        destruct (miBufUsd s >? mlBufSze s); cbn; repeat split; lia. }
    set (pt := if apInp =? mlBufSze s then (0, miBlkSze s)
               else if mlBufSze s - apInp <? miBlkSze s
                    then (apInp, mlBufSze s - apInp)
                    else (apInp, miBlkSze s)).
    assert (Hpt : 0 < snd pt /\ fst pt + snd pt <= mlBufSze s).
    { subst pt. destruct (Z.eqb_spec apInp (mlBufSze s)); cbn [fst snd];
        [lia|].
      destruct (Z.ltb_spec (mlBufSze s - apInp) (miBlkSze s)); cbn [fst snd];
        lia. }
    destruct pt as [a1 liTdo]. cbn [fst snd] in Hpt.
    destruct (jread (mpFil s) liTdo) as [bs fil].
    set (bs1 := take (Z.to_nat liTdo) bs).
    assert (Hbs : 0 <= Z.of_nat (length bs1) <= liTdo).
    { subst bs1. rewrite length_take. lia. }
    cbn [miBufUsd set_mpFil set_mpBuf set_miBufUsd set_mzPosEof mlBufSze
         mzPosEof miBlkSze mpFil mpBuf].
    destruct (Z.ltb_spec (Z.of_nat (length bs1)) liTdo) as [Hshort|Hfull].
    + destruct (miBufUsd s + Z.of_nat (length bs1) >? mlBufSze s) eqn:Ec;
        cbn [miBufUsd set_mpFil set_mpBuf set_miBufUsd set_mzPosEof mlBufSze
             mzPosEof miBlkSze mpFil mpBuf];
        destruct (azEnd >=? azInp + Z.of_nat (length bs1));
        eexists _, _, _, _; (split; [reflexivity|]);
        cbn; repeat split; lia.
    + edestruct (IH (set_miBufUsd (miBufUsd s + Z.of_nat (length bs1))
                       (set_mpFil fil
                          (set_mpBuf (poke (mpBuf s) a1 bs1) s)))
                   (Z.of_nat (length bs1)) (a1 + Z.of_nat (length bs1))
                   (azInp + Z.of_nat (length bs1)) azEnd)
        as (d & a & z & s1 & Hr & H1 & H2 & H3 & H4 & H5 & H6 & H7 & H8);
        cbn; try lia.
      exists d, a, z, s1. split; [exact Hr|]. cbn in *.
      repeat split; try lia; congruence.
Qed.

Lemma do_append_ok (s : t U) (azPos : Z) :
  valid s -> exists r s1, do_append s azPos = Some (r, s1) /\ valid s1.
Proof.
  intros (HB & Ha & Hu & Hp). unfold do_append.
  destruct (readblocks_ok (readblocks_fuel (mzPosInp s) azPos) s 0
              (mpInp s) (mzPosInp s) azPos HB Ha Hu)
    as (d & a & z & s1 & -> & H1 & H2 & H3 & H4 & H5 & H6 & H7 & H8).
  { unfold readblocks_fuel. lia. }
  assert (Hv : valid (set_mzPosInp z (set_mpInp a s1))).
  { unfold valid; cbn. rewrite H4, H5. lia. }
  destruct (d =? JDefs.EOF); eauto.
Qed.

Lemma quot_block (a b : Z) :
  0 <= a -> 0 < b ->
  0 <= Z.quot a b * b <= a /\ a < Z.quot a b * b + b.
Proof.
  intros Ha Hb.
  pose proof (Z.mul_quot_le a b Ha ltac:(lia)).
  pose proof (Z.mul_succ_quot_gt a b Ha Hb).
  lia.
Qed.

Lemma do_reset_ok (s : t U) (azPos : Z) :
  valid s -> 0 <= azPos ->
  (mbSeq s = true -> mlBufSze s <= azPos) ->
  exists r s1, do_reset s azPos = Some (r, s1) /\ valid s1.
Proof.
  intros (HB & Ha & Hu & Hp) Hpos Hseq. unfold do_reset.
  set (s1 := if negb (mbSeq s) then _ else _).
  assert (Hs1 : miBlkSze s1 = miBlkSze s /\ mlBufSze s1 = mlBufSze s
                /\ 0 <= mzPosInp s1).
  { subst s1. destruct (mbSeq s); cbn [negb]; cbn; repeat split.
    - specialize (Hseq eq_refl).
      apply (quot_block (azPos - mlBufSze s + miBlkSze s) (miBlkSze s)); lia.
    - apply (quot_block azPos (miBlkSze s)); lia. }
  destruct Hs1 as (E1 & E2 & E3).
  cbn [mzPosInp set_miBufUsd set_mzPosBse set_mpInp mpFil].
  destruct (jseek (mpFil s1) (mzPosInp s1)) as [c fil].
  match goal with
  | |- context [if _ then Some (SeekError, ?x) else _] =>
      assert (Hv : valid x) by (unfold valid; cbn; rewrite E1, E2; lia)
  end.
  destruct (negb (c =? JDefs.EXI_OK)); [eauto|].
  apply do_append_ok. unfold valid; cbn. rewrite E1, E2. lia.
Qed.

Lemma do_scrollback_ok (s : t U) (azPos : Z) :
  valid s -> 0 <= azPos ->
  azPos < mzPosInp s - miBufUsd s ->
  azPos + mlBufSze s - miBlkSze s > mzPosInp s - miBufUsd s ->
  exists r s1, do_scrollback s azPos = Some (r, s1)
               /\ (r <> ReadError -> valid s1).
Proof.
  intros (HB & Ha & Hu & Hp) Hpos Hlt Hgt. unfold do_scrollback.
  destruct (quot_block azPos (miBlkSze s) Hpos ltac:(lia)) as [Hq1 Hq2].
  generalize dependent (Z.quot azPos (miBlkSze s) * miBlkSze s).
  intros lzPos Hq1 Hq2.
  set (st := if mzPosInp s - lzPos >? mlBufSze s then _ else _).
  assert (Hst : snd st = snd st /\ fst st <= mlBufSze s
                /\ miBlkSze (snd st) = miBlkSze s
                /\ mlBufSze (snd st) = mlBufSze s
                /\ mpInp (snd st) <= mlBufSze s
                /\ 0 <= miBufUsd (snd st) /\ 0 <= mzPosInp (snd st)).
  { subst st.
    destruct (Z.gtb_spec (mzPosInp s - lzPos) (mlBufSze s));
      destruct (Z.gtb_spec (mzPosInp s - lzPos) (mpInp s));
      cbn [fst snd mpInp mlBufSze miBlkSze miBufUsd mzPosInp
           set_miBufUsd set_mzPosInp set_mpInp];
      try destruct (Z.gtb_spec (mzPosInp s - lzPos - mlBufSze s) (mpInp s));
      cbn [fst snd mpInp mlBufSze miBlkSze miBufUsd mzPosInp
           set_miBufUsd set_mzPosInp set_mpInp];
      repeat split; lia. }
  destruct st as [lpInp s1]. cbn [fst snd] in Hst.
  destruct Hst as (_ & HlI & E1 & E2 & HI & HU & HP).
  destruct (jseek (mpFil s1) lzPos) as [c fil].
  assert (Hv1 : valid (set_mpFil fil s1))
    by (unfold valid; cbn; rewrite E1, E2; lia).
  destruct (negb (c =? JDefs.EXI_OK)); [eauto|].
  cbn [mzPosInp miBufUsd set_mlFabSek set_mpFil].
  edestruct (readblocks_ok
               (readblocks_fuel lzPos (mzPosInp s1 - miBufUsd s1 - 1))
               (set_mlFabSek (mlFabSek (set_mpFil fil s1) + 1)
                  (set_mpFil fil s1)) 0 lpInp lzPos
               (mzPosInp s1 - miBufUsd s1 - 1))
    as (d & a & z & s2 & -> & H1 & H2 & H3 & H4 & H5 & H6 & H7 & H8);
    cbn; try lia.
  { unfold readblocks_fuel. lia. }
  cbn in H1, H4, H5, H6, H7.
  destruct (d =? JDefs.EOF).
  { eexists _, _. split; [reflexivity|]. intros Hx. congruence. }
  destruct (jseek (mpFil s2) (mzPosInp s2)) as [c2 fil2].
  destruct (negb (c2 =? JDefs.EXI_OK));
    eexists _, _; (split; [reflexivity|]); intros _;
    unfold valid; cbn; rewrite ?H4, ?H5, ?H6, ?H7, ?E1, ?E2; lia.
Qed.

Lemma get_fromfile_ok (s : t U) (azPos : Z) (aiSft : eAhead) :
  valid s -> 0 <= azPos ->
  exists r s1, get_fromfile s azPos aiSft = Some (r, s1)
               /\ (r <> ReadError -> valid s1).
Proof.
  intros Hv Hpos. pose proof Hv as (HB & Ha & Hu & Hp).
  unfold get_fromfile, get_fromfile_prep.
  destruct (Z.ltb_spec azPos (mzPosInp s - miBufUsd s)) as [H1|H1].
  - assert (Hnon : exists r s1,
               (if mbSeq s
                then match aiSft with
                     | HardAhead => Some (EndOfBuffer, s)
                     | _ => Some (SeekError, s)
                     end
                else match
                    (if azPos + mlBufSze s - miBlkSze s
                        >? mzPosInp s - miBufUsd s
                     then inr Scrollback else inr Reset : eBufDne + eBufOpr)
                  with
                  | inl r => Some (r, s)
                  | inr Reset => do_reset s azPos
                  | inr Append => do_append s azPos
                  | inr Scrollback => do_scrollback s azPos
                  end) = Some (r, s1) /\ (r <> ReadError -> valid s1)).
    { destruct (mbSeq s) eqn:Eseq.
      - destruct aiSft; eauto.
      - destruct (Z.gtb_spec (azPos + mlBufSze s - miBlkSze s)
                    (mzPosInp s - miBufUsd s)).
        + apply do_scrollback_ok; auto; lia.
        + destruct (do_reset_ok s azPos Hv Hpos) as (r & s1 & Hr & Hv1);
            [congruence|]. eauto. }
    destruct aiSft; [| |eauto];
      destruct (mbSeq s); try exact Hnon;
      destruct (_ >? _); exact Hnon.
  - rewrite Z.geb_leb.
    destruct (Z.leb_spec (mzPosInp s + mlBufSze s) azPos) as [H2|H2].
    + destruct aiSft; [| |eauto];
        (destruct (do_reset_ok s azPos Hv Hpos) as (r & s1 & Hr & Hv1);
         [lia | eauto]).
    + destruct aiSft;
        try (destruct (do_append_ok s azPos Hv) as (r & s1 & Hr & Hv1);
             now eauto).
      destruct (_ >? _); [eauto|].
      destruct (do_append_ok s azPos Hv) as (r & s1 & Hr & Hv1). eauto.
Qed.

(** [get] ends on every valid state and leaves a valid state behind,
    unless a scrollback fails on a read error. *)
Lemma get_ok (s : t U) (azPos : Z) (aiSft : eAhead) :
  valid s -> 0 <= azPos ->
  exists v s1, get s azPos aiSft = Some (v, s1)
               /\ (v <> JDefs.EXI_RED -> valid s1).
Proof.
  intros Hv Hpos. unfold get.
  destruct ((azPos =? mzPosRed s) && (miRedSze s >? 0)).
  { eexists _, _. split; [reflexivity|]. intros _. exact Hv. }
  unfold get_frombuffer, getbuf.
  destruct (azPos >=? mzPosEof s).
  { eexists _, _. split; [reflexivity|]. intros _. exact Hv. }
  destruct ((azPos <? mzPosInp s) && (azPos >=? mzPosInp s - miBufUsd s)).
  { destruct (getbuf_addr s azPos) as [lpDta azLen].
    eexists _, _. split; [reflexivity|]. intros _. exact Hv. }
  destruct (get_fromfile_ok s azPos aiSft Hv Hpos) as (r & s1 & -> & Hv1).
  destruct r; try destruct (getbuf_addr s1 azPos) as [lpDta azLen];
    eexists _, _; (split; [reflexivity|]); intros Hx;
    try (apply Hv1; discriminate); congruence.
Qed.

(** C5, as the code has it.  On a valid state of the reader, a call
    [get (azPos, aiSft)] ends, and
    - in mode Read it never returns EOB;
    - in mode SoftAhead it returns EOB exactly when the position is served
      neither by the fast path, nor by the known end of file, nor from the
      buffer, and it lies before the first buffered position, or a whole
      buffer beyond the input position, or beyond [base + W - B];
    - in mode HardAhead it returns EOB exactly when the position is not
      served from memory either, the file is sequential and the position
      lies before the first buffered position.
    The state stays valid, but for a read error during a scrollback. *)
Theorem get_eob_spec (s : t U) (azPos : Z) :
  valid s -> 0 <= azPos ->
  (forall aiSft, exists v s1, get s azPos aiSft = Some (v, s1))
  /\ (forall v s1, get s azPos Read = Some (v, s1) -> v <> JDefs.EOB)
  /\ (forall v s1, get s azPos SoftAhead = Some (v, s1) ->
        (v = JDefs.EOB <->
         needs_file s azPos
         /\ (azPos < mzPosInp s - miBufUsd s
             \/ mzPosInp s + mlBufSze s <= azPos
             \/ mzPosBse s + mlBufSze s - miBlkSze s < azPos)))
  /\ (forall v s1, get s azPos HardAhead = Some (v, s1) ->
        (v = JDefs.EOB <->
         needs_file s azPos
         /\ mbSeq s = true /\ azPos < mzPosInp s - miBufUsd s))
  /\ (forall aiSft v s1, get s azPos aiSft = Some (v, s1) ->
        v <> JDefs.EXI_RED -> valid s1).
Proof.
  intros Hv Hpos. refine (conj _ (conj _ (conj _ (conj _ _)))).
  - intros m. destruct (get_ok s azPos m Hv Hpos) as (v & s1 & Hg & _).
    eauto.
  - intros v s1 Hg Hx. apply (get_eob _ _ _ _ _ Hg) in Hx as [_ Hx].
    now apply prep_eob_read in Hx.
  - intros v s1 Hg. rewrite (get_eob _ _ _ _ _ Hg), prep_eob_soft.
    reflexivity.
  - intros v s1 Hg. rewrite (get_eob _ _ _ _ _ Hg), prep_eob_hard.
    reflexivity.
  - intros m v s1 Hg Hx.
    destruct (get_ok s azPos m Hv Hpos) as (v' & s1' & Hg' & Hv').
    rewrite Hg in Hg'. injection Hg' as <- <-. now apply Hv'.
Qed.

End ReaderFacts.

(** A file of ten bytes behind a buffer of four bytes in blocks of two. *)
Lemma get_eob_spec_witness :
  exists v s1,
    JFileAhead.get
      (JFileAhead.create
         ([Byte.x30; Byte.x31; Byte.x32; Byte.x33; Byte.x34; Byte.x35;
          Byte.x36; Byte.x37; Byte.x38; Byte.x39], 0)
         4 2 false (2 ^ 63 - 1) [Byte.x00; Byte.x00; Byte.x00; Byte.x00])
      0 JFile.SoftAhead = Some (v, s1).
Proof.
  refine (proj1 (get_eob_spec _ 0 _ _) JFile.SoftAhead).
  - unfold valid; cbn; lia.
  - lia.
Defined.

(** C5, as stated, fails for SoftAhead.  After four bytes have been read
    in mode Read the buffer of four bytes holds the positions 0 to 3 and
    the base is still 0: position 3 lies beyond [base + W - B = 2], and a
    soft read of it returns its byte (51, the digit 3), not EOB. *)
Lemma get_eob_spec_counterexample :
  match
    gets
      (JFileAhead.create
         ([Byte.x30; Byte.x31; Byte.x32; Byte.x33; Byte.x34; Byte.x35;
          Byte.x36; Byte.x37; Byte.x38; Byte.x39], 0)
         4 2 false (2 ^ 63 - 1) [Byte.x00; Byte.x00; Byte.x00; Byte.x00])
      [(0, JFile.Read); (1, JFile.Read); (2, JFile.Read); (3, JFile.Read)]
  with
  | Some s =>
      3 > JFileAhead.mzPosBse s + JFileAhead.mlBufSze s
          - JFileAhead.miBlkSze s
      /\ option_map fst (JFileAhead.get s 3 JFile.SoftAhead) = Some 51
      /\ 51 <> JDefs.EOB
  | None => False
  end.
Proof. vm_compute. repeat split; discriminate. Qed.

(** ** The lists of the match table *)

Section ListFacts.

Import JMatchTable.

(** Links changed at [z] only. *)
Lemma chain_upd (nx : nat -> ptr) (z : nat) (v : ptr) (l : list nat) :
  forall p, chain nx p l -> z ∉ l -> chain (upd nx z v) p l.
Proof.
  induction l as [|i l IH]; intros p Hc Hz; cbn [chain] in *; [exact Hc|].
  destruct Hc as [-> Hc]. apply not_elem_of_cons in Hz as [Hzi Hz].
  split; [reflexivity|].
  unfold upd at 2. destruct (Nat.eqb_spec i z) as [->|Hne]; [done|].
  now apply IH.
Qed.

Lemma chain_ext (nx nx1 : nat -> ptr) (l : list nat) :
  (forall i, nx1 i = nx i) -> forall p, chain nx p l -> chain nx1 p l.
Proof.
  intros He. induction l as [|i l IH]; intros p Hc; cbn [chain] in *;
    [exact Hc|].
  destruct Hc as [-> Hc]. split; [reflexivity|]. rewrite He. now apply IH.
Qed.

Lemma linked_upd (nx : nat -> ptr) (z : nat) (v : ptr) (l : list nat) :
  forall i, linked nx i l -> z ∉ removelast (i :: l) ->
            linked (upd nx z v) i l.
Proof.
  induction l as [|j l IH]; intros i Hl Hz; cbn [linked] in *; [exact I|].
  destruct Hl as [Hij Hl].
  change (removelast (i :: j :: l)) with (i :: removelast (j :: l)) in Hz.
  apply not_elem_of_cons in Hz as [Hzi Hz]. split.
  - unfold upd. destruct (Nat.eqb_spec i z) as [->|Hne]; [done | exact Hij].
  - now apply IH.
Qed.

Lemma linked_ext (nx nx1 : nat -> ptr) (l : list nat) :
  (forall i, nx1 i = nx i) -> forall i, linked nx i l -> linked nx1 i l.
Proof.
  intros He. induction l as [|j l IH]; intros i Hl; cbn [linked] in *;
    [exact I|].
  destruct Hl as [Hij Hl]. split; [now rewrite He | now apply IH].
Qed.

Lemma newlist_ext (nx nx1 : nat -> ptr) (pn pl : ptr) (l : list nat) :
  (forall i, nx1 i = nx i) -> newlist nx pn pl l -> newlist nx1 pn pl l.
Proof.
  intros He. destruct l as [|i l]; cbn [newlist]; [auto|].
  intros (Hn & Hl & Hp). repeat split; auto. now apply linked_ext with nx.
Qed.

Lemma last_cons (l : list nat) (i j : nat) :
  List.last (j :: l) i = List.last l j.
Proof.
  revert i j. induction l as [|k l IH]; intros i j; [reflexivity|].
  change (List.last (j :: k :: l) i) with (List.last (k :: l) i).
  rewrite IH. symmetry. apply IH.
Qed.

Lemma last_snoc (l : list nat) (i c : nat) : List.last (l ++ [c]) i = c.
Proof.
  revert i. induction l as [|k l IH]; intros i; [reflexivity|].
  cbn [app]. rewrite last_cons. apply IH.
Qed.

(** One more record at the end. *)
Lemma linked_snoc (nx : nat -> ptr) (c : nat) (l : list nat) :
  forall i, linked nx i l -> nx (List.last l i) = Some c ->
            linked nx i (l ++ [c]).
Proof.
  induction l as [|j l IH]; intros i Hl Hc; cbn [linked app] in *.
  - split; [exact Hc | exact I].
  - destruct Hl as [Hij Hl]. split; [exact Hij|]. apply IH; [exact Hl|].
    now rewrite last_cons in Hc.
Qed.

(** A list that ends on [null] is a list of linked records. *)
Lemma chain_linked (nx : nat -> ptr) (l : list nat) :
  forall i, chain nx (Some i) (i :: l) ->
            linked nx i l /\ nx (List.last l i) = None.
Proof.
  induction l as [|j l IH]; intros i [_ Hc]; cbn [chain linked] in *.
  - split; [exact I | exact Hc].
  - destruct Hc as [Hij Hc]. destruct (IH j (conj eq_refl Hc)) as [Hl Hn].
    split; [split; [exact Hij | exact Hl]|].
    now rewrite last_cons.
Qed.

(** Linked records whose last one points to another list. *)
Lemma linked_chain (nx : nat -> ptr) (l l2 : list nat) :
  forall i, linked nx i l -> chain nx (nx (List.last l i)) l2 ->
            chain nx (Some i) (i :: l ++ l2).
Proof.
  induction l as [|j l IH]; intros i Hl Hc; cbn [linked chain app] in *.
  - split; [reflexivity | exact Hc].
  - destruct Hl as [Hij Hl]. split; [reflexivity|]. rewrite Hij.
    apply IH; [exact Hl|]. now rewrite last_cons in Hc.
Qed.

Lemma last_in (l : list nat) (i : nat) : List.last l i ∈ i :: l.
Proof.
  revert i. induction l as [|j l IH]; intros i; [apply list_elem_of_here|].
  apply list_elem_of_further. rewrite last_cons. apply IH.
Qed.

Lemma removelast_in (l : list nat) (x : nat) : x ∈ removelast l -> x ∈ l.
Proof.
  induction l as [|a l IH]; [done|].
  destruct l as [|b l]; [intros Hx; inversion Hx|].
  change (removelast (a :: b :: l)) with (a :: removelast (b :: l)).
  intros [->|Hin]%elem_of_cons;
    [apply list_elem_of_here | apply list_elem_of_further; now apply IH].
Qed.

Lemma last_not_in_removelast (l : list nat) (i : nat) :
  NoDup (i :: l) -> List.last l i ∉ removelast (i :: l).
Proof.
  revert i. induction l as [|j l IH]; intros i Hnd; [apply not_elem_of_nil|].
  change (removelast (i :: j :: l)) with (i :: removelast (j :: l)).
  apply NoDup_cons in Hnd as [Hi Hnd1].
  rewrite last_cons. apply not_elem_of_cons. split.
  - intros Heq. apply Hi. rewrite <- Heq. apply last_in.
  - now apply IH.
Qed.

(** A list without a record twice is no longer than the pool. *)
Lemma NoDup_bounded (l : list nat) (n : nat) :
  NoDup l -> (forall i, i ∈ l -> (i < n)%nat) -> (length l <= n)%nat.
Proof.
  intros Hnd Hb.
  rewrite <- (List.length_seq n 0).
  apply submseteq_length, NoDup_submseteq; [exact Hnd|].
  intros i Hi. apply elem_of_seq. specialize (Hb i Hi). lia.
Qed.

End ListFacts.

(** ** The invariant of the match table *)

(** Goals on the fields of a state after some assignments. *)
Ltac field_tac :=
  intros; unfold nxt, JMatchTable.modify, JMatchTable.upd; cbn;
  rewrite ?Nat.eqb_refl;
  repeat match goal with
         | |- context [Nat.eqb ?a ?b] =>
             let E := fresh "E" in
             destruct (Nat.eqb a b) eqn:E;
             [apply Nat.eqb_eq in E | apply Nat.eqb_neq in E]
         end;
  cbn; try reflexivity; try congruence.

Ltac same_tac := repeat split; field_tac.


Section TableInvariant.

Import JMatchTable.

Context {F : Type} `{JFile.ops F}.
Variable sizeof_hkey : Z.

Lemma same_lists_refl (s : t F) : same_lists s s.
Proof. unfold same_lists. tauto. Qed.

Lemma same_chains_refl (s : t F) : same_chains s s.
Proof. unfold same_chains. tauto. Qed.

Lemma frame_refl (s : t F) : frame s s.
Proof. split; [apply same_lists_refl | apply same_chains_refl]. Qed.

Lemma same_lists_trans (s s1 s2 : t F) :
  same_lists s s1 -> same_lists s1 s2 -> same_lists s s2.
Proof.
  unfold same_lists. intros (A1 & A2 & A3 & A4 & A5 & A6)
    (B1 & B2 & B3 & B4 & B5 & B6).
  repeat split; try congruence; intros i; now rewrite B6.
Qed.

Lemma same_chains_trans (s s1 s2 : t F) :
  same_chains s s1 -> same_chains s1 s2 -> same_chains s s2.
Proof.
  unfold same_chains.
  intros (A1 & A2 & A3 & A4 & A5 & A6 & A7 & A8 & A9 & A10 & A11 & A12)
    (B1 & B2 & B3 & B4 & B5 & B6 & B7 & B8 & B9 & B10 & B11 & B12).
  repeat split; try congruence; intros i;
    rewrite ?B4, ?B5, ?B6, ?B7, ?B8, ?B9, ?B10, ?B11, ?B12; auto.
Qed.

Lemma frame_trans (s s1 s2 : t F) : frame s s1 -> frame s1 s2 -> frame s s2.
Proof.
  intros [A1 A2] [B1 B2].
  split; [now apply same_lists_trans with s1
         | now apply same_chains_trans with s1].
Qed.

(** A field of a record changed by [modify] with a setter of another
    field. *)
Lemma modify_other {A : Type} (f : rMch -> A) (g : rMch -> rMch) (s : t F)
  (c i : nat) :
  (forall r, f (g r) = f r) -> f (msMch (modify s c g) i) = f (msMch s i).
Proof.
  intros Hg. unfold modify, upd. cbn.
  destruct (Nat.eqb_spec i c) as [->|Hne]; [apply Hg | reflexivity].
Qed.

Lemma modify_at (g : rMch -> rMch) (s : t F) (c : nat) :
  msMch (modify s c g) c = g (msMch s c).
Proof. unfold modify, upd. cbn. now rewrite Nat.eqb_refl. Qed.

Lemma modify_away (g : rMch -> rMch) (s : t F) (c i : nat) :
  i <> c -> msMch (modify s c g) i = msMch s i.
Proof.
  intros Hne. unfold modify, upd. cbn.
  now destruct (Nat.eqb_spec i c).
Qed.

(** [modify] with a setter that keeps the links and the count. *)
Lemma frame_modify (s : t F) (c : nat) (g : rMch -> rMch) :
  (forall r, ipNxt (g r) = ipNxt r) -> (forall r, ipCol (g r) = ipCol r) ->
  (forall r, ipGld (g r) = ipGld r) -> (forall r, iiCnt (g r) = iiCnt r) ->
  (forall r, iiGld (g r) = iiGld r) -> (forall r, izDlt (g r) = izDlt r) ->
  (forall r, izOrg (g r) = izOrg r) -> (forall r, izBeg (g r) = izBeg r) ->
  frame s (modify s c g).
Proof.
  intros H1 H2 H3 H4 H5 H6 H7 H8. split.
  - repeat split; try reflexivity. intros i. now apply modify_other.
  - same_tac.
Qed.

Lemma frame_iiCmp (s : t F) (c : nat) (v : Z) :
  frame s (modify s c (set_iiCmp v)).
Proof. now apply frame_modify. Qed.

Lemma frame_izTst (s : t F) (c : nat) (v : Z) :
  frame s (modify s c (set_izTst v)).
Proof. now apply frame_modify. Qed.

Lemma frame_mpBst (s : t F) (v : ptr) : frame s (set_mpBst v s).
Proof. split; repeat split. Qed.

Lemma frame_mzBstNew (s : t F) (v : Z) : frame s (set_mzBstNew v s).
Proof. split; repeat split. Qed.

Lemma frame_mzBstOrg (s : t F) (v : Z) : frame s (set_mzBstOrg v s).
Proof. split; repeat split. Qed.

Lemma frame_miBstCmp (s : t F) (v : Z) : frame s (set_miBstCmp v s).
Proof. split; repeat split. Qed.

Lemma frame_mzOld (s : t F) (v : Z) : frame s (set_mzOld v s).
Proof. split; repeat split. Qed.

Lemma frame_mpFilOrg (s : t F) (v : F) : frame s (set_mpFilOrg v s).
Proof. split; repeat split. Qed.

Lemma frame_mpFilNew (s : t F) (v : F) : frame s (set_mpFilNew v s).
Proof. split; repeat split. Qed.

Lemma frame_miRlb (s : t F) (v : Z) : frame s (set_miRlb v s).
Proof. split; repeat split. Qed.

Lemma frame_miHshRpr (s : t F) (v : Z) : frame s (set_miHshRpr v s).
Proof. split; repeat split. Qed.

Ltac frame_step :=
  match goal with
  | |- frame ?s ?s => apply frame_refl
  | |- frame ?s (modify ?s1 _ _) =>
      apply frame_trans with s1; [|now apply frame_modify]
  | |- frame ?s (set_mpBst _ ?s1) =>
      apply frame_trans with s1; [|apply frame_mpBst]
  | |- frame ?s (set_mzBstNew _ ?s1) =>
      apply frame_trans with s1; [|apply frame_mzBstNew]
  | |- frame ?s (set_mzBstOrg _ ?s1) =>
      apply frame_trans with s1; [|apply frame_mzBstOrg]
  | |- frame ?s (set_miBstCmp _ ?s1) =>
      apply frame_trans with s1; [|apply frame_miBstCmp]
  | |- frame ?s (set_mzOld _ ?s1) =>
      apply frame_trans with s1; [|apply frame_mzOld]
  | |- frame ?s (set_mpFilOrg _ ?s1) =>
      apply frame_trans with s1; [|apply frame_mpFilOrg]
  | |- frame ?s (set_mpFilNew _ ?s1) =>
      apply frame_trans with s1; [|apply frame_mpFilNew]
  | |- frame ?s (set_miRlb _ ?s1) =>
      apply frame_trans with s1; [|apply frame_miRlb]
  | |- frame ?s (set_miHshRpr _ ?s1) =>
      apply frame_trans with s1; [|apply frame_miHshRpr]
  | |- frame ?s (if ?b then _ else _) => destruct b
  end.

Ltac frame_tac := repeat frame_step.

Lemma isBest_eob_frame (s : t F) (c : nat) (o n cmp : Z) :
  frame s (snd (isBest_eob s c o n cmp)).
Proof.
  unfold isBest_eob.
  destruct (cmp <=? CMPEOB); [|apply frame_refl].
  cbv zeta.
  repeat match goal with
         | |- context [let '(_, _) := (if ?b then _ else _) in _] => destruct b
         end; cbn [snd]; frame_tac.
Qed.

Lemma isBest_elect_frame (s : t F) (c : nat) (cnt cmp n : Z) :
  frame s (isBest_elect s c cnt cmp n).
Proof.
  unfold isBest_elect. destruct (mpBst s); [|frame_tac].
  cbv zeta. frame_tac.
Qed.

Lemma isBest_frame (s : t F) (c : nat) (r o n cmp : Z) :
  frame s (snd (isBest s c r o n cmp)).
Proof.
  unfold isBest.
  pose proof (isBest_eob_frame s c o n cmp) as He.
  destruct (isBest_eob s c o n cmp) as [[[[cnt1 cmp1] n1] o1] s1].
  cbn [snd] in *.
  apply frame_trans with s1; [exact He|].
  destruct (cmp1 >? 0); [|apply frame_refl].
  pose proof (isBest_elect_frame s1 c cnt1 cmp1 n1) as Hs.
  apply frame_trans with (isBest_elect s1 c cnt1 cmp1 n1); [exact Hs|].
  cbv zeta.
  destruct (ptr_eqb (mpBst (isBest_elect s1 c cnt1 cmp1 n1)) (Some c));
    frame_tac.
Qed.

Lemma isGoodOrBest_frame (s : t F) (r : Z) (c : nat) :
  frame s (snd (isGoodOrBest s r c)).
Proof.
  unfold isGoodOrBest.
  destruct (calcPosOrg s c r) as [[g o] n].
  cbv zeta.
  match goal with
  | |- context [let '(_, _) := ?e in _] =>
      assert (Hf : frame s (snd e)); [|destruct e as [[[cmp1 o1] n1] s1]]
  end.
  - destruct (n <=? izTst (msMch s c)).
    { destruct g; apply frame_refl. }
    destruct (negb g && (iiCmp (msMch s c) >? 0)
              && (izTst (msMch s c) - n + iiCmp (msMch s c) >? EQLMIN));
      [apply frame_refl|].
    match goal with
    | |- context [check ?a ?b ?c ?d ?e ?f ?g] =>
        destruct (check a b c d e f g) as [[[[cmp2 o2] n2] fo] fn]
    end.
    cbn [snd]. frame_tac.
  - cbn [snd] in Hf.
    match goal with
    | |- context [isBest ?a ?b ?c ?d ?e ?f] =>
        pose proof (isBest_frame a b c d e f) as Hb;
        destruct (isBest a b c d e f) as [b1 s2]
    end.
    cbn [snd] in *. now apply frame_trans with s1.
Qed.

Lemma isGoodOrBest_verdict (s : t F) (r : Z) (c : nat) :
  match fst (isGoodOrBest s r c) with
  | Invalid | Valid | Good | Best => True
  | _ => False
  end.
Proof.
  unfold isGoodOrBest.
  destruct (calcPosOrg s c r) as [[g o] n].
  cbv zeta.
  match goal with
  | |- context [let '(_, _) := ?e in _] =>
      destruct e as [[[cmp1 o1] n1] s1]
  end.
  match goal with
  | |- context [isBest ?a ?b ?c ?d ?e ?f] =>
      destruct (isBest a b c d e f) as [b1 s2]
  end.
  cbn [fst]. unfold verdict.
  repeat match goal with |- context [if ?b then _ else _] => destruct b end;
    exact I.
Qed.


(** *** The invariant under changes that it does not look at *)

Lemma Lists_same (s s1 : t F) (lo ln : list nat) :
  same_lists s s1 -> Lists s lo ln -> Lists s1 lo ln.
Proof.
  intros (E1 & E2 & E3 & E4 & E5 & E6) (Ho & Hn & Hd & Ha).
  unfold Lists. rewrite E3, E4, E5. split; [|split; [|split]].
  - apply chain_ext with (nxt s); [exact E6 | exact Ho].
  - apply newlist_ext with (nxt s); [exact E6 | exact Hn].
  - exact Hd.
  - intros i Hi. unfold alloc. rewrite E1, E2. now apply Ha.
Qed.

Lemma alloc_same (s s1 : t F) (i : nat) :
  miMchSze s1 = miMchSze s -> miMchFre s1 = miMchFre s ->
  alloc s i -> alloc s1 i.
Proof. unfold alloc. intros -> ->. auto. Qed.

Lemma Closed_same (s s1 : t F) : same_chains s s1 -> Closed s -> Closed s1.
Proof.
  intros (E1 & E2 & E3 & E4 & E5 & E6 & E7 & E8 & _) (C1 & C2 & C3 & C4).
  unfold Closed, alloc in *. rewrite E1, E2.
  split; [|split; [|split]].
  - intros b i Hb. rewrite E4 in Hb. now apply (C1 b i).
  - intros b i Hb. rewrite E5 in Hb. now apply (C2 b i).
  - intros i j Hi Hj. rewrite E6 in Hj. now apply (C3 i j).
  - intros i j Hi Hj. rewrite E7 in Hj. now apply (C4 i j).
Qed.

Lemma Counted_same (s s1 : t F) : same_chains s s1 -> Counted s -> Counted s1.
Proof.
  intros (E1 & E2 & E3 & E4 & E5 & E6 & E7 & E8 & _) Hc i Hi.
  rewrite E8. apply Hc. unfold alloc in *. now rewrite <- E1, <- E2.
Qed.

(** The lists are no longer than the pool. *)
Lemma Lists_length (s : t F) (lo ln : list nat) :
  Lists s lo ln -> (length lo + length ln <= miMchSze s)%nat.
Proof.
  intros (_ & _ & Hd & Ha). rewrite <- length_app.
  apply NoDup_bounded; [exact Hd|]. intros i Hi. apply (Ha i Hi).
Qed.

(** *** The operations on the two lists *)

Lemma addNew_spec (s : t F) (c : nat) (lo ln : list nat) :
  Lists s lo ln -> c ∉ lo ++ ln -> alloc s c ->
  exists s1, addNew s c = Some s1
             /\ Lists s1 lo (ln ++ [c])
             /\ same_chains s s1
             /\ mpOld s1 = mpOld s
             /\ (forall i, iiCmp (msMch s1 i) = iiCmp (msMch s i))
             /\ (forall i, mpLst s <> Some i \/ mpNew s = None ->
                           nxt s1 i = nxt s i).
Proof.
  intros (Ho & Hn & Hd & Ha) Hc Hac. unfold addNew.
  destruct ln as [|n ln]; cbn [newlist] in Hn.
  - rewrite Hn. eexists. split; [reflexivity|].
    split; [|split; [repeat split | repeat split]].
    rewrite app_nil_r in *. split; [|split; [|split]]; cbn.
    + exact Ho.
    + auto.
    + apply NoDup_app. split; [exact Hd|]. split; [|apply NoDup_singleton].
      intros x Hx ->%list_elem_of_singleton. now apply Hc.
    + intros i [Hi| ->%list_elem_of_singleton]%elem_of_app;
        [now apply Ha | exact Hac].
  - destruct Hn as (Hn & Hl & Hp). rewrite Hn, Hp.
    set (z := List.last ln n) in *.
    assert (Hzin : z ∈ n :: ln) by apply last_in.
    assert (Hdn : NoDup (n :: ln)).
    { apply NoDup_app in Hd. tauto. }
    assert (Hzlo : z ∉ lo).
    { intros Hz. apply NoDup_app in Hd as (_ & Hd & _). now apply (Hd z). }
    eexists. split; [reflexivity|].
    split; [|split; [|split; [reflexivity|split]]].
    + split; [|split; [|split]].
      * apply chain_ext with (upd (nxt s) z (Some c)).
        { intros i. unfold nxt, modify, upd. cbn.
          now destruct (Nat.eqb_spec i z). }
        now apply chain_upd.
      * cbn. split; [exact Hn|]. split.
        -- apply linked_ext with (upd (nxt s) z (Some c)).
           { intros i. unfold nxt, modify, upd. cbn.
             now destruct (Nat.eqb_spec i z). }
           apply linked_snoc.
           ++ apply linked_upd; [exact Hl|].
              now apply last_not_in_removelast.
           ++ unfold upd. fold z. now rewrite Nat.eqb_refl.
        -- f_equal. symmetry. apply last_snoc.
      * rewrite app_assoc. apply NoDup_app. split; [exact Hd|].
        split; [|apply NoDup_singleton].
        intros x Hx ->%list_elem_of_singleton. now apply Hc.
      * intros i Hi. rewrite app_assoc in Hi.
        apply elem_of_app in Hi as [Hi| ->%list_elem_of_singleton];
          [now apply Ha | exact Hac].
    + same_tac.
    + intros i. now apply modify_other.
    + intros i [Hi|Hi]; [|discriminate]. unfold nxt.
      cbn [msMch set_mpLst]. rewrite modify_away; [reflexivity|]. intros ->. now apply Hi.
Qed.

(** The head of the old list leaves it. *)
Lemma Lists_pop (s : t F) (o : nat) (lo ln : list nat) :
  Lists s (o :: lo) ln ->
  mpOld s = Some o /\ (o ∉ lo ++ ln) /\ alloc s o
  /\ Lists (set_mpOld (ipNxt (msMch s o)) s) lo ln.
Proof.
  intros ([Ho Hc] & Hn & Hd & Ha).
  change ((o :: lo) ++ ln) with (o :: (lo ++ ln)) in *.
  apply NoDup_cons in Hd as [Hd1 Hd2].
  split; [exact Ho|]. split; [exact Hd1|].
  split; [apply Ha; apply list_elem_of_here|].
  split; [exact Hc|]. split; [exact Hn|]. split; [exact Hd2|].
  intros i Hi. apply (Ha i). now apply list_elem_of_further.
Qed.

Lemma nextold_skip_spec (r : Z) :
  forall (lo : list nat) (fuel : nat) (s : t F) (ln : list nat),
    Lists s lo ln -> (length lo <= fuel)%nat ->
    exists s1 lo1 lo2,
      nextold_skip fuel s r = Some s1 /\ lo = lo1 ++ lo2
      /\ Lists s1 lo2 (ln ++ lo1) /\ same_chains s s1.
Proof.
  induction lo as [|o lo IH]; intros fuel s ln HL Hf.
  - exists s, [], []. rewrite !app_nil_r.
    split; [|split; [reflexivity|split; [exact HL|apply same_chains_refl]]].
    destruct HL as (Ho & _). cbn in Ho.
    destruct fuel; cbn [nextold_skip]; now rewrite Ho.
  - destruct fuel as [|fuel]; [cbn in Hf; lia|].
    cbn [nextold_skip].
    destruct (Lists_pop _ _ _ _ HL) as (Ho & Hni & Hal & HL1).
    rewrite Ho.
    destruct (isOld2Reuse s o r).
    + exists s, [], (o :: lo). rewrite app_nil_r.
      split; [reflexivity|]. split; [reflexivity|].
      split; [exact HL | apply same_chains_refl].
    + cbv zeta.
      destruct (addNew_spec _ o lo ln HL1 Hni Hal)
        as (s2 & E2 & HL2 & Hs2 & _).
      rewrite E2.
      destruct (IH fuel s2 (ln ++ [o]) HL2) as (s3 & lo1 & lo2 & E3 & El & HL3 & Hs3).
      { cbn in Hf. lia. }
      exists s3, (o :: lo1), lo2.
      split; [exact E3|]. split; [now rewrite El|].
      split; [now rewrite <- app_assoc in HL3|].
      apply same_chains_trans with s2; [|exact Hs3].
      apply same_chains_trans with (set_mpOld (ipNxt (msMch s o)) s);
        [repeat split | exact Hs2].
Qed.

Lemma join_spec (s : t F) (lo ln : list nat) :
  Lists s lo ln ->
  exists s1, join s = Some s1 /\ Lists s1 (ln ++ lo) []
             /\ same_chains s s1
             /\ (forall i, iiCmp (msMch s1 i) = iiCmp (msMch s i)).
Proof.
  intros (Ho & Hn & Hd & Ha). unfold join.
  destruct ln as [|n ln]; cbn [newlist] in Hn.
  - rewrite Hn. exists s. split; [reflexivity|].
    split; [|split; [apply same_chains_refl | reflexivity]].
    unfold Lists. cbn [app]. rewrite app_nil_r in Hd, Ha. rewrite app_nil_r.
    split; [exact Ho|]. split; [exact Hn|]. split; [exact Hd | exact Ha].
  - destruct Hn as (Hn & Hl & Hp). rewrite Hn, Hp.
    set (z := List.last ln n) in *.
    assert (Hdn : NoDup (n :: ln)).
    { apply NoDup_app in Hd. tauto. }
    assert (Hzlo : z ∉ lo).
    { intros Hz. apply NoDup_app in Hd as (_ & Hd & _).
      apply (Hd z Hz). apply last_in. }
    eexists. split; [reflexivity|].
    split; [|split].
    + unfold Lists. rewrite app_nil_r.
      split; [|split; [reflexivity|split]].
      * apply chain_ext with (upd (nxt s) z (mpOld s)).
        { intros i. unfold nxt, modify, upd. cbn.
          now destruct (Nat.eqb_spec i z). }
        change ((n :: ln) ++ lo) with (n :: ln ++ lo).
        apply linked_chain.
        -- apply linked_upd; [exact Hl|]. now apply last_not_in_removelast.
        -- fold z. unfold upd at 2. rewrite Nat.eqb_refl.
           now apply chain_upd.
      * apply NoDup_app. apply NoDup_app in Hd as (D1 & D2 & D3).
        split; [exact D3|]. split; [|exact D1].
        intros x Hx Hx2. now apply (D2 x).
      * intros i Hi. apply (Ha i). apply elem_of_app.
        apply elem_of_app in Hi. tauto.
    + same_tac.
    + intros i. now apply modify_other.
Qed.

Lemma nextold_inv_none (fuel : nat) (s : t F) :
  nextold_inv fuel s None = Some s.
Proof. now destruct fuel. Qed.

Lemma nextold_inv_stop (fuel : nat) (s : t F) (c : nat) :
  iiCmp (msMch s c) <> CMPINV -> nextold_inv fuel s (Some c) = Some s.
Proof.
  intros Hc. apply Z.eqb_neq in Hc. destruct fuel; cbn; now rewrite Hc.
Qed.

Lemma nextold_inv_spec :
  forall (rest : list nat) (fuel : nat) (s : t F) (done : list nat),
    mpOld s = None -> Lists s [] (rest ++ done) ->
    (forall i, i ∈ done -> iiCmp (msMch s i) <> CMPINV) ->
    (forall c, rest ++ done = [c] -> nxt s c = None) ->
    (length rest <= fuel)%nat ->
    exists s1 lo1 ln1,
      nextold_inv fuel s (mpNew s) = Some s1 /\ Lists s1 lo1 ln1
      /\ lo1 ++ ln1 ≡ₚ rest ++ done /\ same_chains s s1.
Proof.
  induction rest as [|c rest IH]; intros fuel s done HO HL Hdone Hsole Hf.
  - exists s, [], done. cbn [app] in *.
    split; [|split; [exact HL | split; [reflexivity|apply same_chains_refl]]].
    destruct HL as (_ & Hn & _).
    destruct done as [|d done]; cbn [newlist] in Hn.
    + rewrite Hn. apply nextold_inv_none.
    + destruct Hn as [-> _]. apply nextold_inv_stop, Hdone.
      apply list_elem_of_here.
  - cbn [app] in *. pose proof HL as (_ & Hn & Hd & Ha).
    cbn [app newlist] in Hn. destruct Hn as (Hn & Hl & Hp). rewrite Hn.
    destruct (Z.eq_dec (iiCmp (msMch s c)) CMPINV) as [Hinv|Hinv];
      [|exists s, [], (c :: rest ++ done);
        split; [now apply nextold_inv_stop|];
        split; [exact HL|]; split; [reflexivity|apply same_chains_refl]].
    destruct fuel as [|fuel]; [cbn in Hf; lia|].
    cbn [nextold_inv]. rewrite Hinv. rewrite Z.eqb_refl. cbv zeta.
    cbn [app] in Hd, Ha.
    assert (Hsole1 : rest ++ done = [] -> nxt s c = None).
    { intros E. apply (Hsole c). cbn [app]. now rewrite E. }
    apply NoDup_cons in Hd as [Hc Hd].
    assert (Hac : alloc s c) by (apply Ha; apply list_elem_of_here).
    cbn [msMch set_mpNew].
    destruct ((iiCnt (msMch s c) >? 1)
              && (izNew (msMch s c) >? izTst (msMch s c))).
    + (* an enlarged invalid record goes to the end of the new list *)
      set (s2 := modify (set_mpNew (ipNxt (msMch s c)) s) c (set_iiCmp 0)).
      assert (Hnx : forall i, nxt s2 i = nxt s i).
      { unfold s2. field_tac. }
      assert (HL2 : Lists s2 [] (rest ++ done)).
      { split; [exact HO|]. split; [|split; [exact Hd|]].
        - destruct (rest ++ done) as [|d l] eqn:El.
          + cbn. now apply Hsole1.
          + cbn [linked] in Hl. destruct Hl as [Hcd Hl].
            cbn [newlist]. split; [exact Hcd|]. split.
            * apply linked_ext with (nxt s); [exact Hnx | exact Hl].
            * cbn [mpLst s2 modify set_msMch set_mpNew]. rewrite Hp.
              now rewrite last_cons.
        - intros i Hi. apply (Ha i). now apply list_elem_of_further. }
      destruct (addNew_spec s2 c [] (rest ++ done) HL2 Hc Hac)
        as (s3 & E3 & HL3 & Hs3 & HO3 & Hcmp3 & Hnx3).
      rewrite E3.
      assert (Hs23 : same_chains s s3).
      { apply same_chains_trans with s2; [|exact Hs3].
        unfold s2. same_tac. }
      destruct (rest ++ done) as [|d l] eqn:El.
      * (* the only record of the list *)
        assert (Hcn : ipNxt (msMch s3 c) = None).
        { change (nxt s3 c = None). rewrite Hnx3, Hnx.
          - now apply Hsole1.
          - right. cbn. now apply Hsole1. }
        rewrite Hcn, nextold_inv_none.
        exists s3, [], [c].
        split; [reflexivity|]. split; [exact HL3|].
        split; [reflexivity | exact Hs23].
      * cbn [linked] in Hl. destruct Hl as [Hcd Hl].
        assert (Hcn : ipNxt (msMch s3 c) = mpNew s3).
        { change (nxt s3 c = mpNew s3). rewrite Hnx3, Hnx.
          - destruct HL3 as (_ & (-> & _) & _). exact Hcd.
          - left. cbn [mpLst s2 modify set_msMch set_mpNew]. rewrite Hp.
            intros Hlast. pose proof (last_in l d) as Hin.
            rewrite last_cons in Hlast. apply (inj Some) in Hlast.
            rewrite Hlast in Hin. exact (Hc Hin). }
        rewrite Hcn.
        assert (Eapp : (d :: l) ++ [c] = rest ++ (done ++ [c])).
        { now rewrite app_assoc, El. }
        rewrite Eapp in HL3.
        destruct (IH fuel s3 (done ++ [c])) as (s4 & lo4 & ln4 & E4 & HL4 & Hp4 & Hs4).
        -- rewrite HO3. exact HO.
        -- exact HL3.
        -- intros i Hi. rewrite Hcmp3. unfold s2.
           apply elem_of_app in Hi as [Hi| ->%list_elem_of_singleton].
           ++ destruct (Nat.eq_dec i c) as [->|Hne].
              ** rewrite modify_at. discriminate.
              ** rewrite modify_away by exact Hne. apply Hdone, Hi.
           ++ rewrite modify_at. discriminate.
        -- intros x Hx. rewrite <- Eapp in Hx. destruct l; discriminate.
        -- cbn in Hf. lia.
        -- exists s4, lo4, ln4.
           split; [exact E4|]. split; [exact HL4|].
           split; [|now apply same_chains_trans with s3].
           rewrite Hp4, <- Eapp. symmetry.
           apply Permutation_cons_append.
    + (* the record goes to the old list *)
      change (mpOld (set_mpNew (ipNxt (msMch s c)) s)) with (mpOld s).
      rewrite HO.
      eexists _, [c], (rest ++ done).
      split; [reflexivity|].
      split; [|split; [reflexivity|]].
      * split; [|split; [|split]].
        -- split; [reflexivity|]. unfold nxt. cbn [msMch set_mpOld].
           now rewrite modify_at.
        -- destruct (rest ++ done) as [|d l] eqn:El.
           ++ cbn. now apply Hsole1.
           ++ cbn [linked] in Hl. destruct Hl as [Hcd Hl].
              cbn [newlist]. split; [exact Hcd|]. split.
              ** apply linked_ext with (upd (nxt s) c None).
                 { intros i. unfold nxt, modify, upd. cbn.
                   now destruct (Nat.eqb_spec i c). }
                 apply linked_upd; [exact Hl|].
                 intros Hi. apply Hc. now apply removelast_in.
              ** cbn. rewrite Hp. now rewrite last_cons.
        -- cbn [app]. apply NoDup_cons. split; [exact Hc | exact Hd].
        -- exact Ha.
      * same_tac.
Qed.

Lemma nextold_spec (s : t F) (r : Z) (lo ln : list nat) :
  Lists s lo ln ->
  exists b s1 lo1 ln1,
    nextold s r = Some (b, s1) /\ Lists s1 lo1 ln1
    /\ lo1 ++ ln1 ≡ₚ lo ++ ln /\ same_chains s s1.
Proof.
  intros HL. unfold nextold.
  destruct (nextold_skip_spec r lo (walk_fuel s) s ln HL)
    as (s1 & lo1 & lo2 & E1 & El & HL1 & Hs1).
  { pose proof (Lists_length _ _ _ HL). unfold walk_fuel. lia. }
  rewrite E1.
  assert (Hperm : lo2 ++ ln ++ lo1 ≡ₚ lo ++ ln).
  { rewrite El. rewrite (Permutation_app_comm lo1 lo2), <- app_assoc.
    apply Permutation_app_head, Permutation_app_comm. }
  pose proof HL1 as (Ho1 & Hn1 & Hd1 & Ha1).
  destruct lo2 as [|o lo2]; cbn [chain] in Ho1.
  - rewrite Ho1.
    destruct (ln ++ lo1) as [|n l] eqn:El1; cbn [newlist] in Hn1.
    + rewrite Hn1. eexists _, s1, [], [].
      split; [reflexivity|]. split; [exact HL1|].
      split; [exact Hperm | exact Hs1].
    + destruct Hn1 as (Hn1 & Hl1 & Hp1). rewrite Hn1, Hp1.
      set (z := List.last l n) in *.
      set (s2 := modify s1 z (set_ipNxt None)).
      cbn [app] in Hd1.
      destruct (nextold_inv_spec (n :: l) (walk_fuel s2) s2 [])
        as (s3 & lo3 & ln3 & E3 & HL3 & Hp3 & Hs3).
      * exact Ho1.
      * rewrite app_nil_r. split; [exact Ho1|].
        split; [|split; [exact Hd1 | exact Ha1]].
        cbn [newlist]. split; [exact Hn1|]. split; [|exact Hp1].
        apply linked_ext with (upd (nxt s1) z None).
        { intros i. unfold nxt, s2, modify, upd. cbn.
          now destruct (Nat.eqb_spec i z). }
        apply linked_upd; [exact Hl1|]. now apply last_not_in_removelast.
      * intros i Hi. inversion Hi.
      * intros c Hc. rewrite app_nil_r in Hc. injection Hc as -> ->.
        unfold nxt, s2. cbn in z. subst z. now rewrite modify_at.
      * pose proof (Lists_length _ _ _ HL1) as Hlen.
        unfold walk_fuel. cbn in Hlen |- *. lia.
      * fold s2. rewrite E3.
        eexists _, s3, lo3, ln3.
        split; [reflexivity|]. split; [exact HL3|].
        split.
        -- rewrite Hp3, app_nil_r. exact Hperm.
        -- apply same_chains_trans with s1; [exact Hs1|].
           apply same_chains_trans with s2; [|exact Hs3].
           unfold s2. same_tac.
  - destruct Ho1 as [Ho1 _]. rewrite Ho1.
    eexists _, s1, (o :: lo2), (ln ++ lo1).
    split; [reflexivity|]. split; [exact HL1|].
    split; [exact Hperm | exact Hs1].
Qed.

(** *** The operations on the buckets *)

Lemma Closed_set_ipCol (s : t F) (g : nat) (v : ptr) :
  Closed s -> (forall j, v = Some j -> alloc s j) ->
  Closed (modify s g (set_ipCol v)).
Proof.
  intros (C1 & C2 & C3 & C4) Hv.
  split; [exact C1|]. split; [exact C2|]. split.
  - intros i j Hi. destruct (Nat.eq_dec i g) as [->|Hne].
    + rewrite modify_at. cbn. apply Hv.
    + rewrite modify_away by exact Hne. now apply C3.
  - intros i j Hi. rewrite (modify_other ipGld) by reflexivity. now apply C4.
Qed.

Lemma Closed_set_ipGld (s : t F) (g : nat) (v : ptr) :
  Closed s -> (forall j, v = Some j -> alloc s j) ->
  Closed (modify s g (set_ipGld v)).
Proof.
  intros (C1 & C2 & C3 & C4) Hv.
  split; [exact C1|]. split; [exact C2|]. split.
  - intros i j Hi. rewrite (modify_other ipCol) by reflexivity. now apply C3.
  - intros i j Hi. destruct (Nat.eq_dec i g) as [->|Hne].
    + rewrite modify_at. cbn. apply Hv.
    + rewrite modify_away by exact Hne. now apply C4.
Qed.

Lemma Closed_set_mpCol (s : t F) (b : nat) (v : ptr) :
  Closed s -> (forall j, v = Some j -> alloc s j) ->
  Closed (set_mpCol (upd (mpCol s) b v) s).
Proof.
  intros (C1 & C2 & C3 & C4) Hv.
  split; [|split; [exact C2|split; [exact C3 | exact C4]]].
  intros b1 i. cbn. unfold upd.
  destruct (Nat.eqb_spec b1 b); [apply Hv | apply C1].
Qed.

Lemma Closed_set_mpGld (s : t F) (b : nat) (v : ptr) :
  Closed s -> (forall j, v = Some j -> alloc s j) ->
  Closed (set_mpGld (upd (mpGld s) b v) s).
Proof.
  intros (C1 & C2 & C3 & C4) Hv.
  split; [exact C1|split; [|split; [exact C3 | exact C4]]].
  intros b1 i. cbn. unfold upd.
  destruct (Nat.eqb_spec b1 b); [apply Hv | apply C2].
Qed.

Lemma delCol_walk_spec (c : nat) (fuel : nat) (s : t F) (p : ptr) (s1 : t F) :
  Closed s -> alloc s c -> delCol_walk fuel s p c = Some s1 ->
  same_lists s s1 /\ (forall i, iiCnt (msMch s1 i) = iiCnt (msMch s i))
  /\ Closed s1.
Proof.
  intros HC Hc. revert p.
  induction fuel as [|fuel IH]; intros p; cbn [delCol_walk];
    destruct p as [g|]; try discriminate.
  - intros [= <-]. split; [apply same_lists_refl | auto].
  - destruct (ptr_eqb (ipCol (msMch s g)) (Some c)).
    + intros [= <-]. split; [same_tac|]. split; [field_tac|].
      apply Closed_set_ipCol; [exact HC|].
      intros j Hj. destruct HC as (_ & _ & C3 & _). now apply (C3 c j).
    + apply IH.
  - intros [= <-]. split; [apply same_lists_refl | auto].
Qed.

Lemma delCol_spec (s : t F) (c : nat) (s1 : t F) :
  Closed s -> alloc s c -> delCol s c = Some s1 ->
  same_lists s s1 /\ (forall i, iiCnt (msMch s1 i) = iiCnt (msMch s i))
  /\ Closed s1.
Proof.
  intros HC Hc. unfold delCol.
  destruct (ptr_eqb _ _).
  - intros [= <-]. split; [same_tac|]. split; [field_tac|].
    apply Closed_set_mpCol; [exact HC|].
    intros j Hj. destruct HC as (_ & _ & C3 & _). now apply (C3 c j).
  - now apply delCol_walk_spec.
Qed.

Lemma delGld_walk_spec (c : nat) (fuel : nat) (s : t F) (p : ptr) (s1 : t F) :
  Closed s -> alloc s c -> delGld_walk fuel s p c = Some s1 ->
  same_lists s s1 /\ (forall i, iiCnt (msMch s1 i) = iiCnt (msMch s i))
  /\ Closed s1.
Proof.
  intros HC Hc. revert p.
  induction fuel as [|fuel IH]; intros p; cbn [delGld_walk];
    destruct p as [g|]; try discriminate.
  - intros [= <-]. split; [apply same_lists_refl | auto].
  - destruct (ptr_eqb (ipGld (msMch s g)) (Some c)).
    + intros [= <-]. split; [same_tac|]. split; [field_tac|].
      apply Closed_set_ipGld; [exact HC|].
      intros j Hj. destruct HC as (_ & _ & _ & C4). now apply (C4 c j).
    + apply IH.
  - intros [= <-]. split; [apply same_lists_refl | auto].
Qed.

Lemma delGld_spec (s : t F) (c : nat) (s1 : t F) :
  Closed s -> alloc s c -> delGld s c = Some s1 ->
  same_lists s s1 /\ (forall i, iiCnt (msMch s1 i) = iiCnt (msMch s i))
  /\ Closed s1.
Proof.
  intros HC Hc. unfold delGld.
  destruct (ptr_eqb _ _).
  - intros [= <-]. split; [same_tac|]. split; [field_tac|].
    apply Closed_set_mpGld; [exact HC|].
    intros j Hj. destruct HC as (_ & _ & _ & C4). now apply (C4 c j).
  - now apply delGld_walk_spec.
Qed.

(** The records found in a bucket have been handed out. *)
Lemma find_col_alloc (s : t F) (d : Z) (c : nat) :
  Closed s ->
  forall (fuel : nat) (p : ptr),
    (forall i, p = Some i -> alloc s i) ->
    find_col fuel s p d = Some (Some c) -> alloc s c.
Proof.
  intros (_ & _ & C3 & _).
  induction fuel as [|fuel IH]; intros p Hp; cbn [find_col];
    destruct p as [g|]; try discriminate.
  destruct (izDlt (msMch s g) =? d).
  - intros [= <-]. now apply Hp.
  - apply IH. intros i Hi. apply (C3 g i); [now apply Hp | exact Hi].
Qed.

Lemma find_gld_alloc (s : t F) (o : Z) (c : nat) :
  Closed s ->
  forall (fuel : nat) (p : ptr),
    (forall i, p = Some i -> alloc s i) ->
    find_gld fuel s p o = Some (Some c) -> alloc s c.
Proof.
  intros (_ & _ & _ & C4).
  induction fuel as [|fuel IH]; intros p Hp; cbn [find_gld];
    destruct p as [g|]; try discriminate.
  destruct (izOrg (msMch s g) =? o).
  - intros [= <-]. now apply Hp.
  - apply IH. intros i Hi. apply (C4 g i); [now apply Hp | exact Hi].
Qed.

Lemma ptr_eqb_eq (p q : ptr) : ptr_eqb p q = true <-> p = q.
Proof.
  destruct p as [i|], q as [j|]; cbn; try (split; [discriminate|congruence]).
  - rewrite Nat.eqb_eq. split; congruence.
  - tauto.
Qed.

(** *** [add]: a match joins a record *)

Lemma add_join_spec (s : t F) (o n : Z) (p : ptr) (s1 : t F) :
  Closed s -> Counted s ->
  add_join sizeof_hkey s o n = Some (p, s1) ->
  same_lists s s1 /\ Closed s1 /\ Counted s1
  /\ (forall c, p = Some c -> alloc s1 c /\ 2 <= iiCnt (msMch s1 c)).
Proof.
  intros HC HN. unfold add_join.
  assert (Hjoin : forall (c : nat) (s2 s3 : t F),
    alloc s c ->
    same_lists s s2 -> (forall i, iiCnt (msMch s2 i) = iiCnt (msMch s i)) ->
    Closed s2 ->
    same_lists s2 s3 ->
    (forall b, mpCol s3 b = mpCol s2 b) ->
    (forall b, mpGld s3 b = mpGld s2 b) ->
    (forall i, ipCol (msMch s3 i) = ipCol (msMch s2 i)) ->
    (forall i, ipGld (msMch s3 i) = ipGld (msMch s2 i)) ->
    iiCnt (msMch s3 c) = iiCnt (msMch s2 c) + 1 ->
    (forall i, i <> c -> iiCnt (msMch s3 i) = iiCnt (msMch s2 i)) ->
    same_lists s s3 /\ Closed s3 /\ Counted s3
    /\ (forall c0, Some c = Some c0 ->
                   alloc s3 c0 /\ 2 <= iiCnt (msMch s3 c0))).
  { intros c s2 s3 Hc L2 N2 C2 L3 E1 E2 E3 E4 E5 E6.
    pose proof (same_lists_trans _ _ _ L2 L3) as L.
    pose proof L as (Z1 & Z2 & _).
    assert (Ha : forall i, alloc s3 i <-> alloc s i).
    { intros i. unfold alloc. now rewrite Z1, Z2. }
    assert (Ha2 : forall i, alloc s2 i <-> alloc s i).
    { intros i. destruct L2 as (Y1 & Y2 & _). unfold alloc.
      now rewrite Y1, Y2. }
    split; [exact L|]. split; [|split].
    - destruct C2 as (D1 & D2 & D3 & D4).
      split; [|split; [|split]].
      + intros b i Hb. rewrite E1 in Hb. apply Ha, Ha2. now apply (D1 b).
      + intros b i Hb. rewrite E2 in Hb. apply Ha, Ha2. now apply (D2 b).
      + intros i j Hi Hj. rewrite E3 in Hj. apply Ha, Ha2.
        apply (D3 i j); [now apply Ha2, Ha | exact Hj].
      + intros i j Hi Hj. rewrite E4 in Hj. apply Ha, Ha2.
        apply (D4 i j); [now apply Ha2, Ha | exact Hj].
    - intros i Hi. apply Ha in Hi. pose proof (HN i Hi) as Hn.
      destruct (Nat.eq_dec i c) as [->|Hne].
      + rewrite E5, N2. lia.
      + rewrite E6, N2 by exact Hne. exact Hn.
    - intros c0 [= <-]. split; [now apply Ha|].
      rewrite E5, N2. pose proof (HN c Hc). lia. }
  destruct (find_col _ _ _ _) as [[c|]|] eqn:Ec; [| |discriminate].
  - assert (Hc : alloc s c).
    { apply (find_col_alloc s _ c HC _ _) in Ec; [exact Ec|].
      intros i Hi. destruct HC as (C1 & _). exact (C1 _ i Hi). }
    destruct (if iiCnt (msMch s c) =? 1 then delGld s c else Some s)
      as [s2|] eqn:E2; [|discriminate].
    intros [= <- <-].
    assert (H2 : same_lists s s2
                 /\ (forall i, iiCnt (msMch s2 i) = iiCnt (msMch s i))
                 /\ Closed s2).
    { destruct (iiCnt (msMch s c) =? 1).
      - now apply (delGld_spec s c).
      - injection E2 as <-. split; [apply same_lists_refl | auto]. }
    destruct H2 as (L2 & N2 & C2).
    apply (Hjoin c s2); auto; try (field_tac; fail).
    same_tac.
  - destruct (find_gld _ _ _ _) as [[c|]|] eqn:Eg; [| |discriminate].
    + assert (Hc : alloc s c).
      { apply (find_gld_alloc s _ c HC _ _) in Eg; [exact Eg|].
        intros i Hi. destruct HC as (_ & C2 & _). exact (C2 _ i Hi). }
      destruct (if iiCnt (msMch s c) =? 1 then delCol s c else Some s)
        as [s2|] eqn:E2; [|discriminate].
      intros [= <- <-].
      assert (H2 : same_lists s s2
                   /\ (forall i, iiCnt (msMch s2 i) = iiCnt (msMch s i))
                   /\ Closed s2).
      { destruct (iiCnt (msMch s c) =? 1).
        - now apply (delCol_spec s c).
        - injection E2 as <-. split; [apply same_lists_refl | auto]. }
      destruct H2 as (L2 & N2 & C2).
      cbv zeta.
      apply (Hjoin c s2); auto;
        repeat match goal with
               | |- context [if ?b then _ else _] => destruct b
               end;
        try (field_tac; fail); same_tac.
    + intros [= <- <-].
      split; [apply same_lists_refl|]. split; [exact HC|].
      split; [exact HN | discriminate].
Qed.

(** *** [add]: a record for a new match *)

Lemma add_fill_spec (s : t F) (c : nat) (o n : Z) :
  same_lists s (add_fill s c o n)
  /\ iiCnt (msMch (add_fill s c o n) c) = 1
  /\ (forall i, i <> c ->
                iiCnt (msMch (add_fill s c o n) i) = iiCnt (msMch s i))
  /\ (alloc s c ->
      (forall b i, mpCol s b = Some i -> alloc s i) ->
      (forall b i, mpGld s b = Some i -> alloc s i) ->
      (forall i j, alloc s i -> i <> c -> ipCol (msMch s i) = Some j ->
                   alloc s j) ->
      (forall i j, alloc s i -> i <> c -> ipGld (msMch s i) = Some j ->
                   alloc s j) ->
      Closed (add_fill s c o n)).
Proof.
  split; [unfold add_fill; same_tac|].
  split; [unfold add_fill; field_tac|].
  split; [unfold add_fill; field_tac|].
  intros Hc C1 C2 C3 C4.
  split; [|split; [|split]].
  - intros b i. unfold add_fill, upd. cbn.
    match goal with
    | |- context [Nat.eqb b ?x] => destruct (Nat.eqb_spec b x)
    end; [intros [= <-]; exact Hc | apply C1].
  - intros b i. unfold add_fill, upd. cbn.
    match goal with
    | |- context [Nat.eqb b ?x] => destruct (Nat.eqb_spec b x)
    end; [intros [= <-]; exact Hc | apply C2].
  - intros i j Hi. unfold add_fill, modify, upd. cbn.
    destruct (Nat.eqb i c) eqn:E; rewrite ?Nat.eqb_refl; cbn.
    + apply C1.
    + apply Nat.eqb_neq in E. now apply C3.
  - intros i j Hi. unfold add_fill, modify, upd. cbn.
    destruct (Nat.eqb i c) eqn:E; rewrite ?Nat.eqb_refl; cbn.
    + apply C2.
    + apply Nat.eqb_neq in E. now apply C4.
Qed.

Lemma add_alloc_spec (s : t F) (o n r : Z) (lo ln : list nat)
  (c : nat) (s1 : t F) :
  Lists s lo ln ->
  (length lo + length ln + miMchFre s = miMchSze s)%nat ->
  Closed s -> Counted s ->
  add_alloc s o n r = Some (Some (c, s1)) ->
  exists lo1 ln1,
    Lists s1 lo1 ln1 /\ (c ∉ lo1 ++ ln1) /\ alloc s1 c
    /\ (length lo1 + length ln1 + 1 + miMchFre s1 = miMchSze s1)%nat
    /\ Closed s1 /\ Counted s1 /\ iiCnt (msMch s1 c) = 1
    /\ miMchSze s1 = miMchSze s.
Proof.
  intros HL Hlen HC HN. unfold add_alloc.
  destruct (0 <? miMchFre s)%nat eqn:Efre.
  - (* a free record *)
    cbv zeta. cbn [miMchFre set_miMchFre].
    intros [= <- <-].
    apply Nat.ltb_lt in Efre.
    set (c := pred (miMchFre s)).
    set (s2 := set_miMchFre c s).
    destruct (add_fill_spec s2 c o n) as (L3 & N3 & N4 & C3).
    pose proof L3 as (Z1 & Z2 & _).
    assert (Hc2 : alloc s2 c).
    { unfold alloc, s2, c. cbn. lia. }
    assert (Hgrow : forall i, alloc s i -> alloc s2 i).
    { unfold alloc, s2, c. cbn. lia. }
    pose proof HL as (Ho & Hn & Hd & Ha).
    exists lo, ln.
    split; [|split; [|split; [|split; [|split; [|split; [|split]]]]]];
      [| | | | | | | exact Z1].
    + apply Lists_same with s2; [exact L3|].
      split; [exact Ho|]. split; [exact Hn|]. split; [exact Hd|].
      intros i Hi. now apply Hgrow, Ha.
    + intros Hi. apply Ha in Hi. unfold alloc, c in Hi. lia.
    + now apply (alloc_same s2).
    + rewrite Z1, Z2. unfold s2, c. cbn. lia.
    + destruct HC as (D1 & D2 & D3 & D4).
      apply C3; [exact Hc2 | | | |].
      * intros b i Hb. apply Hgrow. now apply (D1 b).
      * intros b i Hb. apply Hgrow. now apply (D2 b).
      * intros i j Hi Hne Hj. apply Hgrow. apply (D3 i j); [|exact Hj].
        unfold alloc, s2, c in *. cbn in Hi. lia.
      * intros i j Hi Hne Hj. apply Hgrow. apply (D4 i j); [|exact Hj].
        unfold alloc, s2, c in *. cbn in Hi. lia.
    + intros i Hi. destruct (Nat.eq_dec i c) as [->|Hne].
      * rewrite N3. lia.
      * rewrite N4 by exact Hne. apply HN.
        unfold alloc in *. rewrite Z1, Z2 in Hi.
        unfold s2, c in *. cbn in Hi. lia.
    + exact N3.
  - (* the head of the old list *)
    destruct lo as [|c0 lo].
    { destruct HL as (Ho & _). cbn in Ho. rewrite Ho. discriminate. }
    destruct (Lists_pop _ _ _ _ HL) as (Ho & Hni & Hal & HL1).
    rewrite Ho. cbv zeta.
    destruct (nextold_spec _ r lo ln HL1)
      as (b & s2 & lo2 & ln2 & E2 & HL2 & Hp2 & Hs2).
    rewrite E2.
    assert (Hs02 : same_chains s s2).
    { apply same_chains_trans with (set_mpOld (ipNxt (msMch s c0)) s);
        [same_tac | exact Hs2]. }
    pose proof (Closed_same _ _ Hs02 HC) as HC2.
    pose proof (Counted_same _ _ Hs02 HN) as HN2.
    assert (Hal2 : alloc s2 c0).
    { destruct Hs02 as (Y1 & Y2 & _). now apply (alloc_same s). }
    destruct (if (iiCnt (msMch s2 c0) =? 1) || (iiGld (msMch s2 c0) =? 0)
              then delCol s2 c0 else Some s2) as [s3|] eqn:E3;
      [|discriminate].
    assert (H3 : same_lists s2 s3
                 /\ (forall i, iiCnt (msMch s3 i) = iiCnt (msMch s2 i))
                 /\ Closed s3).
    { destruct ((iiCnt (msMch s2 c0) =? 1) || (iiGld (msMch s2 c0) =? 0)).
      - now apply (delCol_spec s2 c0).
      - injection E3 as <-. split; [apply same_lists_refl | auto]. }
    destruct H3 as (L3 & N3 & C3).
    assert (Hal3 : alloc s3 c0).
    { destruct L3 as (Y1 & Y2 & _). now apply (alloc_same s2). }
    destruct (if (iiCnt (msMch s3 c0) =? 1)
                 || negb (iiGld (msMch s3 c0) =? 0)
              then delGld s3 c0 else Some s3) as [s4|] eqn:E4;
      [|discriminate].
    assert (H4 : same_lists s3 s4
                 /\ (forall i, iiCnt (msMch s4 i) = iiCnt (msMch s3 i))
                 /\ Closed s4).
    { destruct ((iiCnt (msMch s3 c0) =? 1)
                || negb (iiGld (msMch s3 c0) =? 0)).
      - now apply (delGld_spec s3 c0).
      - injection E4 as <-. split; [apply same_lists_refl | auto]. }
    destruct H4 as (L4 & N4 & C4).
    assert (Hal4 : alloc s4 c0).
    { destruct L4 as (Y1 & Y2 & _). now apply (alloc_same s3). }
    intros [= <- <-].
    destruct (add_fill_spec s4 c0 o n) as (L5 & N5 & N6 & C5).
    pose proof (same_lists_trans _ _ _ L3 (same_lists_trans _ _ _ L4 L5))
      as L25.
    pose proof L25 as (Z1 & Z2 & _).
    pose proof Hs02 as (Y1 & Y2 & _).
    exists lo2, ln2.
    split; [|split; [|split; [|split; [|split; [|split; [|split]]]]]];
      [| | | | | | | now rewrite Z1, Y1].
    + now apply Lists_same with s2.
    + rewrite Hp2. exact Hni.
    + now apply (alloc_same s4); destruct L5 as (? & ? & _).
    + rewrite <- length_app, Hp2, length_app. rewrite Z1, Z2, Y1, Y2.
      cbn in Hlen. lia.
    + destruct C4 as (D1 & D2 & D3 & D4).
      apply C5; auto.
      * intros i j Hi _. now apply D3.
      * intros i j Hi _. now apply D4.
    + intros i Hi. destruct (Nat.eq_dec i c0) as [->|Hne].
      * rewrite N5. lia.
      * rewrite N6, N4, N3 by exact Hne. apply HN2.
        unfold alloc in *. now rewrite <- Z1, <- Z2.
    + exact N5.
Qed.
(** *** [add]: the evaluation of the record *)

(** A new invalid record goes to the front of the new list. *)
Lemma push_front_spec (s : t F) (c : nat) (lo ln : list nat) :
  Lists s lo ln -> c ∉ lo ++ ln -> alloc s c ->
  Lists
    (set_mpNew (Some c)
       (modify
          (match mpNew s with
           | None => set_mpLst (Some c) s
           | Some _ => s
           end) c
          (set_ipNxt
             (mpNew
                (match mpNew s with
                 | None => set_mpLst (Some c) s
                 | Some _ => s
                 end))))) lo (c :: ln).
Proof.
  intros (Ho & Hn & Hd & Ha) Hc Hac.
  assert (Hclo : c ∉ lo).
  { intros Hi. apply Hc, elem_of_app. now left. }
  assert (Hcln : c ∉ ln).
  { intros Hi. apply Hc, elem_of_app. now right. }
  assert (Hd1 : NoDup (lo ++ c :: ln)).
  { apply NoDup_app. apply NoDup_app in Hd as (D1 & D2 & D3).
    split; [exact D1|]. split.
    - intros x Hx [->|Hx2]%elem_of_cons; [now apply Hclo | now apply (D2 x)].
    - apply NoDup_cons. split; [exact Hcln | exact D3]. }
  assert (Ha1 : forall i, i ∈ lo ++ c :: ln -> alloc s i).
  { intros i [Hi|[->|Hi]%elem_of_cons]%elem_of_app; [| exact Hac |];
      apply Ha, elem_of_app; tauto. }
  destruct ln as [|n ln]; cbn [newlist] in Hn.
  - rewrite Hn. split; [|split; [|split; [exact Hd1 | exact Ha1]]].
    + apply chain_ext with (upd (nxt s) c None); [field_tac|].
      now apply chain_upd.
    + cbn. auto.
  - destruct Hn as (Hn & Hl & Hp). rewrite Hn.
    split; [|split; [|split; [exact Hd1 | exact Ha1]]].
    + apply chain_ext with (upd (nxt s) c (Some n)); [field_tac|].
      now apply chain_upd.
    + cbn [newlist]. split; [reflexivity|]. split.
      * cbn [linked]. split; [field_tac|].
        apply linked_ext with (upd (nxt s) c (Some n)); [field_tac|].
        apply linked_upd; [exact Hl|].
        intros Hi. apply Hcln. now apply removelast_in.
      * rewrite last_cons. exact Hp.
Qed.

Lemma add_eval_new (s : t F) (c : nat) (r : Z) (lo ln : list nat) :
  Lists s lo ln -> c ∉ lo ++ ln -> alloc s c -> iiCnt (msMch s c) = 1 ->
  exists ret s1 ln1,
    add_eval s c r = Some (ret, s1) /\ Lists s1 lo ln1
    /\ length ln1 = S (length ln) /\ same_chains s s1.
Proof.
  intros HL Hc Hac Hcnt. unfold add_eval.
  rewrite Hcnt. cbn [Z.eqb Pos.eqb orb].
  set (s2 := if iiCmp (msMch s c) =? CMPSKP
             then modify s c (set_iiCmp 0) else s).
  assert (F2 : frame s s2).
  { unfold s2. destruct (_ =? _); [apply frame_iiCmp | apply frame_refl]. }
  pose proof (isGoodOrBest_frame s2 r c) as F3.
  pose proof (isGoodOrBest_verdict s2 r c) as Hv.
  destruct (isGoodOrBest s2 r c) as [ret s3]. cbn [fst snd] in *.
  pose proof (frame_trans _ _ _ F2 F3) as [L3 C3].
  pose proof (Lists_same _ _ _ _ L3 HL) as HL3.
  assert (Hac3 : alloc s3 c).
  { destruct L3 as (Y1 & Y2 & _). now apply (alloc_same s). }
  assert (Hcnt3 : iiCnt (msMch s3 c) = 1).
  { destruct C3 as (_ & _ & _ & _ & _ & _ & _ & Y & _). now rewrite Y. }
  assert (Hput : exists s4 ln1,
             (if iiCnt (msMch s3 c) =? 1 then addNew s3 c else Some s3)
             = Some s4
             /\ Lists s4 lo ln1 /\ length ln1 = S (length ln)
             /\ same_chains s s4).
  { rewrite Hcnt3. cbn [Z.eqb Pos.eqb].
    destruct (addNew_spec s3 c lo ln HL3 Hc Hac3) as (s4 & E4 & HL4 & C4 & _).
    exists s4, (ln ++ [c]). split; [exact E4|]. split; [exact HL4|].
    split; [rewrite length_app; cbn; lia|].
    now apply same_chains_trans with s3. }
  destruct Hput as (s4 & ln1 & E4 & HL4 & Hlen4 & C4).
  destruct ret; try contradiction.
  - (* Invalid *)
    destruct (izTst (msMch s3 c) >=? izNew (msMch s3 c)).
    + cbv zeta.
      set (s5 := modify (set_miHshRpr (miHshRpr s3 + 1) s3) c
                   (set_iiCmp CMPINV)).
      assert (F5 : frame s3 s5).
      { unfold s5. frame_tac. }
      destruct F5 as [L5 C5].
      assert (Hcnt5 : iiCnt (msMch s5 c) = 1).
      { destruct C5 as (_ & _ & _ & _ & _ & _ & _ & Y & _). now rewrite Y. }
      rewrite Hcnt5. cbn [Z.eqb Pos.eqb].
      eexists _, _, (c :: ln). split; [reflexivity|].
      split; [|split; [reflexivity|]].
      * apply push_front_spec; [now apply Lists_same with s3 | exact Hc|].
        destruct L5 as (Y1 & Y2 & _). now apply (alloc_same s3).
      * apply same_chains_trans with s3; [exact C3|].
        apply same_chains_trans with s5; [exact C5|].
        destruct (mpNew s5); same_tac.
    + rewrite E4. now exists Invalid, s4, ln1.
  - rewrite E4. now exists Good, s4, ln1.
  - rewrite E4. now exists Best, s4, ln1.
  - rewrite E4. now exists Valid, s4, ln1.
Qed.

Lemma add_eval_old (s : t F) (c : nat) (r : Z) :
  2 <= iiCnt (msMch s c) ->
  exists ret s1, add_eval s c r = Some (ret, s1) /\ frame s s1.
Proof.
  intros Hcnt. unfold add_eval.
  assert (E1 : (iiCnt (msMch s c) =? 1) = false) by (apply Z.eqb_neq; lia).
  rewrite E1. cbn [orb].
  destruct (iiCmp (msMch s c) =? CMPSKP);
    [|exists Enlarged, s; split; [reflexivity | apply frame_refl]].
  pose proof (isGoodOrBest_frame (modify s c (set_iiCmp 0)) r c) as F3.
  destruct (isGoodOrBest (modify s c (set_iiCmp 0)) r c) as [ret s3].
  cbn [snd] in F3.
  assert (F03 : frame s s3).
  { apply frame_trans with (modify s c (set_iiCmp 0));
      [apply frame_iiCmp | exact F3]. }
  assert (E3 : (iiCnt (msMch s3 c) =? 1) = false).
  { destruct F03 as [_ (_ & _ & _ & _ & _ & _ & _ & Y & _)]. now rewrite Y. }
  rewrite E3.
  destruct ret; try (eexists _, _; split; [reflexivity | exact F03]).
  destruct (izTst (msMch s3 c) >=? izNew (msMch s3 c));
    [|eexists _, _; split; [reflexivity | exact F03]].
  cbv zeta.
  set (s5 := modify (set_miHshRpr (miHshRpr s3 + 1) s3) c (set_iiCmp CMPINV)).
  assert (F5 : frame s3 s5).
  { unfold s5. frame_tac. }
  assert (E5 : (iiCnt (msMch s5 c) =? 1) = false).
  { destruct F5 as [_ (_ & _ & _ & _ & _ & _ & _ & Y & _)]. now rewrite Y. }
  rewrite E5.
  eexists _, _; split; [reflexivity | now apply frame_trans with s3].
Qed.

(** *** The invariant after each call *)

Lemma Inv_frame (s s1 : t F) : frame s s1 -> Inv s -> Inv s1.
Proof.
  intros [L C] (lo & ln & HL & Hlen & HC & HN).
  exists lo, ln. split; [now apply Lists_same with s|].
  split; [|split; [now apply Closed_same with s
                  | now apply Counted_same with s]].
  destruct L as (-> & -> & _). exact Hlen.
Qed.

Lemma add_inv (s : t F) (o n r : Z) (ret : eMatchReturn) (s1 : t F) :
  Inv s -> add sizeof_hkey s o n r = Some (ret, s1) ->
  Inv s1 /\ miMchSze s1 = miMchSze s.
Proof.
  intros (lo & ln & HL & Hlen & HC & HN). unfold add.
  destruct (add_join sizeof_hkey s o n) as [[p s2]|] eqn:Ej; [|discriminate].
  destruct (add_join_spec _ _ _ _ _ HC HN Ej) as (L2 & C2 & N2 & Hp).
  pose proof (Lists_same _ _ _ _ L2 HL) as HL2.
  assert (Hlen2 : (length lo + length ln + miMchFre s2 = miMchSze s2)%nat).
  { destruct L2 as (-> & -> & _). exact Hlen. }
  assert (Hsze2 : miMchSze s2 = miMchSze s) by apply L2.
  assert (Hend : forall (liRet : eMatchReturn) (s3 : t F),
             Inv s3 -> miMchSze s3 = miMchSze s ->
             (if (miMchFre s3 =? 0)%nat && ptr_eqb (mpOld s3) None
              then Some (Full, s3) else Some (liRet, s3)) = Some (ret, s1) ->
             Inv s1 /\ miMchSze s1 = miMchSze s).
  { intros liRet s3 HI Hz. destruct (_ && _); now intros [= _ <-]. }
  destruct p as [c|].
  - (* the match joined the record [c] *)
    destruct (Hp c eq_refl) as [Hac Hcnt].
    assert (Hold : forall s3 : t F,
               Inv s3 -> miMchSze s3 = miMchSze s ->
               2 <= iiCnt (msMch s3 c) ->
               match add_eval s3 c r with
               | Some (liRet, s4) =>
                   if (miMchFre s4 =? 0)%nat && ptr_eqb (mpOld s4) None
                   then Some (Full, s4) else Some (liRet, s4)
               | None => None
               end = Some (ret, s1) -> Inv s1 /\ miMchSze s1 = miMchSze s).
    { intros s3 HI3 Hz3 Hc3.
      destruct (add_eval_old s3 c r Hc3) as (liRet & s4 & E4 & F4).
      rewrite E4. apply Hend; [now apply Inv_frame with s3|].
      destruct F4 as [(-> & _) _]. exact Hz3. }
    destruct (ptr_eqb (mpOld s2) (Some c)) eqn:Eo.
    + apply ptr_eqb_eq in Eo.
      destruct lo as [|c0 lo].
      { destruct HL2 as (Ho & _). cbn in Ho. congruence. }
      destruct (Lists_pop _ _ _ _ HL2) as (Ho & Hni & _ & HL3).
      assert (c0 = c) by congruence. subst c0.
      cbv zeta.
      destruct (nextold_spec _ r lo ln HL3)
        as (b & s4 & lo4 & ln4 & E4 & HL4 & Hp4 & Hs4).
      rewrite E4.
      assert (Hs24 : same_chains s2 s4).
      { apply same_chains_trans with (set_mpOld (ipNxt (msMch s2 c)) s2);
          [same_tac | exact Hs4]. }
      assert (Hac4 : alloc s4 c).
      { destruct Hs24 as (Y1 & Y2 & _). now apply (alloc_same s2). }
      destruct (addNew_spec s4 c lo4 ln4 HL4) as (s5 & E5 & HL5 & Hs5 & _).
      { now rewrite Hp4. }
      { exact Hac4. }
      rewrite E5. cbn [fst snd].
      assert (Hs25 : same_chains s2 s5)
        by now apply same_chains_trans with s4.
      apply (Hold s5).
      * exists lo4, (ln4 ++ [c]). split; [exact HL5|].
        split; [|split; [now apply Closed_same with s2
                        | now apply Counted_same with s2]].
        destruct Hs25 as (-> & -> & _).
        rewrite length_app. cbn [length].
        assert (length lo4 + length ln4 = length lo + length ln)%nat.
        { now rewrite <- !length_app, Hp4. }
        cbn in Hlen2. lia.
      * destruct Hs25 as (-> & _). exact Hsze2.
      * destruct Hs25 as (_ & _ & _ & _ & _ & _ & _ & Y & _). now rewrite Y.
    + apply (Hold s2); [|exact Hsze2|exact Hcnt].
      exists lo, ln. auto.
  - (* a record for a new match *)
    destruct (add_alloc s2 o n r) as [[[c s3]|]|] eqn:Ea; [| |discriminate].
    + destruct (add_alloc_spec _ _ _ _ _ _ _ _ HL2 Hlen2 C2 N2 Ea)
        as (lo3 & ln3 & HL3 & Hni & Hac & Hlen3 & C3 & N3 & Hcnt & Hz3).
      destruct (add_eval_new s3 c r lo3 ln3 HL3 Hni Hac Hcnt)
        as (liRet & s4 & ln4 & E4 & HL4 & Hlen4 & Hs4).
      rewrite E4. apply Hend.
      * exists lo3, ln4. split; [exact HL4|].
        split; [|split; [now apply Closed_same with s3
                        | now apply Counted_same with s3]].
        destruct Hs4 as (-> & -> & _). lia.
      * destruct Hs4 as (-> & _). now rewrite Hz3.
    + intros [= _ <-]. split; [|exact Hsze2]. exists lo, ln. auto.
Qed.

(** The loop of [cleanup] ends and leaves the lists alone. *)
Lemma cleanup_walk_spec (r : Z) :
  forall (l : list nat) (fuel : nat) (s : t F) (p : ptr),
    chain (nxt s) p l -> (length l <= fuel)%nat ->
    exists s1, cleanup_walk fuel s p r = Some s1 /\ frame s s1.
Proof.
  induction l as [|c l IH]; intros fuel s p Hc Hf; cbn [chain] in Hc.
  - subst p. exists s. split; [now destruct fuel | apply frame_refl].
  - destruct Hc as [-> Hc]. destruct fuel as [|fuel]; [cbn in Hf; lia|].
    cbn [cleanup_walk]. cbv zeta.
    set (s2 := if isOld2Skip s c r then modify s c (set_iiCmp CMPSKP)
               else snd (isGoodOrBest s r c)).
    assert (F2 : frame s s2).
    { unfold s2. destruct (isOld2Skip s c r);
        [apply frame_iiCmp | apply isGoodOrBest_frame]. }
    destruct (IH fuel s2 (ipNxt (msMch s2 c))) as (s3 & E3 & F3).
    + destruct F2 as [(_ & _ & _ & _ & _ & Y) _].
      rewrite Y. apply chain_ext with (nxt s); [exact Y | exact Hc].
    + cbn in Hf. lia.
    + exists s3. split; [exact E3 | now apply frame_trans with s2].
Qed.

Lemma Inv_fuel (s : t F) (lo ln : list nat) :
  Lists s lo ln -> (length lo < walk_fuel s)%nat.
Proof.
  intros HL. pose proof (Lists_length _ _ _ HL). unfold walk_fuel. lia.
Qed.

(** [cleanup] returns, and the invariant holds on return. *)
Lemma cleanup_inv (hsh : JHashPos.t) (s : t F) (b r : Z) :
  Inv s ->
  exists ret s1, cleanup hsh s b r = Some (ret, s1) /\ Inv s1
                 /\ miMchSze s1 = miMchSze s /\ same_chains s s1.
Proof.
  intros (lo & ln & HL & Hlen & HC & HN). unfold cleanup.
  set (s0 := set_miRlb (JHashPos.get_reliability hsh) s).
  assert (F0 : frame s s0) by apply frame_miRlb.
  destruct F0 as [L0 C0].
  destruct (join_spec s0 lo ln (Lists_same _ _ _ _ L0 HL))
    as (s2 & E2 & HL2 & Hs2 & _).
  rewrite E2. cbv zeta.
  set (s3 := set_mzOld r (set_mpBst None s2)).
  assert (F3 : frame s2 s3) by (unfold s3; frame_tac).
  pose proof (Lists_same _ _ _ _ (proj1 F3) HL2) as HL3.
  destruct (cleanup_walk_spec r (ln ++ lo) (walk_fuel s3) s3 (mpOld s3))
    as (s4 & E4 & F4).
  { apply HL3. }
  { pose proof (Inv_fuel _ _ _ HL3). lia. }
  rewrite E4.
  pose proof (Lists_same _ _ _ _ (proj1 F4) HL3) as HL4.
  destruct (nextold_spec s4 r _ _ HL4)
    as (b5 & s5 & lo5 & ln5 & E5 & HL5 & Hp5 & Hs5).
  rewrite E5. eexists _, s5. split; [reflexivity|].
  assert (Hs : same_chains s s5).
  { apply same_chains_trans with s0; [exact C0|].
    apply same_chains_trans with s2; [exact Hs2|].
    apply same_chains_trans with s3; [apply F3|].
    apply same_chains_trans with s4; [apply F4 | exact Hs5]. }
  split; [|split; [apply Hs | exact Hs]].
  exists lo5, ln5. split; [exact HL5|].
  split; [|split; [now apply Closed_same with s
                  | now apply Counted_same with s]].
  destruct Hs as (-> & -> & _).
  assert (length lo5 + length ln5 = length ln + length lo)%nat.
  { rewrite <- !length_app, Hp5, app_nil_r. reflexivity. }
  lia.
Qed.

(** The loop of [getbest] ends and leaves the lists alone. *)
Lemma getbest_walk_spec (r : Z) :
  forall (l : list nat) (fuel : nat) (s : t F) (p : ptr) (e : bool),
    chain (nxt s) p l -> (length l <= fuel)%nat ->
    exists e1 s1, getbest_walk fuel s p r e = Some (e1, s1) /\ frame s s1.
Proof.
  induction l as [|c l IH]; intros fuel s p e Hc Hf; cbn [chain] in Hc.
  - subst p. exists e, s. split; [now destruct fuel | apply frame_refl].
  - destruct Hc as [-> Hc]. destruct fuel as [|fuel]; [cbn in Hf; lia|].
    cbn [getbest_walk]. cbv zeta.
    match goal with
    | |- context [let '(_, _) := ?x in _] =>
        assert (F2 : frame s (snd x)); [|destruct x as [e2 s2]]
    end.
    { destruct (_ && _); [|apply frame_refl].
      pose proof (isBest_frame s c r 0 (izTst (msMch s c))
                    (iiCmp (msMch s c))) as Fb.
      destruct (isBest _ _ _ _ _ _) as [b0 s2]. exact Fb. }
    cbn [snd] in F2.
    destruct (IH fuel s2 (ipNxt (msMch s2 c)) e2) as (e3 & s3 & E3 & F3).
    + destruct F2 as [(_ & _ & _ & _ & _ & Y) _].
      rewrite Y. apply chain_ext with (nxt s); [exact Y | exact Hc].
    + cbn in Hf. lia.
    + exists e3, s3. split; [exact E3 | now apply frame_trans with s2].
Qed.

Lemma getbest_inv (s : t F) (ro rn bo bn : Z) (ret : bool) (o n : Z)
  (s1 : t F) :
  Inv s -> getbest s ro rn bo bn = Some (ret, o, n, s1) ->
  Inv s1 /\ miMchSze s1 = miMchSze s /\ same_chains s s1.
Proof.
  intros HI. unfold getbest.
  match goal with
  | |- context [match ?x with Some _ => _ | None => None end] =>
      assert (Hs : forall s2, x = Some s2 ->
                              Inv s2 /\ miMchSze s2 = miMchSze s
                              /\ same_chains s s2)
  end.
  { intros s2. destruct (negb (mbCmpAll s));
      [|intros [= <-]; split; [exact HI|];
        split; [reflexivity | apply same_chains_refl]].
    destruct HI as (lo & ln & HL & Hlen & HC & HN).
    destruct (join_spec s lo ln HL) as (s3 & E3 & HL3 & Hs3 & _).
    rewrite E3.
    destruct (getbest_walk_spec rn (ln ++ lo) (walk_fuel s3) s3 (mpOld s3)
                false) as (e4 & s4 & E4 & F4).
    { apply HL3. }
    { pose proof (Inv_fuel _ _ _ HL3). lia. }
    rewrite E4.
    assert (HI4 : Inv s4).
    { apply Inv_frame with s3; [exact F4|].
      exists (ln ++ lo), []. split; [exact HL3|].
      split; [|split; [now apply Closed_same with s
                      | now apply Counted_same with s]].
      destruct Hs3 as (-> & -> & _). rewrite length_app. cbn. lia. }
    assert (Hz4 : miMchSze s4 = miMchSze s).
    { destruct F4 as [(-> & _) _]. apply Hs3. }
    assert (Hc4 : same_chains s s4).
    { apply same_chains_trans with s3; [exact Hs3 | apply F4]. }
    destruct (_ && _); [|now intros [= <-]].
    destruct (mpBst s4) as [b|]; [|discriminate].
    destruct (calcPosOrg s4 b (mzBstNew s4)) as [[g lzOrg] lzNew].
    intros [= <-]. split; [|split; [exact Hz4|]].
    - apply Inv_frame with s4; [frame_tac | exact HI4].
    - apply same_chains_trans with s4; [exact Hc4 | same_tac]. }
  match goal with
  | |- context [match ?x with Some _ => _ | None => None end] =>
      destruct x as [s2|]; [|discriminate]
  end.
  specialize (Hs s2 eq_refl).
  destruct (mpBst s2); now intros [= _ _ _ <-].
Qed.

(** [getbest] returns: what its loop found best is not [null]. *)
Lemma isBest_eob_mpBst (s : t F) (c : nat) (o n cmp : Z) :
  mpBst (snd (isBest_eob s c o n cmp)) = mpBst s.
Proof.
  unfold isBest_eob.
  destruct (cmp <=? CMPEOB); [|reflexivity].
  cbv zeta.
  repeat match goal with
         | |- context [let '(_, _) := (if ?b then _ else _) in _] => destruct b
         end; cbn [snd];
    match goal with |- context [if ?b then _ else _] => destruct b end;
    reflexivity.
Qed.

Lemma isBest_elect_mpBst (s : t F) (c : nat) (cnt cmp n : Z) :
  mpBst (isBest_elect s c cnt cmp n) <> None.
Proof.
  unfold isBest_elect. destruct (mpBst s) as [b|] eqn:Eb; [|discriminate].
  cbv zeta.
  repeat match goal with
         | |- context [if ?b then _ else _] => destruct b
         end; cbn; congruence.
Qed.

Lemma isBest_mpBst (s : t F) (c : nat) (r o n cmp : Z) :
  (fst (isBest s c r o n cmp) = true ->
   mpBst (snd (isBest s c r o n cmp)) <> None)
  /\ (mpBst s <> None -> mpBst (snd (isBest s c r o n cmp)) <> None).
Proof.
  unfold isBest.
  pose proof (isBest_eob_mpBst s c o n cmp) as He.
  destruct (isBest_eob s c o n cmp) as [[[[cnt1 cmp1] n1] o1] s1].
  cbn [snd] in He. cbv zeta. cbn [fst snd].
  split.
  - intros Hb. apply ptr_eqb_eq in Hb. rewrite Hb. discriminate.
  - intros Hs. destruct (cmp1 >? 0); [|now rewrite He].
    pose proof (isBest_elect_mpBst s1 c cnt1 cmp1 n1) as Hel.
    destruct (ptr_eqb (mpBst (isBest_elect s1 c cnt1 cmp1 n1)) (Some c));
      [|exact Hel].
    match goal with |- context [if ?b then _ else _] => destruct b end;
      exact Hel.
Qed.

Lemma getbest_walk_best (r : Z) :
  forall (fuel : nat) (s : t F) (p : ptr) (e e1 : bool) (s1 : t F),
    getbest_walk fuel s p r e = Some (e1, s1) ->
    (e = true -> mpBst s <> None) -> e1 = true -> mpBst s1 <> None.
Proof.
  induction fuel as [|fuel IH]; intros s p e e1 s1; cbn [getbest_walk];
    destruct p as [c|]; try discriminate.
  - intros [= <- <-]. auto.
  - cbv zeta.
    match goal with
    | |- context [let '(_, _) := ?x in _] =>
        assert (H2 : (e = true -> mpBst s <> None) ->
                     fst x = true -> mpBst (snd x) <> None);
        [|destruct x as [e2 s2]]
    end.
    { intros He. destruct (_ && _); [|exact He].
      pose proof (isBest_mpBst s c r 0 (izTst (msMch s c))
                    (iiCmp (msMch s c))) as [Hb1 Hb2].
      destruct (isBest _ _ _ _ _ _) as [b0 s2]. cbn [fst snd] in *.
      destruct b0; [intros _; now apply Hb1|].
      intros He2. apply Hb2. now apply He. }
    cbn [fst snd] in H2. intros E He. apply (IH _ _ _ _ _ E). now apply H2.
  - intros [= <- <-]. auto.
Qed.

Lemma getbest_returns (s : t F) (ro rn bo bn : Z) :
  Inv s ->
  exists ret o n s1, getbest s ro rn bo bn = Some (ret, o, n, s1).
Proof.
  intros (lo & ln & HL & _). unfold getbest.
  match goal with
  | |- context [match ?x with Some _ => _ | None => None end] =>
      assert (Hs : exists s2, x = Some s2)
  end.
  { destruct (negb (mbCmpAll s)); [|now exists s].
    destruct (join_spec s lo ln HL) as (s3 & E3 & HL3 & _).
    rewrite E3.
    destruct (getbest_walk_spec rn (ln ++ lo) (walk_fuel s3) s3 (mpOld s3)
                false) as (e4 & s4 & E4 & _).
    { apply HL3. }
    { pose proof (Inv_fuel _ _ _ HL3). lia. }
    rewrite E4.
    pose proof (getbest_walk_best rn _ _ _ _ _ _ E4) as Hb.
    destruct e4; [|now exists s4].
    cbn [andb]. destruct (mzBstOrg s4 =? 0); [|now exists s4].
    destruct (mpBst s4) as [b|]; [|exfalso; now apply Hb].
    destruct (calcPosOrg s4 b (mzBstNew s4)) as [[g lzOrg] lzNew].
    eexists. reflexivity. }
  destruct Hs as [s2 ->].
  destruct (mpBst s2); eexists _, _, _, _; reflexivity.
Qed.

Lemma create_inv (aiMchSze aiMchPme : Z) (abCmpAll : bool) (aiAhdMax : Z)
  (fo fn : F) (pool : nat -> rMch) (aiHshRpr : Z) :
  Inv (create aiMchSze aiMchPme abCmpAll aiAhdMax fo fn pool aiHshRpr).
Proof.
  exists [], []. split; [|split; [reflexivity|split]].
  - split; [reflexivity|]. split; [reflexivity|].
    split; [apply NoDup_nil_2|]. intros i Hi. inversion Hi.
  - split; [discriminate|]. split; [discriminate|].
    split; intros i j Hi; unfold alloc in Hi; cbn in Hi; lia.
  - intros i Hi. unfold alloc in Hi. cbn in Hi. lia.
Qed.

Lemma reachable_inv (aiMchSze : Z) (s : t F) :
  reachable sizeof_hkey aiMchSze s ->
  Inv s /\ miMchSze s = Z.to_nat (if aiMchSze <? 13 then 13 else aiMchSze).
Proof.
  induction 1 as [ | s o n r ret s1 _ [IH1 IH2] E
                   | s hsh b r ret s1 _ [IH1 IH2] E
                   | s ro rn bo bn ret o n s1 _ [IH1 IH2] E
                   | s fo fn _ [IH1 IH2]].
  - split; [apply create_inv | reflexivity].
  - destruct (add_inv _ _ _ _ _ _ IH1 E) as [HI Hz].
    split; [exact HI | now rewrite Hz].
  - destruct (cleanup_inv hsh s b r IH1) as (ret1 & s2 & E2 & HI & Hz & _).
    rewrite E2 in E. injection E as _ <-.
    split; [exact HI | now rewrite Hz].
  - destruct (getbest_inv _ _ _ _ _ _ _ _ _ IH1 E) as (HI & Hz & _).
    split; [exact HI | now rewrite Hz].
  - split; [|exact IH2]. apply Inv_frame with s; [frame_tac | exact IH1].
Qed.

(** *** The count of the two lists *)

Lemma count_to_null_chain (s : t F) :
  forall (l : list nat) (fuel : nat) (p : ptr),
    chain (nxt s) p l -> (length l <= fuel)%nat ->
    count_to_null fuel s p = Some (length l).
Proof.
  induction l as [|c l IH]; intros fuel p Hc Hf; cbn [chain] in Hc.
  - subst p. now destruct fuel.
  - destruct Hc as [-> Hc]. destruct fuel as [|fuel]; [cbn in Hf; lia|].
    cbn [count_to_null]. rewrite (IH fuel); [reflexivity | exact Hc|].
    cbn in Hf. lia.
Qed.

Lemma count_to_last_linked (s : t F) :
  forall (l : list nat) (fuel : nat) (i : nat),
    linked (nxt s) i l -> NoDup (i :: l) -> (length l <= fuel)%nat ->
    count_to_last fuel s i (List.last l i) = Some (S (length l)).
Proof.
  induction l as [|j l IH]; intros fuel i Hl Hd Hf.
  - cbn [List.last]. destruct fuel; cbn [count_to_last];
      now rewrite Nat.eqb_refl.
  - destruct fuel as [|fuel]; [cbn in Hf; lia|].
    cbn [linked] in Hl. destruct Hl as [Hij Hl].
    apply NoDup_cons in Hd as [Hi Hd].
    rewrite last_cons. cbn [count_to_last].
    destruct (Nat.eqb_spec i (List.last l j)) as [Heq|Hne].
    { exfalso. apply Hi. rewrite Heq. apply last_in. }
    unfold nxt in Hij. rewrite Hij.
    rewrite (IH fuel j Hl Hd); [reflexivity|]. cbn in Hf. lia.
Qed.

Lemma Inv_count (s : t F) :
  Inv s ->
  exists liNew liOld,
    count_new s = Some liNew /\ count_old s = Some liOld
    /\ (liNew + liOld + miMchFre s = miMchSze s)%nat.
Proof.
  intros (lo & ln & HL & Hlen & _).
  pose proof (Lists_length _ _ _ HL) as Hle.
  destruct HL as (Ho & Hn & Hd & _).
  exists (length ln), (length lo).
  split; [|split; [|lia]].
  - unfold count_new. destruct ln as [|n ln]; cbn [newlist] in Hn.
    + now rewrite Hn.
    + destruct Hn as (-> & Hl & ->).
      rewrite (count_to_last_linked s ln); [reflexivity | exact Hl | |].
      * apply NoDup_app in Hd. tauto.
      * unfold walk_fuel. cbn in Hle. lia.
  - unfold count_old. apply count_to_null_chain; [exact Ho|].
    unfold walk_fuel. lia.
Qed.

End TableInvariant.

(** C6.  At every stable point of a match table, that is after its
    construction and after any sequence of complete calls of [add],
    [cleanup] and [getbest], the number of records on the new list plus the
    number of records on the old list plus the number of free records
    [miMchFre] is the size [miMchSze] of the table; this size is the one the
    table was made for (13 when less was asked for). *)
Theorem table_accounting {F : Type} `{JFile.ops F} (sizeof_hkey : Z)
  (aiMchSze : Z) (s : JMatchTable.t F) :
  reachable sizeof_hkey aiMchSze s ->
  exists liNew liOld : nat,
    JMatchTable.count_new s = Some liNew
    /\ JMatchTable.count_old s = Some liOld
    /\ (liNew + liOld + JMatchTable.miMchFre s = JMatchTable.miMchSze s)%nat
    /\ JMatchTable.miMchSze s
       = Z.to_nat (if aiMchSze <? 13 then 13 else aiMchSze).
Proof.
  intros Hr. destruct (reachable_inv sizeof_hkey aiMchSze s Hr) as [HI Hz].
  destruct (Inv_count s HI) as (liNew & liOld & E1 & E2 & E3).
  exists liNew, liOld. auto.
Qed.

Lemma reachable_after_add (aiMchSze : Z) (ms : list (Z * Z * Z)) :
  forall s, reachable 4 aiMchSze s ->
            reachable 4 aiMchSze (fold_left after_add ms s).
Proof.
  induction ms as [|[[o n] r] ms IH]; intros s Hs; [exact Hs|].
  cbn [fold_left]. apply IH. unfold after_add.
  destruct (JMatchTable.add 4 s o n r) as [[ret s1]|] eqn:E; [|exact Hs].
  exact (reach_add 4 aiMchSze s o n r ret s1 Hs E).
Qed.

Lemma reachable_after_cleanup (aiMchSze : Z) (m : Z * Z) :
  forall s, reachable 4 aiMchSze s -> reachable 4 aiMchSze (after_cleanup s m).
Proof.
  intros s Hs. unfold after_cleanup.
  destruct (JMatchTable.cleanup _ s (fst m) (snd m)) as [[ret s1]|] eqn:E;
    [|exact Hs].
  exact (reach_cleanup 4 aiMchSze s _ _ _ ret s1 Hs E).
Qed.

Lemma reachable_after_getbest (aiMchSze : Z) (m : Z * Z) :
  forall s, reachable 4 aiMchSze s -> reachable 4 aiMchSze (after_getbest s m).
Proof.
  intros s Hs. unfold after_getbest.
  destruct (JMatchTable.getbest s (fst m) (snd m) 0 0)
    as [[[[ret o] n] s1]|] eqn:E; [|exact Hs].
  exact (reach_getbest 4 aiMchSze s _ _ _ _ ret o n s1 Hs E).
Qed.

(** After sixteen matches, a cleanup, a query and eight more matches a
    table of 13 records has 8 records on the new list, 5 on the old list
    and none free. *)
Lemma table_accounting_witness :
  reachable 4 13 example_run
  /\ (JMatchTable.count_new example_run = Some 8%nat
      /\ JMatchTable.count_old example_run = Some 5%nat
      /\ JMatchTable.miMchFre example_run = 0%nat)
  /\ exists liNew liOld : nat,
       JMatchTable.count_new example_run = Some liNew
       /\ JMatchTable.count_old example_run = Some liOld
       /\ (liNew + liOld + JMatchTable.miMchFre example_run
           = JMatchTable.miMchSze example_run)%nat
       /\ JMatchTable.miMchSze example_run
          = Z.to_nat (if 13 <? 13 then 13 else 13).
Proof.
  assert (Hr : reachable 4 13 example_run).
  { unfold example_run.
    apply reachable_after_add, reachable_after_getbest,
      reachable_after_cleanup, reachable_after_add.
    apply reach_create. }
  split; [exact Hr|].
  split; [vm_compute; auto|].
  exact (table_accounting 4 13 example_run Hr).
Defined.

(** ** The calls of the match table return *)

Section ChainFacts.

Import JMatchTable.

(** The record after a record of a list is on the list. *)
Lemma chain_next (nx : nat -> ptr) (g c : nat) (l : list nat) :
  forall p, chain nx p l -> g ∈ l -> nx g = Some c -> c ∈ l.
Proof.
  induction l as [|a l IH]; intros p Hc Hg Hn; [inversion Hg|].
  cbn [chain] in Hc. destruct Hc as [-> Hc].
  apply elem_of_cons in Hg as [->|Hg].
  - apply list_elem_of_further. rewrite Hn in Hc.
    destruct l as [|b l]; [discriminate Hc|].
    destruct Hc as [[= ->] _]. apply list_elem_of_here.
  - apply list_elem_of_further. now apply (IH (nx a)).
Qed.

(** The record [c] after [g] leaves the list. *)
Lemma chain_unlink (nx : nat -> ptr) (g c : nat) (l1 l2 : list nat) :
  forall p, chain nx p (l1 ++ g :: c :: l2) -> NoDup (l1 ++ g :: c :: l2) ->
            chain (upd nx g (nx c)) p (l1 ++ g :: l2).
Proof.
  induction l1 as [|a l1 IH]; intros p Hc Hd; cbn [app chain] in *.
  - destruct Hc as (-> & Hgc & Hc).
    apply NoDup_cons in Hd as [Hg Hd].
    split; [reflexivity|]. unfold upd at 2. rewrite Nat.eqb_refl.
    apply chain_upd; [exact Hc|].
    intros Hi. apply Hg. now apply list_elem_of_further.
  - destruct Hc as [-> Hc]. apply NoDup_cons in Hd as [Ha Hd].
    split; [reflexivity|]. unfold upd at 2.
    destruct (Nat.eqb_spec a g) as [->|Hne].
    + exfalso. apply Ha. apply elem_of_app. right. apply list_elem_of_here.
    + now apply IH.
Qed.

End ChainFacts.

Section TableCalls.

Import JMatchTable.

Context {F : Type} `{JFile.ops F}.
Variable sizeof_hkey : Z.
Hypothesis sizeof_hkey_pos : 0 < sizeof_hkey.

(** *** The buckets under changes that they do not look at *)

Lemma ColOK_ext (s s1 : t F) (LC : nat -> list nat) :
  ColOK s LC ->
  miMchSze s1 = miMchSze s -> miMchFre s1 = miMchFre s ->
  miMchPme s1 = miMchPme s ->
  (forall b, mpCol s1 b = mpCol s b) ->
  (forall i, ipCol (msMch s1 i) = ipCol (msMch s i)) ->
  (forall i, iiGld (msMch s1 i) = iiGld (msMch s i)) ->
  (forall i, izDlt (msMch s1 i) = izDlt (msMch s i)) ->
  ColOK s1 LC.
Proof.
  intros HC E1 E2 E3 E4 E5 E6 E7 b.
  destruct (HC b) as (Hc & Hd & Hi).
  split; [|split; [exact Hd|]].
  - rewrite E4. apply chain_ext with (colp s); [exact E5 | exact Hc].
  - intros i Hin. destruct (Hi i Hin) as (Ha & Hb & Hg).
    unfold alloc, bcol, bucket in *. now rewrite E1, E2, E3, E6, E7.
Qed.

Lemma GldOK_ext (s s1 : t F) (LG : nat -> list nat) :
  GldOK s LG ->
  miMchSze s1 = miMchSze s -> miMchFre s1 = miMchFre s ->
  miMchPme s1 = miMchPme s ->
  (forall b, mpGld s1 b = mpGld s b) ->
  (forall i, ipGld (msMch s1 i) = ipGld (msMch s i)) ->
  (forall i, iiCnt (msMch s1 i) = iiCnt (msMch s i)) ->
  (forall i, iiGld (msMch s1 i) = iiGld (msMch s i)) ->
  (forall i, izDlt (msMch s1 i) = izDlt (msMch s i)) ->
  (forall i, izOrg (msMch s1 i) = izOrg (msMch s i)) ->
  (forall i, izBeg (msMch s1 i) = izBeg (msMch s i)) ->
  GldOK s1 LG.
Proof.
  intros HG E1 E2 E3 E4 E5 E6 E7 E8 E9 E10 b.
  destruct (HG b) as (Hc & Hd & Hi).
  split; [|split; [exact Hd|]].
  - rewrite E4. apply chain_ext with (gldp s); [exact E5 | exact Hc].
  - intros i Hin. destruct (Hi i Hin) as (Ha & Hb & Hdl & Hg).
    unfold alloc, bgld, bucket in *.
    now rewrite E1, E2, E3, E6, E7, E8, E9, E10.
Qed.

Lemma Cross_ext (s s1 : t F) (LC LG : nat -> list nat) (ex : option nat) :
  Cross s LC LG ex ->
  miMchPme s1 = miMchPme s ->
  (forall i, iiCnt (msMch s1 i) = iiCnt (msMch s i)) ->
  (forall i, izDlt (msMch s1 i) = izDlt (msMch s i)) ->
  Cross s1 LC LG ex.
Proof.
  intros HX E1 E2 E3 b i Hi Hex Hc.
  unfold bcol, bucket. rewrite E1, E3. apply (HX b i Hi Hex).
  now rewrite <- E2.
Qed.

Lemma Buckets_same (s s1 : t F) : same_chains s s1 -> Buckets s -> Buckets s1.
Proof.
  intros (E1 & E2 & E3 & E4 & E5 & E6 & E7 & E8 & E9 & E10 & E11 & E12)
    (LC & LG & HC & HG & HX).
  exists LC, LG. split; [|split].
  - now apply ColOK_ext with s.
  - now apply GldOK_ext with s.
  - now apply Cross_ext with s.
Qed.

(** A bucket is no longer than the pool. *)
Lemma ColOK_fuel (s : t F) (LC : nat -> list nat) (b : nat) :
  ColOK s LC -> (length (LC b) < walk_fuel s)%nat.
Proof.
  intros HC. destruct (HC b) as (_ & Hd & Hi).
  assert (length (LC b) <= miMchSze s)%nat.
  { apply NoDup_bounded; [exact Hd|]. intros i Hin. apply (Hi i Hin). }
  unfold walk_fuel. lia.
Qed.

Lemma GldOK_fuel (s : t F) (LG : nat -> list nat) (b : nat) :
  GldOK s LG -> (length (LG b) < walk_fuel s)%nat.
Proof.
  intros HG. destruct (HG b) as (_ & Hd & Hi).
  assert (length (LG b) <= miMchSze s)%nat.
  { apply NoDup_bounded; [exact Hd|]. intros i Hin. apply (Hi i Hin). }
  unfold walk_fuel. lia.
Qed.

(** *** The searches in the buckets *)

Lemma find_col_chain (s : t F) (d : Z) :
  forall (l : list nat) (fuel : nat) (p : ptr),
    chain (colp s) p l -> (length l <= fuel)%nat ->
    exists r, find_col fuel s p d = Some r
              /\ (r = None -> forall i, i ∈ l -> izDlt (msMch s i) <> d)
              /\ (forall c, r = Some c -> c ∈ l).
Proof.
  induction l as [|g l IH]; intros fuel p Hc Hf; cbn [chain] in Hc.
  - subst p. exists None. split; [now destruct fuel|].
    split; [intros _ i Hi; inversion Hi | discriminate].
  - destruct Hc as [-> Hc]. destruct fuel as [|fuel]; [cbn in Hf; lia|].
    cbn [find_col]. destruct (Z.eqb_spec (izDlt (msMch s g)) d) as [He|Hne].
    + exists (Some g). split; [reflexivity|]. split; [discriminate|].
      intros c [= <-]. apply list_elem_of_here.
    + destruct (IH fuel (ipCol (msMch s g)) Hc) as (r & E & Hn & Hs).
      { cbn in Hf. lia. }
      exists r. split; [exact E|]. split.
      * intros Hr i [->|Hi]%elem_of_cons; [exact Hne | now apply Hn].
      * intros c Hr. apply list_elem_of_further. now apply Hs.
Qed.

Lemma find_gld_chain (s : t F) (o : Z) :
  forall (l : list nat) (fuel : nat) (p : ptr),
    chain (gldp s) p l -> (length l <= fuel)%nat ->
    exists r, find_gld fuel s p o = Some r
              /\ (forall c, r = Some c -> c ∈ l /\ izOrg (msMch s c) = o).
Proof.
  induction l as [|g l IH]; intros fuel p Hc Hf; cbn [chain] in Hc.
  - subst p. exists None. split; [now destruct fuel | discriminate].
  - destruct Hc as [-> Hc]. destruct fuel as [|fuel]; [cbn in Hf; lia|].
    cbn [find_gld]. destruct (Z.eqb_spec (izOrg (msMch s g)) o) as [He|Hne].
    + exists (Some g). split; [reflexivity|].
      intros c [= <-]. split; [apply list_elem_of_here | exact He].
    + destruct (IH fuel (ipGld (msMch s g)) Hc) as (r & E & Hs).
      { cbn in Hf. lia. }
      exists r. split; [exact E|].
      intros c Hr. destruct (Hs c Hr) as [Hi Ho].
      split; [now apply list_elem_of_further | exact Ho].
Qed.

(** *** A record leaves its bucket *)

Lemma delCol_walk_chain (s : t F) (c : nat) :
  forall (l : list nat) (fuel : nat) (p : ptr),
    chain (colp s) p l -> p <> Some c -> (length l <= fuel)%nat ->
    ((c ∉ l) /\ delCol_walk fuel s p c = Some s)
    \/ (exists g l1 l2,
          l = l1 ++ g :: c :: l2
          /\ delCol_walk fuel s p c
             = Some (modify s g (set_ipCol (ipCol (msMch s c))))).
Proof.
  induction l as [|g l IH]; intros fuel p Hc Hp Hf; cbn [chain] in Hc.
  - subst p. left. split; [apply not_elem_of_nil | now destruct fuel].
  - destruct Hc as [-> Hc]. destruct fuel as [|fuel]; [cbn in Hf; lia|].
    cbn [delCol_walk].
    destruct (ptr_eqb (ipCol (msMch s g)) (Some c)) eqn:Eg.
    + apply ptr_eqb_eq in Eg. right.
      unfold colp in Hc. rewrite Eg in Hc.
      destruct l as [|c0 l]; [discriminate Hc|].
      destruct Hc as [[= <-] Hc].
      exists g, [], l. split; reflexivity.
    + assert (Hne : ipCol (msMch s g) <> Some c).
      { intros Heq. apply ptr_eqb_eq in Heq. congruence. }
      destruct (IH fuel (ipCol (msMch s g)) Hc Hne) as [[Hni E]|Hr].
      { cbn in Hf. lia. }
      * left. split; [|exact E].
        apply not_elem_of_cons. split; [congruence | exact Hni].
      * right. destruct Hr as (g1 & l1 & l2 & -> & E).
        exists g1, (g :: l1), l2. split; [reflexivity | exact E].
Qed.

Lemma delGld_walk_chain (s : t F) (c : nat) :
  forall (l : list nat) (fuel : nat) (p : ptr),
    chain (gldp s) p l -> p <> Some c -> (length l <= fuel)%nat ->
    ((c ∉ l) /\ delGld_walk fuel s p c = Some s)
    \/ (exists g l1 l2,
          l = l1 ++ g :: c :: l2
          /\ delGld_walk fuel s p c
             = Some (modify s g (set_ipGld (ipGld (msMch s c))))).
Proof.
  induction l as [|g l IH]; intros fuel p Hc Hp Hf; cbn [chain] in Hc.
  - subst p. left. split; [apply not_elem_of_nil | now destruct fuel].
  - destruct Hc as [-> Hc]. destruct fuel as [|fuel]; [cbn in Hf; lia|].
    cbn [delGld_walk].
    destruct (ptr_eqb (ipGld (msMch s g)) (Some c)) eqn:Eg.
    + apply ptr_eqb_eq in Eg. right.
      unfold gldp in Hc. rewrite Eg in Hc.
      destruct l as [|c0 l]; [discriminate Hc|].
      destruct Hc as [[= <-] Hc].
      exists g, [], l. split; reflexivity.
    + assert (Hne : ipGld (msMch s g) <> Some c).
      { intros Heq. apply ptr_eqb_eq in Heq. congruence. }
      destruct (IH fuel (ipGld (msMch s g)) Hc Hne) as [[Hni E]|Hr].
      { cbn in Hf. lia. }
      * left. split; [|exact E].
        apply not_elem_of_cons. split; [congruence | exact Hni].
      * right. destruct Hr as (g1 & l1 & l2 & -> & E).
        exists g1, (g :: l1), l2. split; [reflexivity | exact E].
Qed.

Lemma set_ipCol_same (r : rMch) : set_ipCol (ipCol r) r = r.
Proof. now destruct r. Qed.

Lemma set_ipGld_same (r : rMch) : set_ipGld (ipGld r) r = r.
Proof. now destruct r. Qed.

(** A colliding bucket with another list. *)
Lemma ColOK_upd (s s1 : t F) (LC : nat -> list nat) (b0 : nat)
  (l : list nat) :
  ColOK s LC ->
  miMchSze s1 = miMchSze s -> miMchFre s1 = miMchFre s ->
  miMchPme s1 = miMchPme s ->
  (forall i, iiGld (msMch s1 i) = iiGld (msMch s i)) ->
  (forall i, izDlt (msMch s1 i) = izDlt (msMch s i)) ->
  chain (colp s1) (mpCol s1 b0) l -> NoDup l ->
  (forall i, i ∈ l -> i ∈ LC b0) ->
  (forall b, b <> b0 -> chain (colp s1) (mpCol s1 b) (LC b)) ->
  ColOK s1 (upd LC b0 l).
Proof.
  intros HC E1 E2 E3 E6 E7 Hc Hd Hsub Hoth b.
  assert (Hel : forall b1 i, i ∈ LC b1 ->
                  alloc s1 i /\ bcol s1 i = b1 /\ iiGld (msMch s1 i) = 0).
  { intros b1 i Hin. destruct (HC b1) as (_ & _ & Hi).
    destruct (Hi i Hin) as (Ha & Hb & Hg).
    unfold alloc, bcol, bucket in *. now rewrite E1, E2, E3, E6, E7. }
  unfold upd. destruct (Nat.eqb_spec b b0) as [->|Hne].
  - split; [exact Hc|]. split; [exact Hd|].
    intros i Hin. apply Hel. now apply Hsub.
  - split; [now apply Hoth|]. split; [apply (HC b)|].
    intros i Hin. now apply Hel.
Qed.

Lemma GldOK_upd (s s1 : t F) (LG : nat -> list nat) (b0 : nat)
  (l : list nat) :
  GldOK s LG ->
  miMchSze s1 = miMchSze s -> miMchFre s1 = miMchFre s ->
  miMchPme s1 = miMchPme s ->
  (forall i, iiCnt (msMch s1 i) = iiCnt (msMch s i)) ->
  (forall i, iiGld (msMch s1 i) = iiGld (msMch s i)) ->
  (forall i, izDlt (msMch s1 i) = izDlt (msMch s i)) ->
  (forall i, izOrg (msMch s1 i) = izOrg (msMch s i)) ->
  (forall i, izBeg (msMch s1 i) = izBeg (msMch s i)) ->
  chain (gldp s1) (mpGld s1 b0) l -> NoDup l ->
  (forall i, i ∈ l -> i ∈ LG b0) ->
  (forall b, b <> b0 -> chain (gldp s1) (mpGld s1 b) (LG b)) ->
  GldOK s1 (upd LG b0 l).
Proof.
  intros HG E1 E2 E3 E6 E7 E8 E9 E10 Hc Hd Hsub Hoth b.
  assert (Hel : forall b1 i, i ∈ LG b1 ->
            alloc s1 i /\ bgld s1 i = b1
            /\ izDlt (msMch s1 i) = izOrg (msMch s1 i) - izBeg (msMch s1 i)
            /\ (iiCnt (msMch s1 i) = 1 /\ iiGld (msMch s1 i) = 0
                \/ iiCnt (msMch s1 i) <> 1 /\ iiGld (msMch s1 i) <> 0)).
  { intros b1 i Hin. destruct (HG b1) as (_ & _ & Hi).
    destruct (Hi i Hin) as (Ha & Hb & Hdl & Hg).
    unfold alloc, bgld, bucket in *.
    now rewrite E1, E2, E3, E6, E7, E8, E9, E10. }
  unfold upd. destruct (Nat.eqb_spec b b0) as [->|Hne].
  - split; [exact Hc|]. split; [exact Hd|].
    intros i Hin. apply Hel. now apply Hsub.
  - split; [now apply Hoth|]. split; [apply (HG b)|].
    intros i Hin. now apply Hel.
Qed.

Lemma NoDup_unlink (g c : nat) (l1 l2 : list nat) :
  NoDup (l1 ++ g :: c :: l2) ->
  NoDup (l1 ++ g :: l2) /\ c ∉ l1 ++ g :: l2.
Proof.
  intros Hd. apply NoDup_app in Hd as (D1 & D2 & D3).
  apply NoDup_cons in D3 as [Hg D3].
  apply NoDup_cons in D3 as [Hc D3].
  apply not_elem_of_cons in Hg as [Hgc Hg].
  split.
  - apply NoDup_app. split; [exact D1|]. split.
    + intros x Hx Hx2. apply (D2 x Hx).
      apply elem_of_cons in Hx2 as [->|Hx2]; [apply list_elem_of_here|].
      now do 2 apply list_elem_of_further.
    + apply NoDup_cons. split; [exact Hg | exact D3].
  - intros Hin. apply elem_of_app in Hin as [Hin|Hin].
    + apply (D2 c Hin). apply list_elem_of_further, list_elem_of_here.
    + apply elem_of_cons in Hin as [->|Hin]; [congruence | now apply Hc].
Qed.

Lemma delCol_buckets (s : t F) (c : nat) (LC LG : nat -> list nat)
  (ex : option nat) :
  ColOK s LC -> GldOK s LG -> Cross s LC LG ex ->
  ex = None \/ ex = Some c ->
  exists s1 LC1,
    delCol s c = Some s1
    /\ ColOK s1 LC1 /\ GldOK s1 LG /\ Cross s1 LC1 LG (Some c)
    /\ (forall b, c ∉ LC1 b)
    /\ (forall i, exists v, msMch s1 i = set_ipCol v (msMch s i))
    /\ mpGld s1 = mpGld s /\ same_lists s s1.
Proof.
  intros HC HG HX Hex. unfold delCol.
  set (b0 := bucket s (abs (izDlt (msMch s c)))).
  assert (Hb0 : forall b, c ∈ LC b -> b = b0).
  { intros b Hin. destruct (HC b) as (_ & _ & Hi).
    destruct (Hi c Hin) as (_ & Hb & _). now rewrite <- Hb. }
  assert (Hfin : forall (s1 : t F) (l : list nat),
    same_lists s s1 ->
    miMchPme s1 = miMchPme s ->
    (forall i, exists v, msMch s1 i = set_ipCol v (msMch s i)) ->
    mpGld s1 = mpGld s ->
    chain (colp s1) (mpCol s1 b0) l -> NoDup l -> c ∉ l ->
    (forall i, i ∈ l -> i ∈ LC b0) ->
    (forall i, i ∈ LC b0 -> i <> c -> i ∈ l) ->
    (forall b, b <> b0 -> chain (colp s1) (mpCol s1 b) (LC b)) ->
    ColOK s1 (upd LC b0 l) /\ GldOK s1 LG
    /\ Cross s1 (upd LC b0 l) LG (Some c)
    /\ (forall b, c ∉ upd LC b0 l b)
    /\ (forall i, exists v, msMch s1 i = set_ipCol v (msMch s i))
    /\ mpGld s1 = mpGld s /\ same_lists s s1).
  { intros s1 l Hsl E3 Hrec Eg Hc Hd Hcl Hsub Hsup Hoth.
    pose proof Hsl as (E1 & E2 & _).
    assert (Hf : forall (A : Type) (f : rMch -> A),
               (forall v r, f (set_ipCol v r) = f r) ->
               forall i, f (msMch s1 i) = f (msMch s i)).
    { intros A f Hfv i. destruct (Hrec i) as [v ->]. apply Hfv. }
    split; [|split; [|split; [|split; [|split; [exact Hrec | auto]]]]].
    - apply ColOK_upd with s; auto; apply Hf; reflexivity.
    - apply GldOK_ext with s; auto; try (apply Hf; reflexivity).
      now rewrite Eg.
    - intros b i Hin Hne Hcnt.
      assert (Hic : i <> c) by congruence.
      assert (Hb : bcol s1 i = bcol s i).
      { unfold bcol, bucket. rewrite E3.
        now rewrite (Hf _ izDlt) by reflexivity. }
      rewrite Hb.
      assert (Hold : i ∈ LC (bcol s i)).
      { apply (HX b i Hin).
        - destruct Hex as [->| ->]; congruence.
        - now rewrite (Hf _ iiCnt) in Hcnt by reflexivity. }
      unfold upd. destruct (Nat.eqb_spec (bcol s i) b0) as [Eb|Nb];
        [|exact Hold].
      apply Hsup; [now rewrite <- Eb | exact Hic].
    - intros b. unfold upd. destruct (Nat.eqb_spec b b0) as [->|Nb];
        [exact Hcl|].
      intros Hin. apply Nb. now apply Hb0. }
  destruct (HC b0) as (Hch & Hnd & Hel).
  destruct (ptr_eqb (mpCol s b0) (Some c)) eqn:Eh.
  - (* the head of the bucket *)
    apply ptr_eqb_eq in Eh. rewrite Eh in Hch.
    destruct (LC b0) as [|c0 l] eqn:El; [discriminate Hch|].
    destruct Hch as [[= <-] Hch].
    apply NoDup_cons in Hnd as [Hcl Hnd].
    eexists _, (upd LC b0 l). split; [reflexivity|].
    apply Hfin; try reflexivity; [same_tac|..].
    + intros i. exists (ipCol (msMch s i)). cbn.
      symmetry. apply set_ipCol_same.
    + cbn. unfold upd. now rewrite Nat.eqb_refl.
    + exact Hnd.
    + exact Hcl.
    + intros i Hi. now apply list_elem_of_further.
    + intros i Hi Hne.
      apply elem_of_cons in Hi as [->|Hi]; [congruence | exact Hi].
    + intros b Hne. cbn. unfold upd.
      destruct (Nat.eqb_spec b b0); [congruence|]. apply (HC b).
  - assert (Hne : mpCol s b0 <> Some c).
    { intros Heq. apply ptr_eqb_eq in Heq. congruence. }
    destruct (delCol_walk_chain s c (LC b0) (walk_fuel s) (mpCol s b0)
                Hch Hne) as [[Hni E]|(g & l1 & l2 & El & E)].
    { pose proof (ColOK_fuel s LC b0 HC). lia. }
    + (* the record is not in the bucket *)
      fold b0. rewrite E. exists s, LC. split; [reflexivity|].
      split; [exact HC|]. split; [exact HG|].
      split; [|split; [|split; [|split; [reflexivity
                                          |apply same_lists_refl]]]].
      * intros b i Hin Hne2 Hcnt. apply (HX b i Hin); [|exact Hcnt].
        destruct Hex as [->| ->]; congruence.
      * intros b Hin. pose proof (Hb0 b Hin). now subst b.
      * intros i. exists (ipCol (msMch s i)).
        symmetry. apply set_ipCol_same.
    + (* the record leaves the bucket *)
      fold b0. rewrite E.
      rewrite El in Hch, Hnd.
      destruct (NoDup_unlink _ _ _ _ Hnd) as [Hnd1 Hcl].
      assert (Hgin : g ∈ LC b0).
      { rewrite El. apply elem_of_app. right. apply list_elem_of_here. }
      eexists _, (upd LC b0 (l1 ++ g :: l2)). split; [reflexivity|].
      apply Hfin; try reflexivity; [same_tac|..].
      * intros i. unfold modify, upd. cbn.
        destruct (Nat.eqb_spec i g) as [->|Hig].
        -- now eexists.
        -- exists (ipCol (msMch s i)). symmetry. apply set_ipCol_same.
      * apply chain_ext with (upd (colp s) g (colp s c)).
        { intros i. unfold colp, modify, upd. cbn.
          now destruct (Nat.eqb_spec i g). }
        now apply chain_unlink.
      * exact Hnd1.
      * exact Hcl.
      * intros i Hi. rewrite El. apply elem_of_app.
        apply elem_of_app in Hi as [Hi|Hi]; [now left|right].
        apply elem_of_cons in Hi as [->|Hi]; [apply list_elem_of_here|].
        now do 2 apply list_elem_of_further.
      * intros i Hi Hic. rewrite El in Hi. apply elem_of_app.
        apply elem_of_app in Hi as [Hi|Hi]; [now left|right].
        apply elem_of_cons in Hi as [->|Hi]; [apply list_elem_of_here|].
        apply elem_of_cons in Hi as [->|Hi]; [congruence|].
        now apply list_elem_of_further.
      * intros b Hb.
        apply chain_ext with (upd (colp s) g (colp s c)).
        { intros i. unfold colp, modify, upd. cbn.
          now destruct (Nat.eqb_spec i g). }
        apply chain_upd; [apply (HC b)|].
        intros Hgb. apply Hb.
        destruct (HC b) as (_ & _ & Hi1). destruct (Hi1 g Hgb) as (_ & B1 & _).
        destruct (Hel g Hgin) as (_ & B2 & _). congruence.
Qed.

Lemma delGld_buckets (s : t F) (c : nat) (LC LG : nat -> list nat)
  (ex : option nat) :
  ColOK s LC -> GldOK s LG -> Cross s LC LG ex ->
  ex = None \/ ex = Some c ->
  exists s1 LG1,
    delGld s c = Some s1
    /\ ColOK s1 LC /\ GldOK s1 LG1 /\ Cross s1 LC LG1 None
    /\ (forall b, c ∉ LG1 b)
    /\ (forall i, exists v, msMch s1 i = set_ipGld v (msMch s i))
    /\ mpCol s1 = mpCol s /\ same_lists s s1.
Proof.
  intros HC HG HX Hex. unfold delGld.
  set (b0 := bucket s (izOrg (msMch s c))).
  assert (Hb0 : forall b, c ∈ LG b -> b = b0).
  { intros b Hin. destruct (HG b) as (_ & _ & Hi).
    destruct (Hi c Hin) as (_ & Hb & _). now rewrite <- Hb. }
  assert (Hfin : forall (s1 : t F) (l : list nat),
    same_lists s s1 ->
    miMchPme s1 = miMchPme s ->
    (forall i, exists v, msMch s1 i = set_ipGld v (msMch s i)) ->
    mpCol s1 = mpCol s ->
    chain (gldp s1) (mpGld s1 b0) l -> NoDup l -> c ∉ l ->
    (forall i, i ∈ l -> i ∈ LG b0) ->
    (forall b, b <> b0 -> chain (gldp s1) (mpGld s1 b) (LG b)) ->
    ColOK s1 LC /\ GldOK s1 (upd LG b0 l)
    /\ Cross s1 LC (upd LG b0 l) None
    /\ (forall b, c ∉ upd LG b0 l b)
    /\ (forall i, exists v, msMch s1 i = set_ipGld v (msMch s i))
    /\ mpCol s1 = mpCol s /\ same_lists s s1).
  { intros s1 l Hsl E3 Hrec Eg Hc Hd Hcl Hsub Hoth.
    pose proof Hsl as (E1 & E2 & _).
    assert (Hf : forall (A : Type) (f : rMch -> A),
               (forall v r, f (set_ipGld v r) = f r) ->
               forall i, f (msMch s1 i) = f (msMch s i)).
    { intros A f Hfv i. destruct (Hrec i) as [v ->]. apply Hfv. }
    assert (Hout : forall b, c ∉ upd LG b0 l b).
    { intros b. unfold upd. destruct (Nat.eqb_spec b b0) as [->|Nb];
        [exact Hcl|].
      intros Hin. apply Nb. now apply Hb0. }
    split; [|split; [|split; [|split; [|split; [exact Hrec | auto]]]]].
    - apply ColOK_ext with s; auto; try (apply Hf; reflexivity).
      now rewrite Eg.
    - apply GldOK_upd with s; auto; apply Hf; reflexivity.
    - intros b i Hin _ Hcnt.
      assert (Hic : i <> c).
      { intros ->. now apply (Hout b). }
      assert (Hb : bcol s1 i = bcol s i).
      { unfold bcol, bucket. rewrite E3.
        now rewrite (Hf _ izDlt) by reflexivity. }
      rewrite Hb. apply (HX b i).
      + revert Hin. unfold upd. destruct (Nat.eqb_spec b b0) as [->|Nb];
          [apply Hsub | auto].
      + destruct Hex as [->| ->]; congruence.
      + now rewrite (Hf _ iiCnt) in Hcnt by reflexivity.
    - exact Hout. }
  destruct (HG b0) as (Hch & Hnd & Hel).
  destruct (ptr_eqb (mpGld s b0) (Some c)) eqn:Eh.
  - (* the head of the bucket *)
    apply ptr_eqb_eq in Eh. rewrite Eh in Hch.
    destruct (LG b0) as [|c0 l] eqn:El; [discriminate Hch|].
    destruct Hch as [[= <-] Hch].
    apply NoDup_cons in Hnd as [Hcl Hnd].
    eexists _, (upd LG b0 l). split; [reflexivity|].
    apply Hfin; try reflexivity; [same_tac|..].
    + intros i. exists (ipGld (msMch s i)). cbn.
      symmetry. apply set_ipGld_same.
    + cbn. unfold upd. now rewrite Nat.eqb_refl.
    + exact Hnd.
    + exact Hcl.
    + intros i Hi. now apply list_elem_of_further.
    + intros b Hne. cbn. unfold upd.
      destruct (Nat.eqb_spec b b0); [congruence|]. apply (HG b).
  - assert (Hne : mpGld s b0 <> Some c).
    { intros Heq. apply ptr_eqb_eq in Heq. congruence. }
    destruct (delGld_walk_chain s c (LG b0) (walk_fuel s) (mpGld s b0)
                Hch Hne) as [[Hni E]|(g & l1 & l2 & El & E)].
    { pose proof (GldOK_fuel s LG b0 HG). lia. }
    + (* the record is not in the bucket *)
      fold b0. rewrite E. exists s, LG. split; [reflexivity|].
      split; [exact HC|]. split; [exact HG|].
      assert (Hout : forall b, c ∉ LG b).
      { intros b Hin. pose proof (Hb0 b Hin). now subst b. }
      split; [|split; [exact Hout|split; [|split; [reflexivity
                                                  |apply same_lists_refl]]]].
      * intros b i Hin _ Hcnt. apply (HX b i Hin); [|exact Hcnt].
        destruct Hex as [->| ->]; [congruence|].
        intros [= ->]. now apply (Hout b).
      * intros i. exists (ipGld (msMch s i)).
        symmetry. apply set_ipGld_same.
    + (* the record leaves the bucket *)
      fold b0. rewrite E.
      rewrite El in Hch, Hnd.
      destruct (NoDup_unlink _ _ _ _ Hnd) as [Hnd1 Hcl].
      assert (Hgin : g ∈ LG b0).
      { rewrite El. apply elem_of_app. right. apply list_elem_of_here. }
      eexists _, (upd LG b0 (l1 ++ g :: l2)). split; [reflexivity|].
      apply Hfin; try reflexivity; [same_tac|..].
      * intros i. unfold modify, upd. cbn.
        destruct (Nat.eqb_spec i g) as [->|Hig].
        -- now eexists.
        -- exists (ipGld (msMch s i)). symmetry. apply set_ipGld_same.
      * apply chain_ext with (upd (gldp s) g (gldp s c)).
        { intros i. unfold gldp, modify, upd. cbn.
          now destruct (Nat.eqb_spec i g). }
        now apply chain_unlink.
      * exact Hnd1.
      * exact Hcl.
      * intros i Hi. rewrite El. apply elem_of_app.
        apply elem_of_app in Hi as [Hi|Hi]; [now left|right].
        apply elem_of_cons in Hi as [->|Hi]; [apply list_elem_of_here|].
        now do 2 apply list_elem_of_further.
      * intros b Hb.
        apply chain_ext with (upd (gldp s) g (gldp s c)).
        { intros i. unfold gldp, modify, upd. cbn.
          now destruct (Nat.eqb_spec i g). }
        apply chain_upd; [apply (HG b)|].
        intros Hgb. apply Hb.
        destruct (HG b) as (_ & _ & Hi1). destruct (Hi1 g Hgb) as (_ & B1 & _).
        destruct (Hel g Hgin) as (_ & B2 & _). congruence.
Qed.

(** *** A record enters its two buckets *)

Lemma add_fill_buckets (s : t F) (c : nat) (o n : Z)
  (LC LG : nat -> list nat) :
  ColOK s LC -> GldOK s LG -> Cross s LC LG None -> alloc s c ->
  (forall b, c ∉ LC b) -> (forall b, c ∉ LG b) ->
  Buckets (add_fill s c o n).
Proof.
  intros HC HG HX Hac HcC HcG.
  set (bc := bucket s (abs (o - n))).
  set (bg := bucket s o).
  set (s1 := add_fill s c o n).
  assert (E1 : miMchSze s1 = miMchSze s) by reflexivity.
  assert (E2 : miMchFre s1 = miMchFre s) by reflexivity.
  assert (E3 : miMchPme s1 = miMchPme s) by reflexivity.
  assert (EC : forall b, mpCol s1 b = upd (mpCol s) bc (Some c) b)
    by reflexivity.
  assert (EG : forall b, mpGld s1 b = upd (mpGld s) bg (Some c) b)
    by reflexivity.
  assert (Eo : forall i, i <> c -> msMch s1 i = msMch s i).
  { intros i Hne. unfold s1, add_fill, modify, upd. cbn.
    apply Nat.eqb_neq in Hne. now rewrite Hne. }
  assert (Ec : msMch s1 c
               = mkMch (ipNxt (msMch s c)) (mpCol s bc) (mpGld s bg)
                   1 0 n n o (o - n) (-1) 0).
  { unfold s1, add_fill, modify, upd. cbn. now rewrite !Nat.eqb_refl. }
  assert (Hal : forall i, alloc s1 i <-> alloc s i) by (intros i; tauto).
  assert (Hbc : forall i, i <> c -> bcol s1 i = bcol s i).
  { intros i Hne. unfold bcol. now rewrite (Eo i Hne). }
  assert (Hbg : forall i, i <> c -> bgld s1 i = bgld s i).
  { intros i Hne. unfold bgld. now rewrite (Eo i Hne). }
  assert (Hcc : forall b, chain (colp s1) (mpCol s b) (LC b)).
  { intros b. apply chain_ext with (upd (colp s) c (mpCol s bc)).
    - intros i. unfold colp, upd. destruct (Nat.eqb_spec i c) as [->|Hne].
      + now rewrite Ec.
      + now rewrite (Eo i Hne).
    - apply chain_upd; [apply (HC b) | apply HcC]. }
  assert (Hcg : forall b, chain (gldp s1) (mpGld s b) (LG b)).
  { intros b. apply chain_ext with (upd (gldp s) c (mpGld s bg)).
    - intros i. unfold gldp, upd. destruct (Nat.eqb_spec i c) as [->|Hne].
      + now rewrite Ec.
      + now rewrite (Eo i Hne).
    - apply chain_upd; [apply (HG b) | apply HcG]. }
  exists (upd LC bc (c :: LC bc)), (upd LG bg (c :: LG bg)).
  split; [|split].
  - intros b. rewrite EC. unfold upd.
    destruct (Nat.eqb_spec b bc) as [->|Hne].
    + split; [|split].
      * split; [reflexivity|]. unfold colp at 2. rewrite Ec. apply Hcc.
      * apply NoDup_cons. split; [apply HcC | apply (HC bc)].
      * intros i [->|Hi]%elem_of_cons.
        -- split; [exact Hac|]. unfold bcol. rewrite Ec. now split.
        -- assert (Hne : i <> c) by (intros ->; now apply (HcC bc)).
           destruct (HC bc) as (_ & _ & Hel).
           rewrite (Hbc i Hne), (Eo i Hne). now apply Hel.
    + split; [apply Hcc|]. split; [apply (HC b)|].
      intros i Hi.
      assert (Hnc : i <> c) by (intros ->; now apply (HcC b)).
      destruct (HC b) as (_ & _ & Hel).
      rewrite (Hbc i Hnc), (Eo i Hnc). now apply Hel.
  - intros b. rewrite EG. unfold upd.
    destruct (Nat.eqb_spec b bg) as [->|Hne].
    + split; [|split].
      * split; [reflexivity|]. unfold gldp at 2. rewrite Ec. apply Hcg.
      * apply NoDup_cons. split; [apply HcG | apply (HG bg)].
      * intros i [->|Hi]%elem_of_cons.
        -- split; [exact Hac|]. unfold bgld. rewrite Ec. cbn.
           split; [reflexivity|]. split; [reflexivity|]. now left.
        -- assert (Hne : i <> c) by (intros ->; now apply (HcG bg)).
           destruct (HG bg) as (_ & _ & Hel).
           rewrite (Hbg i Hne), (Eo i Hne). now apply Hel.
    + split; [apply Hcg|]. split; [apply (HG b)|].
      intros i Hi.
      assert (Hnc : i <> c) by (intros ->; now apply (HcG b)).
      destruct (HG b) as (_ & _ & Hel).
      rewrite (Hbg i Hnc), (Eo i Hnc). now apply Hel.
  - intros b i Hi _ Hcnt.
    destruct (Nat.eq_dec i c) as [->|Hne].
    + unfold bcol. rewrite Ec. cbn. fold bc.
      unfold upd. rewrite Nat.eqb_refl. apply list_elem_of_here.
    + assert (Hin : i ∈ LG b).
      { revert Hi. unfold upd. destruct (Nat.eqb_spec b bg) as [->|Hb];
          [|auto].
        intros [->|Hi]%elem_of_cons; [congruence | exact Hi]. }
      rewrite (Hbc i Hne). rewrite (Eo i Hne) in Hcnt.
      pose proof (HX b i Hin ltac:(discriminate) Hcnt) as Hold.
      unfold upd. destruct (Nat.eqb_spec (bcol s i) bc) as [Eb|Nb];
        [|exact Hold].
      apply list_elem_of_further. now rewrite <- Eb.
Qed.

(** *** A match joins a record *)

Lemma ColOK_on (s s1 : t F) (LC : nat -> list nat) :
  ColOK s LC ->
  (forall i, alloc s i -> alloc s1 i) ->
  miMchPme s1 = miMchPme s ->
  (forall b, mpCol s1 b = mpCol s b) ->
  (forall i, ipCol (msMch s1 i) = ipCol (msMch s i)) ->
  (forall b i, i ∈ LC b ->
     iiGld (msMch s1 i) = iiGld (msMch s i)
     /\ izDlt (msMch s1 i) = izDlt (msMch s i)) ->
  ColOK s1 LC.
Proof.
  intros HC Hal E3 E4 E5 E6 b.
  destruct (HC b) as (Hc & Hd & Hi).
  split; [|split; [exact Hd|]].
  - rewrite E4. apply chain_ext with (colp s); [exact E5 | exact Hc].
  - intros i Hin. destruct (Hi i Hin) as (Ha & Hb & Hg).
    destruct (E6 b i Hin) as [G1 G2].
    split; [now apply Hal|].
    unfold bcol, bucket in *. now rewrite E3, G1, G2.
Qed.

Lemma GldOK_keep (s s1 : t F) (LG : nat -> list nat) :
  GldOK s LG ->
  (forall i, alloc s i -> alloc s1 i) ->
  miMchPme s1 = miMchPme s ->
  (forall b, mpGld s1 b = mpGld s b) ->
  (forall i, ipGld (msMch s1 i) = ipGld (msMch s i)) ->
  (forall b i, i ∈ LG b ->
     izDlt (msMch s1 i) = izDlt (msMch s i)
     /\ izOrg (msMch s1 i) = izOrg (msMch s i)
     /\ izBeg (msMch s1 i) = izBeg (msMch s i)
     /\ (iiCnt (msMch s1 i) = 1 /\ iiGld (msMch s1 i) = 0
         \/ iiCnt (msMch s1 i) <> 1 /\ iiGld (msMch s1 i) <> 0)) ->
  GldOK s1 LG.
Proof.
  intros HG Hal E3 E4 E5 E6 b.
  destruct (HG b) as (Hc & Hd & Hi).
  split; [|split; [exact Hd|]].
  - rewrite E4. apply chain_ext with (gldp s); [exact E5 | exact Hc].
  - intros i Hin. destruct (Hi i Hin) as (Ha & Hb & Hdl & Hg).
    destruct (E6 b i Hin) as (G1 & G2 & G3 & G4).
    split; [now apply Hal|].
    unfold bgld, bucket in *. now rewrite E3, G1, G2, G3.
Qed.

Lemma Cross_on (s s1 : t F) (LC LG : nat -> list nat) (ex : option nat) :
  Cross s LC LG ex ->
  miMchPme s1 = miMchPme s ->
  (forall b i, i ∈ LG b -> iiCnt (msMch s1 i) = 1 ->
     ex <> Some i /\ iiCnt (msMch s i) = 1
     /\ izDlt (msMch s1 i) = izDlt (msMch s i)) ->
  Cross s1 LC LG None.
Proof.
  intros HX E1 E2 b i Hi _ Hc.
  destruct (E2 b i Hi Hc) as (Hex & Hcnt & Hd).
  unfold bcol, bucket. rewrite E1, Hd. now apply (HX b i Hi Hex).
Qed.

Lemma SMPSZE_pos : 0 < SMPSZE sizeof_hkey.
Proof. unfold SMPSZE. lia. Qed.

Lemma add_join_buckets (s : t F) (o n : Z) (LC LG : nat -> list nat) :
  Counted s -> ColOK s LC -> GldOK s LG -> Cross s LC LG None ->
  exists p s1, add_join sizeof_hkey s o n = Some (p, s1) /\ Buckets s1.
Proof.
  intros HN HC HG HX. unfold add_join.
  set (bc := bucket s (abs (o - n))).
  set (bg := bucket s o).
  destruct (find_col_chain s (o - n) (LC bc) (walk_fuel s) (mpCol s bc))
    as (r & Er & Hnone & Hsome).
  { apply (HC bc). }
  { pose proof (ColOK_fuel s LC bc HC). lia. }
  rewrite Er. destruct r as [c|].
  - (* a colliding match *)
    pose proof (Hsome c eq_refl) as Hin.
    destruct (HC bc) as (_ & _ & Hel).
    destruct (Hel c Hin) as (Hac & Hbc & Hgld).
    assert (Htail : forall (s2 : t F) (LG2 : nat -> list nat),
      ColOK s2 LC -> GldOK s2 LG2 -> Cross s2 LC LG2 None ->
      (forall b, c ∉ LG2 b) ->
      Buckets (modify (modify s2 c (fun r => set_iiCnt (iiCnt r + 1) r)) c
                 (set_izNew n))).
    { intros s2 LG2 HC2 HG2 HX2 Hout.
      exists LC, LG2. split; [|split].
      - apply ColOK_on with s2; auto; field_tac; subst; split; reflexivity.
      - apply GldOK_keep with s2; auto; try (field_tac; fail).
        intros b i Hi.
        assert (Hne : i <> c) by (intros ->; now apply (Hout b)).
        rewrite !modify_away by exact Hne.
        destruct (HG2 b) as (_ & _ & Hel2).
        destruct (Hel2 i Hi) as (_ & _ & _ & Hd). auto.
      - apply Cross_on with s2 None; auto.
        intros b i Hi.
        assert (Hne : i <> c) by (intros ->; now apply (Hout b)).
        rewrite !modify_away by exact Hne.
        intros Hc. split; [discriminate|]. auto. }
    destruct (iiCnt (msMch s c) =? 1) eqn:Ecnt.
    + destruct (delGld_buckets s c LC LG None HC HG HX)
        as (s2 & LG2 & E2 & HC2 & HG2 & HX2 & Hout & _); [now left|].
      rewrite E2. eexists _, _. split; [reflexivity|].
      now apply (Htail s2 LG2).
    + eexists _, _. split; [reflexivity|]. apply (Htail s LG); auto.
      intros b Hb. destruct (HG b) as (_ & _ & Hel2).
      destruct (Hel2 c Hb) as (_ & _ & _ & [[Hc1 _]|[_ Hg]]).
      * apply Z.eqb_neq in Ecnt. congruence.
      * congruence.
  - (* no colliding match *)
    destruct (find_gld_chain s o (LG bg) (walk_fuel s) (mpGld s bg))
      as (r & Eg & Hsome2).
    { apply (HG bg). }
    { pose proof (GldOK_fuel s LG bg HG). lia. }
    rewrite Eg. destruct r as [c|];
      [|eexists _, _; split; [reflexivity|]; now exists LC, LG].
    (* a gliding match *)
    destruct (Hsome2 c eq_refl) as [Hin Horg].
    destruct (HG bg) as (_ & _ & Hel).
    destruct (Hel c Hin) as (Hac & Hbg & Hdlt & Hcg).
    pose proof (HN c Hac) as Hcnt1.
    destruct (iiCnt (msMch s c) =? 1) eqn:Ecnt.
    + (* found for the second time: it leaves its colliding bucket *)
      apply Z.eqb_eq in Ecnt.
      destruct Hcg as [[_ Hg0]|[Hc1 _]]; [|congruence].
      destruct (delCol_buckets s c LC LG None HC HG HX)
        as (s2 & LC2 & E2 & HC2 & HG2 & HX2 & Hout & Hrec & Emg & _);
        [now left|].
      rewrite E2. cbv zeta.
      assert (Hf : forall (A : Type) (f : rMch -> A),
                 (forall v r, f (set_ipCol v r) = f r) ->
                 forall i, f (msMch s2 i) = f (msMch s i)).
      { intros A f Hfv i. destruct (Hrec i) as [v ->]. apply Hfv. }
      assert (Hbeg : n <> izBeg (msMch s c)).
      { intros Heq.
        assert (Hd : izDlt (msMch s c) = o - n) by (rewrite Hdlt; lia).
        pose proof (HX bg c Hin ltac:(discriminate) Ecnt) as Hcin.
        unfold bcol in Hcin. rewrite Hd in Hcin. fold bc in Hcin.
        now apply (Hnone eq_refl c Hcin). }
      set (s3 := modify (modify s2 c (fun r => set_iiCnt (iiCnt r + 1) r)) c
                   (set_izNew n)).
      assert (Eg3 : iiGld (msMch s3 c) = 0).
      { unfold s3. rewrite !modify_at. cbn.
        now rewrite (Hf _ iiGld) by reflexivity. }
      assert (Eb3 : izBeg (msMch s3 c) = izBeg (msMch s c)).
      { unfold s3. rewrite !modify_at. cbn.
        now rewrite (Hf _ izBeg) by reflexivity. }
      rewrite Eg3. cbn [Z.eqb]. rewrite Eb3.
      assert (Hfin : forall g : Z, g <> 0 ->
                Buckets (modify s3 c (set_iiGld g))).
      { intros g Hg. exists LC2, LG. split; [|split].
        - apply ColOK_on with s2; auto; try (unfold s3; field_tac; fail).
          intros b i Hi.
          assert (Hne : i <> c) by (intros ->; now apply (Hout b)).
          unfold s3. rewrite !modify_away by exact Hne. auto.
        - apply GldOK_keep with s2; auto; try (unfold s3; field_tac; fail).
          intros b i Hi. destruct (Nat.eq_dec i c) as [->|Hne].
          + unfold s3. rewrite !modify_at. cbn.
            split; [reflexivity|]. split; [reflexivity|].
            split; [reflexivity|]. right.
            rewrite (Hf _ iiCnt) by reflexivity. split; [lia | exact Hg].
          + unfold s3. rewrite !modify_away by exact Hne.
            destruct (HG2 b) as (_ & _ & Hel2).
            destruct (Hel2 i Hi) as (_ & _ & _ & Hd). auto.
        - apply Cross_on with s2 (Some c); auto.
          intros b i Hi. destruct (Nat.eq_dec i c) as [->|Hne].
          + unfold s3. rewrite !modify_at. cbn.
            rewrite (Hf _ iiCnt) by reflexivity. lia.
          + unfold s3. rewrite !modify_away by exact Hne.
            intros Hc. split; [congruence|]. auto. }
      pose proof SMPSZE_pos.
      destruct (n <=? izBeg (msMch s c) + SMPSZE sizeof_hkey);
        eexists _, _; (split; [reflexivity|]); apply Hfin; lia.
    + (* found before: it has left its colliding bucket *)
      apply Z.eqb_neq in Ecnt.
      destruct Hcg as [[Hc1 _]|[_ Hg0]]; [congruence|].
      cbv zeta.
      set (s3 := modify (modify s c (fun r => set_iiCnt (iiCnt r + 1) r)) c
                   (set_izNew n)).
      assert (Eg3 : iiGld (msMch s3 c) = iiGld (msMch s c)).
      { unfold s3. rewrite !modify_at. reflexivity. }
      rewrite Eg3. apply Z.eqb_neq in Hg0. rewrite Hg0.
      apply Z.eqb_neq in Hg0.
      assert (Hout : forall b, c ∉ LC b).
      { intros b Hb. destruct (HC b) as (_ & _ & Hel2).
        destruct (Hel2 c Hb) as (_ & _ & Hg). congruence. }
      eexists _, _. split; [reflexivity|].
      exists LC, LG. split; [|split].
      * apply ColOK_on with s; auto; try (unfold s3; field_tac; fail).
        intros b i Hi.
        assert (Hne : i <> c) by (intros ->; now apply (Hout b)).
        unfold s3. rewrite !modify_away by exact Hne. auto.
      * apply GldOK_keep with s; auto; try (unfold s3; field_tac; fail).
        intros b i Hi. destruct (Nat.eq_dec i c) as [->|Hne].
        -- unfold s3. rewrite !modify_at. cbn.
           split; [reflexivity|]. split; [reflexivity|].
           split; [reflexivity|]. right. split; [lia | exact Hg0].
        -- unfold s3. rewrite !modify_away by exact Hne.
           destruct (HG b) as (_ & _ & Hel2).
           destruct (Hel2 i Hi) as (_ & _ & _ & Hd). auto.
      * apply Cross_on with s None; auto.
        intros b i Hi. destruct (Nat.eq_dec i c) as [->|Hne].
        -- unfold s3. rewrite !modify_at. cbn. lia.
        -- unfold s3. rewrite !modify_away by exact Hne.
           intros Hc. split; [discriminate|]. auto.
Qed.

(** *** [add] returns *)

Lemma Cross_weaken (s : t F) (LC LG : nat -> list nat) (ex : option nat) :
  Cross s LC LG None -> Cross s LC LG ex.
Proof. intros HX b i Hi _ Hc. now apply (HX b i Hi). Qed.

Lemma add_alloc_buckets (s : t F) (o n r : Z) (lo ln : list nat) :
  Lists s lo ln ->
  (length lo + length ln + miMchFre s = miMchSze s)%nat ->
  Buckets s ->
  exists got,
    add_alloc s o n r = Some got
    /\ (forall c s1, got = Some (c, s1) -> Buckets s1).
Proof.
  intros HL Hlen (LC & LG & HC & HG & HX). unfold add_alloc.
  destruct (0 <? miMchFre s)%nat eqn:Efre.
  - (* a free record *)
    apply Nat.ltb_lt in Efre. cbv zeta. cbn [miMchFre set_miMchFre].
    eexists. split; [reflexivity|]. intros c0 s1 [= <- <-].
    set (c := pred (miMchFre s)).
    set (s2 := set_miMchFre c s).
    assert (Hgrow : forall i, alloc s i -> alloc s2 i).
    { unfold alloc, s2, c. cbn. lia. }
    apply add_fill_buckets with LC LG.
    + apply ColOK_on with s; auto.
    + apply GldOK_keep with s; auto.
      intros b i Hi. destruct (HG b) as (_ & _ & Hel).
      destruct (Hel i Hi) as (_ & _ & _ & Hd). auto.
    + exact HX.
    + unfold alloc, s2, c. cbn. lia.
    + intros b Hi. destruct (HC b) as (_ & _ & Hel).
      destruct (Hel c Hi) as (Ha & _). unfold alloc, c in Ha. lia.
    + intros b Hi. destruct (HG b) as (_ & _ & Hel).
      destruct (Hel c Hi) as (Ha & _). unfold alloc, c in Ha. lia.
  - (* the head of the old list *)
    destruct lo as [|c lo].
    { destruct HL as (Ho & _). cbn in Ho. rewrite Ho.
      eexists. split; [reflexivity | discriminate]. }
    destruct (Lists_pop _ _ _ _ HL) as (Ho & Hni & Hal & HL1).
    rewrite Ho. cbv zeta.
    destruct (nextold_spec _ r lo ln HL1)
      as (b & s2 & lo2 & ln2 & E2 & HL2 & Hp2 & Hs2).
    rewrite E2.
    assert (Hs02 : same_chains s s2).
    { apply same_chains_trans with (set_mpOld (ipNxt (msMch s c)) s);
        [same_tac | exact Hs2]. }
    pose proof Hs02
      as (Y1 & Y2 & Y3 & Y4 & Y5 & Y6 & Y7 & Y8 & Y9 & Y10 & Y11 & Y12).
    assert (HC2 : ColOK s2 LC) by now apply ColOK_ext with s.
    assert (HG2 : GldOK s2 LG) by now apply GldOK_ext with s.
    assert (HX2 : Cross s2 LC LG None) by now apply Cross_ext with s.
    assert (Hal2 : alloc s2 c) by now apply (alloc_same s).
    (* out of the colliding bucket *)
    assert (H3 : exists s3 LC3,
      (if (iiCnt (msMch s2 c) =? 1) || (iiGld (msMch s2 c) =? 0)
       then delCol s2 c else Some s2) = Some s3
      /\ ColOK s3 LC3 /\ GldOK s3 LG /\ Cross s3 LC3 LG (Some c)
      /\ (forall b, c ∉ LC3 b)
      /\ (forall i, exists v, msMch s3 i = set_ipCol v (msMch s2 i))
      /\ same_lists s2 s3).
    { destruct ((iiCnt (msMch s2 c) =? 1) || (iiGld (msMch s2 c) =? 0))
        eqn:Ec.
      - destruct (delCol_buckets s2 c LC LG None HC2 HG2 HX2)
          as (s3 & LC3 & E3 & A1 & A2 & A3 & A4 & A5 & _ & A7);
          [now left|].
        exists s3, LC3. auto 10.
      - exists s2, LC. split; [reflexivity|].
        split; [exact HC2|]. split; [exact HG2|].
        split; [now apply Cross_weaken|].
        split; [|split; [|apply same_lists_refl]].
        + intros b0 Hi. destruct (HC2 b0) as (_ & _ & Hel).
          destruct (Hel c Hi) as (_ & _ & Hg).
          apply orb_false_iff in Ec as [_ Ec]. apply Z.eqb_neq in Ec.
          congruence.
        + intros i. exists (ipCol (msMch s2 i)).
          symmetry. apply set_ipCol_same. }
    destruct H3 as (s3 & LC3 & E3 & HC3 & HG3 & HX3 & Hout3 & Hrec3 & L3).
    rewrite E3.
    assert (Hal3 : alloc s3 c).
    { destruct L3 as (Z1 & Z2 & _). now apply (alloc_same s2). }
    (* out of the gliding bucket *)
    assert (H4 : exists s4 LG4,
      (if (iiCnt (msMch s3 c) =? 1) || negb (iiGld (msMch s3 c) =? 0)
       then delGld s3 c else Some s3) = Some s4
      /\ ColOK s4 LC3 /\ GldOK s4 LG4 /\ Cross s4 LC3 LG4 None
      /\ (forall b, c ∉ LG4 b) /\ same_lists s3 s4).
    { destruct ((iiCnt (msMch s3 c) =? 1) || negb (iiGld (msMch s3 c) =? 0))
        eqn:Ec.
      - destruct (delGld_buckets s3 c LC3 LG (Some c) HC3 HG3 HX3)
          as (s4 & LG4 & E4 & A1 & A2 & A3 & A4 & _ & _ & A7);
          [now right|].
        exists s4, LG4. auto 10.
      - assert (Hout : forall b, c ∉ LG b).
        { intros b0 Hi. destruct (HG3 b0) as (_ & _ & Hel).
          destruct (Hel c Hi) as (_ & _ & _ & Hd).
          apply orb_false_iff in Ec as [Ec1 Ec2].
          apply Z.eqb_neq in Ec1. apply negb_false_iff, Z.eqb_eq in Ec2.
          destruct Hd as [[Hd _]|[_ Hd]]; congruence. }
        exists s3, LG. split; [reflexivity|].
        split; [exact HC3|]. split; [exact HG3|].
        split; [|split; [exact Hout | apply same_lists_refl]].
        intros b0 i Hi _ Hc. apply (HX3 b0 i Hi); [|exact Hc].
        intros [= ->]. now apply (Hout b0). }
    destruct H4 as (s4 & LG4 & E4 & HC4 & HG4 & HX4 & Hout4 & L4).
    rewrite E4.
    eexists. split; [reflexivity|]. intros c0 s1 [= <- <-].
    apply add_fill_buckets with LC3 LG4; auto.
    destruct L4 as (Z1 & Z2 & _). now apply (alloc_same s3).
Qed.

Lemma add_buckets (s : t F) (o n r : Z) :
  Inv s -> Buckets s ->
  exists ret s1, add sizeof_hkey s o n r = Some (ret, s1) /\ Buckets s1.
Proof.
  intros (lo & ln & HL & Hlen & HC & HN) HB. unfold add.
  pose proof HB as (LC & LG & HCo & HGl & HX).
  destruct (add_join_buckets s o n LC LG HN HCo HGl HX)
    as (p & s2 & Ej & HB2).
  rewrite Ej.
  destruct (add_join_spec _ _ _ _ _ _ HC HN Ej) as (L2 & C2 & N2 & Hp).
  pose proof (Lists_same _ _ _ _ L2 HL) as HL2.
  assert (Hlen2 : (length lo + length ln + miMchFre s2 = miMchSze s2)%nat).
  { destruct L2 as (-> & -> & _). exact Hlen. }
  assert (Hend : forall (liRet : eMatchReturn) (s3 : t F),
             Buckets s3 ->
             exists ret s1,
               (if (miMchFre s3 =? 0)%nat && ptr_eqb (mpOld s3) None
                then Some (Full, s3) else Some (liRet, s3)) = Some (ret, s1)
               /\ Buckets s1).
  { intros liRet s3 HB3. destruct (_ && _); eexists _, _; eauto. }
  destruct p as [c|].
  - (* the match joined the record [c] *)
    destruct (Hp c eq_refl) as [Hac Hcnt].
    assert (Hold : forall s3 : t F,
               Buckets s3 -> 2 <= iiCnt (msMch s3 c) ->
               exists ret s1,
                 match add_eval s3 c r with
                 | Some (liRet, s4) =>
                     if (miMchFre s4 =? 0)%nat && ptr_eqb (mpOld s4) None
                     then Some (Full, s4) else Some (liRet, s4)
                 | None => None
                 end = Some (ret, s1) /\ Buckets s1).
    { intros s3 HB3 Hc3.
      destruct (add_eval_old s3 c r Hc3) as (liRet & s4 & E4 & F4).
      rewrite E4. apply Hend. apply Buckets_same with s3; [apply F4|exact HB3]. }
    destruct (ptr_eqb (mpOld s2) (Some c)) eqn:Eo.
    + apply ptr_eqb_eq in Eo.
      destruct lo as [|c0 lo].
      { destruct HL2 as (Ho & _). cbn in Ho. congruence. }
      destruct (Lists_pop _ _ _ _ HL2) as (Ho & Hni & _ & HL3).
      assert (c0 = c) by congruence. subst c0.
      cbv zeta.
      destruct (nextold_spec _ r lo ln HL3)
        as (b & s4 & lo4 & ln4 & E4 & HL4 & Hp4 & Hs4).
      rewrite E4.
      assert (Hs24 : same_chains s2 s4).
      { apply same_chains_trans with (set_mpOld (ipNxt (msMch s2 c)) s2);
          [same_tac | exact Hs4]. }
      assert (Hac4 : alloc s4 c).
      { destruct Hs24 as (Y1 & Y2 & _). now apply (alloc_same s2). }
      destruct (addNew_spec s4 c lo4 ln4 HL4) as (s5 & E5 & HL5 & Hs5 & _).
      { now rewrite Hp4. }
      { exact Hac4. }
      rewrite E5. cbn [fst snd].
      assert (Hs25 : same_chains s2 s5)
        by now apply same_chains_trans with s4.
      apply (Hold s5).
      * now apply Buckets_same with s2.
      * destruct Hs25 as (_ & _ & _ & _ & _ & _ & _ & Y & _). now rewrite Y.
    + now apply (Hold s2).
  - (* a record for a new match *)
    destruct (add_alloc_buckets s2 o n r lo ln HL2 Hlen2 HB2)
      as (got & Ea & Hgot).
    rewrite Ea. destruct got as [[c s3]|];
      [|eexists _, _; split; [reflexivity | exact HB2]].
    pose proof (Hgot c s3 eq_refl) as HB3.
    destruct (add_alloc_spec _ _ _ _ _ _ _ _ HL2 Hlen2 C2 N2 Ea)
      as (lo3 & ln3 & HL3 & Hni & Hac & Hlen3 & C3 & N3 & Hcnt & Hz3).
    destruct (add_eval_new s3 c r lo3 ln3 HL3 Hni Hac Hcnt)
      as (liRet & s4 & ln4 & E4 & HL4 & Hlen4 & Hs4).
    rewrite E4. apply Hend. now apply Buckets_same with s3.
Qed.

(** [add] returns, and the invariants hold on return. *)
Lemma add_returns (s : t F) (o n r : Z) :
  Inv s -> Buckets s ->
  exists ret s1, add sizeof_hkey s o n r = Some (ret, s1)
                 /\ Inv s1 /\ Buckets s1.
Proof.
  intros HI HB.
  destruct (add_buckets s o n r HI HB) as (ret & s1 & E & HB1).
  exists ret, s1. split; [exact E|]. split; [|exact HB1].
  now apply (add_inv sizeof_hkey s o n r ret s1).
Qed.

Lemma create_buckets (aiMchSze aiMchPme : Z) (abCmpAll : bool) (aiAhdMax : Z)
  (fo fn : F) (pool : nat -> rMch) (aiHshRpr : Z) :
  Buckets (create aiMchSze aiMchPme abCmpAll aiAhdMax fo fn pool aiHshRpr).
Proof.
  exists (fun _ => []), (fun _ => []). split; [|split].
  - intros b. split; [reflexivity|]. split; [apply NoDup_nil_2|].
    intros i Hi. inversion Hi.
  - intros b. split; [reflexivity|]. split; [apply NoDup_nil_2|].
    intros i Hi. inversion Hi.
  - intros b i Hi. inversion Hi.
Qed.

Lemma reachable_buckets (aiMchSze : Z) (s : t F) :
  reachable sizeof_hkey aiMchSze s -> Inv s /\ Buckets s.
Proof.
  induction 1 as [ | s o n r ret s1 _ [IH1 IH2] E
                   | s hsh b r ret s1 _ [IH1 IH2] E
                   | s ro rn bo bn ret o n s1 _ [IH1 IH2] E
                   | s fo fn _ [IH1 IH2]].
  - split; [apply create_inv | apply create_buckets].
  - destruct (add_returns s o n r IH1 IH2) as (ret1 & s2 & E2 & HI & HB).
    rewrite E2 in E. injection E as _ <-. now split.
  - destruct (cleanup_inv hsh s b r IH1) as (ret1 & s2 & E2 & HI & _ & Hs).
    rewrite E2 in E. injection E as _ <-.
    split; [exact HI | now apply Buckets_same with s].
  - destruct (getbest_inv _ _ _ _ _ _ _ _ _ IH1 E) as (HI & _ & Hs).
    split; [exact HI | now apply Buckets_same with s].
  - split.
    + apply Inv_frame with s; [|exact IH1].
      split; [same_tac | same_tac].
    + apply Buckets_same with s; [same_tac | exact IH2].
Qed.

End TableCalls.

(** The calls of a match table in use are complete: whatever the
    arguments, [add], [cleanup] and [getbest] return. *)
Theorem calls_return {F : Type} `{JFile.ops F} (sizeof_hkey : Z)
  (aiMchSze : Z) (s : JMatchTable.t F) :
  0 < sizeof_hkey ->
  reachable sizeof_hkey aiMchSze s ->
  (forall o n r, exists ret s1,
      JMatchTable.add sizeof_hkey s o n r = Some (ret, s1))
  /\ (forall hsh b r, exists ret s1,
        JMatchTable.cleanup hsh s b r = Some (ret, s1))
  /\ (forall ro rn bo bn, exists ret o n s1,
        JMatchTable.getbest s ro rn bo bn = Some (ret, o, n, s1)).
Proof.
  intros Hsz Hr.
  destruct (reachable_buckets sizeof_hkey Hsz aiMchSze s Hr) as [HI HB].
  split; [|split].
  - intros o n r.
    destruct (add_returns sizeof_hkey Hsz s o n r HI HB)
      as (ret & s1 & E & _).
    now exists ret, s1.
  - intros hsh b r.
    destruct (cleanup_inv hsh s b r HI) as (ret & s1 & E & _).
    now exists ret, s1.
  - intros ro rn bo bn. now apply getbest_returns.
Qed.

(** ** Prime numbers ([JDefs.cpp]) *)

Section Primes.

Import JDefsCpp.

(** [number / i >= i] on positive [int]s. *)
Lemma quot_ge_square (n i : Z) :
  0 <= n -> 0 < i -> (Z.quot n i >=? i) = (i * i <=? n).
Proof.
  intros Hn Hi. rewrite Z.quot_div_nonneg by lia.
  destruct (Z.leb_spec (i * i) n) as [H|H].
  - apply Z.geb_le. apply Z.div_le_lower_bound; lia.
  - destruct (Z.geb_spec (n / i) i) as [H1|H1]; [|reflexivity].
    exfalso. pose proof (Z.mul_div_le n i Hi). nia.
Qed.

Lemma rem_divide (n i : Z) :
  0 <= n -> 0 < i -> (Z.rem n i =? 0) = true <-> (i | n).
Proof.
  intros Hn Hi. rewrite Z.rem_mod_nonneg by lia. rewrite Z.eqb_eq.
  apply Z.mod_divide. lia.
Qed.

Lemma isPrime_loop_spec (n : Z) :
  3 <= n ->
  forall (fuel : nat) (i : Z),
    3 <= i -> Z.odd i = true -> Z.sqrt n < i + 2 * Z.of_nat fuel ->
    (forall d, 3 <= d < i -> Z.odd d = true -> ~ (d | n)) ->
    exists b, isPrime_loop fuel n i = Some b
              /\ (b = true <->
                  forall d, 3 <= d -> d * d <= n -> Z.odd d = true ->
                            ~ (d | n)).
Proof.
  intros Hn. induction fuel as [|fuel IH]; intros i Hi Hodd Hfuel Hinv.
  - assert (Hsq : n < i * i).
    { apply Z.sqrt_lt_square; lia. }
    exists true. split.
    + cbn [isPrime_loop]. rewrite quot_ge_square by lia.
      destruct (Z.leb_spec (i * i) n); [lia | reflexivity].
    + split; [|reflexivity]. intros _ d Hd Hdd Hdo.
      apply Hinv; [|exact Hdo]. nia.
  - cbn [isPrime_loop]. rewrite quot_ge_square by lia.
    destruct (Z.leb_spec (i * i) n) as [Hle|Hgt].
    + destruct (Z.rem n i =? 0) eqn:Er.
      * apply rem_divide in Er; [|lia|lia].
        exists false. split; [reflexivity|]. split; [discriminate|].
        intros Hall. exfalso. now apply (Hall i).
      * apply (IH (i + 2)); [lia | | lia |].
        { rewrite Z.odd_add. now rewrite Hodd. }
        intros d Hd Hdo.
        destruct (Z.eq_dec d i) as [->|Hne].
        -- intros Hdiv. apply rem_divide in Hdiv; [congruence|lia|lia].
        -- destruct (Z.eq_dec d (i + 1)) as [->|Hne1].
           ++ rewrite Z.odd_add, Hodd in Hdo. discriminate.
           ++ apply Hinv; [lia | exact Hdo].
    + exists true. split; [reflexivity|]. split; [|reflexivity].
      intros _ d Hd Hdd Hdo. apply Hinv; [|exact Hdo]. nia.
Qed.

(** An odd number from 3 on is prime when no odd number up to its square
    root divides it. *)
Lemma odd_prime_iff (n : Z) :
  3 <= n -> Z.odd n = true ->
  (Z.prime n <->
   forall d, 3 <= d -> d * d <= n -> Z.odd d = true -> ~ (d | n)).
Proof.
  intros Hn Hodd. split.
  - intros Hp d Hd Hdd Hdo Hdiv.
    destruct (Z.divide_prime_r _ _ Hp Hdiv) as [H|[H|[H|H]]]; nia.
  - intros Hall. split; [lia|].
    intros m Hm [k Hk].
    assert (Hk1 : 1 < k) by nia.
    assert (Hev : forall d, (d | n) -> Z.odd d = true).
    { intros d [q Hq]. destruct (Z.odd d) eqn:Ed; [reflexivity|].
      rewrite Hq, Z.odd_mul, Ed, andb_false_r in Hodd. discriminate. }
    destruct (Z_le_gt_dec m k) as [Hmk|Hmk].
    + assert (Hdm : (m | n)) by (exists k; lia).
      pose proof (Hev m Hdm) as Hom.
      assert (m <> 2) by (intros ->; discriminate).
      apply (Hall m); [lia | nia | exact Hom | exact Hdm].
    + assert (Hdk : (k | n)) by (exists m; lia).
      pose proof (Hev k Hdk) as Hok.
      assert (k <> 2) by (intros ->; discriminate).
      apply (Hall k); [lia | nia | exact Hok | exact Hdk].
Qed.

(** [isPrime] decides primality. *)
Lemma isPrime_spec (number : Z) :
  exists b, isPrime number = Some b /\ (b = true <-> Z.prime number).
Proof.
  unfold isPrime.
  destruct (Z.ltb_spec number 2) as [H2|H2].
  { exists false. split; [reflexivity|]. split; [discriminate|].
    intros Hp. apply Z.prime_ge_2 in Hp. lia. }
  destruct (Z.eqb_spec number 2) as [->|Hne].
  { exists true. split; [reflexivity|]. split; [intros _; apply Z.prime_2 | auto]. }
  destruct (Z.rem number 2 =? 0) eqn:Er.
  { apply rem_divide in Er; [|lia|lia].
    exists false. split; [reflexivity|]. split; [discriminate|].
    intros Hp. destruct (Z.divide_prime_r _ _ Hp Er) as [H|[H|[H|H]]]; lia. }
  assert (Hodd : Z.odd number = true).
  { rewrite Z.rem_mod_nonneg in Er by lia.
    rewrite Zodd_mod. apply Z.eqb_neq in Er.
    pose proof (Z.mod_pos_bound number 2 ltac:(lia)).
    apply Z.eqb_eq. lia. }
  destruct (isPrime_loop_spec number ltac:(lia)
              (Z.to_nat (Z.sqrt number)) 3) as (b & E & Hb).
  - lia.
  - reflexivity.
  - pose proof (Z.sqrt_nonneg number). lia.
  - intros d Hd. lia.
  - exists b. split; [exact E|]. rewrite Hb. symmetry.
    apply odd_prime_iff; [lia | exact Hodd].
Qed.

(** X1.  [isPrime] returns for every number, and it returns [true] exactly
    for the prime numbers. *)
Theorem isPrime_correct (number : Z) :
  exists b, isPrime number = Some b /\ (b = true <-> Z.prime number).
Proof. exact (isPrime_spec number). Qed.

Lemma isPrime_true (n : Z) : isPrime n = Some true -> Z.prime n.
Proof.
  intros E. destruct (isPrime_spec n) as (b & Eb & Hb).
  apply Hb. congruence.
Qed.

Lemma isPrime_false (n : Z) : isPrime n = Some false -> ~ Z.prime n.
Proof.
  intros E Hp. destruct (isPrime_spec n) as (b & Eb & Hb).
  apply Hb in Hp. congruence.
Qed.

Lemma getLowerPrime_loop_spec (fuel : nat) :
  forall n, 2 <= n -> (Z.to_nat n <= fuel)%nat ->
    exists p, getLowerPrime_loop fuel n = Some p
              /\ Z.prime p /\ p <= n
              /\ (forall q, Z.prime q -> q <= n -> q <= p).
Proof.
  induction fuel as [|fuel IH]; intros n Hn Hfuel; [lia|].
  cbn [getLowerPrime_loop].
  destruct (Z.gtb_spec n 0) as [_|]; [|lia].
  destruct (isPrime_spec n) as (b & Eb & Hb). rewrite Eb.
  destruct b.
  - exists n. split; [reflexivity|]. split; [now apply Hb|]. split; [lia|].
    intros q _ Hq. exact Hq.
  - assert (Hnp : ~ Z.prime n) by (intros Hp; apply Hb in Hp; discriminate).
    assert (n <> 2) by (intros ->; apply Hnp, Z.prime_2).
    destruct (IH (n - 1)) as (p & Ep & Hp & Hle & Hmax); [lia|lia|].
    exists p. split; [exact Ep|]. split; [exact Hp|]. split; [lia|].
    intros q Hq Hqn. destruct (Z.eq_dec q n) as [->|Hne]; [contradiction|].
    apply Hmax; [exact Hq | lia].
Qed.

(** The entries of the table of [getLowerPrime] are checked by running
    [isPrime] on the entry and on the numbers between it and the
    argument. *)
Lemma between_primes (p n : Z) (gap : list Z) :
  isPrime p = Some true ->
  forallb (fun q => match isPrime q with Some false => true | _ => false end)
          gap = true ->
  (forall q, p < q <= n -> q ∈ gap) ->
  p <= n ->
  Z.prime p /\ p <= n /\ (forall q, Z.prime q -> q <= n -> q <= p).
Proof.
  intros Hp Hgap Hall Hle. split; [now apply isPrime_true|]. split; [exact Hle|].
  intros q Hq Hqn. destruct (Z_le_gt_dec q p) as [|Hgt]; [assumption|].
  exfalso. assert (Hin : q ∈ gap) by (apply Hall; lia).
  apply list_elem_of_In in Hin.
  rewrite forallb_forall in Hgap. specialize (Hgap q Hin).
  destruct (isPrime q) as [[|]|] eqn:E; try discriminate.
  now apply (isPrime_false q).
Qed.

(** The prime that [getLowerPrime] finds. *)
Lemma getLowerPrime_spec (aiNum : Z) :
  2 <= aiNum ->
  exists p, getLowerPrime aiNum = Some p
            /\ Z.prime p /\ p <= aiNum
            /\ (forall q, Z.prime q -> q <= aiNum -> q <= p).
Proof.
  intros Hn. unfold getLowerPrime.
  repeat match goal with
         | |- context [Z.eqb aiNum ?k] =>
             destruct (Z.eqb_spec aiNum k) as [->|?]
         end;
    try (eexists; split; [reflexivity|];
         match goal with
         | |- Z.prime ?p /\ ?p <= ?n /\ _ =>
             apply (between_primes p n
                      (map (fun k => p + 1 + Z.of_nat k)
                           (seq 0 (Z.to_nat (n - p)))));
             [ now vm_compute | now vm_compute
             | intros q Hq; apply list_elem_of_In, in_map_iff;
               exists (Z.to_nat (q - p - 1)); split; [lia|]; apply in_seq; lia
             | lia ]
         end).
  apply getLowerPrime_loop_spec; [exact Hn | lia].
Qed.

(** X2.  For a number from 2 on, [getLowerPrime] returns the largest prime
    number that is not above it (the number itself when it is prime). *)
Theorem getLowerPrime_largest (aiNum : Z) :
  2 <= aiNum ->
  exists p, getLowerPrime aiNum = Some p
            /\ Z.prime p /\ p <= aiNum
            /\ (forall q, Z.prime q -> q <= aiNum -> q <= p).
Proof. exact (getLowerPrime_spec aiNum). Qed.

(** No prime below 2. *)
Lemma getLowerPrime_small (aiNum : Z) :
  aiNum < 2 -> getLowerPrime aiNum = Some (Z.min aiNum 0).
Proof.
  intros Hn. unfold getLowerPrime.
  repeat match goal with
         | |- context [Z.eqb aiNum ?k] =>
             destruct (Z.eqb_spec aiNum k) as [->|_]; [lia|]
         end.
  destruct (Z.eq_dec aiNum 1) as [->|Hne]; [reflexivity|].
  destruct (Z.to_nat aiNum) eqn:E; [|lia].
  cbn [getLowerPrime_loop].
  destruct (Z.gtb_spec aiNum 0); [lia|]. f_equal. lia.
Qed.

(** X3.  For a number below 2, [getLowerPrime] finds no prime number: it
    returns the number itself when it is not positive and 0 for 1, so its
    result is never positive. *)
Theorem getLowerPrime_below_two (aiNum : Z) :
  aiNum < 2 -> getLowerPrime aiNum = Some (Z.min aiNum 0).
Proof. exact (getLowerPrime_small aiNum). Qed.

End Primes.

Lemma getLowerPrime_largest_witness :
  exists p, JDefsCpp.getLowerPrime 2048 = Some p
            /\ Z.prime p /\ p <= 2048
            /\ (forall q, Z.prime q -> q <= 2048 -> q <= p).
Proof. apply (getLowerPrime_largest 2048). lia. Defined.

Lemma getLowerPrime_below_two_witness :
  JDefsCpp.getLowerPrime 1 = Some (Z.min 1 0).
Proof. apply (getLowerPrime_below_two 1). lia. Defined.

(** ** The sizes of the tables *)

Section Sizes.

Import Construct.

(** X4.  A source index made for [aiSze] megabytes has a prime number of
    slots, the largest one whose slots fit into [aiSze] megabytes (one
    megabyte when [aiSze] is below 1), and its load counter starts at the
    number of slots. *)
Theorem new_JHashPos_sized (sizeof_hkey sizeof_off_t aiSze : Z)
  (azPos akHsh : list Z) :
  0 < sizeof_hkey -> 0 < sizeof_off_t ->
  sizeof_hkey + sizeof_off_t <= 512 * 1024 ->
  aiSze < 2048 ->
  let liBytes := Z.max aiSze 1 * 1024 * 1024 in
  exists s,
    new_JHashPos sizeof_hkey sizeof_off_t aiSze azPos akHsh = Some s
    /\ Z.prime (JHashPos.miHshPme s)
    /\ JHashPos.miHshSze s
       = JHashPos.miHshPme s * (sizeof_off_t + sizeof_hkey)
    /\ JHashPos.miHshSze s <= liBytes
    /\ (forall q, Z.prime q ->
          q * (sizeof_off_t + sizeof_hkey) <= liBytes ->
          q <= JHashPos.miHshPme s)
    /\ JHashPos.miLodCnt s = JHashPos.miHshPme s
    /\ JHashPos.mzHshTblPos s = azPos /\ JHashPos.mkHshTblHsh s = akHsh.
Proof.
  intros Hk Ho Hsz _ liBytes. unfold new_JHashPos.
  assert (Hmax : (if aiSze <? 1 then 1 else aiSze) = Z.max aiSze 1).
  { destruct (Z.ltb_spec aiSze 1); lia. }
  rewrite Hmax. fold liBytes.
  set (e := sizeof_hkey + sizeof_off_t).
  assert (Hb : 1024 * 1024 <= liBytes) by (unfold liBytes; lia).
  assert (Hq : Z.quot liBytes e = liBytes / e)
    by (apply Z.quot_div_nonneg; lia).
  rewrite Hq.
  assert (H2 : 2 <= liBytes / e).
  { apply Z.div_le_lower_bound; lia. }
  destruct (getLowerPrime_spec (liBytes / e) H2)
    as (p & Ep & Hp & Hle & Hbest).
  rewrite Ep. eexists. split; [reflexivity|]. cbn.
  assert (He : sizeof_off_t + sizeof_hkey = e) by (unfold e; lia).
  rewrite He.
  assert (Hmul : e * (liBytes / e) <= liBytes)
    by (apply Z.mul_div_le; lia).
  split; [exact Hp|]. split; [reflexivity|]. split; [nia|].
  split; [|auto].
  intros q Hq' Hfit. apply Hbest; [exact Hq'|].
  apply Z.div_le_lower_bound; lia.
Qed.

(** X5.  A match table made for [aiMchSze >= 1] matches, where
    [2 * aiMchSze] fits in an [int] and the heap has the memory, has a pool
    of [max (aiMchSze, 13)] records, all of them free, and a prime number
    of buckets, the largest prime that is not above [2 * aiMchSze]; when
    the heap refuses one of the three allocations the constructor throws
    [bad_alloc] and there is no table. *)
Theorem new_JMatchTable_sized {F : Type} (int_bits : Z) (aiMchSze : Z)
  (abCmpAll : bool) (aiAhdMax : Z) (apFilOrg apFilNew : F)
  (pool : nat -> JMatchTable.rMch) (aiHshRpr : Z) :
  1 <= aiMchSze -> aiMchSze * 2 < 2 ^ (int_bits - 1) ->
  (exists s,
      new_JMatchTable int_bits true true true aiMchSze abCmpAll aiAhdMax
        apFilOrg apFilNew pool aiHshRpr = Some (Made s)
      /\ Z.prime (JMatchTable.miMchPme s)
      /\ JMatchTable.miMchPme s <= 2 * aiMchSze
      /\ (forall q, Z.prime q -> q <= 2 * aiMchSze ->
            q <= JMatchTable.miMchPme s)
      /\ JMatchTable.miMchSze s = Z.to_nat (Z.max aiMchSze 13)
      /\ JMatchTable.miMchFre s = JMatchTable.miMchSze s
      /\ (forall i, JMatchTable.mpCol s i = None
                    /\ JMatchTable.mpGld s i = None))
  /\ (forall okMch okCol okGld : bool,
        okMch && okCol && okGld = false ->
        new_JMatchTable int_bits okMch okCol okGld aiMchSze abCmpAll
          aiAhdMax apFilOrg apFilNew pool aiHshRpr = Some bad_alloc).
Proof.
  intros Hn Hfit. unfold new_JMatchTable.
  assert (Hpow : 0 < 2 ^ (int_bits - 1)) by lia.
  destruct (Z.ltb_spec (aiMchSze * 2) (- (2 ^ (int_bits - 1)))); [lia|].
  destruct (Z.leb_spec (2 ^ (int_bits - 1)) (aiMchSze * 2)); [lia|].
  destruct (getLowerPrime_spec (aiMchSze * 2) ltac:(lia))
    as (p & Ep & Hp & Hle & Hbest).
  rewrite Ep. cbn [negb orb andb].
  assert (H2 : 2 <= p) by (destruct Hp; lia).
  destruct (Z.leb_spec 0 p); [|lia]. cbn [negb orb andb].
  split.
  - eexists. split; [reflexivity|]. cbn.
    split; [exact Hp|]. split; [lia|].
    split; [intros q Hq Hq2; apply Hbest; [exact Hq | lia]|].
    split; [|auto].
    destruct (Z.ltb_spec aiMchSze 13); f_equal; lia.
  - intros [|] [|] [|]; cbn; intros E; try discriminate; reflexivity.
Qed.

(** X6.  No match table is made for a negative [aiMchSze]: the number of
    buckets [2 * aiMchSze] is negative, [calloc] refuses it and the
    constructor throws [bad_alloc], whatever memory the heap has.  For
    [aiMchSze = 0], where the heap grants the pool and two empty arrays,
    the table has 13 records and no bucket at all: the modulus [miMchPme]
    of the bucket index is 0. *)
Theorem new_JMatchTable_no_bucket {F : Type} (int_bits : Z)
  (aiMchSze : Z) (abCmpAll : bool) (aiAhdMax : Z) (apFilOrg apFilNew : F)
  (pool : nat -> JMatchTable.rMch) (aiHshRpr : Z) :
  aiMchSze <= 0 ->
  - (2 ^ (int_bits - 1)) <= aiMchSze * 2 < 2 ^ (int_bits - 1) ->
  (aiMchSze < 0 ->
   forall okMch okCol okGld : bool,
     new_JMatchTable int_bits okMch okCol okGld aiMchSze abCmpAll aiAhdMax
       apFilOrg apFilNew pool aiHshRpr = Some bad_alloc)
  /\ (aiMchSze = 0 ->
      exists s,
        new_JMatchTable int_bits true true true aiMchSze abCmpAll aiAhdMax
          apFilOrg apFilNew pool aiHshRpr = Some (Made s)
        /\ JMatchTable.miMchPme s = 0
        /\ JMatchTable.miMchSze s = 13%nat
        /\ JMatchTable.miMchFre s = 13%nat).
Proof.
  intros Hn Hfit. unfold new_JMatchTable.
  destruct (Z.ltb_spec (aiMchSze * 2) (- (2 ^ (int_bits - 1)))); [lia|].
  assert (Hpos : (2 ^ (int_bits - 1) <=? aiMchSze * 2) = false)
    by (apply Z.leb_gt; lia).
  rewrite Hpos. cbn [orb].
  rewrite getLowerPrime_small by lia.
  split.
  - intros Hneg okMch okCol okGld.
    destruct okMch; [|reflexivity]. cbn [negb].
    destruct (Z.leb_spec 0 (Z.min (aiMchSze * 2) 0)); [lia|].
    now rewrite !andb_false_r.
  - intros ->. cbn. eexists. split; [reflexivity|]. cbn. auto.
Qed.

(** The sizes the constructor of a reader settles on. *)
Lemma buffer_sizes_spec (alBufSze aiBlkSze : Z) :
  0 <= alBufSze -> 0 <= aiBlkSze ->
  let '(mlBufSze, miBlkSze) := buffer_sizes alBufSze aiBlkSze in
  let liBuf := if alBufSze =? 0 then 1024 else alBufSze in
  miBlkSze = Z.max aiBlkSze 1
  /\ 0 < miBlkSze <= mlBufSze
  /\ mlBufSze mod miBlkSze = 0
  /\ mlBufSze = Z.max (liBuf / miBlkSze) 1 * miBlkSze.
Proof.
  intros Hb Hk. unfold buffer_sizes.
  set (buf := if alBufSze =? 0 then 1024 else alBufSze).
  set (blk := if aiBlkSze =? 0 then 1 else aiBlkSze).
  assert (Hbuf : 0 < buf) by (unfold buf; destruct (Z.eqb_spec alBufSze 0); lia).
  assert (Hblk : blk = Z.max aiBlkSze 1)
    by (unfold blk; destruct (Z.eqb_spec aiBlkSze 0); lia).
  assert (Hpos : 0 < blk) by lia.
  rewrite Z.rem_mod_nonneg by lia.
  pose proof (Z.div_mod buf blk ltac:(lia)) as Hdm.
  pose proof (Z.mod_pos_bound buf blk Hpos) as Hm.
  assert (Hq : 0 <= buf / blk) by (apply Z.div_pos; lia).
  assert (Hcut : (if negb (buf mod blk =? 0) then buf - buf mod blk else buf)
                 = blk * (buf / blk)).
  { destruct (Z.eqb_spec (buf mod blk) 0); cbn; lia. }
  rewrite Hcut.
  destruct (Z.eqb_spec (blk * (buf / blk)) 0) as [E0|E0].
  - assert (buf / blk = 0) by nia.
    split; [exact Hblk|]. split; [lia|]. split; [apply Z_mod_same_full|].
    replace (Z.max (buf / blk) 1) with 1 by lia. lia.
  - assert (1 <= buf / blk) by nia.
    split; [exact Hblk|]. split; [nia|].
    split; [rewrite Z.mul_comm; apply Z_mod_mult|].
    replace (Z.max (buf / blk) 1) with (buf / blk) by lia. lia.
Qed.

(** X7.  The buffer of a reader is a positive multiple of its block:
    a zero block becomes 1, a zero buffer becomes 1024, a buffer that is
    not a multiple of the block is cut down to one, and a buffer smaller
    than a block becomes one block. *)
Theorem buffer_sizes_aligned (alBufSze aiBlkSze : Z) :
  0 <= alBufSze -> 0 <= aiBlkSze ->
  let '(mlBufSze, miBlkSze) := buffer_sizes alBufSze aiBlkSze in
  let liBuf := if alBufSze =? 0 then 1024 else alBufSze in
  miBlkSze = Z.max aiBlkSze 1
  /\ 0 < miBlkSze <= mlBufSze
  /\ mlBufSze mod miBlkSze = 0
  /\ mlBufSze = Z.max (liBuf / miBlkSze) 1 * miBlkSze.
Proof. exact (buffer_sizes_spec alBufSze aiBlkSze). Qed.

End Sizes.

Lemma new_JHashPos_sized_witness :
  exists s,
    Construct.new_JHashPos 4 8 1 [] [] = Some s
    /\ Z.prime (JHashPos.miHshPme s)
    /\ JHashPos.miHshSze s = JHashPos.miHshPme s * (8 + 4)
    /\ JHashPos.miHshSze s <= Z.max 1 1 * 1024 * 1024
    /\ (forall q, Z.prime q -> q * (8 + 4) <= Z.max 1 1 * 1024 * 1024 ->
          q <= JHashPos.miHshPme s)
    /\ JHashPos.miLodCnt s = JHashPos.miHshPme s
    /\ JHashPos.mzHshTblPos s = [] /\ JHashPos.mkHshTblHsh s = [].
Proof. apply (new_JHashPos_sized 4 8 1 [] []); lia. Defined.

Lemma new_JMatchTable_sized_witness :
  (exists s,
      Construct.new_JMatchTable 32 true true true 8 false 1024 example_org
        example_new
        (fun _ => JMatchTable.mkMch None None None 0 0 0 0 0 0 0 0) 0
      = Some (Construct.Made s)
      /\ Z.prime (JMatchTable.miMchPme s)
      /\ JMatchTable.miMchPme s <= 2 * 8
      /\ (forall q, Z.prime q -> q <= 2 * 8 -> q <= JMatchTable.miMchPme s)
      /\ JMatchTable.miMchSze s = Z.to_nat (Z.max 8 13)
      /\ JMatchTable.miMchFre s = JMatchTable.miMchSze s
      /\ (forall i, JMatchTable.mpCol s i = None
                    /\ JMatchTable.mpGld s i = None))
  /\ (forall okMch okCol okGld : bool,
        okMch && okCol && okGld = false ->
        Construct.new_JMatchTable 32 okMch okCol okGld 8 false 1024
          example_org example_new
          (fun _ => JMatchTable.mkMch None None None 0 0 0 0 0 0 0 0) 0
        = Some Construct.bad_alloc).
Proof.
  apply (new_JMatchTable_sized 32 8 false 1024 example_org example_new);
    lia.
Defined.

Lemma new_JMatchTable_no_bucket_witness :
  (-1 < 0 ->
   forall okMch okCol okGld : bool,
     Construct.new_JMatchTable 32 okMch okCol okGld (-1) false 1024
       example_org example_new
       (fun _ => JMatchTable.mkMch None None None 0 0 0 0 0 0 0 0) 0
     = Some Construct.bad_alloc)
  /\ (-1 = 0 ->
      exists s,
        Construct.new_JMatchTable 32 true true true (-1) false 1024
          example_org example_new
          (fun _ => JMatchTable.mkMch None None None 0 0 0 0 0 0 0 0) 0
        = Some (Construct.Made s)
        /\ JMatchTable.miMchPme s = 0
        /\ JMatchTable.miMchSze s = 13%nat
        /\ JMatchTable.miMchFre s = 13%nat).
Proof.
  apply (new_JMatchTable_no_bucket 32 (-1) false 1024 example_org
           example_new); lia.
Defined.

Lemma buffer_sizes_aligned_witness :
  let '(mlBufSze, miBlkSze) := Construct.buffer_sizes 100 4096 in
  let liBuf := if 100 =? 0 then 1024 else 100 in
  miBlkSze = Z.max 4096 1
  /\ 0 < miBlkSze <= mlBufSze
  /\ mlBufSze mod miBlkSze = 0
  /\ mlBufSze = Z.max (liBuf / miBlkSze) 1 * miBlkSze.
Proof. apply (buffer_sizes_aligned 100 4096); lia. Defined.

(** ** Lookups in the source index *)

Section IndexLookup.

Import JHashPos.

Variable sz : Z.

(** The slots after a call of [add]. *)
Lemma add_slots (s : t) (h pos e : Z) :
  wf s -> 0 <= h ->
  let s1 := add sz s h pos e in
  wf s1 /\ miHshPme s1 = miHshPme s
  /\ forall i, 0 <= i < miHshPme s ->
       (rd (mkHshTblHsh s1) i, rd (mzHshTblPos s1) i)
       = if (miHshColCnt s - add_rate sz e <=? 0) && (i =? h mod miHshPme s)
         then (h, pos)
         else (rd (mkHshTblHsh s) i, rd (mzHshTblPos s) i).
Proof.
  intros (HP & Hlp & Hlh) Hh s1.
  assert (Hidx : 0 <= h mod miHshPme s < miHshPme s)
    by (apply Z.mod_pos_bound; lia).
  assert (Hl : miHshPme (add_load s) = miHshPme s
               /\ miHshColCnt (add_load s) = miHshColCnt s
               /\ mkHshTblHsh (add_load s) = mkHshTblHsh s
               /\ mzHshTblPos (add_load s) = mzHshTblPos s).
  { unfold add_load. destruct (0 <? miLodCnt s); cbn; auto. }
  destruct Hl as (HlP & HlC & HlH & HlZ).
  subst s1. unfold add, add_store. rewrite HlP, HlC, HlH, HlZ.
  destruct (miHshColCnt s - add_rate sz e <=? 0);
    cbn [mkHshTblHsh mzHshTblPos miHshPme andb].
  - split; [unfold wf; cbn; rewrite ?length_wr; auto|].
    split; [reflexivity|].
    intros i Hi. destruct (Z.eqb_spec i (h mod miHshPme s)) as [->|Hne].
    + now rewrite !rd_wr_same by lia.
    + now rewrite !rd_wr_other by lia.
  - split; [unfold wf; cbn; rewrite ?HlP; auto|].
    split; [reflexivity|]. intros i Hi. reflexivity.
Qed.

(** A lookup reads the slot of the hash. *)
Lemma get_slot (s : t) (h p0 : Z) :
  fst (get s h p0)
  = if rd (mkHshTblHsh s) (h mod miHshPme s) =? h
    then (true, rd (mzHshTblPos s) (h mod miHshPme s))
    else (false, p0).
Proof.
  unfold get. destruct (rd (mkHshTblHsh s) (h mod miHshPme s) =? h);
    reflexivity.
Qed.

(** X8.  A sample that [add] stores (the collision counter has run out)
    is found by the next lookup of its hash, with its position. *)
Theorem get_after_store (s : t) (h pos e p0 : Z) :
  wf s -> 0 <= h ->
  miHshColCnt s - add_rate sz e <= 0 ->
  fst (get (add sz s h pos e) h p0) = (true, pos).
Proof.
  intros Hwf Hh Hst.
  destruct (add_slots s h pos e Hwf Hh) as (_ & HP & Hs).
  rewrite get_slot, HP.
  assert (Hidx : 0 <= h mod miHshPme s < miHshPme s)
    by (apply Z.mod_pos_bound; apply Hwf).
  specialize (Hs _ Hidx).
  destruct (Z.leb_spec (miHshColCnt s - add_rate sz e) 0); [|lia].
  rewrite Z.eqb_refl in Hs. cbn in Hs.
  injection Hs as -> ->. now rewrite Z.eqb_refl.
Qed.

(** X9.  A sample that [add] does not store (the collision counter has
    not run out) is dropped: every lookup answers as before the call. *)
Theorem get_after_drop (s : t) (h pos e h1 p0 : Z) :
  wf s -> 0 <= h -> 0 <= h1 ->
  0 < miHshColCnt s - add_rate sz e ->
  fst (get (add sz s h pos e) h1 p0) = fst (get s h1 p0).
Proof.
  intros Hwf Hh Hh1 Hst.
  destruct (add_slots s h pos e Hwf Hh) as (_ & HP & Hs).
  rewrite !get_slot, HP.
  assert (Hidx : 0 <= h1 mod miHshPme s < miHshPme s)
    by (apply Z.mod_pos_bound; apply Hwf).
  specialize (Hs _ Hidx).
  destruct (Z.leb_spec (miHshColCnt s - add_rate sz e) 0); [lia|].
  cbn in Hs. injection Hs as -> ->. reflexivity.
Qed.

Lemma adds_wf (cs : list call) :
  forall s, wf s -> (forall c, c ∈ cs -> 0 <= c_hsh c) ->
            wf (adds sz s cs) /\ miHshPme (adds sz s cs) = miHshPme s.
Proof.
  induction cs as [|c cs IH]; intros s Hwf Hcs; [now split|].
  change (adds sz s (c :: cs))
    with (adds sz (add sz s (c_hsh c) (c_pos c) (c_eql c)) cs).
  destruct (add_slots s (c_hsh c) (c_pos c) (c_eql c) Hwf
              (Hcs c (list_elem_of_here _ _))) as (Hwf1 & HP & _).
  destruct (IH _ Hwf1) as (Hwf2 & HP2).
  - intros c1 Hc1. apply Hcs. now apply list_elem_of_further.
  - split; [exact Hwf2 | congruence].
Qed.

(** X10.  A lookup never invents a position: what it finds after a
    sequence of [add]s is the position of one of these calls, made with
    exactly the hash looked up, or what the table answered before them. *)
Theorem get_adds_sound (cs : list call) (s : t) (h p0 p : Z) :
  wf s -> (forall c, c ∈ cs -> 0 <= c_hsh c) -> 0 <= h ->
  fst (get (adds sz s cs) h p0) = (true, p) ->
  (exists c, c ∈ cs /\ c_hsh c = h /\ c_pos c = p)
  \/ fst (get s h p0) = (true, p).
Proof.
  revert s. induction cs as [|c cs IH]; intros s Hwf Hcs Hh Hget.
  - right. exact Hget.
  - change (adds sz s (c :: cs))
      with (adds sz (add sz s (c_hsh c) (c_pos c) (c_eql c)) cs) in Hget.
    assert (Hc : 0 <= c_hsh c) by (apply Hcs, list_elem_of_here).
    destruct (add_slots s (c_hsh c) (c_pos c) (c_eql c) Hwf Hc)
      as (Hwf1 & HP & Hs).
    destruct (IH _ Hwf1) as [(c1 & Hin & E1 & E2)|Hold].
    + intros c1 Hc1. apply Hcs. now apply list_elem_of_further.
    + exact Hh.
    + exact Hget.
    + left. exists c1. split; [now apply list_elem_of_further | now split].
    + rewrite get_slot, HP in Hold.
      assert (Hidx : 0 <= h mod miHshPme s < miHshPme s)
        by (apply Z.mod_pos_bound; apply Hwf).
      specialize (Hs _ Hidx).
      destruct ((miHshColCnt s - add_rate sz (c_eql c) <=? 0)
                && (h mod miHshPme s =? c_hsh c mod miHshPme s)).
      * injection Hs as Eh Ep. rewrite Eh, Ep in Hold.
        destruct (Z.eqb_spec (c_hsh c) h) as [E|]; [|discriminate].
        left. exists c. split; [apply list_elem_of_here|].
        split; [exact E | congruence].
      * injection Hs as Eh Ep. rewrite Eh, Ep in Hold.
        right. now rewrite get_slot.
Qed.

End IndexLookup.

Lemma get_after_store_witness :
  let s := JHashPos.create 4 7 0 [0; 0; 0; 0; 0; 0; 0] [0; 0; 0; 0; 0; 0; 0] in
  fst (JHashPos.get (JHashPos.add 4 s 12 9 0) 12 0) = (true, 9).
Proof.
  intros s. apply (get_after_store 4 s 12 9 0 0).
  - unfold JHashPos.wf; cbn; lia.
  - lia.
  - vm_compute. discriminate.
Defined.

Lemma get_after_drop_witness :
  let s := JHashPos.create 4 7 0 [0; 0; 0; 0; 0; 0; 0] [0; 0; 0; 0; 0; 0; 0] in
  fst (JHashPos.get (JHashPos.add 4 s 12 9 100) 12 0)
  = fst (JHashPos.get s 12 0).
Proof.
  intros s. apply (get_after_drop 4 s 12 9 100 12 0).
  - unfold JHashPos.wf; cbn; lia.
  - lia.
  - lia.
  - vm_compute. reflexivity.
Defined.

Lemma get_adds_sound_witness :
  let s := JHashPos.create 4 7 0 [0; 0; 0; 0; 0; 0; 0] [0; 0; 0; 0; 0; 0; 0] in
  let cs := [JHashPos.Call 12 9 0; JHashPos.Call 13 10 100;
             JHashPos.Call 20 11 0] in
  (exists c, c ∈ cs /\ JHashPos.c_hsh c = 20 /\ JHashPos.c_pos c = 11)
  \/ fst (JHashPos.get s 20 0) = (true, 11).
Proof.
  intros s cs. apply (get_adds_sound 4 cs s 20 0 11).
  - unfold JHashPos.wf; cbn; lia.
  - intros c Hc. unfold cs in Hc.
    repeat (apply elem_of_cons in Hc; destruct Hc as [->|Hc]; [cbn; lia|]).
    now apply elem_of_nil in Hc.
  - lia.
  - vm_compute. reflexivity.
Defined.

(** ** The calls of a match table *)

Section TableUse.

Import JMatchTable.

Context {F : Type} `{JFile.ops F}.
Variable sizeof_hkey : Z.

Lemma add_eval_no_error (s s1 : t F) (c : nat) (r : Z) (ret : eMatchReturn) :
  add_eval s c r = Some (ret, s1) -> ret <> Error /\ ret <> Full.
Proof.
  unfold add_eval.
  destruct ((iiCnt (msMch s c) =? 1) || (iiCmp (msMch s c) =? CMPSKP));
    [|intros [= <- _]; split; discriminate].
  match goal with
  | |- context [isGoodOrBest ?a ?b ?c] =>
      pose proof (isGoodOrBest_verdict a b c) as Hv;
      destruct (isGoodOrBest a b c) as [v s2]
  end.
  cbn [fst] in Hv. intros E.
  assert (ret = v).
  { destruct v; try contradiction;
      repeat match type of E with
             | context [if ?b then _ else _] => destruct b
             | context [mbind _ ?m] => destruct m; cbn in E
             | context [match ?m with Some _ => _ | None => _ end] =>
                 destruct m; cbn in E
             end; congruence. }
  subst v. destruct ret; try contradiction; split; discriminate.
Qed.

(** X11.  [add] answers [Error] only for a match that joins no record of
    the buckets when no record is free and the old list is empty, and
    it then leaves the table as it was. *)
Theorem add_error_unchanged (s s1 : t F) (azFndOrgAdd azFndNewAdd azRedNew : Z) :
  add sizeof_hkey s azFndOrgAdd azFndNewAdd azRedNew = Some (Error, s1) ->
  s1 = s /\ miMchFre s = 0%nat /\ mpOld s = None
  /\ find_col (walk_fuel s) s
       (mpCol s (bucket s (abs (azFndOrgAdd - azFndNewAdd))))
       (azFndOrgAdd - azFndNewAdd) = Some None
  /\ find_gld (walk_fuel s) s (mpGld s (bucket s azFndOrgAdd)) azFndOrgAdd
     = Some None.
Proof.
  assert (Hjoined : forall (c : nat) (s0 : t F),
    match
      match
        (if ptr_eqb (mpOld s0) (Some c)
         then match nextold (set_mpOld (ipNxt (msMch s0 c)) s0) azRedNew with
              | Some (_, s2) => addNew s2 c
              | None => None
              end
         else Some s0)
      with
      | Some s2 =>
          match add_eval s2 c azRedNew with
          | Some (liRet, s4) =>
              if (miMchFre s4 =? 0)%nat && ptr_eqb (mpOld s4) None
              then Some (Full, s4) else Some (liRet, s4)
          | None => None
          end
      | None => None
      end
    with
    | Some (Error, _) => False
    | _ => True
    end).
  { intros c s0.
    destruct (if ptr_eqb (mpOld s0) (Some c) then _ else _) as [s2|];
      [|exact I].
    destruct (add_eval s2 c azRedNew) as [[liRet s4]|] eqn:Ee; [|exact I].
    apply add_eval_no_error in Ee as [Hne _].
    destruct ((miMchFre s4 =? 0)%nat && ptr_eqb (mpOld s4) None); [exact I|].
    destruct liRet; try exact I. now apply Hne. }
  unfold add, add_join. cbv zeta.
  destruct (find_col _ _ _ _) as [[c|]|] eqn:Ec; cbn [mbind option_bind];
    try discriminate.
  { destruct (if iiCnt (msMch s c) =? 1 then delGld s c else Some s)
      as [s0|]; [|discriminate].
    cbn [mbind option_bind].
    match goal with
    | |- context [ptr_eqb (mpOld ?s0) (Some c)] =>
        pose proof (Hjoined c s0) as Hj
    end.
    intros E. cbn [mbind option_bind] in *. rewrite E in Hj. contradiction. }
  destruct (find_gld _ _ _ _) as [[c|]|] eqn:Eg; cbn [mbind option_bind];
    try discriminate.
  { destruct (if iiCnt (msMch s c) =? 1 then delCol s c else Some s)
      as [s0|]; [|discriminate].
    cbn [mbind option_bind].
    match goal with
    | |- context [ptr_eqb (mpOld ?s0) (Some c)] =>
        pose proof (Hjoined c s0) as Hj
    end.
    intros E. cbn [mbind option_bind] in *. rewrite E in Hj. contradiction. }
  unfold add_alloc.
  destruct (0 <? miMchFre s)%nat eqn:Efre; cbn [mbind option_bind].
  { match goal with
    | |- context [add_eval ?s2 ?c azRedNew] =>
        destruct (add_eval s2 c azRedNew) as [[liRet s4]|] eqn:Ee;
          [|discriminate]
    end.
    apply add_eval_no_error in Ee as [Hne _].
    destruct ((miMchFre s4 =? 0)%nat && ptr_eqb (mpOld s4) None);
      [discriminate|].
    intros [= -> _]. now contradiction Hne. }
  destruct (mpOld s) as [c|] eqn:Eold; cbn [mbind option_bind].
  { destruct (nextold _ azRedNew) as [[b s2]|]; cbn [mbind option_bind];
      [|discriminate].
    destruct (if (iiCnt (msMch s2 c) =? 1) || (iiGld (msMch s2 c) =? 0)
              then delCol s2 c else Some s2) as [s3|];
      cbn [mbind option_bind]; [|discriminate].
    destruct (if (iiCnt (msMch s3 c) =? 1) || negb (iiGld (msMch s3 c) =? 0)
              then delGld s3 c else Some s3) as [s4|];
      cbn [mbind option_bind]; [|discriminate].
    match goal with
    | |- context [add_eval ?s2 ?c azRedNew] =>
        destruct (add_eval s2 c azRedNew) as [[liRet s5]|] eqn:Ee;
          [|discriminate]
    end.
    apply add_eval_no_error in Ee as [Hne _].
    destruct ((miMchFre s5 =? 0)%nat && ptr_eqb (mpOld s5) None);
      [discriminate|].
    intros [= -> _]. now contradiction Hne. }
  intros [= <-]. apply Nat.ltb_ge in Efre.
  split; [reflexivity|]. split; [lia|]. auto.
Qed.

End TableUse.

(** With buckets and a key that is not negative, the index of a bucket is
    the remainder the code computes, and it lies within the arrays. *)
Lemma bucket_defined {F : Type} (s : JMatchTable.t F) (x : Z) :
  0 < JMatchTable.miMchPme s ->
  0 <= x ->
  Z.of_nat (JMatchTable.bucket s x) = Z.rem x (JMatchTable.miMchPme s)
  /\ 0 <= Z.rem x (JMatchTable.miMchPme s) < JMatchTable.miMchPme s.
Proof.
  intros Hm Hx. unfold JMatchTable.bucket.
  pose proof (Z.rem_bound_pos x (JMatchTable.miMchPme s) Hx Hm) as Hb.
  split; [apply Z2Nat.id; lia|exact Hb].
Qed.

Lemma abs_nonneg (a : Z) : 0 <= JMatchTable.abs a.
Proof.
  unfold JMatchTable.abs. destruct (a <? 0) eqn:E;
    [apply Z.ltb_lt in E|apply Z.ltb_ge in E]; lia.
Qed.

(** The divisor [miRlb / 8] of [isBest] for a reliability range of 8 at
    least. *)
Lemma divisor_defined (miRlb : Z) : 8 <= miRlb -> 1 <= Z.quot miRlb 8.
Proof.
  intros Hr. apply Z.quot_le_lower_bound; lia.
Qed.

(** X12.  The calls of a match table return where the arithmetic of the
    code is defined: after any sequence of complete calls, and whatever
    the two files hold, [add], [cleanup] and [getbest] come back with a
    result (their walks over the lists and the buckets end, and no link
    they follow is [null]).  The hypotheses keep the call within what the
    code defines: the table has buckets (the modulus [miMchPme] of the
    bucket index is positive), the records in use and the match added
    stand at non-negative positions of the source file (no bucket index
    is negative), and the reliability range is at least 8, as it is after
    a [cleanup] on an index (the divisor [miRlb / 8] of [isBest] is not
    zero).  Under them the bucket indices of the records in use and of
    the match added are the remainders of the code and lie within the two
    arrays of [miMchPme] buckets, and the divisor is 1 at least.  On a
    table fresh from the constructor [miRlb] is 0 and [add] and [getbest]
    are outside this statement. *)
Theorem table_calls_return {F : Type} `{JFile.ops F} (sizeof_hkey : Z)
  (aiMchSze : Z) (s : JMatchTable.t F) :
  0 < sizeof_hkey ->
  reachable sizeof_hkey aiMchSze s ->
  0 < JMatchTable.miMchPme s ->
  (forall c : nat,
      (JMatchTable.miMchFre s <= c)%nat ->
      0 <= JMatchTable.izOrg (JMatchTable.msMch s c)) ->
  (forall c : nat,
      (JMatchTable.miMchFre s <= c)%nat ->
      let r := JMatchTable.msMch s c in
      (Z.of_nat (JMatchTable.bucket s (JMatchTable.izOrg r))
       = Z.rem (JMatchTable.izOrg r) (JMatchTable.miMchPme s)
       /\ Z.of_nat (JMatchTable.bucket s (JMatchTable.izOrg r))
          < JMatchTable.miMchPme s)
      /\ Z.of_nat
           (JMatchTable.bucket s (JMatchTable.abs (JMatchTable.izDlt r)))
         = Z.rem (JMatchTable.abs (JMatchTable.izDlt r))
             (JMatchTable.miMchPme s)
      /\ Z.of_nat
           (JMatchTable.bucket s (JMatchTable.abs (JMatchTable.izDlt r)))
         < JMatchTable.miMchPme s)
  /\ (8 <= JMatchTable.miRlb s ->
      1 <= Z.quot (JMatchTable.miRlb s) 8
      /\ forall azFndOrgAdd azFndNewAdd azRedNew,
        0 <= azFndOrgAdd ->
        (Z.of_nat (JMatchTable.bucket s azFndOrgAdd)
         = Z.rem azFndOrgAdd (JMatchTable.miMchPme s)
         /\ Z.of_nat (JMatchTable.bucket s azFndOrgAdd)
            < JMatchTable.miMchPme s)
        /\ (Z.of_nat
              (JMatchTable.bucket s
                 (JMatchTable.abs (azFndOrgAdd - azFndNewAdd)))
            = Z.rem (JMatchTable.abs (azFndOrgAdd - azFndNewAdd))
                (JMatchTable.miMchPme s)
            /\ Z.of_nat
                 (JMatchTable.bucket s
                    (JMatchTable.abs (azFndOrgAdd - azFndNewAdd)))
               < JMatchTable.miMchPme s)
        /\ exists liRet s1,
            JMatchTable.add sizeof_hkey s azFndOrgAdd azFndNewAdd azRedNew
            = Some (liRet, s1))
  /\ (forall hsh azBseOrg azRedNew,
        8 <= JHashPos.get_reliability hsh ->
        1 <= Z.quot (JHashPos.get_reliability hsh) 8
        /\ exists liRet s1,
            JMatchTable.cleanup hsh s azBseOrg azRedNew = Some (liRet, s1))
  /\ (8 <= JMatchTable.miRlb s ->
      forall azRedOrg azRedNew azBstOrg azBstNew,
      exists lbRet lzOrg lzNew s1,
        JMatchTable.getbest s azRedOrg azRedNew azBstOrg azBstNew
        = Some (lbRet, lzOrg, lzNew, s1)).
Proof.
  intros Hsz Hr Hm Hpos.
  destruct (calls_return sizeof_hkey aiMchSze s Hsz Hr) as (Ha & Hc & Hg).
  assert (Hb : forall x, 0 <= x ->
            Z.of_nat (JMatchTable.bucket s x)
            = Z.rem x (JMatchTable.miMchPme s)
            /\ Z.of_nat (JMatchTable.bucket s x) < JMatchTable.miMchPme s).
  { intros x Hx. destruct (bucket_defined s x Hm Hx) as [E Hlt].
    split; [exact E|rewrite E; apply Hlt]. }
  split; [|split; [|split]].
  - intros c Hc' r. subst r. split; [apply Hb, Hpos, Hc'|].
    apply Hb, abs_nonneg.
  - intros Hrl. split; [now apply divisor_defined|].
    intros o n r Ho. split; [now apply Hb|].
    split; [apply Hb, abs_nonneg|]. apply Ha.
  - intros hsh b r Hrl. split; [now apply divisor_defined|]. apply Hc.
  - intros _. exact Hg.
Qed.

Lemma add_error_unchanged_witness :
  let s :=
    fold_left after_add
      (map (fun i => (Z.of_nat (2 * i) + 3, Z.of_nat i, 0)) (seq 0 13))
      example_table in
  JMatchTable.add 4 s 100 0 0 = Some (JMatchTable.Error, s)
  /\ (s = s /\ JMatchTable.miMchFre s = 0%nat /\ JMatchTable.mpOld s = None
      /\ JMatchTable.find_col (JMatchTable.walk_fuel s) s
           (JMatchTable.mpCol s
              (JMatchTable.bucket s (JMatchTable.abs (100 - 0))))
           (100 - 0) = Some None
      /\ JMatchTable.find_gld (JMatchTable.walk_fuel s) s
           (JMatchTable.mpGld s (JMatchTable.bucket s 100)) 100
         = Some None).
Proof.
  intros s.
  assert (E : JMatchTable.add 4 s 100 0 0 = Some (JMatchTable.Error, s))
    by (vm_compute; reflexivity).
  split; [exact E|].
  exact (add_error_unchanged 4 s s 100 0 0 E).
Defined.

Lemma table_calls_return_witness :
  (0 < JMatchTable.miMchPme example_run
   /\ 8 <= JMatchTable.miRlb example_run)
  /\ (forall azFndOrgAdd azFndNewAdd azRedNew,
        0 <= azFndOrgAdd ->
        exists liRet s1,
          JMatchTable.add 4 example_run azFndOrgAdd azFndNewAdd azRedNew
          = Some (liRet, s1))
  /\ (forall hsh azBseOrg azRedNew,
        8 <= JHashPos.get_reliability hsh ->
        exists liRet s1,
          JMatchTable.cleanup hsh example_run azBseOrg azRedNew
          = Some (liRet, s1))
  /\ (forall azRedOrg azRedNew azBstOrg azBstNew,
      exists lbRet lzOrg lzNew s1,
        JMatchTable.getbest example_run azRedOrg azRedNew azBstOrg azBstNew
        = Some (lbRet, lzOrg, lzNew, s1)).
Proof.
  assert (Hm : 0 < JMatchTable.miMchPme example_run)
    by (vm_compute; reflexivity).
  assert (Hrl : 8 <= JMatchTable.miRlb example_run)
    by (vm_compute; discriminate).
  destruct (table_calls_return 4 13 example_run) as (_ & Ha & Hc & Hg).
  - lia.
  - unfold example_run.
    apply reachable_after_add, reachable_after_getbest,
      reachable_after_cleanup, reachable_after_add.
    apply reach_create.
  - exact Hm.
  - intros c _.
    do 13 (destruct c as [|c]; [vm_compute; discriminate|]).
    vm_compute. discriminate.
  - split; [split; [exact Hm|exact Hrl]|].
    split; [|split].
    + intros o n r Ho. destruct (Ha Hrl) as [_ Hadd].
      apply (Hadd o n r Ho).
    + intros hsh b r Hh. apply (Hc hsh b r Hh).
    + exact (Hg Hrl).
Defined.

(** ** The content a reader returns *)

Section CircularBuffer.

Import JFileAhead.

(** A block write into the buffer. *)
Lemma length_poke (buf bs : list Byte.byte) (p : Z) :
  0 <= p -> p + Z.of_nat (length bs) <= Z.of_nat (length buf) ->
  length (poke buf p bs) = length buf.
Proof.
  intros Hp Hfit. unfold poke.
  rewrite !length_app, length_take, length_drop. lia.
Qed.

Lemma poke_inside (buf bs : list Byte.byte) (p : Z) (i : nat) :
  0 <= p -> p + Z.of_nat (length bs) <= Z.of_nat (length buf) ->
  (Z.to_nat p <= i < Z.to_nat p + length bs)%nat ->
  poke buf p bs !! i = bs !! (i - Z.to_nat p)%nat.
Proof.
  intros Hp Hfit Hi. unfold poke.
  rewrite lookup_app_r by (rewrite length_take; lia).
  rewrite length_take.
  replace (Z.to_nat p `min` length buf)%nat with (Z.to_nat p) by lia.
  rewrite lookup_app_l by lia. reflexivity.
Qed.

Lemma poke_outside (buf bs : list Byte.byte) (p : Z) (i : nat) :
  0 <= p -> p + Z.of_nat (length bs) <= Z.of_nat (length buf) ->
  ~ (Z.to_nat p <= i < Z.to_nat p + length bs)%nat ->
  poke buf p bs !! i = buf !! i.
Proof.
  intros Hp Hfit Hi. unfold poke.
  destruct (Nat.lt_ge_cases i (Z.to_nat p)) as [Hlt|Hge].
  - rewrite lookup_app_l by (rewrite length_take; lia).
    apply lookup_take_lt. lia.
  - rewrite lookup_app_r by (rewrite length_take; lia).
    rewrite length_take.
    replace (Z.to_nat p `min` length buf)%nat with (Z.to_nat p) by lia.
    rewrite lookup_app_r by lia.
    rewrite lookup_drop. f_equal. lia.
Qed.

(** What [jread] finds in a file in memory. *)
Lemma mem_jread_spec (c : list Byte.byte) (z n : Z) :
  0 <= z -> 0 <= n ->
  let bs := fst (mem_jread (c, z) n) in
  snd (mem_jread (c, z) n) = (c, z + Z.of_nat (length bs))
  /\ Z.of_nat (length bs) = Z.max 0 (Z.min n (Z.of_nat (length c) - z))
  /\ forall k, (k < length bs)%nat -> bs !! k = c !! (Z.to_nat z + k)%nat.
Proof.
  intros Hz Hn. unfold mem_jread. cbn [fst snd].
  split; [reflexivity|]. split.
  - rewrite length_take, length_drop. lia.
  - intros k Hk. rewrite length_take in Hk.
    rewrite lookup_take_lt by lia. now rewrite lookup_drop.
Qed.

Lemma cell_range (W d q : Z) : 0 < W -> 0 <= cell W d q < W.
Proof. intros HW. unfold cell. apply Z.mod_pos_bound. exact HW. Qed.

Lemma cell_same (W d q q' : Z) :
  0 < W -> cell W d q = cell W d q' -> (q' - q) mod W = 0.
Proof.
  intros HW E. unfold cell in E.
  replace (q' - q) with ((q' + d) - (q + d)) by lia.
  rewrite Zminus_mod, E, Z.sub_diag. apply Z.mod_0_l. lia.
Qed.

Lemma cell_shift (W d d' q : Z) :
  0 < W -> (d' - d) mod W = 0 -> cell W d' q = cell W d q.
Proof.
  intros HW E. unfold cell.
  apply Z.mod_divide in E; [|lia]. destruct E as [k Hk].
  replace (q + d') with (q + d + k * W) by lia.
  apply Z_mod_plus_full.
Qed.

Lemma cell_next (W d q : Z) :
  0 < W -> cell W d q + 1 < W -> cell W d (q + 1) = cell W d q + 1.
Proof.
  intros HW Hfit. unfold cell in *.
  pose proof (Z.div_mod (q + d) W ltac:(lia)) as Hdm.
  pose proof (Z.mod_pos_bound (q + d) W HW) as Hb.
  replace (q + 1 + d) with ((q + d) mod W + 1 + (q + d) / W * W) by lia.
  rewrite Z_mod_plus_full. apply Z.mod_small. lia.
Qed.

Lemma cell_add (W d q i : Z) :
  0 < W -> 0 <= i -> cell W d q + i < W ->
  cell W d (q + i) = cell W d q + i.
Proof.
  intros HW Hi Hfit. unfold cell in *.
  pose proof (Z.div_mod (q + d) W ltac:(lia)) as Hdm.
  pose proof (Z.mod_pos_bound (q + d) W HW) as Hb.
  replace (q + i + d) with ((q + d) mod W + i + (q + d) / W * W) by lia.
  rewrite Z_mod_plus_full. apply Z.mod_small. lia.
Qed.

(** The cells of a block that is read at [a], or at the start of the
    buffer when [a] is its end. *)
Lemma cell_block (W a z k : Z) :
  0 < W -> 0 <= a <= W -> 0 <= k ->
  (if a =? W then 0 else a) + k < W ->
  cell W (a - z) (z + k) = (if a =? W then 0 else a) + k.
Proof.
  intros HW Ha Hk Hfit. unfold cell.
  replace (z + k + (a - z)) with (a + k) by lia.
  destruct (Z.eqb_spec a W) as [->|Hne].
  - replace (W + k) with (k + 1 * W) by lia.
    rewrite Z_mod_plus_full. apply Z.mod_small. lia.
  - apply Z.mod_small. lia.
Qed.

(** One block read from the position [z] of the file into the cells
    from [a0] on. *)
Lemma block_step (c buf bs : list Byte.byte) (W d z a0 : Z) :
  0 < W -> Z.of_nat (length buf) = W -> 0 <= z -> 0 <= a0 ->
  a0 + Z.of_nat (length bs) <= W ->
  (forall k, (k < length bs)%nat -> bs !! k = c !! (Z.to_nat z + k)%nat) ->
  (forall k, 0 <= k < Z.of_nat (length bs) -> cell W d (z + k) = a0 + k) ->
  (forall q, z <= q < z + Z.of_nat (length bs) ->
             holds c (poke buf a0 bs) W d q)
  /\ (forall q, holds c buf W d q ->
                (forall q', z <= q' < z + Z.of_nat (length bs) ->
                            (q' - q) mod W = 0 -> q' = q) ->
                holds c (poke buf a0 bs) W d q).
Proof.
  intros HW Hlen Hz Ha Hfit Hbs Hcell.
  assert (H1 : forall q, z <= q < z + Z.of_nat (length bs) ->
                         holds c (poke buf a0 bs) W d q).
  { intros q Hq. unfold holds.
    pose proof (Hcell (q - z) ltac:(lia)) as Hc.
    replace (z + (q - z)) with q in Hc by lia.
    rewrite Hc, poke_inside by lia.
    rewrite Hbs by lia. f_equal. lia. }
  split; [exact H1|].
  intros q Hq Hfree.
  pose proof (cell_range W d q HW) as Hr.
  destruct (Z_le_gt_dec a0 (cell W d q)) as [Hlo|Hlo];
    [destruct (Z_lt_ge_dec (cell W d q) (a0 + Z.of_nat (length bs)))
       as [Hhi|Hhi]|].
  - assert (Hq' : z + (cell W d q - a0) = q).
    { apply Hfree; [lia|].
      apply cell_same with d; [exact HW|].
      rewrite Hcell by lia. lia. }
    apply H1. lia.
  - unfold holds in *. rewrite poke_outside by lia. exact Hq.
  - unfold holds in *. rewrite poke_outside by lia. exact Hq.
Qed.

End CircularBuffer.

Lemma mod_zero_add (W x y : Z) :
  x mod W = 0 -> y mod W = 0 -> (x + y) mod W = 0.
Proof.
  intros Hx Hy. rewrite Zplus_mod, Hx, Hy. apply Zmod_0_l.
Qed.

Lemma holds_shift (c buf : list Byte.byte) (W d d' q : Z) :
  0 < W -> (d' - d) mod W = 0 ->
  holds c buf W d q -> holds c buf W d' q.
Proof.
  intros HW E Hq. unfold holds in *.
  now rewrite (cell_shift W d d' q HW E).
Qed.

Lemma wrap_zero (W a : Z) :
  0 < W -> ((if a =? W then 0 else a) - a) mod W = 0.
Proof.
  intros HW. destruct (Z.eqb_spec a W) as [->|_].
  - replace (0 - W) with (0 + (-1) * W) by lia.
    rewrite Z_mod_plus_full. apply Zmod_0_l.
  - rewrite Z.sub_diag. apply Zmod_0_l.
Qed.

Section MemReads.

Import JFileAhead.

Variable c : list Byte.byte.

(** [readblocks] on a file in memory, whose file pointer is at [z]: the
    blocks it reads, where it stops, and what the buffer holds then. *)
Lemma readblocks_mem (fuel : nat) :
  forall (s : t memfile) (liDne a z azEnd : Z),
    mpFil s = (c, z) ->
    0 < miBlkSze s -> 0 < mlBufSze s -> mlBufSze s mod miBlkSze s = 0 ->
    Z.of_nat (length (mpBuf s)) = mlBufSze s ->
    0 <= a <= mlBufSze s -> 0 <= z -> 0 <= liDne ->
    azEnd - z + 1 <= Z.of_nat fuel ->
    exists ret a' z' s',
      readblocks fuel s liDne a z azEnd = Some (ret, a', z', s')
      /\ (mbSeq s' = mbSeq s /\ miRedSze s' = miRedSze s
          /\ mpRed s' = mpRed s /\ mzPosInp s' = mzPosInp s
          /\ mzPosRed s' = mzPosRed s /\ mlFabSek s' = mlFabSek s
          /\ mlBufSze s' = mlBufSze s /\ miBlkSze s' = miBlkSze s
          /\ mpInp s' = mpInp s /\ mzPosBse s' = mzPosBse s)
      /\ mpFil s' = (c, z')
      /\ Z.of_nat (length (mpBuf s')) = mlBufSze s
      /\ z <= z' <= Z.max z (Z.of_nat (length c))
      /\ 0 <= a' <= mlBufSze s
      /\ ((a' - z') - (a - z)) mod mlBufSze s = 0
      /\ miBufUsd s' = Z.min (mlBufSze s) (miBufUsd s + (z' - z))
      /\ (z' = z \/ z' <= azEnd + miBlkSze s)
      /\ ((mzPosEof s' = mzPosEof s /\ 0 <= ret /\ azEnd < z'
           /\ ((z - a) mod miBlkSze s = 0 -> z mod miBlkSze s = 0 ->
               z' mod miBlkSze s = 0))
          \/ (mzPosEof s' = z' /\ z' = Z.max z (Z.of_nat (length c))
              /\ (if azEnd >=? z' then ret = JDefs.EOF else 0 <= ret)
              /\ exists z0, z <= z0 <= azEnd
                   /\ z0 <= z' < z0 + miBlkSze s
                   /\ ((z - a) mod miBlkSze s = 0 -> z mod miBlkSze s = 0 ->
                       z0 mod miBlkSze s = 0)))
      /\ (forall q, z <= q < z' -> z' - mlBufSze s <= q ->
                    holds c (mpBuf s') (mlBufSze s) (a - z) q)
      /\ (forall q, holds c (mpBuf s) (mlBufSze s) (a - z) q ->
                    (forall q', z <= q' < z' ->
                                (q' - q) mod mlBufSze s = 0 -> q' = q) ->
                    holds c (mpBuf s') (mlBufSze s) (a - z) q).
Proof.
  induction fuel as [|fuel IH];
    intros s liDne a z azEnd Hfil HB HW Hmul Hlen Ha Hz Hd Hfuel.
  - cbn [readblocks]. destruct (Z.leb_spec z azEnd); [lia|].
    eexists _, _, _, _. split; [reflexivity|].
    assert (E : forall x, ((a - z) - (a - z)) mod x = 0)
      by (intros x; rewrite Z.sub_diag; apply Zmod_0_l).
    destruct (Z.gtb_spec (miBufUsd s) (mlBufSze s)); cbn;
      (split; [tauto|]); (split; [exact Hfil|]); (split; [exact Hlen|]);
      (split; [lia|]); (split; [lia|]); (split; [apply E|]);
      (split; [lia|]); (split; [now left|]);
      (split; [left; repeat split; try lia; auto|]);
      (split; [intros q Hq; lia | intros q Hq _; exact Hq]).
  - cbn [readblocks]. destruct (Z.leb_spec z azEnd) as [Hle|Hgt].
    2:{ eexists _, _, _, _. split; [reflexivity|].
        assert (E : forall x, ((a - z) - (a - z)) mod x = 0)
          by (intros x; rewrite Z.sub_diag; apply Zmod_0_l).
        destruct (Z.gtb_spec (miBufUsd s) (mlBufSze s)); cbn;
          (split; [tauto|]); (split; [exact Hfil|]); (split; [exact Hlen|]);
          (split; [lia|]); (split; [lia|]); (split; [apply E|]);
          (split; [lia|]); (split; [now left|]);
          (split; [left; repeat split; try lia; auto|]);
          (split; [intros q Hq; lia | intros q Hq _; exact Hq]). }
    set (a0 := if a =? mlBufSze s then 0 else a).
    assert (Hpt : exists t,
               (if a =? mlBufSze s then (0, miBlkSze s)
                else if mlBufSze s - a <? miBlkSze s
                     then (a, mlBufSze s - a)
                     else (a, miBlkSze s)) = (a0, t)
               /\ 0 < t <= miBlkSze s /\ a0 + t <= mlBufSze s
               /\ (a0 mod miBlkSze s = 0 -> t = miBlkSze s)).
    { assert (HBW : miBlkSze s <= mlBufSze s).
      { apply Z.mod_divide in Hmul; [|lia].
        apply Z.divide_pos_le in Hmul; lia. }
      subst a0. destruct (Z.eqb_spec a (mlBufSze s)) as [->|Hne].
      - eexists. split; [reflexivity|]. lia.
      - destruct (Z.ltb_spec (mlBufSze s - a) (miBlkSze s)) as [Hcut|Hcut];
          (eexists; split; [reflexivity|]); [|lia].
        split; [lia|]. split; [lia|]. intros Hal. exfalso.
        apply Z.mod_divide in Hal; [|lia]. destruct Hal as [ka Hka].
        apply Z.mod_divide in Hmul; [|lia]. destruct Hmul as [kw Hkw].
        assert (0 < kw - ka) by nia. nia. }
    destruct Hpt as (t & -> & Ht & Hfit & Hal).
    assert (Ha0 : 0 <= a0) by (subst a0; destruct (a =? mlBufSze s); lia).
    rewrite Hfil. cbn [jread mem_sys].
    destruct (mem_jread_spec c z t Hz ltac:(lia)) as (Hptr & Hn & Hbs).
    destruct (mem_jread (c, z) t) as [bs fil]. cbn [fst snd] in Hptr, Hn, Hbs.
    subst fil.
    rewrite firstn_all2 by lia.
    set (n := Z.of_nat (length bs)) in *.
    assert (Hcell : forall k, 0 <= k < n ->
                              cell (mlBufSze s) (a - z) (z + k) = a0 + k).
    { intros k Hk. apply cell_block; fold a0; lia. }
    destruct (block_step c (mpBuf s) bs (mlBufSze s) (a - z) z a0
                HW Hlen Hz Ha0 ltac:(fold n; lia) Hbs Hcell) as [Hnew Hold].
    fold n in Hnew, Hold.
    assert (Hlen1 : Z.of_nat (length (poke (mpBuf s) a0 bs)) = mlBufSze s).
    { rewrite length_poke; [exact Hlen | exact Ha0 | fold n; lia]. }
    assert (Hph : ((a0 + n - (z + n)) - (a - z)) mod mlBufSze s = 0).
    { replace (a0 + n - (z + n) - (a - z)) with (a0 - a) by lia.
      apply wrap_zero. exact HW. }
    cbn [miBufUsd set_mpFil set_mpBuf set_miBufUsd set_mzPosEof mlBufSze
         mzPosEof miBlkSze mpFil mpBuf].
    destruct (Z.ltb_spec n t) as [Hshort|Hfull].
    + (* the end of the file *)
      assert (Hmax : z + n = Z.max z (Z.of_nat (length c))) by lia.
      destruct (Z.gtb_spec (miBufUsd s + n) (mlBufSze s)) as [Hcap|Hcap];
        cbn [miBufUsd set_mpFil set_mpBuf set_miBufUsd set_mzPosEof mlBufSze
             mzPosEof miBlkSze mpFil mpBuf];
        destruct (azEnd >=? z + n) eqn:Eend;
        eexists _, _, _, _; (split; [reflexivity|]); cbn;
        (split; [tauto|]); (split; [reflexivity|]); (split; [exact Hlen1|]);
        (split; [lia|]); (split; [lia|]); (split; [exact Hph|]);
        (split; [lia|]); (split; [right; lia|]);
        (split; [right; split; [reflexivity|]; split; [exact Hmax|];
                 split; [rewrite Eend; first [reflexivity | lia]|];
                 exists z; split; [lia|]; split; [lia|]; auto|]);
        (split; [intros q Hq _; now apply Hnew | exact Hold]).
    + (* a whole block, and the blocks that follow *)
      assert (Hnt : n = t) by lia.
      edestruct (IH (set_miBufUsd (miBufUsd s + n)
                       (set_mpFil (c, z + n)
                          (set_mpBuf (poke (mpBuf s) a0 bs) s)))
                   n (a0 + n) (z + n) azEnd)
        as (ret & a' & z' & s' & Hr & Hfr & Hfil' & Hlen' & Hzz & Ha'
            & Hph' & HU & Hstep & Heof & Hd1 & Hd2);
        cbn [miBufUsd set_mpFil set_mpBuf set_miBufUsd mlBufSze
             miBlkSze mpFil mpBuf]; try lia; try reflexivity; try assumption.
      cbn [mbSeq miRedSze mpRed mzPosInp mzPosRed mlFabSek mlBufSze miBlkSze
           mpInp mzPosBse mzPosEof miBufUsd set_mpFil set_mpBuf set_miBufUsd
           mpBuf] in *.
      assert (Hsh : ((a - z) - (a0 + n - (z + n))) mod mlBufSze s = 0).
      { replace (a - z - (a0 + n - (z + n))) with (- (a0 - a)) by lia.
        apply Z.mod_opp_l_z; [lia | now apply wrap_zero]. }
      exists ret, a', z', s'. split; [exact Hr|].
      split; [exact Hfr|]. split; [exact Hfil'|]. split; [exact Hlen'|].
      split; [lia|]. split; [exact Ha'|].
      split.
      { replace (a' - z' - (a - z))
          with ((a' - z' - (a0 + n - (z + n)))
                + (a0 + n - (z + n) - (a - z))) by lia.
        now apply mod_zero_add. }
      split; [lia|]. split; [right; lia|].
      assert (Hal1 : (z - a) mod miBlkSze s = 0 -> z mod miBlkSze s = 0 ->
                     (z + n - (a0 + n)) mod miBlkSze s = 0
                     /\ (z + n) mod miBlkSze s = 0).
      { intros Hza Hzb.
        assert (Ha0b : a0 mod miBlkSze s = 0).
        { subst a0. destruct (a =? mlBufSze s); [apply Zmod_0_l|].
          replace a with (z + - (z - a)) by lia.
          apply mod_zero_add; [exact Hzb|].
          apply Z.mod_opp_l_z; [lia | exact Hza]. }
        rewrite Hnt, (Hal Ha0b). split.
        - replace (z + miBlkSze s - (a0 + miBlkSze s)) with (z + - a0)
            by lia.
          apply mod_zero_add; [exact Hzb|].
          apply Z.mod_opp_l_z; [lia | exact Ha0b].
        - apply mod_zero_add; [exact Hzb | apply Z_mod_same_full]. }
      split.
      { destruct Heof as [(He & Hret & Hend & Halz)
                         |(He & Hmx & Hret & z0 & Hz0 & Hz0' & Halz)].
        - left. split; [exact He|]. split; [exact Hret|]. split; [exact Hend|].
          intros Hza Hzb. destruct (Hal1 Hza Hzb). now apply Halz.
        - right. split; [exact He|]. split; [lia|]. split; [exact Hret|].
          exists z0. split; [lia|]. split; [exact Hz0'|].
          intros Hza Hzb. destruct (Hal1 Hza Hzb). now apply Halz. }
      split.
      { intros q Hq Hwin.
        destruct (Z_lt_ge_dec q (z + n)) as [Hlo|Hhi].
        - apply holds_shift with (a0 + n - (z + n)); [exact HW | exact Hsh|].
          apply Hd2.
          + apply holds_shift with (a - z); [exact HW | exact Hph|].
            apply Hnew. lia.
          + intros q' Hq' Hmod. exfalso.
            rewrite Z.mod_small in Hmod by lia. lia.
        - apply holds_shift with (a0 + n - (z + n)); [exact HW | exact Hsh|].
          apply Hd1; lia. }
      intros q Hq Hfree.
      apply holds_shift with (a0 + n - (z + n)); [exact HW | exact Hsh|].
      apply Hd2.
      * apply holds_shift with (a - z); [exact HW | exact Hph|].
        apply Hold; [exact Hq|]. intros q' Hq'. apply Hfree. lia.
      * intros q' Hq'. apply Hfree. lia.
Qed.

Lemma mod_zero_mul (W B x : Z) :
  0 < B -> 0 < W -> W mod B = 0 -> x mod W = 0 -> x mod B = 0.
Proof.
  intros HB HW Hmul Hx.
  apply Z.mod_divide in Hmul; [|lia]. apply Z.mod_divide in Hx; [|lia].
  apply Z.mod_divide; [lia|]. now apply Z.divide_trans with W.
Qed.

(** [case Append:] on a file in memory. *)
Lemma do_append_mem (s : t memfile) (azPos : Z) :
  Buffered c s -> mzPosInp s <= azPos ->
  exists r s1,
    do_append s azPos = Some (r, s1) /\ Buffered c s1
    /\ mbSeq s1 = mbSeq s
    /\ mzPosInp s1 - miBufUsd s1 <= azPos
    /\ (r = Added /\ azPos < mzPosInp s1
        \/ r = EndOfFile /\ Z.of_nat (length c) <= azPos).
Proof.
  intros HB Hpos.
  destruct HB as [b_file0 b_blk0 b_buf0 b_len0 b_inp0 b_usd0 b_eof0
                  b_seek0 b_pos0 b_phase0 b_start0 b_data0].
  unfold do_append.
  destruct (readblocks_mem (readblocks_fuel (mzPosInp s) azPos) s 0
              (mpInp s) (mzPosInp s) azPos b_file0 b_blk0
              (proj1 b_buf0) (proj2 b_buf0) b_len0 b_inp0 ltac:(lia)
              ltac:(lia) ltac:(unfold readblocks_fuel; lia))
    as (ret & a' & z' & s' & -> & Hfr & Hfil & Hlen & Hzz & Ha' & Hph & HU
        & Hstep & Heof & Hd1 & Hd2).
  destruct Hfr as (Fseq & _ & _ & FP & _ & _ & FW & FB & FI & _).
  destruct b_buf0 as [HW Hmul].
  assert (HBW : miBlkSze s <= mlBufSze s).
  { apply Z.mod_divide in Hmul; [|lia].
    apply Z.divide_pos_le in Hmul; lia. }
  set (s1 := set_mzPosInp z' (set_mpInp a' s')).
  assert (Hsh : ((mpInp s - mzPosInp s) - (a' - z')) mod mlBufSze s = 0).
  { replace (mpInp s - mzPosInp s - (a' - z'))
      with (- (a' - z' - (mpInp s - mzPosInp s))) by lia.
    apply Z.mod_opp_l_z; [lia | exact Hph]. }
  assert (Hret : ret = JDefs.EOF /\ Z.of_nat (length c) <= azPos
                 \/ ret <> JDefs.EOF /\ azPos < z').
  { destruct Heof as [(_ & Hr & Hend & _)|(_ & Hmx & Hr & _)].
    - right. unfold JDefs.EOF. lia.
    - destruct (Z.geb_spec azPos z'); [left | right; unfold JDefs.EOF];
        lia. }
  assert (HB1 : Buffered c s1).
  { subst s1. constructor; cbn; rewrite ?FW, ?FB, ?Fseq.
    - exact Hfil.
    - exact b_blk0.
    - now split.
    - exact Hlen.
    - exact Ha'.
    - lia.
    - destruct Heof as [(-> & _)|(-> & -> & _)]; lia.
    - intros Hs. destruct Heof as [(-> & _)|(-> & -> & _)]; [auto|].
      specialize (b_seek0 Hs).
      destruct b_pos0 as [Hp|[_ Hp]]; [lia | congruence].
    - destruct b_pos0 as [Hp|[Hu Hp]]; [left; lia|].
      destruct (Z_le_gt_dec z' (Z.of_nat (length c))); [now left|].
      right. split; [lia | exact Hp].
    - replace (z' - a') with (- (a' - z' - (mpInp s - mzPosInp s))
                               + (mzPosInp s - mpInp s)) by lia.
      apply mod_zero_add; [|exact b_phase0].
      apply Z.mod_opp_l_z; [lia|].
      now apply mod_zero_mul with (mlBufSze s).
    - destruct (Z_le_gt_dec (mlBufSze s)
                  (miBufUsd s + (z' - mzPosInp s))); [right; lia|].
      left. rewrite HU.
      replace (z' - mlBufSze s `min` (miBufUsd s + (z' - mzPosInp s)))
        with (mzPosInp s - miBufUsd s) by lia.
      destruct b_start0; [assumption | lia].
    - intros q Hq.
      apply holds_shift with (mpInp s - mzPosInp s); [exact HW | |].
      { exact Hph. }
      destruct (Z_lt_ge_dec q (mzPosInp s)) as [Hlo|Hhi].
      + apply Hd2; [apply b_data0; lia|].
        intros q' Hq' Hmod. exfalso.
        rewrite Z.mod_small in Hmod by lia. lia.
      + apply Hd1; lia. }
  assert (Hst : mzPosInp s1 - miBufUsd s1 <= azPos).
  { subst s1; cbn. rewrite HU.
    destruct Hret as [[_ HL]|[_ Hlt]]; destruct Hstep; lia. }
  destruct Hret as [[-> HL]|[Hne Hlt]].
  - rewrite Z.eqb_refl. exists EndOfFile, s1.
    split; [reflexivity|]. split; [exact HB1|]. split; [exact Fseq|].
    split; [exact Hst | now right].
  - destruct (Z.eqb_spec ret JDefs.EOF); [contradiction|].
    exists Added, s1. split; [reflexivity|]. split; [exact HB1|].
    split; [exact Fseq|]. split; [exact Hst|].
    left. split; [reflexivity|]. subst s1; cbn. lia.
Qed.

(** [case Reset:] on a file in memory. *)
Lemma do_reset_mem (s : t memfile) (azPos : Z) :
  Buffered c s -> 0 <= azPos -> azPos < mzPosEof s ->
  (mbSeq s = true -> mlBufSze s <= azPos) ->
  exists r s1,
    do_reset s azPos = Some (r, s1) /\ Buffered c s1
    /\ mbSeq s1 = mbSeq s
    /\ mzPosInp s1 - miBufUsd s1 <= azPos
    /\ (r = Added /\ azPos < mzPosInp s1
        \/ r = EndOfFile /\ Z.of_nat (length c) <= azPos).
Proof.
  intros HB Hpos Heof Hseq.
  destruct HB as [b_file0 b_blk0 b_buf0 b_len0 b_inp0 b_usd0 b_eof0
                  b_seek0 b_pos0 b_phase0 b_start0 b_data0].
  destruct b_buf0 as [HW Hmul].
  assert (HBW : miBlkSze s <= mlBufSze s).
  { apply Z.mod_divide in Hmul; [|lia].
    apply Z.divide_pos_le in Hmul; lia. }
  unfold do_reset.
  set (P0 := if negb (mbSeq s) then Z.quot azPos (miBlkSze s) * miBlkSze s
             else Z.quot (azPos - mlBufSze s + miBlkSze s) (miBlkSze s)
                  * miBlkSze s).
  assert (HP0 : 0 <= P0 <= azPos /\ P0 mod miBlkSze s = 0).
  { subst P0. destruct (mbSeq s); cbn [negb].
    - specialize (Hseq eq_refl).
      pose proof (quot_block (azPos - mlBufSze s + miBlkSze s) (miBlkSze s)
                    ltac:(lia) b_blk0).
      split; [lia | apply Z_mod_mult].
    - pose proof (quot_block azPos (miBlkSze s) Hpos b_blk0).
      split; [lia | apply Z_mod_mult]. }
  replace (if negb (mbSeq s)
           then set_mzPosInp (Z.quot azPos (miBlkSze s) * miBlkSze s) s
           else set_mzPosInp
                  (Z.quot (azPos - mlBufSze s + miBlkSze s) (miBlkSze s)
                   * miBlkSze s) s)
    with (set_mzPosInp P0 s)
    by (subst P0; destruct (mbSeq s); reflexivity).
  cbn [mzPosInp set_miBufUsd set_mzPosBse set_mpInp set_mzPosInp mpFil
       jseek mem_sys mem_jseek fst snd].
  change (negb (JDefs.EXI_OK =? JDefs.EXI_OK)) with false. cbv iota.
  rewrite b_file0. cbn [fst].
  match goal with
  | |- context [do_append ?x azPos] =>
      destruct (do_append_mem x azPos)
        as (r & s1 & E & HB1 & Fseq & Hst & Hres)
  end.
  - constructor; cbn.
    + reflexivity.
    + exact b_blk0.
    + now split.
    + exact b_len0.
    + lia.
    + lia.
    + lia.
    + exact b_seek0.
    + destruct (mbSeq s) eqn:Es; [now right|].
      left. specialize (b_seek0 eq_refl). lia.
    + now rewrite Z.sub_0_r.
    + left. now rewrite Z.sub_0_r.
    + intros q Hq. lia.
  - cbn. lia.
  - exists r, s1. split; [exact E|]. split; [exact HB1|].
    split; [exact Fseq|]. split; [exact Hst | exact Hres].
Qed.

Lemma if_pair {A B : Type} (b : bool) (x1 x2 : A) (y1 y2 : B) :
  (if b then (x1, y1) else (x2, y2))
  = (if b then x1 else x2, if b then y1 else y2).
Proof. now destruct b. Qed.

Lemma mod_zero_small (W x : Z) :
  0 < W -> x mod W = 0 -> - W < x < W -> x = 0.
Proof.
  intros HW Hx Hr. apply Z.mod_divide in Hx; [|lia].
  destruct Hx as [k Hk].
  destruct (Z.eq_dec k 0) as [->|Hk0]; [lia|].
  assert (k <= -1 \/ 1 <= k) as [?|?] by lia; nia.
Qed.

Lemma aligned_gap (B x y : Z) :
  0 < B -> x mod B = 0 -> y mod B = 0 -> x < y -> x + B <= y.
Proof.
  intros HB Hx Hy Hlt.
  apply Z.mod_divide in Hx; [|lia]. apply Z.mod_divide in Hy; [|lia].
  destruct Hx as [kx Hkx]. destruct Hy as [ky Hky].
  assert (kx < ky) by nia. nia.
Qed.

(** [case Scrollback:] on a file in memory that can seek. *)
Lemma do_scrollback_mem (s : t memfile) (azPos : Z) :
  Buffered c s -> mbSeq s = false -> 0 <= azPos ->
  azPos < mzPosInp s - miBufUsd s ->
  azPos + mlBufSze s - miBlkSze s > mzPosInp s - miBufUsd s ->
  exists s1,
    do_scrollback s azPos = Some (Added, s1) /\ Buffered c s1
    /\ mbSeq s1 = mbSeq s
    /\ mzPosInp s1 - miBufUsd s1 <= azPos < mzPosInp s1.
Proof.
  intros HB Hseq Hpos Hlt Hgt.
  destruct HB as [b_file0 b_blk0 b_buf0 b_len0 b_inp0 b_usd0 b_eof0
                  b_seek0 b_pos0 b_phase0 b_start0 b_data0].
  destruct b_buf0 as [HW Hmul].
  assert (HBW : miBlkSze s <= mlBufSze s).
  { apply Z.mod_divide in Hmul; [|lia].
    apply Z.divide_pos_le in Hmul; lia. }
  specialize (b_seek0 Hseq).
  assert (HPL : mzPosInp s <= Z.of_nat (length c))
    by (destruct b_pos0 as [|[_ ?]]; [assumption | congruence]).
  unfold do_scrollback. cbv zeta.
  pose proof (quot_block azPos (miBlkSze s) Hpos b_blk0) as Hq.
  assert (Hqa : (Z.quot azPos (miBlkSze s) * miBlkSze s) mod miBlkSze s = 0)
    by apply Z_mod_mult.
  generalize dependent (Z.quot azPos (miBlkSze s) * miBlkSze s).
  intros lzPos Hq Hqa.
  rewrite if_pair.
  set (s1 := if mzPosInp s - lzPos >? mlBufSze s then _ else _).
  set (a1 := if mzPosInp s - lzPos >? mlBufSze s then _ else _).
  assert (Hs1 : mbSeq s1 = mbSeq s /\ mlBufSze s1 = mlBufSze s
                /\ miBlkSze s1 = miBlkSze s /\ mpBuf s1 = mpBuf s
                /\ mpFil s1 = mpFil s /\ mzPosEof s1 = mzPosEof s
                /\ mzPosInp s1 = Z.min (mzPosInp s) (lzPos + mlBufSze s)
                /\ mzPosInp s1 - miBufUsd s1 = mzPosInp s - miBufUsd s
                /\ 0 <= mpInp s1 <= mlBufSze s
                /\ ((mpInp s1 - mzPosInp s1) - (mpInp s - mzPosInp s))
                   mod mlBufSze s = 0
                /\ 0 <= a1 < mlBufSze s
                /\ ((a1 - lzPos) - (mpInp s - mzPosInp s)) mod mlBufSze s
                   = 0).
  { assert (E0 : forall x, (x - x) mod mlBufSze s = 0)
      by (intros x; rewrite Z.sub_diag; apply Zmod_0_l).
    assert (E1 : forall x k, (x + k * mlBufSze s - x) mod mlBufSze s = 0).
    { intros x k. replace (x + k * mlBufSze s - x) with (0 + k * mlBufSze s)
        by lia. rewrite Z_mod_plus_full. apply Zmod_0_l. }
    subst a1 s1.
    destruct (Z.gtb_spec (mzPosInp s - lzPos) (mlBufSze s)) as [Hbig|Hsml];
      destruct (Z.gtb_spec (mzPosInp s - lzPos) (mpInp s)) as [Hw1|Hw1];
      cbn [mbSeq mlBufSze miBlkSze mpBuf mpFil mzPosEof mzPosInp miBufUsd
           mpInp set_miBufUsd set_mzPosInp set_mpInp];
      try (destruct (Z.gtb_spec (mzPosInp s - lzPos - mlBufSze s) (mpInp s))
             as [Hw2|Hw2]);
      cbn [mbSeq mlBufSze miBlkSze mpBuf mpFil mzPosEof mzPosInp miBufUsd
           mpInp set_miBufUsd set_mzPosInp set_mpInp];
      repeat (split; [first [reflexivity | lia]|]);
      try lia.
    all: repeat match goal with
           | |- _ /\ _ => split
           end; try lia.
    all: match goal with
         | |- ?x mod _ = 0 =>
             first
               [ replace x with (0 + 0 * mlBufSze s) by lia
               | replace x with (0 + 1 * mlBufSze s) by lia
               | replace x with (0 + 2 * mlBufSze s) by lia
               | replace x with (0 + (-1) * mlBufSze s) by lia ];
             rewrite Z_mod_plus_full; apply Zmod_0_l
         end. }
  destruct Hs1 as (Fseq & FW & FB & Fbuf & Ffil & Feof & HP1 & Hlo & HI1
                   & Hph1 & Ha1 & Hpha).
  clearbody s1 a1.
  cbn [jseek mem_sys mem_jseek fst snd set_mpFil set_mlFabSek mpFil
       mzPosInp miBufUsd mlFabSek].
  change (negb (JDefs.EXI_OK =? JDefs.EXI_OK)) with false. cbv iota.
  rewrite Ffil, b_file0. cbn [fst].
  match goal with
  | |- context [readblocks ?f ?x 0 a1 lzPos ?e] =>
      destruct (readblocks_mem f x 0 a1 lzPos e)
        as (ret & a' & z' & s' & -> & Hfr & Hfil & Hlen & Hzz & Ha' & Hph
            & HU & Hstep & Heof & Hd1 & Hd2)
  end; cbn [mpFil mlBufSze miBlkSze mpBuf set_mlFabSek set_mpFil];
    rewrite ?FW, ?FB, ?Fbuf; try assumption; try lia;
    try reflexivity.
  { unfold readblocks_fuel. lia. }
  cbn [mbSeq miRedSze mpRed mzPosInp mzPosRed mlFabSek mlBufSze miBlkSze
       mpInp mzPosBse mzPosEof miBufUsd mpBuf set_mlFabSek set_mpFil] in *.
  rewrite ?FW, ?FB, ?Fbuf, ?Feof in *.
  destruct Hfr as (Fseq' & _ & _ & FP' & _ & _ & FW' & FB' & FI' & _).
  assert (Hal : (lzPos - a1) mod miBlkSze s = 0).
  { replace (lzPos - a1)
      with (- (a1 - lzPos - (mpInp s - mzPosInp s))
            + (mzPosInp s - mpInp s)) by lia.
    apply mod_zero_add; [|exact b_phase0].
    apply Z.mod_opp_l_z; [lia|].
    now apply mod_zero_mul with (mlBufSze s). }
  destruct Heof as [(He & Hret & Hend & Halz)
                   |(He & Hmx & Hret & z0 & Hz0 & Hz0' & Halz)].
  2:{ (* the blocks before the buffer are in the file *)
      exfalso. specialize (Halz Hal Hqa).
      destruct b_start0 as [Hst|Hst].
      - pose proof (aligned_gap (miBlkSze s) z0
                      (mzPosInp s - miBufUsd s) b_blk0 Halz Hst
                      ltac:(lia)). lia.
      - lia. }
  specialize (Halz Hal Hqa).
  assert (Hz'W : z' <= lzPos + mlBufSze s).
  { destruct (Z_le_gt_dec z' (lzPos + mlBufSze s)) as [|Hbad];
      [assumption|].
    assert (HWa : (lzPos + mlBufSze s) mod miBlkSze s = 0)
      by (apply mod_zero_add; assumption).
    pose proof (aligned_gap (miBlkSze s) (lzPos + mlBufSze s) z' b_blk0
                  HWa Halz ltac:(lia)).
    destruct Hstep; lia. }
  assert (HU2 : miBufUsd s' = mzPosInp s1 - lzPos).
  { rewrite HU. destruct b_start0 as [Hst|Hst].
    - assert (z' = mzPosInp s - miBufUsd s).
      { destruct (Z.eq_dec z' (mzPosInp s - miBufUsd s)) as [|Hne];
          [assumption|].
        pose proof (aligned_gap (miBlkSze s) (mzPosInp s - miBufUsd s) z'
                      b_blk0 Hst Halz ltac:(lia)).
        destruct Hstep; lia. }
      lia.
    - lia. }
  assert (Hne : (ret =? JDefs.EOF) = false)
    by (apply Z.eqb_neq; unfold JDefs.EOF; lia).
  rewrite Hne. rewrite Hfil. cbn [fst].
  change (negb (JDefs.EXI_OK =? JDefs.EXI_OK)) with false. cbv iota.
  eexists. split; [reflexivity|].
  split; [|split; [cbn; congruence | cbn; lia]].
  constructor; cbn; rewrite ?FW', ?FB', ?FI', ?FP', ?FW, ?FB, ?Fseq',
    ?Fseq, ?He.
  - reflexivity.
  - exact b_blk0.
  - now split.
  - exact Hlen.
  - exact HI1.
  - lia.
  - lia.
  - intros _. exact b_seek0.
  - left. lia.
  - replace (mzPosInp s1 - mpInp s1)
      with (- (mpInp s1 - mzPosInp s1 - (mpInp s - mzPosInp s))
            + (mzPosInp s - mpInp s)) by lia.
    apply mod_zero_add; [|exact b_phase0].
    apply Z.mod_opp_l_z; [lia|].
    now apply mod_zero_mul with (mlBufSze s).
  - left. rewrite HU2.
    replace (mzPosInp s1 - (mzPosInp s1 - lzPos)) with lzPos by lia.
    exact Hqa.
  - rewrite HU2. intros q Hqr.
    assert (Hsh : ((mpInp s1 - mzPosInp s1) - (a1 - lzPos)) mod mlBufSze s
                  = 0).
    { replace (mpInp s1 - mzPosInp s1 - (a1 - lzPos))
        with ((mpInp s1 - mzPosInp s1 - (mpInp s - mzPosInp s))
              + - (a1 - lzPos - (mpInp s - mzPosInp s))) by lia.
      apply mod_zero_add; [exact Hph1|].
      apply Z.mod_opp_l_z; [lia | exact Hpha]. }
    apply holds_shift with (a1 - lzPos); [exact HW | exact Hsh|].
    destruct (Z_lt_ge_dec q z') as [Hlo'|Hhi'].
    + apply Hd1; lia.
    + apply Hd2.
      * apply holds_shift with (mpInp s - mzPosInp s); [exact HW | |].
        { exact Hpha. }
        apply b_data0. lia.
      * intros q' Hq' Hmod. exfalso.
        pose proof (mod_zero_small (mlBufSze s) (q' - q) HW Hmod
                      ltac:(lia)). lia.
Qed.

(** [get_fromfile] on a file in memory, for a position before the known
    end of the file that is not in the buffer. *)
Lemma get_fromfile_mem (s : t memfile) (azPos : Z) (aiSft : eAhead) :
  Buffered c s -> 0 <= azPos -> azPos < mzPosEof s ->
  ~ (mzPosInp s - miBufUsd s <= azPos < mzPosInp s) ->
  exists r s1,
    get_fromfile s azPos aiSft = Some (r, s1) /\ Buffered c s1
    /\ mbSeq s1 = mbSeq s
    /\ (r = Added /\ mzPosInp s1 - miBufUsd s1 <= azPos < mzPosInp s1
        \/ r = EndOfFile /\ Z.of_nat (length c) <= azPos
           /\ mzPosInp s1 - miBufUsd s1 <= azPos
        \/ r = EndOfBuffer /\ aiSft <> Read /\ s1 = s
        \/ r = SeekError /\ aiSft = Read /\ mbSeq s = true
           /\ azPos < mzPosInp s - miBufUsd s /\ s1 = s).
Proof.
  intros HB Hpos Heof Hout.
  assert (Hstay : forall r,
             r = EndOfBuffer /\ aiSft <> Read
             \/ r = SeekError /\ aiSft = Read /\ mbSeq s = true
                /\ azPos < mzPosInp s - miBufUsd s ->
             exists r1 s1, Some (r, s) = Some (r1, s1) /\ Buffered c s1
               /\ mbSeq s1 = mbSeq s
               /\ (r1 = Added
                   /\ mzPosInp s1 - miBufUsd s1 <= azPos < mzPosInp s1
                   \/ r1 = EndOfFile /\ Z.of_nat (length c) <= azPos
                      /\ mzPosInp s1 - miBufUsd s1 <= azPos
                   \/ r1 = EndOfBuffer /\ aiSft <> Read /\ s1 = s
                   \/ r1 = SeekError /\ aiSft = Read /\ mbSeq s = true
                      /\ azPos < mzPosInp s - miBufUsd s /\ s1 = s)).
  { intros r Hr. exists r, s. split; [reflexivity|]. split; [exact HB|].
    split; [reflexivity|]. tauto. }
  assert (Hreset : (mbSeq s = true -> mlBufSze s <= azPos) ->
             exists r1 s1, do_reset s azPos = Some (r1, s1) /\ Buffered c s1
               /\ mbSeq s1 = mbSeq s
               /\ (r1 = Added
                   /\ mzPosInp s1 - miBufUsd s1 <= azPos < mzPosInp s1
                   \/ r1 = EndOfFile /\ Z.of_nat (length c) <= azPos
                      /\ mzPosInp s1 - miBufUsd s1 <= azPos
                   \/ r1 = EndOfBuffer /\ aiSft <> Read /\ s1 = s
                   \/ r1 = SeekError /\ aiSft = Read /\ mbSeq s = true
                      /\ azPos < mzPosInp s - miBufUsd s /\ s1 = s)).
  { intros Hs.
    destruct (do_reset_mem s azPos HB Hpos Heof Hs)
      as (r & s1 & E & HB1 & Fs & Hst & Hr).
    exists r, s1. split; [exact E|]. split; [exact HB1|].
    split; [exact Fs|]. tauto. }
  assert (Happend : mzPosInp s <= azPos ->
             exists r1 s1, do_append s azPos = Some (r1, s1)
               /\ Buffered c s1 /\ mbSeq s1 = mbSeq s
               /\ (r1 = Added
                   /\ mzPosInp s1 - miBufUsd s1 <= azPos < mzPosInp s1
                   \/ r1 = EndOfFile /\ Z.of_nat (length c) <= azPos
                      /\ mzPosInp s1 - miBufUsd s1 <= azPos
                   \/ r1 = EndOfBuffer /\ aiSft <> Read /\ s1 = s
                   \/ r1 = SeekError /\ aiSft = Read /\ mbSeq s = true
                      /\ azPos < mzPosInp s - miBufUsd s /\ s1 = s)).
  { intros Hp.
    destruct (do_append_mem s azPos HB Hp)
      as (r & s1 & E & HB1 & Fs & Hst & Hr).
    exists r, s1. split; [exact E|]. split; [exact HB1|].
    split; [exact Fs|]. tauto. }
  assert (Hscroll : mbSeq s = false ->
             azPos < mzPosInp s - miBufUsd s ->
             azPos + mlBufSze s - miBlkSze s > mzPosInp s - miBufUsd s ->
             exists r1 s1, do_scrollback s azPos = Some (r1, s1)
               /\ Buffered c s1 /\ mbSeq s1 = mbSeq s
               /\ (r1 = Added
                   /\ mzPosInp s1 - miBufUsd s1 <= azPos < mzPosInp s1
                   \/ r1 = EndOfFile /\ Z.of_nat (length c) <= azPos
                      /\ mzPosInp s1 - miBufUsd s1 <= azPos
                   \/ r1 = EndOfBuffer /\ aiSft <> Read /\ s1 = s
                   \/ r1 = SeekError /\ aiSft = Read /\ mbSeq s = true
                      /\ azPos < mzPosInp s - miBufUsd s /\ s1 = s)).
  { intros Hs H1 H2.
    destruct (do_scrollback_mem s azPos HB Hs Hpos H1 H2)
      as (s1 & E & HB1 & Fs & Hr).
    exists Added, s1. split; [exact E|]. split; [exact HB1|].
    split; [exact Fs|]. tauto. }
  pose proof (b_usd c s HB) as [HU HUP].
  unfold get_fromfile, get_fromfile_prep.
  destruct (Z.ltb_spec azPos (mzPosInp s - miBufUsd s)) as [H1|H1].
  - destruct aiSft.
    + destruct (mbSeq s) eqn:Es.
      * apply Hstay. right. auto.
      * destruct (Z.gtb_spec (azPos + mlBufSze s - miBlkSze s)
                    (mzPosInp s - miBufUsd s)).
        -- apply Hscroll; [reflexivity | lia | lia].
        -- apply Hreset. discriminate.
    + destruct (mbSeq s) eqn:Es.
      * apply Hstay. left. split; [reflexivity | discriminate].
      * destruct (Z.gtb_spec (azPos + mlBufSze s - miBlkSze s)
                    (mzPosInp s - miBufUsd s)).
        -- apply Hscroll; [reflexivity | lia | lia].
        -- apply Hreset. discriminate.
    + apply Hstay. left. split; [reflexivity | discriminate].
  - rewrite Z.geb_leb.
    destruct (Z.leb_spec (mzPosInp s + mlBufSze s) azPos) as [H2|H2].
    + destruct aiSft.
      * apply Hreset. intros _. lia.
      * apply Hreset. intros _. lia.
      * apply Hstay. left. split; [reflexivity | discriminate].
    + destruct aiSft.
      * apply Happend. lia.
      * apply Happend. lia.
      * destruct (azPos >? mzPosBse s + mlBufSze s - miBlkSze s).
        -- apply Hstay. left. split; [reflexivity | discriminate].
        -- apply Happend. lia.
Qed.

(** The address [getbuf] computes for a position of the buffer, and the
    bytes that follow it there. *)
Lemma getbuf_addr_mem (s : t memfile) (azPos : Z) :
  Buffered c s -> mzPosInp s - miBufUsd s <= azPos < mzPosInp s ->
  exists lpDta lzLen,
    getbuf_addr s azPos = (lpDta, lzLen)
    /\ lpDta = cell (mlBufSze s) (mpInp s - mzPosInp s) azPos
    /\ 0 <= lpDta < mlBufSze s /\ 1 <= lzLen
    /\ lpDta + lzLen <= mlBufSze s /\ azPos + lzLen <= mzPosInp s.
Proof.
  intros HB Hin.
  destruct HB as [b_file0 b_blk0 b_buf0 b_len0 b_inp0 b_usd0 b_eof0
                  b_seek0 b_pos0 b_phase0 b_start0 b_data0].
  destruct b_buf0 as [HW Hmul].
  unfold getbuf_addr, cell.
  replace (azPos + (mpInp s - mzPosInp s))
    with (mpInp s - (mzPosInp s - azPos)) by lia.
  destruct (Z.leb_spec (mzPosInp s - azPos) (mpInp s)) as [Hle|Hgt].
  - eexists _, _. split; [reflexivity|].
    rewrite Z.mod_small by lia. lia.
  - eexists _, _. split; [reflexivity|].
    replace (mpInp s - (mzPosInp s - azPos))
      with (mpInp s + mlBufSze s - (mzPosInp s - azPos)
            + (-1) * mlBufSze s) by lia.
    rewrite Z_mod_plus_full, Z.mod_small by lia. lia.
Qed.

(** A position of the buffer is a position of the file, and its cell holds
    its byte. *)
Lemma peek_mem (s : t memfile) (q : Z) :
  Buffered c s -> 0 <= q -> mzPosInp s - miBufUsd s <= q < mzPosInp s ->
  peek s (cell (mlBufSze s) (mpInp s - mzPosInp s) q) = byte_at c q.
Proof.
  intros HB H0 Hin. pose proof (b_data c s HB q Hin) as Hq.
  unfold peek, byte_at. unfold holds in Hq. rewrite Hq.
  assert (HL : q < Z.of_nat (length c)).
  { destruct (b_pos c s HB) as [|[HU _]]; lia. }
  destruct (c !! Z.to_nat q) as [b|] eqn:E; [reflexivity|].
  apply lookup_ge_None in E. lia.
Qed.

Lemma byte_at_eof (q : Z) :
  Z.of_nat (length c) <= q -> byte_at c q = JDefs.EOF.
Proof.
  intros Hq. unfold byte_at.
  rewrite (proj2 (lookup_ge_None c (Z.to_nat q))) by lia. reflexivity.
Qed.

(** [get_frombuffer] on a file in memory. *)
Lemma get_frombuffer_mem (s : t memfile) (azPos : Z) (aiSft : eAhead) :
  Buffered c s -> 0 <= azPos ->
  exists v s1,
    get_frombuffer s azPos aiSft = Some (v, s1) /\ Reads c s1
    /\ mbSeq s1 = mbSeq s
    /\ (v = byte_at c azPos /\ getBufPos s1 <= azPos
        \/ v = JDefs.EOB /\ aiSft <> Read /\ getBufPos s1 = getBufPos s
        \/ v = JDefs.EXI_SEK /\ aiSft = Read /\ mbSeq s = true
           /\ azPos < getBufPos s /\ getBufPos s1 = getBufPos s).
Proof.
  intros HB Hpos.
  assert (Hnone : forall (s1 : t memfile) (v : Z),
             Buffered c s1 ->
             Reads c (set_miRedSze 0 (set_mpRed None (set_mzPosRed (-1) s1)))).
  { intros s1 v HB1. split.
    - destruct HB1. constructor; cbn; assumption.
    - unfold Fast; cbn. lia. }
  assert (Hsome : forall (s1 : t memfile),
             Buffered c s1 ->
             mzPosInp s1 - miBufUsd s1 <= azPos < mzPosInp s1 ->
             mbSeq s1 = mbSeq s ->
             exists v s2,
               (let '(lpDta, azLen) := getbuf_addr s1 azPos in
                let s := set_mzPosRed (azPos + 1) s1 in
                let s := set_miRedSze (azLen - 1) s in
                let s := set_mpRed (Some (if lpDta + 1 =? mlBufSze s
                                          then 0 else lpDta + 1)) s in
                Some (peek s lpDta, s)) = Some (v, s2)
               /\ Reads c s2 /\ mbSeq s2 = mbSeq s
               /\ (v = byte_at c azPos /\ getBufPos s2 <= azPos
                   \/ v = JDefs.EOB /\ aiSft <> Read
                      /\ getBufPos s2 = getBufPos s
                   \/ v = JDefs.EXI_SEK /\ aiSft = Read /\ mbSeq s = true
                      /\ azPos < getBufPos s
                      /\ getBufPos s2 = getBufPos s)).
  { intros s1 HB1 Hin Fs.
    destruct (getbuf_addr_mem s1 azPos HB1 Hin)
      as (lpDta & lzLen & -> & Hd & Hr & Hl & Hfit & Hend).
    cbv zeta. eexists _, _. split; [reflexivity|].
    cbn [mlBufSze set_miRedSze set_mzPosRed].
    split; [split|split; [exact Fs|]].
    - destruct HB1. constructor; cbn; assumption.
    - unfold Fast; cbn. intros Hmore.
      destruct (Z.eqb_spec (lpDta + 1) (mlBufSze s1)); [lia|].
      eexists. split; [reflexivity|]. split; [|lia].
      pose proof (b_buf c s1 HB1) as [HW _].
      subst lpDta. symmetry. apply cell_next; [exact HW | lia].
    - left. unfold getBufPos; cbn. split; [|lia].
      unfold peek; cbn. rewrite Hd.
      apply (peek_mem s1 azPos HB1 Hpos Hin). }
  unfold get_frombuffer, getbuf.
  destruct (Z.geb_spec azPos (mzPosEof s)) as [Heof|Heof].
  { (* at or after the known end of the file *)
    eexists _, _. split; [reflexivity|].
    split; [apply (Hnone s 0 HB)|]. split; [reflexivity|].
    left. unfold getBufPos; cbn.
    pose proof (b_eof c s HB). pose proof (b_usd c s HB).
    split; [|lia]. symmetry. apply byte_at_eof. lia. }
  destruct (Z.ltb_spec azPos (mzPosInp s)) as [H1|H1];
    [destruct (Z.geb_spec azPos (mzPosInp s - miBufUsd s)) as [H2|H2]|];
    cbn [andb].
  - (* in the buffer *)
    destruct (Hsome s HB ltac:(lia) eq_refl) as (v & s2 & E & Hres).
    destruct (getbuf_addr s azPos) as [lpDta lzLen].
    exists v, s2. split; [exact E | exact Hres].
  - destruct (get_fromfile_mem s azPos aiSft HB Hpos Heof ltac:(lia))
      as (r & s1 & -> & HB1 & Fs & Hr).
    destruct Hr as [[-> Hin]|[(-> & HL & Hst)|[(-> & Hsft & ->)
                   |(-> & Hsft & Hs & Hb & ->)]]].
    + destruct (Hsome s1 HB1 Hin Fs) as (v & s2 & E & Hres).
      destruct (getbuf_addr s1 azPos) as [lpDta lzLen].
      exists v, s2. split; [exact E | exact Hres].
    + eexists _, _. split; [reflexivity|].
      split; [apply (Hnone s1 0 HB1)|]. split; [exact Fs|].
      left. unfold getBufPos; cbn. split; [now rewrite byte_at_eof|].
      exact Hst.
    + eexists _, _. split; [reflexivity|].
      split; [apply (Hnone s 0 HB1)|]. split; [reflexivity|].
      right; left. unfold getBufPos; cbn. auto.
    + eexists _, _. split; [reflexivity|].
      split; [apply (Hnone s 0 HB1)|]. split; [reflexivity|].
      right; right. unfold getBufPos; cbn. auto.
  - destruct (get_fromfile_mem s azPos aiSft HB Hpos Heof ltac:(lia))
      as (r & s1 & -> & HB1 & Fs & Hr).
    destruct Hr as [[-> Hin]|[(-> & HL & Hst)|[(-> & Hsft & ->)
                   |(-> & Hsft & Hs & Hb & ->)]]].
    + destruct (Hsome s1 HB1 Hin Fs) as (v & s2 & E & Hres).
      destruct (getbuf_addr s1 azPos) as [lpDta lzLen].
      exists v, s2. split; [exact E | exact Hres].
    + eexists _, _. split; [reflexivity|].
      split; [apply (Hnone s1 0 HB1)|]. split; [exact Fs|].
      left. unfold getBufPos; cbn. split; [now rewrite byte_at_eof|].
      exact Hst.
    + eexists _, _. split; [reflexivity|].
      split; [apply (Hnone s 0 HB1)|]. split; [reflexivity|].
      right; left. unfold getBufPos; cbn. auto.
    + eexists _, _. split; [reflexivity|].
      split; [apply (Hnone s 0 HB1)|]. split; [reflexivity|].
      right; right. unfold getBufPos; cbn. auto.
Qed.

(** [get] on a file in memory. *)
Lemma get_mem (s : t memfile) (azPos : Z) (aiSft : eAhead) :
  Reads c s -> 0 <= azPos ->
  exists v s1,
    get s azPos aiSft = Some (v, s1) /\ Reads c s1
    /\ mbSeq s1 = mbSeq s
    /\ (v = byte_at c azPos /\ getBufPos s1 <= azPos
        \/ v = JDefs.EOB /\ aiSft <> Read /\ getBufPos s1 = getBufPos s
        \/ v = JDefs.EXI_SEK /\ aiSft = Read /\ mbSeq s = true
           /\ azPos < getBufPos s /\ getBufPos s1 = getBufPos s).
Proof.
  intros [HB HF] Hpos. unfold get.
  destruct (Z.eqb_spec azPos (mzPosRed s)) as [->|Hne]; cbn [andb].
  - destruct (Z.gtb_spec (miRedSze s) 0) as [Hfast|Hslow].
    + (* the fast path *)
      destruct (HF ltac:(lia)) as (p & Ep & Hp & Hlo & Hhi & Hfit).
      rewrite Ep. cbn [default].
      eexists _, _. split; [reflexivity|].
      split; [split|split; [reflexivity|]].
      * destruct HB. constructor; cbn; assumption.
      * unfold Fast; cbn. intros Hmore.
        exists (p + 1). split; [reflexivity|].
        split; [|lia].
        pose proof (b_buf c s HB) as [HW _].
        subst p. symmetry. apply cell_next; [exact HW | lia].
      * left. unfold getBufPos; cbn. split; [|lia].
        rewrite Hp. apply peek_mem; [exact HB | exact Hpos | lia].
    + apply (get_frombuffer_mem s (mzPosRed s) aiSft HB Hpos).
  - apply (get_frombuffer_mem s azPos aiSft HB Hpos).
Qed.

End MemReads.

Section ReaderTheorems.

Import JFileAhead.

Variable MAX_OFF_T : Z.
Variable c : list Byte.byte.

(** The reader a constructor leaves behind has nothing in its buffer. *)
Lemma new_memfile_reads (alBufSze aiBlkSze : Z) (abSeq : bool)
  (buf : list Byte.byte) :
  0 <= alBufSze -> 0 <= aiBlkSze ->
  Z.of_nat (length buf) = fst (Construct.buffer_sizes alBufSze aiBlkSze) ->
  Z.of_nat (length c) <= MAX_OFF_T ->
  let s := MemReader.new_memfile MAX_OFF_T c alBufSze aiBlkSze abSeq buf in
  Reads c s /\ mbSeq s = abSeq /\ getBufPos s = 0.
Proof.
  intros Hb Hk Hlen HL.
  pose proof (buffer_sizes_spec alBufSze aiBlkSze Hb Hk) as Hsz.
  unfold MemReader.new_memfile, Construct.new_JFileAhead.
  destruct (Construct.buffer_sizes alBufSze aiBlkSze) as [W B].
  cbn [fst] in Hlen. destruct Hsz as (_ & HB & Hmod & _).
  unfold MemReader.chkSeq, create. cbn [mbSeq].
  destruct abSeq; cbn [negb].
  - cbv zeta. split; [split|split; reflexivity].
    + constructor; cbn; try lia; try discriminate; try reflexivity;
        try (left; apply Zmod_0_l); apply Zmod_0_l.
    + unfold Fast; cbn. lia.
  - cbn [mzPosEof set_mzPosEof].
    destruct (Z.ltb_spec (Z.of_nat (length c)) 0); [lia|].
    split; [split|split; reflexivity].
    + constructor; cbn; try lia; try reflexivity;
        try (left; apply Zmod_0_l); apply Zmod_0_l.
    + unfold Fast; cbn. lia.
Qed.

(** A sequence of calls of [get] on a file in memory. *)
Lemma reads_mem (calls : list (Z * eAhead)) :
  forall s, Reads c s -> (forall call, call ∈ calls -> 0 <= fst call) ->
            exists vs s1, reads s calls = Some (vs, s1) /\ Reads c s1
                          /\ mbSeq s1 = mbSeq s.
Proof.
  induction calls as [|[p m] calls IH]; intros s HR Hall.
  - exists [], s. now split.
  - cbn [reads].
    destruct (get_mem c s p m HR (Hall (p, m) (list_elem_of_here _ _)))
      as (v & s1 & -> & HR1 & Fs & _).
    destruct (IH s1 HR1) as (vs & s2 & -> & HR2 & Fs2).
    + intros call Hc. apply Hall. now apply list_elem_of_further.
    + exists (v :: vs), s2. split; [reflexivity|].
      split; [exact HR2 | congruence].
Qed.

(** X13.  A reader on a file that can seek (the file in memory, whose
    [jseek] succeeds) returns the bytes of the file: after any calls of
    [get], a call [get (azPos, aiSft)] returns the byte at [azPos], or
    [EOF] when [azPos] is at or after the end of the file; but for [EOB],
    which the two ahead modes may answer instead, and for [EXI_SEK], which
    mode [Read] answers for a position before the buffer when the reader
    was made with [abSeq], to read the file in sequence.  This holds
    whatever sizes were asked for the buffer and the blocks.  A stream
    whose [jseek] fails is outside this statement. *)
Theorem reader_returns_content (alBufSze aiBlkSze : Z) (abSeq : bool)
  (buf : list Byte.byte) (calls : list (Z * eAhead)) (azPos : Z)
  (aiSft : eAhead) :
  0 <= alBufSze -> 0 <= aiBlkSze ->
  Z.of_nat (length buf) = fst (Construct.buffer_sizes alBufSze aiBlkSze) ->
  Z.of_nat (length c) <= MAX_OFF_T ->
  (forall call, call ∈ calls -> 0 <= fst call) -> 0 <= azPos ->
  exists vs s v s1,
    reads (MemReader.new_memfile MAX_OFF_T c alBufSze aiBlkSze abSeq buf)
      calls = Some (vs, s)
    /\ get s azPos aiSft = Some (v, s1)
    /\ (v = byte_at c azPos
        \/ v = JDefs.EOB /\ aiSft <> Read
        \/ v = JDefs.EXI_SEK /\ aiSft = Read /\ abSeq = true
           /\ azPos < getBufPos s).
Proof.
  intros Hb Hk Hlen HL Hcalls Hpos.
  destruct (new_memfile_reads alBufSze aiBlkSze abSeq buf Hb Hk Hlen HL)
    as (HR & Hseq & _).
  destruct (reads_mem calls _ HR Hcalls) as (vs & s & E & HR1 & Fs).
  destruct (get_mem c s azPos aiSft HR1 Hpos) as (v & s1 & Eg & _ & _ & Hv).
  exists vs, s, v, s1. split; [exact E|]. split; [exact Eg|].
  destruct Hv as [[Hv _]|[(Hv & Hm & _)|(Hv & Hm & Hs & Hlt & _)]].
  - now left.
  - right; left. now split.
  - right; right. repeat split; try assumption. congruence.
Qed.

(** Reading forwards. *)
Lemma reads_forward (ps : list Z) :
  forall s, Reads c s ->
            (forall p, p ∈ ps -> 0 <= p) ->
            (forall p, head ps = Some p -> getBufPos s <= p) ->
            (forall i p q, ps !! i = Some p -> ps !! S i = Some q -> p <= q) ->
            exists s1, reads s (map (fun p => (p, Read)) ps)
                       = Some (map (byte_at c) ps, s1).
Proof.
  induction ps as [|p ps IH]; intros s HR Hall Hhd Hsort.
  - now exists s.
  - cbn [map reads].
    destruct (get_mem c s p Read HR (Hall p (list_elem_of_here _ _)))
      as (v & s1 & -> & HR1 & _ & Hv).
    destruct Hv as [[-> Hst]|[(_ & Hm & _)|(_ & _ & _ & Hlt & _)]].
    + destruct (IH s1 HR1) as (s2 & ->).
      * intros q Hq. apply Hall. now apply list_elem_of_further.
      * intros q Hq. destruct ps as [|q' ps]; [discriminate|].
        injection Hq as ->.
        specialize (Hsort 0%nat p q eq_refl eq_refl). lia.
      * intros i q1 q2 H1 H2. exact (Hsort (S i) q1 q2 H1 H2).
      * now exists s2.
    + contradiction.
    + specialize (Hhd p eq_refl). lia.
Qed.

(** X14.  On a file that can seek (the file in memory, whose [jseek]
    succeeds), reading forwards never fails: calls of [get] in mode [Read]
    for positions that do not decrease return the bytes at these positions
    ([EOF] from the end of the file on), also when the reader was made
    with [abSeq], to read the file in sequence.  A stream whose [jseek]
    fails is outside this statement. *)
Theorem reader_forward (alBufSze aiBlkSze : Z) (abSeq : bool)
  (buf : list Byte.byte) (ps : list Z) :
  0 <= alBufSze -> 0 <= aiBlkSze ->
  Z.of_nat (length buf) = fst (Construct.buffer_sizes alBufSze aiBlkSze) ->
  Z.of_nat (length c) <= MAX_OFF_T ->
  (forall p, p ∈ ps -> 0 <= p) ->
  (forall i p q, ps !! i = Some p -> ps !! S i = Some q -> p <= q) ->
  exists s,
    reads (MemReader.new_memfile MAX_OFF_T c alBufSze aiBlkSze abSeq buf)
      (map (fun p => (p, Read)) ps)
    = Some (map (byte_at c) ps, s).
Proof.
  intros Hb Hk Hlen HL Hall Hsort.
  destruct (new_memfile_reads alBufSze aiBlkSze abSeq buf Hb Hk Hlen HL)
    as (HR & _ & Hst).
  apply reads_forward; try assumption.
  intros p Hp. rewrite Hst. apply Hall.
  destruct ps; [discriminate|]. injection Hp as ->. apply list_elem_of_here.
Qed.

End ReaderTheorems.

Lemma reader_returns_content_witness :
  let c := [Byte.x61; Byte.x62; Byte.x63; Byte.x64; Byte.x65; Byte.x66;
            Byte.x67; Byte.x68; Byte.x69; Byte.x6a] in
  exists vs s v s1,
    reads (MemReader.new_memfile 1000 c 8 4 false (repeat Byte.x00 8))
      [(9, JFile.Read); (2, JFile.Read)] = Some (vs, s)
    /\ JFileAhead.get s 5 JFile.HardAhead = Some (v, s1)
    /\ (v = byte_at c 5
        \/ v = JDefs.EOB /\ JFile.HardAhead <> JFile.Read
        \/ v = JDefs.EXI_SEK /\ JFile.HardAhead = JFile.Read /\ false = true
           /\ 5 < JFileAhead.getBufPos s).
Proof.
  intros c.
  apply (reader_returns_content 1000 c 8 4 false (repeat Byte.x00 8)
           [(9, JFile.Read); (2, JFile.Read)] 5 JFile.HardAhead).
  - lia.
  - lia.
  - reflexivity.
  - cbn. lia.
  - intros call Hc.
    repeat (apply elem_of_cons in Hc; destruct Hc as [->|Hc]; [cbn; lia|]).
    now apply elem_of_nil in Hc.
  - lia.
Defined.

Lemma reader_forward_witness :
  let c := [Byte.x61; Byte.x62; Byte.x63; Byte.x64; Byte.x65; Byte.x66;
            Byte.x67; Byte.x68; Byte.x69; Byte.x6a] in
  exists s,
    reads (MemReader.new_memfile 1000 c 8 4 true (repeat Byte.x00 8))
      (map (fun p => (p, JFile.Read)) [0; 1; 1; 5; 9; 10; 12])
    = Some (map (byte_at c) [0; 1; 1; 5; 9; 10; 12], s).
Proof.
  intros c.
  apply (reader_forward 1000 c 8 4 true (repeat Byte.x00 8)
           [0; 1; 1; 5; 9; 10; 12]).
  - lia.
  - lia.
  - reflexivity.
  - cbn. lia.
  - intros p Hp.
    repeat (apply elem_of_cons in Hp; destruct Hp as [->|Hp]; [lia|]).
    now apply elem_of_nil in Hp.
  - intros i p q Hp Hq.
    do 7 (destruct i as [|i]; [cbn in Hp, Hq; injection Hp as <-;
                               try injection Hq as <-; try lia;
                               discriminate|]).
    discriminate.
Defined.

(** ** What [getbuf] leaves alone *)

Section ReadAhead.

Import JFileAhead.

Context {U : Type} `{sys U}.

(** The fetches from the file do not touch the fast path of [get]. *)
Lemma readblocks_red (fuel : nat) :
  forall (s s1 : t U) (liDne a z azEnd ret a1 z1 : Z),
    readblocks fuel s liDne a z azEnd = Some (ret, a1, z1, s1) ->
    miRedSze s1 = miRedSze s.
Proof.
  induction fuel as [|fuel IH]; intros s s1 liDne a z azEnd ret a1 z1;
    cbn [readblocks].
  - destruct (z <=? azEnd); [discriminate|].
    destruct (miBufUsd s >? mlBufSze s); intros [= _ _ _ <-]; reflexivity.
  - destruct (z <=? azEnd).
    2:{ destruct (miBufUsd s >? mlBufSze s); intros [= _ _ _ <-];
          reflexivity. }
    destruct (if a =? mlBufSze s then _ else _) as [a0 t0].
    destruct (jread (mpFil s) t0) as [bs fil].
    cbn [miBufUsd set_mpFil set_mpBuf set_miBufUsd set_mzPosEof mlBufSze
         mzPosEof miBlkSze mpFil mpBuf].
    destruct (_ <? t0).
    + destruct (_ >? mlBufSze s);
        cbn [miBufUsd set_mpFil set_mpBuf set_miBufUsd set_mzPosEof mlBufSze
             mzPosEof miBlkSze mpFil mpBuf];
        destruct (azEnd >=? _); intros [= _ _ _ <-]; reflexivity.
    + intros E. apply IH in E. exact E.
Qed.

Lemma do_append_red (s s1 : t U) (azPos : Z) (r : eBufDne) :
  do_append s azPos = Some (r, s1) -> miRedSze s1 = miRedSze s.
Proof.
  unfold do_append.
  destruct (readblocks _ s 0 _ _ azPos) as [[[[ret a1] z1] s2]|] eqn:E;
    [|discriminate].
  apply readblocks_red in E.
  destruct (ret =? JDefs.EOF); intros [= _ <-]; exact E.
Qed.

Lemma get_fromfile_red (s s1 : t U) (azPos : Z) (aiSft : eAhead)
  (r : eBufDne) :
  get_fromfile s azPos aiSft = Some (r, s1) -> miRedSze s1 = miRedSze s.
Proof.
  unfold get_fromfile.
  destruct (get_fromfile_prep s azPos aiSft) as [r0|[| |]].
  - intros [= _ <-]. reflexivity.
  - apply do_append_red.
  - unfold do_reset.
    match goal with
    | |- context [jseek ?f ?p] => destruct (jseek f p) as [k fil]
    end.
    destruct (negb (k =? JDefs.EXI_OK)).
    + intros [= _ <-]. destruct (mbSeq s); reflexivity.
    + intros E. apply do_append_red in E. rewrite E.
      destruct (mbSeq s); reflexivity.
  - unfold do_scrollback. cbv zeta. rewrite if_pair.
    set (s0 := if mzPosInp s - _ >? mlBufSze s then _ else s).
    assert (E0 : miRedSze s0 = miRedSze s)
      by (subst s0; destruct (_ >? mlBufSze s); reflexivity).
    clearbody s0.
    match goal with
    | |- context [jseek ?f ?p] => destruct (jseek f p) as [k fil]
    end.
    destruct (negb (k =? JDefs.EXI_OK)); [intros [= _ <-]; exact E0|].
    match goal with
    | |- context [readblocks ?f ?x ?d ?a ?z ?e] =>
        destruct (readblocks f x d a z e) as [[[[ret a1] z1] s2]|] eqn:E;
          [|discriminate]
    end.
    apply readblocks_red in E. cbn in E.
    destruct (ret =? JDefs.EOF); [intros [= _ <-]; cbn; congruence|].
    match goal with
    | |- context [jseek ?f ?p] => destruct (jseek f p) as [k2 fil2]
    end.
    destruct (negb (k2 =? JDefs.EXI_OK)); intros [= _ <-]; cbn; congruence.
Qed.

Lemma getbuf_red (s s1 : t U) (azPos : Z) (aiSft : eAhead)
  (p : option Z) (n : Z) :
  getbuf s azPos aiSft = Some (p, n, s1) -> miRedSze s1 = miRedSze s.
Proof.
  unfold getbuf.
  destruct (azPos >=? mzPosEof s); [intros [= _ _ <-]; reflexivity|].
  destruct ((azPos <? mzPosInp s) && (azPos >=? mzPosInp s - miBufUsd s)).
  { destruct (getbuf_addr s azPos). intros [= _ _ <-]. reflexivity. }
  destruct (get_fromfile s azPos aiSft) as [[r s2]|] eqn:E; [|discriminate].
  apply get_fromfile_red in E.
  destruct r; try destruct (getbuf_addr s2 azPos);
    intros [= _ _ <-]; exact E.
Qed.

End ReadAhead.

(** ** Copies from a reader *)

Section CopyFacts.

Import JFileAhead.

Variable c : list Byte.byte.

(** The bytes [getbuf] gives access to. *)
Lemma getbuf_chunk (s : t memfile) (azPos lpDta lzLen : Z) :
  Buffered c s -> 0 <= azPos ->
  mzPosInp s - miBufUsd s <= azPos < mzPosInp s ->
  getbuf_addr s azPos = (lpDta, lzLen) ->
  1 <= lzLen /\ azPos + lzLen <= Z.of_nat (length c)
  /\ take (Z.to_nat lzLen) (drop (Z.to_nat lpDta) (mpBuf s))
     = take (Z.to_nat lzLen) (drop (Z.to_nat azPos) c).
Proof.
  intros HB Hpos Hin E.
  destruct (getbuf_addr_mem c s azPos HB Hin)
    as (p & n & E' & Hp & Hr & Hn & Hfit & Hend).
  rewrite E in E'. injection E' as -> ->.
  pose proof (b_buf c s HB) as [HW _].
  assert (HL : mzPosInp s <= Z.of_nat (length c)).
  { destruct (b_pos c s HB) as [|[HU _]]; lia. }
  split; [exact Hn|]. split; [lia|].
  apply list_eq. intros i.
  destruct (Nat.lt_ge_cases i (Z.to_nat n)) as [Hi|Hi].
  - rewrite !lookup_take_lt, !lookup_drop by exact Hi.
    pose proof (b_data c s HB (azPos + Z.of_nat i) ltac:(lia)) as Hq.
    unfold holds in Hq.
    rewrite cell_add in Hq by (rewrite <- ?Hp; lia).
    rewrite <- Hp in Hq.
    replace (Z.to_nat p + i)%nat with (Z.to_nat (p + Z.of_nat i)) by lia.
    replace (Z.to_nat azPos + i)%nat
      with (Z.to_nat (azPos + Z.of_nat i)) by lia.
    exact Hq.
  - rewrite !lookup_take_ge by exact Hi. reflexivity.
Qed.

(** [getbuf] in mode [Read] on a file in memory that can seek. *)
Lemma getbuf_mem (s : t memfile) (azPos : Z) :
  Buffered c s -> mbSeq s = false -> 0 <= azPos ->
  exists res n s1,
    getbuf s azPos Read = Some (res, n, s1)
    /\ Buffered c s1 /\ mbSeq s1 = false
    /\ (azPos < Z.of_nat (length c)
        /\ (exists lpDta, res = Some lpDta
              /\ 1 <= n /\ azPos + n <= Z.of_nat (length c)
              /\ take (Z.to_nat n) (drop (Z.to_nat lpDta) (mpBuf s1))
                 = take (Z.to_nat n) (drop (Z.to_nat azPos) c))
        \/ Z.of_nat (length c) <= azPos /\ res = None).
Proof.
  intros HB Hseq Hpos. unfold getbuf.
  pose proof (b_seek c s HB Hseq) as Heof.
  destruct (Z.geb_spec azPos (mzPosEof s)) as [H0|H0].
  { eexists _, _, _. split; [reflexivity|]. split; [exact HB|].
    split; [exact Hseq|]. right. split; [lia | reflexivity]. }
  assert (Hin : forall s1, Buffered c s1 -> mbSeq s1 = false ->
             mzPosInp s1 - miBufUsd s1 <= azPos < mzPosInp s1 ->
             exists res n s2,
               (let '(lpDta, azLen) := getbuf_addr s1 azPos in
                Some (Some lpDta, azLen, s1)) = Some (res, n, s2)
               /\ Buffered c s2 /\ mbSeq s2 = false
               /\ (azPos < Z.of_nat (length c)
                   /\ (exists lpDta, res = Some lpDta
                         /\ 1 <= n /\ azPos + n <= Z.of_nat (length c)
                         /\ take (Z.to_nat n)
                              (drop (Z.to_nat lpDta) (mpBuf s2))
                            = take (Z.to_nat n) (drop (Z.to_nat azPos) c))
                   \/ Z.of_nat (length c) <= azPos /\ res = None)).
  { intros s1 HB1 Hs1 Hin.
    destruct (getbuf_addr s1 azPos) as [lpDta lzLen] eqn:E.
    destruct (getbuf_chunk s1 azPos lpDta lzLen HB1 Hpos Hin E)
      as (Hn & Hend & Hbytes).
    eexists _, _, _. split; [reflexivity|]. split; [exact HB1|].
    split; [exact Hs1|]. left. split; [lia|].
    exists lpDta. auto. }
  destruct (Z.ltb_spec azPos (mzPosInp s)) as [H1|H1];
    [destruct (Z.geb_spec azPos (mzPosInp s - miBufUsd s)) as [H2|H2]|];
    cbn [andb].
  - apply (Hin s HB Hseq). lia.
  - destruct (get_fromfile_mem c s azPos Read HB Hpos H0 ltac:(lia))
      as (r & s1 & -> & HB1 & Fs & Hr).
    destruct Hr as [[-> Hb]|[(-> & HL & _)|[(-> & Hm & _)
                   |(-> & _ & Hs & _)]]];
      [|lia|contradiction|congruence].
    apply (Hin s1 HB1); [congruence | exact Hb].
  - destruct (get_fromfile_mem c s azPos Read HB Hpos H0 ltac:(lia))
      as (r & s1 & -> & HB1 & Fs & Hr).
    destruct Hr as [[-> Hb]|[(-> & HL & _)|[(-> & Hm & _)
                   |(-> & _ & Hs & _)]]];
      [|lia|contradiction|congruence].
    apply (Hin s1 HB1); [congruence | exact Hb].
Qed.

Lemma segment_nil (azPos azLen : Z) :
  azLen <= 0 \/ Z.of_nat (length c) <= azPos -> 0 <= azPos ->
  segment c azPos azLen = [].
Proof.
  intros [H|H] Hpos; unfold segment.
  - replace (Z.to_nat azLen) with 0%nat by lia. reflexivity.
  - rewrite drop_ge by lia. now rewrite take_nil.
Qed.

Lemma segment_app (azPos n azLen : Z) :
  0 <= azPos -> 0 <= n <= azLen ->
  segment c azPos azLen
  = segment c azPos n ++ segment c (azPos + n) (azLen - n).
Proof.
  intros Hpos Hn. unfold segment. rewrite <- map_app. f_equal.
  replace (Z.to_nat azLen) with (Z.to_nat n + Z.to_nat (azLen - n))%nat
    by lia.
  rewrite <- take_take_drop.
  replace (Z.to_nat (azPos + n)) with (Z.to_nat azPos + Z.to_nat n)%nat
    by lia.
  now rewrite drop_drop.
Qed.

Lemma segment_take (azPos n m : Z) :
  0 <= m <= n -> take (Z.to_nat m) (segment c azPos n) = segment c azPos m.
Proof.
  intros Hm. unfold segment. rewrite firstn_map. f_equal.
  rewrite take_take. f_equal. lia.
Qed.

Lemma length_segment (azPos n : Z) :
  0 <= azPos -> 0 <= n -> azPos + n <= Z.of_nat (length c) ->
  Z.of_nat (length (segment c azPos n)) = n.
Proof.
  intros Hpos Hn Hfit. unfold segment.
  rewrite length_map, length_take, length_drop. lia.
Qed.

Lemma copy_code_ok (azPos azLen : Z) :
  azLen <= 0 \/ azPos + azLen <= Z.of_nat (length c) ->
  copy_code c azPos azLen = JDefs.EXI_OK.
Proof.
  intros Hok. unfold copy_code.
  destruct (Z.leb_spec azLen 0); [reflexivity|].
  destruct (Z.leb_spec (azPos + azLen) (Z.of_nat (length c)));
    [reflexivity | lia].
Qed.

Lemma copy_code_red (azPos azLen : Z) :
  0 < azLen -> Z.of_nat (length c) < azPos + azLen ->
  copy_code c azPos azLen = JDefs.EXI_RED.
Proof.
  intros H1 H2. unfold copy_code.
  destruct (Z.leb_spec azLen 0); [lia|].
  destruct (Z.leb_spec (azPos + azLen) (Z.of_nat (length c)));
    [lia | reflexivity].
Qed.

(** [getbuf], as [copyfrom] sees it. *)
Lemma ahead_getbuf (s : t memfile) (azPos : Z) :
  Buffered c s -> mbSeq s = false -> 0 <= azPos ->
  exists lp n s1,
    JFileOut.getbuf s azPos = Some (lp, n, s1)
    /\ Buffered c s1 /\ mbSeq s1 = false /\ miRedSze s1 = miRedSze s
    /\ (azPos < Z.of_nat (length c) /\ 1 <= n
        /\ azPos + n <= Z.of_nat (length c)
        /\ lp = Some (segment c azPos n)
        \/ Z.of_nat (length c) <= azPos /\ lp = None).
Proof.
  intros HB Hs Hpos.
  destruct (getbuf_mem s azPos HB Hs Hpos)
    as (res & n & s1 & E & HB1 & Hs1 & Hres).
  pose proof (getbuf_red s s1 azPos Read res n E) as Hred.
  cbn [JFileOut.getbuf JFileOut.ahead_input]. rewrite E.
  destruct Hres as [(HL & lpDta & -> & Hn & Hfit & Hbytes)|(HL & ->)].
  - eexists _, _, _. split; [reflexivity|]. split; [exact HB1|].
    split; [exact Hs1|]. split; [exact Hred|]. left.
    split; [exact HL|]. split; [exact Hn|]. split; [exact Hfit|].
    unfold segment. now rewrite Hbytes.
  - eexists _, _, _. split; [reflexivity|]. split; [exact HB1|].
    split; [exact Hs1|]. split; [exact Hred|]. right. now split.
Qed.

Lemma copy_buffered_done (fuel : nat) (s : t memfile) (o : list Z)
  (lp : option (list Z)) (n azPos azLen : Z) :
  azLen <= 0 ->
  JFileOut.copy_buffered fuel s o lp n azPos azLen
  = Some (JDefs.EXI_OK, s, o).
Proof.
  intros Hlen. destruct fuel; cbn [JFileOut.copy_buffered];
    destruct (Z.gtb_spec azLen 0); try lia; reflexivity.
Qed.

(** The buffered copy of [copyfrom] from a reader on a file in memory. *)
Lemma copy_buffered_mem (fuel : nat) :
  forall (s : t memfile) (o : list Z) (lp : option (list Z))
         (n azPos azLen : Z),
    Buffered c s -> mbSeq s = false -> 0 <= azPos ->
    (azPos < Z.of_nat (length c) /\ 1 <= n
     /\ azPos + n <= Z.of_nat (length c) /\ lp = Some (segment c azPos n)
     \/ Z.of_nat (length c) <= azPos /\ lp = None) ->
    azLen <= Z.of_nat fuel ->
    exists s1,
      JFileOut.copy_buffered fuel s o lp n azPos azLen
      = Some (copy_code c azPos azLen, s1, o ++ segment c azPos azLen)
      /\ Buffered c s1 /\ mbSeq s1 = false /\ miRedSze s1 = miRedSze s.
Proof.
  induction fuel as [|fuel IH]; intros s o lp n azPos azLen HB Hs Hpos Hlp Hf.
  - rewrite copy_buffered_done by lia.
    rewrite copy_code_ok, segment_nil, app_nil_r by lia.
    now exists s.
  - destruct (Z_le_gt_dec azLen 0) as [Hdone|Hmore].
    { rewrite copy_buffered_done by lia.
      rewrite copy_code_ok, segment_nil, app_nil_r by lia.
      now exists s. }
    cbn [JFileOut.copy_buffered].
    destruct (Z.gtb_spec azLen 0) as [_|]; [|lia].
    destruct Hlp as [(HL & Hn & Hfit & ->)|(HL & ->)].
    2:{ rewrite copy_code_red, segment_nil, app_nil_r by lia.
        now exists s. }
    set (n1 := if n >? azLen then azLen else n).
    assert (Hn1 : 1 <= n1 <= n /\ n1 <= azLen
                  /\ (n1 < azLen -> n1 = n)).
    { subst n1. destruct (Z.gtb_spec n azLen); lia. }
    cbn [JFileOut.fwrite JFileOut.mem_stdio].
    rewrite segment_take by lia.
    rewrite length_segment by lia.
    rewrite Z.eqb_refl. cbn [negb].
    destruct (Z.gtb_spec (azLen - n1) 0) as [Hrest|Hrest].
    + destruct (ahead_getbuf s (azPos + n1) HB Hs ltac:(lia))
        as (lp' & n' & s1 & -> & HB1 & Hs1 & Hred & Hlp').
      destruct (IH s1 (o ++ segment c azPos n1) lp' n' (azPos + n1)
                  (azLen - n1) HB1 Hs1 ltac:(lia) Hlp' ltac:(lia))
        as (s2 & -> & HB2 & Hs2 & Hred2).
      exists s2. split; [|split; [exact HB2|split; [exact Hs2|congruence]]].
      rewrite <- app_assoc, <- segment_app by lia.
      f_equal. f_equal. f_equal. unfold copy_code.
      replace (azPos + n1 + (azLen - n1)) with (azPos + azLen) by lia.
      destruct (Z.leb_spec (azLen - n1) 0); [lia|].
      destruct (Z.leb_spec azLen 0); [lia|]. reflexivity.
    + rewrite copy_buffered_done by lia.
      assert (n1 = azLen) by lia. subst n1.
      match goal with H : _ = azLen |- _ => rewrite H end.
      rewrite copy_code_ok by lia.
      now exists s.
Qed.

(** A call of [get] that fails leaves the fast path empty. *)
Lemma get_failed_red (s s1 : t memfile) (azPos v : Z) (aiSft : eAhead) :
  get s azPos aiSft = Some (v, s1) -> v < 0 -> miRedSze s1 = 0.
Proof.
  unfold get, get_frombuffer.
  destruct ((azPos =? mzPosRed s) && (miRedSze s >? 0)).
  { intros [= <- _] Hv. unfold peek in Hv.
    pose proof (jchar_val_range
                  (default Byte.x00
                     (mpBuf s !! Z.to_nat (default 0 (mpRed s))))). lia. }
  destruct (getbuf s azPos aiSft) as [[[[lpDta|] lzLen] s2]|];
    [|intros [= _ <-] _; reflexivity|discriminate].
  intros [= <- _] Hv. unfold peek in Hv. cbn in Hv.
  pose proof (jchar_val_range
                (default Byte.x00 (mpBuf s2 !! Z.to_nat lpDta))). lia.
Qed.

(** [copyfrom] from a reader on a file in memory that can seek: it writes
    the bytes of the file that there are. *)
Lemma copyfrom_mem (s : t memfile) (o : list Z) (azPos azLen : Z) :
  Buffered c s -> mbSeq s = false -> miRedSze s = 0 -> 0 <= azPos ->
  exists s1,
    JFileOut.copyfrom o s azPos azLen
    = Some (copy_code c azPos azLen, s1, o ++ segment c azPos azLen)
    /\ Buffered c s1 /\ mbSeq s1 = false /\ miRedSze s1 = 0.
Proof.
  intros HB Hs Hred Hpos. unfold JFileOut.copyfrom.
  destruct (ahead_getbuf s azPos HB Hs Hpos)
    as (lp & n & s1 & -> & HB1 & Hs1 & Hred1 & Hlp).
  destruct Hlp as [(HL & Hn & Hfit & ->)|(HL & ->)].
  - destruct (copy_buffered_mem (Z.to_nat azLen) s1 o
                (Some (segment c azPos n)) n azPos azLen HB1 Hs1 Hpos
                ltac:(left; auto) ltac:(lia))
      as (s2 & -> & HB2 & Hs2 & Hred2).
    exists s2. split; [reflexivity|]. split; [exact HB2|].
    split; [exact Hs2 | congruence].
  - rewrite segment_nil, app_nil_r by lia.
    destruct (Z_le_gt_dec azLen 0) as [Hdone|Hmore].
    + rewrite copy_code_ok by lia.
      exists s1. split; [|split; [exact HB1|split; [exact Hs1|congruence]]].
      destruct (Z.to_nat azLen); cbn [JFileOut.copy_chars];
        destruct (Z.gtb_spec azLen 0); try lia; reflexivity.
    + rewrite copy_code_red by lia.
      destruct (Z.to_nat azLen) as [|fuel] eqn:Ef; [lia|].
      cbn [JFileOut.copy_chars JFileOut.get JFileOut.ahead_input].
      destruct (Z.gtb_spec azLen 0); [|lia].
      assert (HR1 : Reads c s1).
      { split; [exact HB1|]. unfold Fast. lia. }
      destruct (get_mem c s1 azPos Read HR1 Hpos)
        as (v & s2 & Eg & [HB2 _] & Fs & Hv).
      rewrite Eg.
      destruct Hv as [[-> _]|[(_ & Hm & _)|(_ & _ & Hq & _)]];
        [|contradiction|congruence].
      rewrite byte_at_eof by lia.
      change (JDefs.EOF <=? JDefs.EOF) with true. cbv iota.
      exists s2. split; [reflexivity|]. split; [exact HB2|].
      split; [congruence|].
      apply (get_failed_red s1 s2 azPos _ Read Eg).
      rewrite byte_at_eof by lia. unfold JDefs.EOF. lia.
Qed.

End CopyFacts.


Section CopyTheorems.

Import JFileAhead.

Variable MAX_OFF_T : Z.
Variable c : list Byte.byte.

Lemma copies_mem (calls : list (Z * Z)) :
  forall (fo : list Z) (fi : t memfile),
    Buffered c fi -> mbSeq fi = false -> miRedSze fi = 0 ->
    (forall call, call ∈ calls -> 0 <= fst call) ->
    exists fi1,
      copies fo fi calls
      = Some (fo ++ concat (map (fun call => segment c (fst call) (snd call))
                              calls), fi1)
      /\ Buffered c fi1 /\ mbSeq fi1 = false /\ miRedSze fi1 = 0.
Proof.
  induction calls as [|[p n] calls IH]; intros fo fi HB Hs Hred Hall.
  - exists fi. cbn. rewrite app_nil_r. auto.
  - cbn [copies map concat fst snd].
    destruct (copyfrom_mem c fi fo p n HB Hs Hred
                (Hall (p, n) (list_elem_of_here _ _)))
      as (fi1 & -> & HB1 & Hs1 & Hred1).
    destruct (IH (fo ++ segment c p n) fi1 HB1 Hs1 Hred1) as (fi2 & -> & H2).
    + intros call Hc. apply Hall. now apply list_elem_of_further.
    + exists fi2. split; [|exact H2]. now rewrite <- app_assoc.
Qed.

(** X15.  [copyfrom] copies the bytes of the file: from a reader on a file
    that can seek, and after any earlier copies, a copy of [azLen] bytes
    from [azPos] on appends these bytes of the file to the output and
    returns [EXI_OK]; when the file ends before, it appends the bytes that
    there are and returns [EXI_RED].  Buffering does not show: this holds
    whatever sizes were asked for the buffer and the blocks. *)
Theorem copyfrom_content (alBufSze aiBlkSze : Z) (buf : list Byte.byte)
  (calls : list (Z * Z)) (azPos azLen : Z) :
  0 <= alBufSze -> 0 <= aiBlkSze ->
  Z.of_nat (length buf) = fst (Construct.buffer_sizes alBufSze aiBlkSze) ->
  Z.of_nat (length c) <= MAX_OFF_T ->
  (forall call, call ∈ calls -> 0 <= fst call) -> 0 <= azPos ->
  exists fo fi fi1,
    copies [] (MemReader.new_memfile MAX_OFF_T c alBufSze aiBlkSze false buf)
      calls = Some (fo, fi)
    /\ fo = concat (map (fun call => segment c (fst call) (snd call)) calls)
    /\ JFileOut.copyfrom fo fi azPos azLen
       = Some (if (azLen <=? 0) || (azPos + azLen <=? Z.of_nat (length c))
               then JDefs.EXI_OK else JDefs.EXI_RED,
               fi1,
               fo ++ map jchar_val
                       (take (Z.to_nat azLen) (drop (Z.to_nat azPos) c))).
Proof.
  intros Hb Hk Hlen HL Hcalls Hpos.
  destruct (new_memfile_reads MAX_OFF_T c alBufSze aiBlkSze false buf
              Hb Hk Hlen HL) as ([HB _] & Hseq & _).
  assert (Hred : miRedSze (MemReader.new_memfile MAX_OFF_T c alBufSze
                             aiBlkSze false buf) = 0).
  { unfold MemReader.new_memfile, Construct.new_JFileAhead,
      MemReader.chkSeq.
    destruct (Construct.buffer_sizes alBufSze aiBlkSze) as [W B].
    cbn. destruct (_ <? 0); reflexivity. }
  destruct (copies_mem calls [] _ HB Hseq Hred Hcalls)
    as (fi & E & HB1 & Hs1 & Hred1).
  cbn [app] in E.
  destruct (copyfrom_mem c fi
              (concat (map (fun call => segment c (fst call) (snd call))
                         calls)) azPos azLen HB1 Hs1 Hred1 Hpos)
    as (fi1 & E1 & _).
  eexists _, fi, fi1. split; [exact E|]. split; [reflexivity|].
  exact E1.
Qed.

End CopyTheorems.

Lemma copyfrom_content_witness :
  let c := [Byte.x61; Byte.x62; Byte.x63; Byte.x64; Byte.x65; Byte.x66;
            Byte.x67; Byte.x68; Byte.x69; Byte.x6a] in
  exists fo fi fi1,
    copies [] (MemReader.new_memfile 1000 c 4 2 false (repeat Byte.x00 4))
      [(6, 3); (0, 2)] = Some (fo, fi)
    /\ fo = concat (map (fun call => segment c (fst call) (snd call))
                      [(6, 3); (0, 2)])
    /\ JFileOut.copyfrom fo fi 3 9
       = Some (if (9 <=? 0) || (3 + 9 <=? Z.of_nat (length c))
               then JDefs.EXI_OK else JDefs.EXI_RED,
               fi1,
               fo ++ map JFileAhead.jchar_val
                       (take (Z.to_nat 9) (drop (Z.to_nat 3) c))).
Proof.
  intros c.
  apply (copyfrom_content 1000 c 4 2 (repeat Byte.x00 4) [(6, 3); (0, 2)]
           3 9).
  - lia.
  - lia.
  - reflexivity.
  - cbn. lia.
  - intros call Hc.
    repeat (apply elem_of_cons in Hc; destruct Hc as [->|Hc]; [cbn; lia|]).
    now apply elem_of_nil in Hc.
  - lia.
Defined.

(** ** The patch applier *)

Section PatchLoops.

Import JDefs.

Context {F Out : Type} `{JFileOut.input F} `{JFileOut.stdio Out}.

Variable off_t_bits : Z.
Variable JDIFF_LARGEFILE : bool.

Lemma get_shorter (pch : list Z) :
  (length (snd (JPatcht.get pch)) <= length pch)%nat.
Proof. destruct pch; cbn; lia. Qed.

Lemma get_consumes (pch : list Z) :
  fst (JPatcht.get pch) <> EOF ->
  (S (length (snd (JPatcht.get pch))) = length pch)%nat.
Proof. destruct pch; cbn; [intros Hx; now contradiction Hx | lia]. Qed.

Lemma shift_in_shorter (v : Z) (pch : list Z) :
  (length (snd (JPatcht.shift_in off_t_bits v pch)) <= length pch)%nat.
Proof.
  unfold JPatcht.shift_in. pose proof (get_shorter pch).
  destruct (JPatcht.get pch). exact H1.
Qed.

Lemma ufGetInt_shorter (pch : list Z) :
  (length (snd (JPatcht.ufGetInt off_t_bits JDIFF_LARGEFILE pch))
   <= length pch)%nat.
Proof.
  unfold JPatcht.ufGetInt.
  repeat match goal with
         | |- context [JPatcht.get ?p] =>
             pose proof (get_shorter p);
             destruct (JPatcht.get p) as [? ?]; cbn [fst snd] in *
         | |- context [JPatcht.shift_in ?b ?v ?p] =>
             pose proof (shift_in_shorter v p);
             destruct (JPatcht.shift_in b v p) as [? ?]; cbn [fst snd] in *
         | |- context [if ?b then _ else _] => destruct b
         end; cbn [fst snd]; lia.
Qed.

Lemma is_opr_not_eof (x : Z) : Patch.is_opr x = true -> x <> EOF /\ x <> 0.
Proof.
  unfold Patch.is_opr, DEL, EQL, BKT, MOD, INS, EOF. lia.
Qed.

(** The read loop of [ufGetDta] ends: it stops at the end of the patch
    file or behind an operator other than its own. *)
Lemma ufGetDta_loop_returns (fuel : nat) :
  forall (pch : list Z) (fo : Out) (liOpr lzMod : Z),
    (length pch < fuel)%nat ->
    exists ret lzMod1 rest fo1,
      Patch.ufGetDta_loop fuel pch fo liOpr lzMod
      = Some (ret, lzMod1, rest, fo1)
      /\ (ret = EOF /\ (length rest <= length pch)%nat
          \/ Patch.is_opr ret = true /\ ret <> liOpr
             /\ (length rest + 2 <= length pch)%nat).
Proof.
  induction fuel as [|fuel IH]; intros pch fo liOpr lzMod Hf; [lia|].
  cbn [Patch.ufGetDta_loop].
  pose proof (get_shorter pch) as H1.
  pose proof (get_consumes pch) as H1'.
  destruct (JPatcht.get pch) as [liInp pch1]. cbn [fst snd] in *.
  destruct (Z.eqb_spec liInp EOF) as [->|Hne].
  { eexists _, _, _, _. split; [reflexivity|]. left. split; [reflexivity|].
    exact H1. }
  specialize (H1' Hne).
  destruct (liInp =? ESC).
  - pose proof (get_shorter pch1) as H2.
    pose proof (get_consumes pch1) as H2'.
    destruct (JPatcht.get pch1) as [liNew pch2]. cbn [fst snd] in *.
    destruct (Patch.is_opr liNew) eqn:Eo.
    + destruct (is_opr_not_eof liNew Eo) as [Hn _]. specialize (H2' Hn).
      destruct (Z.eqb_spec liNew liOpr) as [->|Hd].
      * destruct (Patch.ufPutDta fo ESC) as [d fo1].
        destruct (Patch.ufPutDta fo1 liOpr) as [d2 fo2].
        destruct (IH pch2 fo2 liOpr (lzMod + d + d2) ltac:(lia))
          as (ret & m & rest & fo3 & -> & Hr).
        eexists _, _, _, _. split; [reflexivity|].
        destruct Hr as [[-> Hl]|(Ho & Hx & Hl)]; [left | right];
          repeat split; try assumption; lia.
      * eexists _, _, _, _. split; [reflexivity|]. right.
        split; [exact Eo|]. split; [exact Hd | lia].
    + destruct (liNew =? ESC).
      * destruct (Patch.ufPutDta fo liInp) as [d fo1].
        destruct (IH pch2 fo1 liOpr (lzMod + d) ltac:(lia))
          as (ret & m & rest & fo3 & -> & Hr).
        eexists _, _, _, _. split; [reflexivity|].
        destruct Hr as [[-> Hl]|(Ho & Hx & Hl)]; [left | right];
          repeat split; try assumption; lia.
      * destruct (Patch.ufPutDta fo liInp) as [d fo1].
        destruct (Patch.ufPutDta fo1 liNew) as [d2 fo2].
        destruct (IH pch2 fo2 liOpr (lzMod + d + d2) ltac:(lia))
          as (ret & m & rest & fo3 & -> & Hr).
        eexists _, _, _, _. split; [reflexivity|].
        destruct Hr as [[-> Hl]|(Ho & Hx & Hl)]; [left | right];
          repeat split; try assumption; lia.
  - destruct (Patch.ufPutDta fo liInp) as [d fo1].
    destruct (IH pch1 fo1 liOpr (lzMod + d) ltac:(lia))
      as (ret & m & rest & fo3 & -> & Hr).
    eexists _, _, _, _. split; [reflexivity|].
    destruct Hr as [[-> Hl]|(Ho & Hx & Hl)]; [left | right];
      repeat split; try assumption; lia.
Qed.

Lemma ufGetDta_returns (pch : list Z) (fo : Out) (liOpr liPnd liDbl : Z) :
  exists ret lzMod1 rest fo1,
    Patch.ufGetDta pch fo liOpr liPnd liDbl = Some (ret, lzMod1, rest, fo1)
    /\ (ret = EOF /\ (length rest <= length pch)%nat
        \/ Patch.is_opr ret = true /\ ret <> liOpr
           /\ (length rest + 2 <= length pch)%nat).
Proof.
  unfold Patch.ufGetDta. cbv zeta.
  destruct (if negb (liPnd =? EOF) then _ else _) as [m fo1].
  apply ufGetDta_loop_returns. lia.
Qed.

Hypothesis copyfrom_returns :
  forall (fo : Out) (fi : F) (azPos azLen : Z),
    exists r, JFileOut.copyfrom fo fi azPos azLen = Some r.

Lemma is_opr_cases (x : Z) :
  Patch.is_opr x = true ->
  x = MOD \/ x = INS \/ x = DEL \/ x = EQL \/ x = BKT.
Proof. unfold Patch.is_opr. lia. Qed.

Lemma jpatch_loop_eof (fuel : nat) (pch : list Z) (fi : F) (fo : Out)
  (lzPosOrg lzPosOut : Z) :
  Patch.jpatch_loop off_t_bits JDIFF_LARGEFILE fuel EOF pch fi fo
    lzPosOrg lzPosOut
  = Some (Patch.Result EXI_OK lzPosOrg lzPosOut fi fo).
Proof. destruct fuel; reflexivity. Qed.

(** The loop of [jpatch] ends. *)
Lemma jpatch_loop_returns (fuel : nat) :
  forall (liOpr : Z) (pch : list Z) (fi : F) (fo : Out)
         (lzPosOrg lzPosOut : Z),
    liOpr = 0 \/ liOpr = EOF \/ Patch.is_opr liOpr = true ->
    (2 * length pch + (if (liOpr =? 0)%Z then 1 else 2) <= fuel)%nat ->
    exists r,
      Patch.jpatch_loop off_t_bits JDIFF_LARGEFILE fuel liOpr pch fi fo
        lzPosOrg lzPosOut = Some r.
Proof.
  induction fuel as [|fuel IH];
    intros liOpr pch fi fo lzPosOrg lzPosOut Hopr Hf.
  { destruct (liOpr =? 0); lia. }
  cbn [Patch.jpatch_loop].
  destruct (Z.eqb_spec liOpr EOF) as [->|Hne]; cbn [negb]; [eauto|].
  (* the operator that is executed, and the patch file behind it *)
  assert (Hrun : forall (opr liInp liDbl : Z) (pch1 : list Z),
             Patch.is_opr opr = true ->
             (2 * length pch1 + 2 <= S fuel)%nat ->
             exists r,
               (if opr =? MOD then
                  match Patch.ufGetDta pch1 fo opr liInp liDbl with
                  | None => None
                  | Some (liOpr, lzOff, pch, fo) =>
                      Patch.jpatch_loop off_t_bits JDIFF_LARGEFILE fuel
                        liOpr pch fi fo (lzPosOrg + lzOff)
                        (lzPosOut + lzOff)
                  end
                else if opr =? INS then
                  match Patch.ufGetDta pch1 fo opr liInp liDbl with
                  | None => None
                  | Some (liOpr, lzOff, pch, fo) =>
                      Patch.jpatch_loop off_t_bits JDIFF_LARGEFILE fuel
                        liOpr pch fi fo lzPosOrg (lzPosOut + lzOff)
                  end
                else if opr =? DEL then
                  let '(lzOff, pch) :=
                    JPatcht.ufGetInt off_t_bits JDIFF_LARGEFILE pch1 in
                  if lzOff <? 0 then
                    Some (Patch.Result lzOff lzPosOrg lzPosOut fi fo)
                  else
                    Patch.jpatch_loop off_t_bits JDIFF_LARGEFILE fuel 0 pch
                      fi fo (lzPosOrg + lzOff) lzPosOut
                else if opr =? EQL then
                  let '(lzOff, pch) :=
                    JPatcht.ufGetInt off_t_bits JDIFF_LARGEFILE pch1 in
                  if lzOff <? 0 then
                    Some (Patch.Result lzOff lzPosOrg lzPosOut fi fo)
                  else
                    match JFileOut.copyfrom fo fi lzPosOrg lzOff with
                    | None => None
                    | Some (liRet, fi, fo) =>
                        if negb (liRet =? EXI_OK) then
                          Some (Patch.Result liRet lzPosOrg lzPosOut fi fo)
                        else
                          Patch.jpatch_loop off_t_bits JDIFF_LARGEFILE fuel
                            0 pch fi fo (lzPosOrg + lzOff)
                            (lzPosOut + lzOff)
                    end
                else if opr =? BKT then
                  let '(lzOff, pch) :=
                    JPatcht.ufGetInt off_t_bits JDIFF_LARGEFILE pch1 in
                  if lzOff <? 0 then
                    Some (Patch.Result lzOff lzPosOrg lzPosOut fi fo)
                  else
                    Patch.jpatch_loop off_t_bits JDIFF_LARGEFILE fuel 0 pch
                      fi fo (lzPosOrg - lzOff) lzPosOut
                else
                  Patch.jpatch_loop off_t_bits JDIFF_LARGEFILE fuel opr
                    pch1 fi fo lzPosOrg lzPosOut) = Some r).
  { intros opr liInp liDbl pch1 Ho Hl.
    assert (Hdta : forall k : Z -> Z * Z,
               exists r,
                 match Patch.ufGetDta pch1 fo opr liInp liDbl with
                 | None => None
                 | Some (liOpr, lzOff, pch, fo) =>
                     Patch.jpatch_loop off_t_bits JDIFF_LARGEFILE fuel
                       liOpr pch fi fo (fst (k lzOff)) (snd (k lzOff))
                 end = Some r).
    { intros k.
      destruct (ufGetDta_returns pch1 fo opr liInp liDbl)
        as (ret & m & rest & fo1 & -> & Hr).
      destruct Hr as [[-> Hl1]|(Ho1 & Hx & Hl1)].
      - rewrite jpatch_loop_eof. eauto.
      - apply IH; [auto|]. destruct (ret =? 0); lia. }
    assert (Hint : forall k : Z -> Z * Z,
               exists r,
                 (let '(lzOff, pch) :=
                    JPatcht.ufGetInt off_t_bits JDIFF_LARGEFILE pch1 in
                  if lzOff <? 0 then
                    Some (Patch.Result lzOff lzPosOrg lzPosOut fi fo)
                  else
                    Patch.jpatch_loop off_t_bits JDIFF_LARGEFILE fuel 0 pch
                      fi fo (fst (k lzOff)) (snd (k lzOff))) = Some r).
    { intros k. pose proof (ufGetInt_shorter pch1) as Hs.
      destruct (JPatcht.ufGetInt off_t_bits JDIFF_LARGEFILE pch1)
        as [lzOff pch2]. cbn [snd] in Hs.
      destruct (lzOff <? 0); [eauto|].
      apply IH; [auto|]. change (0 =? 0) with true. cbv iota. lia. }
    destruct (is_opr_cases opr Ho) as [E|[E|[E|[E|E]]]]; subst opr.
    - change (MOD =? MOD) with true. cbv iota.
      exact (Hdta (fun o => (lzPosOrg + o, lzPosOut + o))).
    - change (INS =? MOD) with false. change (INS =? INS) with true.
      cbv iota. exact (Hdta (fun o => (lzPosOrg, lzPosOut + o))).
    - change (DEL =? MOD) with false. change (DEL =? INS) with false.
      change (DEL =? DEL) with true. cbv iota.
      exact (Hint (fun o => (lzPosOrg + o, lzPosOut))).
    - change (EQL =? MOD) with false. change (EQL =? INS) with false.
      change (EQL =? DEL) with false. change (EQL =? EQL) with true.
      cbv iota. pose proof (ufGetInt_shorter pch1) as Hs.
      destruct (JPatcht.ufGetInt off_t_bits JDIFF_LARGEFILE pch1)
        as [lzOff pch2]. cbn [snd] in Hs.
      destruct (lzOff <? 0); [eauto|].
      destruct (copyfrom_returns fo fi lzPosOrg lzOff) as ([[k fi1] fo1] & ->).
      destruct (negb (k =? EXI_OK)); [eauto|].
      apply IH; [auto|]. change (0 =? 0) with true. cbv iota. lia.
    - change (BKT =? MOD) with false. change (BKT =? INS) with false.
      change (BKT =? DEL) with false. change (BKT =? EQL) with false.
      change (BKT =? BKT) with true. cbv iota.
      exact (Hint (fun o => (lzPosOrg - o, lzPosOut))). }
  destruct (Z.eqb_spec liOpr 0) as [->|Hnz].
  - pose proof (get_shorter pch) as H1.
    pose proof (get_consumes pch) as H1'.
    destruct (JPatcht.get pch) as [liInp pch1]. cbn [fst snd] in *.
    destruct (Z.eqb_spec liInp EOF) as [->|Hi]; [eauto|].
    specialize (H1' Hi).
    destruct (liInp =? ESC).
    + pose proof (get_shorter pch1) as H2.
      destruct (JPatcht.get pch1) as [liDbl pch2]. cbn [fst snd] in *.
      destruct (Patch.is_opr liDbl) eqn:Eo.
      * apply Hrun; [exact Eo | lia].
      * destruct (liDbl =? EOF); [eauto|].
        apply Hrun; [reflexivity | lia].
    + apply Hrun; [reflexivity | lia].
  - destruct Hopr as [Hx|[Hx|Ho]]; [contradiction|contradiction|].
    apply Hrun; [exact Ho | lia].
Qed.

End PatchLoops.

(** *** The patch applier writing to memory *)

Section PatchMem.

Import JDefs.

Context {F : Type} `{JFileOut.input F}.

Variable off_t_bits : Z.
Variable JDIFF_LARGEFILE : bool.

Lemma ufPutDta_mem (fo : list Z) (aiDta : Z) :
  Patch.ufPutDta fo aiDta = (1, fo ++ [aiDta mod 256]).
Proof. reflexivity. Qed.

Lemma app_one (fo w : list Z) (a : Z) : (fo ++ [a]) ++ w = fo ++ a :: w.
Proof. now rewrite <- app_assoc. Qed.

(** [ufGetDta] appends to the output, and counts what it appends. *)
Lemma ufGetDta_loop_appends (fuel : nat) :
  forall (pch fo : list Z) (liOpr lzMod ret lzMod1 : Z) (rest fo1 : list Z),
    Patch.ufGetDta_loop fuel pch fo liOpr lzMod
    = Some (ret, lzMod1, rest, fo1) ->
    exists w, fo1 = fo ++ w /\ Z.of_nat (length w) = lzMod1 - lzMod.
Proof.
  induction fuel as [|fuel IH];
    intros pch fo liOpr lzMod ret lzMod1 rest fo1 E; [discriminate|].
  cbn [Patch.ufGetDta_loop] in E.
  destruct (JPatcht.get pch) as [liInp pch1].
  destruct (liInp =? EOF).
  { injection E as <- <- <- <-. exists []. rewrite app_nil_r.
    split; [reflexivity | cbn; lia]. }
  rewrite !ufPutDta_mem in E.
  destruct (liInp =? ESC).
  - destruct (JPatcht.get pch1) as [liNew pch2].
    rewrite !ufPutDta_mem in E.
    destruct (Patch.is_opr liNew).
    + destruct (liNew =? liOpr).
      * apply IH in E as (w & -> & Hw). rewrite !app_one.
        eexists. split; [reflexivity|]. cbn [length]. lia.
      * injection E as <- <- <- <-. exists []. rewrite app_nil_r.
        split; [reflexivity | cbn; lia].
    + destruct (liNew =? ESC).
      * apply IH in E as (w & -> & Hw). rewrite !app_one.
        eexists. split; [reflexivity|]. cbn [length]. lia.
      * apply IH in E as (w & -> & Hw). rewrite !app_one.
        eexists. split; [reflexivity|]. cbn [length]. lia.
  - apply IH in E as (w & -> & Hw). rewrite !app_one.
    eexists. split; [reflexivity|]. cbn [length]. lia.
Qed.

Lemma ufGetDta_appends (pch fo : list Z) (liOpr liPnd liDbl ret lzMod1 : Z)
  (rest fo1 : list Z) :
  Patch.ufGetDta pch fo liOpr liPnd liDbl = Some (ret, lzMod1, rest, fo1) ->
  exists w, fo1 = fo ++ w /\ Z.of_nat (length w) = lzMod1.
Proof.
  unfold Patch.ufGetDta. cbv zeta. rewrite !ufPutDta_mem.
  destruct (negb (liPnd =? EOF)).
  - destruct ((liPnd =? ESC) && negb (liDbl =? ESC)); intros E;
      apply ufGetDta_loop_appends in E as (w & -> & Hw); rewrite !app_one;
      (eexists; split; [reflexivity|]); cbn [length]; lia.
  - intros E. apply ufGetDta_loop_appends in E as (w & -> & Hw).
    exists w. split; [reflexivity | lia].
Qed.

(** [copyfrom] appends to the output; when it returns [EXI_OK] it has
    appended [azLen] bytes. *)
Lemma copy_buffered_appends (fuel : nat) :
  forall (fi : F) (fo : list Z) (lpBuf : option (list Z))
         (lzLen azPos azLen ret : Z) (fi1 : F) (fo1 : list Z),
    JFileOut.copy_buffered fuel fi fo lpBuf lzLen azPos azLen
    = Some (ret, fi1, fo1) ->
    exists w, fo1 = fo ++ w
              /\ (ret = EXI_OK -> Z.of_nat (length w) = Z.max 0 azLen).
Proof.
  induction fuel as [|fuel IH];
    intros fi fo lpBuf lzLen azPos azLen ret fi1 fo1 E.
  - cbn [JFileOut.copy_buffered] in E.
    destruct (Z.gtb_spec azLen 0) as [Hp|Hp]; [discriminate|].
    injection E as <- <- <-. exists []. rewrite app_nil_r.
    split; [reflexivity | cbn; lia].
  - cbn [JFileOut.copy_buffered] in E.
    destruct (Z.gtb_spec azLen 0) as [Hp|Hp].
    2:{ injection E as <- <- <-. exists []. rewrite app_nil_r.
        split; [reflexivity | cbn; lia]. }
    destruct lpBuf as [bytes|].
    2:{ injection E as <- <- <-. exists []. rewrite app_nil_r.
        split; [reflexivity | discriminate]. }
    cbn [JFileOut.fwrite JFileOut.mem_stdio] in E.
    set (n := if lzLen >? azLen then azLen else lzLen) in E.
    assert (Hn : n <= azLen).
    { subst n. destruct (Z.gtb_spec lzLen azLen); lia. }
    set (bs := take (Z.to_nat n) bytes) in E.
    destruct (Z.eqb_spec (Z.of_nat (length bs)) n) as [Hl|Hl];
      cbn [negb] in E.
    2:{ injection E as <- <- <-. exists bs.
        split; [reflexivity | discriminate]. }
    destruct (Z.gtb_spec (azLen - n) 0) as [Hm|Hm].
    + destruct (JFileOut.getbuf fi (azPos + n)) as [[[b2 l2] fi2]|];
        [|discriminate].
      apply IH in E as (w & -> & Hw). exists (bs ++ w).
      rewrite app_assoc. split; [reflexivity|]. intros Hr.
      rewrite length_app. specialize (Hw Hr). lia.
    + apply IH in E as (w & -> & Hw). exists (bs ++ w).
      rewrite app_assoc. split; [reflexivity|]. intros Hr.
      rewrite length_app. specialize (Hw Hr). lia.
Qed.

Lemma copy_chars_appends (fuel : nat) :
  forall (fi : F) (fo : list Z) (azPos azLen ret : Z) (fi1 : F)
         (fo1 : list Z),
    JFileOut.copy_chars fuel fi fo azPos azLen = Some (ret, fi1, fo1) ->
    exists w, fo1 = fo ++ w
              /\ (ret = EXI_OK -> Z.of_nat (length w) = Z.max 0 azLen).
Proof.
  induction fuel as [|fuel IH]; intros fi fo azPos azLen ret fi1 fo1 E.
  - cbn [JFileOut.copy_chars] in E.
    destruct (Z.gtb_spec azLen 0) as [Hp|Hp]; [discriminate|].
    injection E as <- <- <-. exists []. rewrite app_nil_r.
    split; [reflexivity | cbn; lia].
  - cbn [JFileOut.copy_chars] in E.
    destruct (Z.gtb_spec azLen 0) as [Hp|Hp].
    2:{ injection E as <- <- <-. exists []. rewrite app_nil_r.
        split; [reflexivity | cbn; lia]. }
    destruct (JFileOut.get fi azPos) as [[lcVal fi2]|]; [|discriminate].
    destruct (lcVal <=? EOF).
    { injection E as <- <- <-. exists []. rewrite app_nil_r.
      split; [reflexivity | discriminate]. }
    cbn [JFileOut.putc JFileOut.fputc JFileOut.mem_stdio] in E.
    destruct (lcVal mod 256 <? 0).
    { injection E as <- <- <-. eexists.
      split; [reflexivity | discriminate]. }
    destruct (JFileOut.get_next fi2) as [[x fi3]|]; [|discriminate].
    apply IH in E as (w & -> & Hw). rewrite app_one.
    eexists. split; [reflexivity|]. intros Hr. specialize (Hw Hr).
    cbn [length]. lia.
Qed.

Lemma copyfrom_appends (fo : list Z) (fi : F) (azPos azLen ret : Z)
  (fi1 : F) (fo1 : list Z) :
  JFileOut.copyfrom fo fi azPos azLen = Some (ret, fi1, fo1) ->
  exists w, fo1 = fo ++ w
            /\ (ret = EXI_OK -> Z.of_nat (length w) = Z.max 0 azLen).
Proof.
  unfold JFileOut.copyfrom.
  destruct (JFileOut.getbuf fi azPos) as [[[[bytes|] l] fi2]|];
    [apply copy_buffered_appends | apply copy_chars_appends | discriminate].
Qed.

(** The loop of [jpatch] appends to the output; when it returns [EXI_OK],
    [lzPosOut] has advanced by the number of bytes appended. *)
Lemma jpatch_loop_appends (fuel : nat) :
  forall (liOpr : Z) (pch : list Z) (fi : F) (fo : list Z)
         (lzPosOrg lzPosOut : Z) (r : Patch.result),
    Patch.jpatch_loop off_t_bits JDIFF_LARGEFILE fuel liOpr pch fi fo
      lzPosOrg lzPosOut = Some r ->
    exists w,
      Patch.r_out r = fo ++ w
      /\ (Patch.r_code r = EXI_OK ->
          Z.of_nat (length w) = Patch.r_PosOut r - lzPosOut).
Proof.
  assert (Hstop : forall (k po pu : Z) (fi : F) (fo w : list Z)
                         (r : Patch.result) (pu0 : Z),
             Some (Patch.Result k po pu fi (fo ++ w)) = Some r ->
             (k = EXI_OK -> Z.of_nat (length w) = pu - pu0) ->
             exists w0,
               Patch.r_out r = fo ++ w0
               /\ (Patch.r_code r = EXI_OK ->
                   Z.of_nat (length w0) = Patch.r_PosOut r - pu0)).
  { intros k po pu fi fo w r pu0 E Hk. injection E as <-. now exists w. }
  assert (Hnil : forall (k po pu : Z) (fi : F) (fo : list Z)
                        (r : Patch.result),
             Some (Patch.Result k po pu fi fo) = Some r ->
             exists w0,
               Patch.r_out r = fo ++ w0
               /\ (Patch.r_code r = EXI_OK ->
                   Z.of_nat (length w0) = Patch.r_PosOut r - pu)).
  { intros k po pu fi fo r E. apply (Hstop k po pu fi fo [] r pu).
    - now rewrite app_nil_r.
    - intros _. cbn. lia. }
  induction fuel as [|fuel IH];
    intros liOpr pch fi fo lzPosOrg lzPosOut r E;
    cbn [Patch.jpatch_loop] in E;
    (destruct (negb (liOpr =? EOF)); [|now apply Hnil in E]);
    [discriminate|].
  set (rd := if liOpr =? 0 then _ else _) in E. clearbody rd.
  destruct rd as [[liRet|]|[[[opr liInp] liDbl] pch1]];
    [now apply Hnil in E | now apply Hnil in E |].
  assert (Hdta : forall po pu' : Z -> Z,
             match Patch.ufGetDta pch1 fo opr liInp liDbl with
             | None => None
             | Some (liOpr, lzOff, pch, fo) =>
                 Patch.jpatch_loop off_t_bits JDIFF_LARGEFILE fuel liOpr
                   pch fi fo (po lzOff) (lzPosOut + lzOff)
             end = Some r ->
             exists w,
               Patch.r_out r = fo ++ w
               /\ (Patch.r_code r = EXI_OK ->
                   Z.of_nat (length w) = Patch.r_PosOut r - lzPosOut)).
  { intros po pu' E1.
    destruct (Patch.ufGetDta pch1 fo opr liInp liDbl)
      as [[[[ret lzOff] rest] fo1]|] eqn:Ed; [|discriminate].
    apply ufGetDta_appends in Ed as (w & -> & Hw).
    apply IH in E1 as (w2 & -> & Hw2). exists (w ++ w2).
    rewrite app_assoc. split; [reflexivity|]. intros Hr.
    rewrite length_app. specialize (Hw2 Hr). lia. }
  assert (Hint : forall po : Z -> Z,
             (let '(lzOff, pch) :=
                JPatcht.ufGetInt off_t_bits JDIFF_LARGEFILE pch1 in
              if lzOff <? 0 then
                Some (Patch.Result lzOff lzPosOrg lzPosOut fi fo)
              else
                Patch.jpatch_loop off_t_bits JDIFF_LARGEFILE fuel 0 pch
                  fi fo (po lzOff) lzPosOut) = Some r ->
             exists w,
               Patch.r_out r = fo ++ w
               /\ (Patch.r_code r = EXI_OK ->
                   Z.of_nat (length w) = Patch.r_PosOut r - lzPosOut)).
  { intros po E1.
    destruct (JPatcht.ufGetInt off_t_bits JDIFF_LARGEFILE pch1)
      as [lzOff pch2].
    destruct (lzOff <? 0); [now apply Hnil in E1 | now apply IH in E1]. }
  destruct (opr =? MOD);
    [exact (Hdta (fun o => lzPosOrg + o) (fun o => o) E)|].
  destruct (opr =? INS);
    [exact (Hdta (fun _ => lzPosOrg) (fun o => o) E)|].
  destruct (opr =? DEL); [exact (Hint (fun o => lzPosOrg + o) E)|].
  destruct (opr =? EQL).
  - destruct (JPatcht.ufGetInt off_t_bits JDIFF_LARGEFILE pch1)
      as [lzOff pch2].
    destruct (Z.ltb_spec lzOff 0) as [Hneg|Hpos]; [now apply Hnil in E|].
    destruct (JFileOut.copyfrom fo fi lzPosOrg lzOff)
      as [[[liRet fi1] fo1]|] eqn:Ec; [|discriminate].
    apply copyfrom_appends in Ec as (w & -> & Hw).
    destruct (Z.eqb_spec liRet EXI_OK) as [Hok|Hno]; cbn [negb] in E.
    + apply IH in E as (w2 & -> & Hw2). exists (w ++ w2).
      rewrite app_assoc. split; [reflexivity|]. intros Hr.
      rewrite length_app. specialize (Hw Hok). specialize (Hw2 Hr). lia.
    + apply Hstop with (pu0 := lzPosOut) in E; [exact E|].
      intros Hx. now contradiction Hno.
  - destruct (opr =? BKT); [exact (Hint (fun o => lzPosOrg - o) E)|].
    now apply IH in E.
Qed.

Lemma escaped_cons (b : Z) (data : list Z) :
  escaped (b :: data)
  = (if b =? ESC then [ESC; ESC] else [b]) ++ escaped data.
Proof. reflexivity. Qed.

(** [ufGetDta] on escaped data writes the data. *)
Lemma ufGetDta_loop_escaped (fuel : nat) :
  forall (data fo : list Z) (liOpr lzMod : Z),
    Forall (fun b => 0 <= b < 256) data ->
    (length (escaped data) < fuel)%nat ->
    Patch.ufGetDta_loop fuel (escaped data) fo liOpr lzMod
    = Some (EOF, lzMod + Z.of_nat (length data), [], fo ++ data).
Proof.
  induction fuel as [|fuel IH]; intros data fo liOpr lzMod Hd Hf; [lia|].
  destruct data as [|b data].
  { cbn. now rewrite Z.add_0_r, app_nil_r. }
  apply Forall_cons in Hd as [Hb Hd].
  rewrite escaped_cons in *. cbn [Patch.ufGetDta_loop].
  destruct (Z.eqb_spec b ESC) as [->|Hne].
  - cbn [app JPatcht.get] in *. change (ESC =? EOF) with false.
    change (ESC =? ESC) with true. change (Patch.is_opr ESC) with false.
    cbv iota. rewrite ufPutDta_mem. change (ESC mod 256) with ESC.
    rewrite IH; [|exact Hd|cbn [length] in Hf; lia].
    rewrite app_one.
    match goal with
    | |- Some (_, ?a, _, _) = Some (_, ?b, _, _) =>
        replace a with b by (cbn [length]; lia)
    end. reflexivity.
  - cbn [app JPatcht.get] in *.
    destruct (Z.eqb_spec b EOF) as [He|_]; [unfold EOF in He; lia|].
    destruct (Z.eqb_spec b ESC) as [He|_]; [contradiction|].
    rewrite ufPutDta_mem, Z.mod_small by lia.
    rewrite IH; [|exact Hd|cbn [length] in Hf; lia].
    rewrite app_one.
    match goal with
    | |- Some (_, ?a, _, _) = Some (_, ?b, _, _) =>
        replace a with b by (cbn [length]; lia)
    end. reflexivity.
Qed.

Lemma jpatch_escaped (data : list Z) (fi : F) (fo : list Z) :
  Forall (fun b => 0 <= b < 256) data ->
  Patch.jpatch off_t_bits JDIFF_LARGEFILE (escaped data) fi fo
  = Some (Patch.Result EXI_OK (Z.of_nat (length data))
            (Z.of_nat (length data)) fi (fo ++ data)).
Proof.
  intros Hd. unfold Patch.jpatch.
  destruct data as [|b data].
  { cbn. now rewrite app_nil_r. }
  apply Forall_cons in Hd as [Hb Hd].
  rewrite escaped_cons.
  match goal with
  | |- Patch.jpatch_loop _ _ ?f _ _ _ _ _ _ = _ =>
      destruct f as [|fuel] eqn:Ef; [lia|clear Ef]
  end.
  cbn [Patch.jpatch_loop].
  change (negb (0 =? EOF)) with true. change (0 =? 0) with true. cbv iota.
  destruct (Z.eqb_spec b ESC) as [->|Hne].
  - cbn [app JPatcht.get]. change (ESC =? EOF) with false.
    change (ESC =? ESC) with true. change (Patch.is_opr ESC) with false.
    cbv iota. change (MOD =? MOD) with true. cbv iota.
    unfold Patch.ufGetDta. cbv zeta. change (negb (ESC =? EOF)) with true.
    change ((ESC =? ESC) && negb (ESC =? ESC)) with false. cbv iota.
    rewrite ufPutDta_mem. change (ESC mod 256) with ESC.
    rewrite ufGetDta_loop_escaped; [|exact Hd|lia].
    rewrite jpatch_loop_eof, app_one.
    match goal with
    | |- Some (Patch.Result _ ?a _ _ _) = Some (Patch.Result _ ?b _ _ _) =>
        replace a with b by (cbn [length]; lia)
    end. reflexivity.
  - cbn [app JPatcht.get].
    destruct (Z.eqb_spec b EOF) as [He|_]; [unfold EOF in He; lia|].
    destruct (Z.eqb_spec b ESC) as [He|_]; [contradiction|].
    change (MOD =? MOD) with true. cbv iota.
    unfold Patch.ufGetDta. cbv zeta.
    destruct (Z.eqb_spec b EOF) as [He|_]; [unfold EOF in He; lia|].
    cbn [negb]. destruct (Z.eqb_spec b ESC) as [He|_]; [contradiction|].
    cbn [andb]. rewrite ufPutDta_mem, Z.mod_small by lia.
    rewrite ufGetDta_loop_escaped; [|exact Hd|lia].
    rewrite jpatch_loop_eof, app_one.
    match goal with
    | |- Some (Patch.Result _ ?a _ _ _) = Some (Patch.Result _ ?b _ _ _) =>
        replace a with b by (cbn [length]; lia)
    end. reflexivity.
Qed.

End PatchMem.

(** [copyfrom] from a file in memory into memory returns. *)
Lemma copy_chars_plain_returns (fuel : nat) :
  forall (fi fo : list Z) (azPos azLen : Z),
    azLen <= Z.of_nat fuel ->
    exists r, JFileOut.copy_chars fuel fi fo azPos azLen = Some r.
Proof.
  induction fuel as [|fuel IH]; intros fi fo azPos azLen Hf;
    cbn [JFileOut.copy_chars];
    (destruct (Z.gtb_spec azLen 0) as [Hp|Hp]; [|eauto]); [lia|].
  cbn [JFileOut.get JFileOut.plain_input].
  destruct (JFile.mem_get fi azPos JFile.Read) as [lcVal fi1].
  destruct (lcVal <=? JDefs.EOF); [eauto|].
  destruct (JFileOut.putc fo lcVal) as [k fo1].
  destruct (k <? 0); [eauto|].
  cbn [JFileOut.get_next JFileOut.plain_input]. apply IH. lia.
Qed.

Lemma copyfrom_plain_returns (fo fi : list Z) (azPos azLen : Z) :
  exists r, JFileOut.copyfrom fo fi azPos azLen = Some r.
Proof.
  unfold JFileOut.copyfrom. cbn [JFileOut.getbuf JFileOut.plain_input].
  apply copy_chars_plain_returns. lia.
Qed.

(** *** The patch applier up to the end of the patch file *)

Section PatchEofLoops.

Import JDefs PatchEof.

Context {F Out : Type} `{JFileOut.input F} `{JFileOut.stdio Out}.

Variable off_t_bits : Z.
Variable JDIFF_LARGEFILE : bool.

(** A call of [get ()] that is answered takes one from the calls left, and
    it is the call of the model that keeps answering [EOF]. *)
Lemma get_done (f f1 : file) (c : Z) :
  get f = Done (c, f1) ->
  size f = S (size f1) /\ JPatcht.get (bytes f) = (c, bytes f1).
Proof.
  destruct f as [[|c0 l]|]; cbn; intros E; try discriminate;
    injection E as <- <-; split; reflexivity.
Qed.

Lemma get_fuel (f : file) : get f <> NoFuel.
Proof. destruct f as [[|c l]|]; discriminate. Qed.

Lemma shift_in_done (v v1 : Z) (f f1 : file) :
  shift_in off_t_bits v f = Done (v1, f1) ->
  size f = S (size f1)
  /\ JPatcht.shift_in off_t_bits v (bytes f) = (v1, bytes f1).
Proof.
  unfold shift_in, JPatcht.shift_in.
  destruct (get f) as [[c f2]| |] eqn:E; try discriminate.
  apply get_done in E as [Hs ->]. intros [= <- <-]. now split.
Qed.

Ltac read_step :=
  match goal with
  | |- context [get ?f] =>
      let E := fresh "E" in
      let Hs := fresh "Hs" in
      let Hg := fresh "Hg" in
      destruct (get f) as [[? ?]| |] eqn:E; try discriminate;
      apply get_done in E as [Hs Hg]; try rewrite Hg
  | |- context [shift_in ?b ?v ?f] =>
      let E := fresh "E" in
      let Hs := fresh "Hs" in
      let Hg := fresh "Hg" in
      destruct (shift_in b v f) as [[? ?]| |] eqn:E; try discriminate;
      apply shift_in_done in E as [Hs Hg]; try rewrite Hg
  end.

Lemma ufGetInt_done (v : Z) (f f1 : file) :
  ufGetInt off_t_bits JDIFF_LARGEFILE f = Done (v, f1) ->
  (size f1 < size f)%nat
  /\ JPatcht.ufGetInt off_t_bits JDIFF_LARGEFILE (bytes f) = (v, bytes f1).
Proof.
  unfold ufGetInt, JPatcht.ufGetInt.
  read_step.
  repeat match goal with
         | |- context [if ?b then _ else _] => destruct b
         end;
    repeat read_step;
    intros E; injection E as <- <-; (split; [lia | reflexivity]).
Qed.

Lemma ufGetInt_fuel (f : file) :
  ufGetInt off_t_bits JDIFF_LARGEFILE f <> NoFuel.
Proof.
  unfold ufGetInt, shift_in.
  repeat match goal with
         | |- context [get ?f] =>
             let E := fresh "E" in
             destruct (get f) as [[? ?]| |] eqn:E;
             [| |now apply get_fuel in E]
         | |- context [if ?b then _ else _] => destruct b
         end; discriminate.
Qed.

(** The read loop of [ufGetDta] has rounds enough: each round reads the
    patch file. *)
Lemma ufGetDta_loop_ends (fuel : nat) :
  forall (pch : file) (fo : Out) (liOpr lzMod : Z),
    (size pch < fuel)%nat ->
    match ufGetDta_loop fuel pch fo liOpr lzMod with
    | Done (ret, _, rest, _) =>
        (ret = EOF \/ Patch.is_opr ret = true /\ ret <> liOpr)
        /\ (size rest < size pch)%nat
    | PastEnd => True
    | NoFuel => False
    end.
Proof.
  induction fuel as [|fuel IH]; intros pch fo liOpr lzMod Hf; [lia|].
  cbn [ufGetDta_loop].
  destruct (get pch) as [[liInp pch1]| |] eqn:E1;
    [|exact I|now apply get_fuel in E1].
  apply get_done in E1 as [Hs1 _].
  assert (Hgo : forall fo1 m,
             match ufGetDta_loop fuel pch1 fo1 liOpr m with
             | Done (ret, _, rest, _) =>
                 (ret = EOF \/ Patch.is_opr ret = true /\ ret <> liOpr)
                 /\ (size rest < size pch)%nat
             | PastEnd => True
             | NoFuel => False
             end).
  { intros fo1 m. specialize (IH pch1 fo1 liOpr m ltac:(lia)).
    destruct (ufGetDta_loop fuel pch1 fo1 liOpr m) as [[[[? ?] ?] ?]| |];
      [|exact I|exact IH].
    destruct IH as [Hr Hl]. split; [exact Hr | lia]. }
  destruct (Z.eqb_spec liInp EOF) as [->|Hne].
  { split; [now left | lia]. }
  destruct (liInp =? ESC); [|destruct (Patch.ufPutDta fo liInp); apply Hgo].
  destruct (get pch1) as [[liNew pch2]| |] eqn:E2;
    [|exact I|now apply get_fuel in E2].
  apply get_done in E2 as [Hs2 _].
  assert (Hgo2 : forall fo1 m,
             match ufGetDta_loop fuel pch2 fo1 liOpr m with
             | Done (ret, _, rest, _) =>
                 (ret = EOF \/ Patch.is_opr ret = true /\ ret <> liOpr)
                 /\ (size rest < size pch)%nat
             | PastEnd => True
             | NoFuel => False
             end).
  { intros fo1 m. specialize (IH pch2 fo1 liOpr m ltac:(lia)).
    destruct (ufGetDta_loop fuel pch2 fo1 liOpr m) as [[[[? ?] ?] ?]| |];
      [|exact I|exact IH].
    destruct IH as [Hr Hl]. split; [exact Hr | lia]. }
  destruct (Patch.is_opr liNew) eqn:Eo.
  - destruct (Z.eqb_spec liNew liOpr) as [->|Hd].
    + destruct (Patch.ufPutDta fo ESC) as [d fo1].
      destruct (Patch.ufPutDta fo1 liOpr) as [d2 fo2]. apply Hgo2.
    + split; [right; now split | lia].
  - destruct (liNew =? ESC).
    + destruct (Patch.ufPutDta fo liInp). apply Hgo2.
    + destruct (Patch.ufPutDta fo liInp) as [d fo1].
      destruct (Patch.ufPutDta fo1 liNew). apply Hgo2.
Qed.

Lemma ufGetDta_ends (pch : file) (fo : Out) (liOpr liPnd liDbl : Z) :
  match ufGetDta pch fo liOpr liPnd liDbl with
  | Done (ret, _, rest, _) =>
      (ret = EOF \/ Patch.is_opr ret = true /\ ret <> liOpr)
      /\ (size rest < size pch)%nat
  | PastEnd => True
  | NoFuel => False
  end.
Proof.
  unfold ufGetDta. cbv zeta.
  destruct (if negb (liPnd =? EOF) then _ else _) as [m fo1].
  apply ufGetDta_loop_ends. lia.
Qed.

Hypothesis copyfrom_returns :
  forall (fo : Out) (fi : F) (azPos azLen : Z),
    exists r, JFileOut.copyfrom fo fi azPos azLen = Some r.

(** The loop of [jpatch] has rounds enough: each round reads the patch
    file. *)
Lemma jpatch_loop_ends (fuel : nat) :
  forall (liOpr : Z) (pch : file) (fi : F) (fo : Out)
         (lzPosOrg lzPosOut : Z),
    liOpr = 0 \/ liOpr = EOF \/ Patch.is_opr liOpr = true ->
    (size pch < fuel)%nat ->
    jpatch_loop off_t_bits JDIFF_LARGEFILE fuel liOpr pch fi fo
      lzPosOrg lzPosOut <> NoFuel.
Proof.
  induction fuel as [|fuel IH];
    intros liOpr pch fi fo lzPosOrg lzPosOut Hopr Hf; [lia|].
  cbn [jpatch_loop].
  destruct (Z.eqb_spec liOpr EOF) as [->|Hne]; cbn [negb]; [discriminate|].
  (* the operator that is executed, and the patch file behind it *)
  assert (Hrun : forall (opr liInp liDbl : Z) (pch1 : file),
             Patch.is_opr opr = true ->
             (size pch1 <= size pch)%nat ->
             (if opr =? MOD then
                step (liOpr, lzOff, pch, fo) <-
                  ufGetDta pch1 fo opr liInp liDbl;
                jpatch_loop off_t_bits JDIFF_LARGEFILE fuel liOpr pch fi fo
                  (lzPosOrg + lzOff) (lzPosOut + lzOff)
              else if opr =? INS then
                step (liOpr, lzOff, pch, fo) <-
                  ufGetDta pch1 fo opr liInp liDbl;
                jpatch_loop off_t_bits JDIFF_LARGEFILE fuel liOpr pch fi fo
                  lzPosOrg (lzPosOut + lzOff)
              else if opr =? DEL then
                step (lzOff, pch) <-
                  ufGetInt off_t_bits JDIFF_LARGEFILE pch1;
                if lzOff <? 0 then
                  Done (Patch.Result lzOff lzPosOrg lzPosOut fi fo)
                else
                  jpatch_loop off_t_bits JDIFF_LARGEFILE fuel 0 pch fi fo
                    (lzPosOrg + lzOff) lzPosOut
              else if opr =? EQL then
                step (lzOff, pch) <-
                  ufGetInt off_t_bits JDIFF_LARGEFILE pch1;
                if lzOff <? 0 then
                  Done (Patch.Result lzOff lzPosOrg lzPosOut fi fo)
                else
                  match JFileOut.copyfrom fo fi lzPosOrg lzOff with
                  | None => NoFuel
                  | Some (liRet, fi, fo) =>
                      if negb (liRet =? EXI_OK) then
                        Done (Patch.Result liRet lzPosOrg lzPosOut fi fo)
                      else
                        jpatch_loop off_t_bits JDIFF_LARGEFILE fuel 0 pch
                          fi fo (lzPosOrg + lzOff) (lzPosOut + lzOff)
                  end
              else if opr =? BKT then
                step (lzOff, pch) <-
                  ufGetInt off_t_bits JDIFF_LARGEFILE pch1;
                if lzOff <? 0 then
                  Done (Patch.Result lzOff lzPosOrg lzPosOut fi fo)
                else
                  jpatch_loop off_t_bits JDIFF_LARGEFILE fuel 0 pch fi fo
                    (lzPosOrg - lzOff) lzPosOut
              else
                jpatch_loop off_t_bits JDIFF_LARGEFILE fuel opr pch1 fi fo
                  lzPosOrg lzPosOut) <> NoFuel).
  { intros opr liInp liDbl pch1 Ho Hl.
    assert (Hdta : forall k : Z -> Z * Z,
               (step (liOpr, lzOff, pch, fo) <-
                  ufGetDta pch1 fo opr liInp liDbl;
                jpatch_loop off_t_bits JDIFF_LARGEFILE fuel liOpr pch fi fo
                  (fst (k lzOff)) (snd (k lzOff))) <> NoFuel).
    { intros k.
      pose proof (ufGetDta_ends pch1 fo opr liInp liDbl) as Hd.
      destruct (ufGetDta pch1 fo opr liInp liDbl)
        as [[[[ret m] rest] fo1]| |]; [|discriminate|contradiction].
      destruct Hd as [[->|[Ho1 Hx]] Hl1]; apply IH; auto; lia. }
    assert (Hint : forall k : Z -> Z * Z,
               (step (lzOff, pch) <-
                  ufGetInt off_t_bits JDIFF_LARGEFILE pch1;
                if lzOff <? 0 then
                  Done (Patch.Result lzOff lzPosOrg lzPosOut fi fo)
                else
                  jpatch_loop off_t_bits JDIFF_LARGEFILE fuel 0 pch fi fo
                    (fst (k lzOff)) (snd (k lzOff))) <> NoFuel).
    { intros k.
      pose proof (ufGetInt_fuel pch1) as Hn.
      destruct (ufGetInt off_t_bits JDIFF_LARGEFILE pch1)
        as [[lzOff pch2]| |] eqn:Ei; [|discriminate|contradiction].
      apply ufGetInt_done in Ei as [Hs _].
      destruct (lzOff <? 0); [discriminate|].
      apply IH; [auto | lia]. }
    destruct (is_opr_cases opr Ho) as [E|[E|[E|[E|E]]]]; subst opr.
    - change (MOD =? MOD) with true. cbv iota.
      exact (Hdta (fun o => (lzPosOrg + o, lzPosOut + o))).
    - change (INS =? MOD) with false. change (INS =? INS) with true.
      cbv iota. exact (Hdta (fun o => (lzPosOrg, lzPosOut + o))).
    - change (DEL =? MOD) with false. change (DEL =? INS) with false.
      change (DEL =? DEL) with true. cbv iota.
      exact (Hint (fun o => (lzPosOrg + o, lzPosOut))).
    - change (EQL =? MOD) with false. change (EQL =? INS) with false.
      change (EQL =? DEL) with false. change (EQL =? EQL) with true.
      cbv iota.
      pose proof (ufGetInt_fuel pch1) as Hn.
      destruct (ufGetInt off_t_bits JDIFF_LARGEFILE pch1)
        as [[lzOff pch2]| |] eqn:Ei; [|discriminate|contradiction].
      apply ufGetInt_done in Ei as [Hs _].
      destruct (lzOff <? 0); [discriminate|].
      destruct (copyfrom_returns fo fi lzPosOrg lzOff) as ([[k fi1] fo1] & ->).
      destruct (negb (k =? EXI_OK)); [discriminate|].
      apply IH; [auto | lia].
    - change (BKT =? MOD) with false. change (BKT =? INS) with false.
      change (BKT =? DEL) with false. change (BKT =? EQL) with false.
      change (BKT =? BKT) with true. cbv iota.
      exact (Hint (fun o => (lzPosOrg - o, lzPosOut))). }
  destruct (Z.eqb_spec liOpr 0) as [->|Hnz].
  - destruct (get pch) as [[liInp pch1]| |] eqn:E1;
      [|discriminate|now apply get_fuel in E1].
    apply get_done in E1 as [Hs1 _].
    destruct (Z.eqb_spec liInp EOF) as [->|Hi]; [discriminate|].
    destruct (liInp =? ESC).
    + destruct (get pch1) as [[liDbl pch2]| |] eqn:E2;
        [|discriminate|now apply get_fuel in E2].
      apply get_done in E2 as [Hs2 _].
      destruct (Patch.is_opr liDbl) eqn:Eo.
      * apply Hrun; [exact Eo | lia].
      * destruct (liDbl =? EOF); [discriminate|].
        apply Hrun; [reflexivity | lia].
    + apply Hrun; [reflexivity | lia].
  - destruct Hopr as [Hx|[Hx|Ho]]; [contradiction|contradiction|].
    apply Hrun; [exact Ho | lia].
Qed.

(** Up to the end of the patch file the two models of the reader agree. *)
Lemma ufGetDta_loop_agrees (fuel : nat) :
  forall (fuel1 : nat) (pch : file) (fo : Out) (liOpr lzMod : Z)
         (ret lzMod1 : Z) (rest : file) (fo1 : Out)
         (x : Z * Z * list Z * Out),
    ufGetDta_loop fuel pch fo liOpr lzMod = Done (ret, lzMod1, rest, fo1) ->
    Patch.ufGetDta_loop fuel1 (bytes pch) fo liOpr lzMod = Some x ->
    x = (ret, lzMod1, bytes rest, fo1).
Proof.
  induction fuel as [|fuel IH];
    intros fuel1 pch fo liOpr lzMod ret lzMod1 rest fo1 x; [discriminate|].
  destruct fuel1 as [|fuel1]; [discriminate|].
  cbn [ufGetDta_loop Patch.ufGetDta_loop].
  read_step.
  destruct (_ =? EOF).
  { intros [= <- <- <- <-] [= <-]. reflexivity. }
  destruct (_ =? ESC).
  - read_step.
    destruct (Patch.is_opr _).
    + destruct (_ =? liOpr).
      * destruct (Patch.ufPutDta fo ESC) as [d fo2].
        destruct (Patch.ufPutDta fo2 _) as [d2 fo3]. apply IH.
      * intros [= <- <- <- <-] [= <-]. reflexivity.
    + destruct (_ =? ESC).
      * destruct (Patch.ufPutDta fo _) as [d fo2]. apply IH.
      * destruct (Patch.ufPutDta fo _) as [d fo2].
        destruct (Patch.ufPutDta fo2 _) as [d2 fo3]. apply IH.
  - destruct (Patch.ufPutDta fo _) as [d fo2]. apply IH.
Qed.

Lemma ufGetDta_agrees (pch : file) (fo : Out) (liOpr liPnd liDbl : Z)
  (ret lzMod1 : Z) (rest : file) (fo1 : Out) :
  ufGetDta pch fo liOpr liPnd liDbl = Done (ret, lzMod1, rest, fo1) ->
  Patch.ufGetDta (bytes pch) fo liOpr liPnd liDbl
  = Some (ret, lzMod1, bytes rest, fo1).
Proof.
  unfold ufGetDta, Patch.ufGetDta. cbv zeta.
  destruct (if negb (liPnd =? EOF) then _ else _) as [m fo2].
  intros E.
  destruct (ufGetDta_loop_returns (S (length (bytes pch))) (bytes pch) fo2
              liOpr m ltac:(lia)) as (r1 & r2 & r3 & r4 & E1 & _).
  rewrite E1. f_equal.
  exact (ufGetDta_loop_agrees _ _ _ _ _ _ _ _ _ _ _ E E1).
Qed.

Lemma jpatch_loop_agrees (fuel : nat) :
  forall (fuel1 : nat) (liOpr : Z) (pch : file) (fi : F) (fo : Out)
         (lzPosOrg lzPosOut : Z) (r x : Patch.result),
    jpatch_loop off_t_bits JDIFF_LARGEFILE fuel liOpr pch fi fo
      lzPosOrg lzPosOut = Done r ->
    Patch.jpatch_loop off_t_bits JDIFF_LARGEFILE fuel1 liOpr (bytes pch)
      fi fo lzPosOrg lzPosOut = Some x ->
    x = r.
Proof.
  induction fuel as [|fuel IH];
    intros fuel1 liOpr pch fi fo lzPosOrg lzPosOut r x;
    destruct fuel1 as [|fuel1];
    cbn [jpatch_loop Patch.jpatch_loop];
    (destruct (negb (liOpr =? EOF));
     [|intros [= <-] [= <-]; reflexivity]); try discriminate.
  assert (Hrun : forall (opr liInp liDbl : Z) (pch1 : file),
             (if opr =? MOD then
                step (liOpr, lzOff, pch, fo) <-
                  ufGetDta pch1 fo opr liInp liDbl;
                jpatch_loop off_t_bits JDIFF_LARGEFILE fuel liOpr pch fi fo
                  (lzPosOrg + lzOff) (lzPosOut + lzOff)
              else if opr =? INS then
                step (liOpr, lzOff, pch, fo) <-
                  ufGetDta pch1 fo opr liInp liDbl;
                jpatch_loop off_t_bits JDIFF_LARGEFILE fuel liOpr pch fi fo
                  lzPosOrg (lzPosOut + lzOff)
              else if opr =? DEL then
                step (lzOff, pch) <-
                  ufGetInt off_t_bits JDIFF_LARGEFILE pch1;
                if lzOff <? 0 then
                  Done (Patch.Result lzOff lzPosOrg lzPosOut fi fo)
                else
                  jpatch_loop off_t_bits JDIFF_LARGEFILE fuel 0 pch fi fo
                    (lzPosOrg + lzOff) lzPosOut
              else if opr =? EQL then
                step (lzOff, pch) <-
                  ufGetInt off_t_bits JDIFF_LARGEFILE pch1;
                if lzOff <? 0 then
                  Done (Patch.Result lzOff lzPosOrg lzPosOut fi fo)
                else
                  match JFileOut.copyfrom fo fi lzPosOrg lzOff with
                  | None => NoFuel
                  | Some (liRet, fi, fo) =>
                      if negb (liRet =? EXI_OK) then
                        Done (Patch.Result liRet lzPosOrg lzPosOut fi fo)
                      else
                        jpatch_loop off_t_bits JDIFF_LARGEFILE fuel 0 pch
                          fi fo (lzPosOrg + lzOff) (lzPosOut + lzOff)
                  end
              else if opr =? BKT then
                step (lzOff, pch) <-
                  ufGetInt off_t_bits JDIFF_LARGEFILE pch1;
                if lzOff <? 0 then
                  Done (Patch.Result lzOff lzPosOrg lzPosOut fi fo)
                else
                  jpatch_loop off_t_bits JDIFF_LARGEFILE fuel 0 pch fi fo
                    (lzPosOrg - lzOff) lzPosOut
              else
                jpatch_loop off_t_bits JDIFF_LARGEFILE fuel opr pch1 fi fo
                  lzPosOrg lzPosOut) = Done r ->
             (if opr =? MOD then
                match Patch.ufGetDta (bytes pch1) fo opr liInp liDbl with
                | None => None
                | Some (liOpr, lzOff, pch, fo) =>
                    Patch.jpatch_loop off_t_bits JDIFF_LARGEFILE fuel1
                      liOpr pch fi fo (lzPosOrg + lzOff)
                      (lzPosOut + lzOff)
                end
              else if opr =? INS then
                match Patch.ufGetDta (bytes pch1) fo opr liInp liDbl with
                | None => None
                | Some (liOpr, lzOff, pch, fo) =>
                    Patch.jpatch_loop off_t_bits JDIFF_LARGEFILE fuel1
                      liOpr pch fi fo lzPosOrg (lzPosOut + lzOff)
                end
              else if opr =? DEL then
                let '(lzOff, pch) :=
                  JPatcht.ufGetInt off_t_bits JDIFF_LARGEFILE (bytes pch1) in
                if lzOff <? 0 then
                  Some (Patch.Result lzOff lzPosOrg lzPosOut fi fo)
                else
                  Patch.jpatch_loop off_t_bits JDIFF_LARGEFILE fuel1 0 pch
                    fi fo (lzPosOrg + lzOff) lzPosOut
              else if opr =? EQL then
                let '(lzOff, pch) :=
                  JPatcht.ufGetInt off_t_bits JDIFF_LARGEFILE (bytes pch1) in
                if lzOff <? 0 then
                  Some (Patch.Result lzOff lzPosOrg lzPosOut fi fo)
                else
                  match JFileOut.copyfrom fo fi lzPosOrg lzOff with
                  | None => None
                  | Some (liRet, fi, fo) =>
                      if negb (liRet =? EXI_OK) then
                        Some (Patch.Result liRet lzPosOrg lzPosOut fi fo)
                      else
                        Patch.jpatch_loop off_t_bits JDIFF_LARGEFILE fuel1
                          0 pch fi fo (lzPosOrg + lzOff)
                          (lzPosOut + lzOff)
                  end
              else if opr =? BKT then
                let '(lzOff, pch) :=
                  JPatcht.ufGetInt off_t_bits JDIFF_LARGEFILE (bytes pch1) in
                if lzOff <? 0 then
                  Some (Patch.Result lzOff lzPosOrg lzPosOut fi fo)
                else
                  Patch.jpatch_loop off_t_bits JDIFF_LARGEFILE fuel1 0 pch
                    fi fo (lzPosOrg - lzOff) lzPosOut
              else
                Patch.jpatch_loop off_t_bits JDIFF_LARGEFILE fuel1 opr
                  (bytes pch1) fi fo lzPosOrg lzPosOut) = Some x ->
             x = r).
  { intros opr liInp liDbl pch1.
    assert (Hdta : forall k : Z -> Z * Z,
               (step (liOpr, lzOff, pch, fo) <-
                  ufGetDta pch1 fo opr liInp liDbl;
                jpatch_loop off_t_bits JDIFF_LARGEFILE fuel liOpr pch fi fo
                  (fst (k lzOff)) (snd (k lzOff))) = Done r ->
               match Patch.ufGetDta (bytes pch1) fo opr liInp liDbl with
               | None => None
               | Some (liOpr, lzOff, pch, fo) =>
                   Patch.jpatch_loop off_t_bits JDIFF_LARGEFILE fuel1
                     liOpr pch fi fo (fst (k lzOff)) (snd (k lzOff))
               end = Some x ->
               x = r).
    { intros k.
      destruct (ufGetDta pch1 fo opr liInp liDbl)
        as [[[[ret m] rest] fo1]| |] eqn:Ed; try discriminate.
      rewrite (ufGetDta_agrees _ _ _ _ _ _ _ _ _ Ed). apply IH. }
    assert (Hint : forall k : Z -> Z * Z,
               (step (lzOff, pch) <-
                  ufGetInt off_t_bits JDIFF_LARGEFILE pch1;
                if lzOff <? 0 then
                  Done (Patch.Result lzOff lzPosOrg lzPosOut fi fo)
                else
                  jpatch_loop off_t_bits JDIFF_LARGEFILE fuel 0 pch fi fo
                    (fst (k lzOff)) (snd (k lzOff))) = Done r ->
               (let '(lzOff, pch) :=
                  JPatcht.ufGetInt off_t_bits JDIFF_LARGEFILE (bytes pch1) in
                if lzOff <? 0 then
                  Some (Patch.Result lzOff lzPosOrg lzPosOut fi fo)
                else
                  Patch.jpatch_loop off_t_bits JDIFF_LARGEFILE fuel1 0 pch
                    fi fo (fst (k lzOff)) (snd (k lzOff))) = Some x ->
               x = r).
    { intros k.
      destruct (ufGetInt off_t_bits JDIFF_LARGEFILE pch1)
        as [[lzOff pch2]| |] eqn:Ei; try discriminate.
      apply ufGetInt_done in Ei as [_ ->].
      destruct (lzOff <? 0); [intros [= <-] [= <-]; reflexivity | apply IH]. }
    destruct (opr =? MOD);
      [exact (Hdta (fun o => (lzPosOrg + o, lzPosOut + o)))|].
    destruct (opr =? INS);
      [exact (Hdta (fun o => (lzPosOrg, lzPosOut + o)))|].
    destruct (opr =? DEL);
      [exact (Hint (fun o => (lzPosOrg + o, lzPosOut)))|].
    destruct (opr =? EQL).
    { destruct (ufGetInt off_t_bits JDIFF_LARGEFILE pch1)
        as [[lzOff pch2]| |] eqn:Ei; try discriminate.
      apply ufGetInt_done in Ei as [_ ->].
      destruct (lzOff <? 0); [intros [= <-] [= <-]; reflexivity|].
      destruct (JFileOut.copyfrom fo fi lzPosOrg lzOff)
        as [[[k fi1] fo1]|]; [|discriminate].
      destruct (negb (k =? EXI_OK));
        [intros [= <-] [= <-]; reflexivity | apply IH]. }
    destruct (opr =? BKT);
      [exact (Hint (fun o => (lzPosOrg - o, lzPosOut)))|].
    apply IH. }
  destruct (liOpr =? 0); [|apply Hrun].
  read_step.
  destruct (_ =? EOF); [intros [= <-] [= <-]; reflexivity|].
  destruct (_ =? ESC); [|apply Hrun].
  read_step.
  destruct (Patch.is_opr _); [apply Hrun|].
  destruct (_ =? EOF); [intros [= <-] [= <-]; reflexivity|].
  apply Hrun.
Qed.

(** [jpatch] returns or reads the patch file again after its end. *)
Lemma jpatch_ends (pch : list Z) (fi : F) (fo : Out) :
  jpatch off_t_bits JDIFF_LARGEFILE pch fi fo = PastEnd
  \/ exists r,
       jpatch off_t_bits JDIFF_LARGEFILE pch fi fo = Done r
       /\ Patch.jpatch off_t_bits JDIFF_LARGEFILE pch fi fo = Some r.
Proof.
  pose proof (jpatch_loop_ends (2 * length pch + 3) 0 (Some pch) fi fo 0 0
                ltac:(now left) ltac:(cbn [size]; lia)) as Hn.
  unfold jpatch.
  destruct (jpatch_loop _ _ _ _ _ _ _ _ _) as [r| |] eqn:E;
    [right | now left | contradiction].
  exists r. split; [reflexivity|].
  destruct (jpatch_loop_returns off_t_bits JDIFF_LARGEFILE copyfrom_returns
              (2 * length pch + 3) 0 pch fi fo 0 0 ltac:(now left)
              ltac:(change (0 =? 0) with true; cbv iota; lia)) as [x Ex].
  unfold Patch.jpatch. rewrite Ex. f_equal.
  exact (jpatch_loop_agrees _ _ _ (Some pch) _ _ _ _ _ _ E Ex).
Qed.

End PatchEofLoops.

(** Data that end with a single [ESC]: [ufGetDta] reads the [ESC], then
    [EOF] in place of the byte that should follow, writes both and calls
    [get ()] again. *)
Lemma jpatch_single_esc :
  PatchEof.jpatch 64 true [65; JDefs.ESC] [10] ([] : list Z)
  = PatchEof.PastEnd.
Proof. reflexivity. Qed.



(** X17. [jpatch] only appends to the output file; when it returns
    [EXI_OK], its position in the destination file, [lzPosOut], is the
    number of bytes it has appended. *)
Theorem jpatch_output_position {F : Type} `{JFileOut.input F}
  (off_t_bits : Z) (JDIFF_LARGEFILE : bool) (pch : list Z) (fi : F)
  (fo : list Z) (r : Patch.result) :
  Patch.jpatch off_t_bits JDIFF_LARGEFILE pch fi fo = Some r ->
  exists w,
    Patch.r_out r = fo ++ w
    /\ (Patch.r_code r = JDefs.EXI_OK ->
        Z.of_nat (length w) = Patch.r_PosOut r).
Proof.
  intros E. apply jpatch_loop_appends in E as (w & Hw & Hl).
  exists w. split; [exact Hw|]. intros Hr. rewrite (Hl Hr). lia.
Qed.

Lemma jpatch_output_position_witness :
  exists w,
    [1; 2] ++ [10; 20; 7] = [1; 2] ++ w
    /\ (JDefs.EXI_OK = JDefs.EXI_OK -> Z.of_nat (length w) = 3).
Proof.
  apply (jpatch_output_position 64 true
           [JDefs.ESC; JDefs.EQL; 1; JDefs.ESC; JDefs.INS; 7]
           [10; 20; 30] [1; 2]
           (Patch.Result JDefs.EXI_OK 2 3 [10; 20; 30] [1; 2; 10; 20; 7])).
  reflexivity.
Defined.

(** X18. Data in which every [ESC] byte is doubled is a patch file:
    [jpatch] writes the data to the output, returns [EXI_OK] and does not
    read the source file. *)
Theorem jpatch_escaped_data {F : Type} `{JFileOut.input F}
  (off_t_bits : Z) (JDIFF_LARGEFILE : bool) (data : list Z) (fi : F)
  (fo : list Z) :
  Forall (fun b => 0 <= b < 256) data ->
  Patch.jpatch off_t_bits JDIFF_LARGEFILE (escaped data) fi fo
  = Some (Patch.Result JDefs.EXI_OK (Z.of_nat (length data))
            (Z.of_nat (length data)) fi (fo ++ data)).
Proof. apply jpatch_escaped. Qed.

Lemma jpatch_escaped_data_witness :
  Patch.jpatch 64 true (escaped [65; JDefs.ESC; JDefs.EQL; 0]) [10; 20]
    ([] : list Z)
  = Some (Patch.Result JDefs.EXI_OK 4 4 [10; 20]
            [65; JDefs.ESC; JDefs.EQL; 0]).
Proof.
  apply (jpatch_escaped_data 64 true [65; JDefs.ESC; JDefs.EQL; 0] [10; 20]
           []).
  repeat constructor; unfold JDefs.ESC, JDefs.EQL; lia.
Defined.
(** ** The difference function *)

Section DiffFacts.

Import JDefs.

Lemma value_at_in (f : list Z) (p : Z) :
  0 <= value_at f p ->
  0 <= p < Z.of_nat (length f) /\ f !! Z.to_nat p = Some (value_at f p).
Proof.
  unfold value_at, JFile.mem_get. cbn [fst].
  destruct (Z.leb_spec 0 p); destruct (Z.ltb_spec p (Z.of_nat (length f)));
    cbn [andb]; unfold EOF; try lia.
  intros _. split; [lia|].
  destruct (f !! Z.to_nat p) eqn:El; [reflexivity|].
  apply lookup_ge_None in El. lia.
Qed.

Lemma value_at_floor (f : list Z) (p : Z) :
  Forall (fun b => 0 <= b) f -> EOF <= value_at f p.
Proof.
  intros Hf. unfold value_at, JFile.mem_get, EOF. cbn [fst].
  destruct ((0 <=? p) && (p <? Z.of_nat (length f))); [|lia].
  destruct (f !! Z.to_nat p) as [b|] eqn:El; cbn; [|lia].
  rewrite Forall_forall in Hf.
  apply list_elem_of_lookup_2 in El. apply Hf in El. lia.
Qed.

Lemma value_at_ge (f : list Z) (p : Z) :
  Forall (fun b => 0 <= b) f ->
  0 <= p < Z.of_nat (length f) -> 0 <= value_at f p.
Proof.
  intros Hf Hp. unfold value_at, JFile.mem_get. cbn [fst].
  destruct (Z.leb_spec 0 p); destruct (Z.ltb_spec p (Z.of_nat (length f)));
    cbn [andb]; try lia.
  destruct (f !! Z.to_nat p) as [b|] eqn:El.
  - cbn. rewrite Forall_forall in Hf. apply Hf.
    now apply list_elem_of_lookup_2 in El.
  - apply lookup_ge_None in El. lia.
Qed.

Lemma replay_app (org : list Z) (cs1 cs2 : list DiffLoop.call) :
  forall (p : Z) (out : list Z),
    replay org (cs1 ++ cs2) p out
    = match replay org cs1 p out with
      | Some (p1, out1) => replay org cs2 p1 out1
      | None => None
      end.
Proof.
  induction cs1 as [|c cs1 IH]; intros p out; [reflexivity|].
  cbn [app replay]. cbv zeta.
  repeat match goal with
         | |- context [if ?b then _ else _] => destruct b
         end; auto.
Qed.

(** Equal values give equal segments. *)
Lemma segment_same (org new : list Z) (p q n : Z) :
  0 <= q ->
  (forall i, 0 <= i < n ->
             0 <= value_at org (p + i)
             /\ value_at org (p + i) = value_at new (q + i)) ->
  take (Z.to_nat n) (drop (Z.to_nat p) org)
  = take (Z.to_nat n) (drop (Z.to_nat q) new).
Proof.
  intros Hq Hs. apply list_eq. intros i.
  destruct (decide (i < Z.to_nat n)%nat) as [Hi|Hi].
  - rewrite !lookup_take_lt, !lookup_drop by exact Hi.
    assert (Hp : 0 <= p).
    { destruct (Hs 0 ltac:(lia)) as [H0 _].
      apply value_at_in in H0. lia. }
    destruct (Hs (Z.of_nat i) ltac:(lia)) as [H1 H2].
    pose proof (value_at_in org _ H1) as [Hr1 Hl1].
    rewrite H2 in H1. pose proof (value_at_in new _ H1) as [Hr2 Hl2].
    replace (Z.to_nat p + i)%nat with (Z.to_nat (p + Z.of_nat i)) by lia.
    replace (Z.to_nat q + i)%nat with (Z.to_nat (q + Z.of_nat i)) by lia.
    rewrite Hl1, Hl2. now rewrite H2.
  - rewrite !lookup_take_ge by lia. reflexivity.
Qed.

End DiffFacts.

Section DiffSteps.

Import JDefs.
Import DiffLoop.

Context {Out : Type}.

Variable calls : Out -> list call.
Variables org new : list Z.

Hypothesis new_bytes : Forall (fun b => 0 <= b) new.

#[local] Abbreviation J := (Described calls org new).

Lemma replay_snoc (o o' : Out) (c : call) (p : Z) (out : list Z) :
  replay org (calls o) 0 [] = Some (p, out) ->
  calls o' = calls o ++ [c] ->
  replay org (calls o') 0 [] = replay org [c] p out.
Proof. intros Hr ->. now rewrite replay_app, Hr. Qed.

Lemma take_next (p : Z) :
  0 <= value_at new p ->
  take (Z.to_nat p) new ++ [value_at new p] = take (Z.to_nat (p + 1)) new
  /\ p + 1 <= Z.of_nat (length new).
Proof.
  intros Hv. apply value_at_in in Hv as [Hr Hl]. split; [|lia].
  replace (Z.to_nat (p + 1)) with (S (Z.to_nat p)) by lia.
  symmetry. now apply take_S_r.
Qed.

Lemma J_extend (e cO cN pO pN : Z) (b : bool) (o : Out) :
  J e cO cN pO pN b o -> cO = cN -> 0 <= cN ->
  J (e + 1) (value_at org (pO + 1)) (value_at new (pN + 1)) (pO + 1)
    (pN + 1) true o.
Proof.
  intros [Dorg Dnew Deql Dlen Dflag Dsame Dout] Hc Hn.
  assert (Hv : 0 <= value_at new pN) by now rewrite <- Dnew.
  destruct (take_next pN Hv) as [_ Hl].
  constructor; try reflexivity; try lia.
  - intros i Hi. destruct (Z.eq_dec i e) as [->|Hne].
    + replace (pO + 1 - (e + 1) + e) with pO by lia.
      replace (pN + 1 - (e + 1) + e) with pN by lia.
      rewrite <- Dorg, <- Dnew. split; lia.
    + replace (pO + 1 - (e + 1) + i) with (pO - e + i) by lia.
      replace (pN + 1 - (e + 1) + i) with (pN - e + i) by lia.
      apply Dsame. lia.
  - replace (pO + 1 - (e + 1)) with (pO - e) by lia.
    replace (pN + 1 - (e + 1)) with (pN - e) by lia. exact Dout.
Qed.

Lemma length_written (p : Z) :
  0 <= p <= Z.of_nat (length new) ->
  Z.of_nat (length (take (Z.to_nat p) new)) = p.
Proof. intros Hp. rewrite length_take. lia. Qed.

Lemma J_mod (cO cN pO pN : Z) (b b' : bool) (o o' : Out) :
  J 0 cO cN pO pN b o -> 0 <= cN ->
  calls o' = calls o ++ [Call MOD 1 cO cN pO pN] ->
  J 0 (value_at org (pO + 1)) (value_at new (pN + 1)) (pO + 1) (pN + 1) b'
    o'.
Proof.
  intros [Dorg Dnew Deql Dlen Dflag Dsame Dout] Hn Hc.
  assert (Hv : 0 <= value_at new pN) by now rewrite <- Dnew.
  destruct (take_next pN Hv) as [Ht Hl].
  constructor; try reflexivity; try lia.
  rewrite ?Z.sub_0_r in *.
  rewrite (replay_snoc o o' _ _ _ Dout Hc). cbn [replay].
  cbn [aiOpr azLen aiOrg aiNew azPosOrg azPosNew]. cbv zeta.
  rewrite length_written, !Z.eqb_refl by lia. cbn.
  now rewrite Dnew, Ht.
Qed.

Lemma J_ins (cO cN pO pN x : Z) (b b' : bool) (o o' : Out) :
  J 0 cO cN pO pN b o -> 0 <= cN ->
  calls o' = calls o ++ [Call INS 1 x cN pO pN] ->
  J 0 cO (value_at new (pN + 1)) pO (pN + 1) b' o'.
Proof.
  intros [Dorg Dnew Deql Dlen Dflag Dsame Dout] Hn Hc.
  assert (Hv : 0 <= value_at new pN) by now rewrite <- Dnew.
  destruct (take_next pN Hv) as [Ht Hl].
  constructor; try reflexivity; try lia; try assumption.
  rewrite ?Z.sub_0_r in *.
  rewrite (replay_snoc o o' _ _ _ Dout Hc). cbn [replay].
  cbn [aiOpr azLen aiOrg aiNew azPosOrg azPosNew]. cbv zeta.
  rewrite length_written, !Z.eqb_refl by lia. cbn.
  now rewrite Dnew, Ht.
Qed.

Lemma J_eql1 (cO cN pO pN : Z) (b b' : bool) (o o' : Out) :
  J 0 cO cN pO pN b o -> cO = cN -> 0 <= cN ->
  calls o' = calls o ++ [Call EQL 1 cO cN pO pN] ->
  J 0 (value_at org (pO + 1)) (value_at new (pN + 1)) (pO + 1) (pN + 1) b'
    o'.
Proof.
  intros [Dorg Dnew Deql Dlen Dflag Dsame Dout] He Hn Hc.
  assert (Hv : 0 <= value_at new pN) by now rewrite <- Dnew.
  assert (Hw : 0 <= value_at org pO) by (rewrite <- Dorg; lia).
  destruct (take_next pN Hv) as [Ht Hl].
  pose proof (value_at_in org pO Hw) as [Hr Hlk].
  constructor; try reflexivity; try lia.
  rewrite ?Z.sub_0_r in *.
  rewrite (replay_snoc o o' _ _ _ Dout Hc). cbn [replay].
  cbn [aiOpr azLen aiOrg aiNew azPosOrg azPosNew]. cbv zeta.
  rewrite length_written, !Z.eqb_refl by lia. cbn [andb].
  change (EQL =? EQL) with true. cbv iota.
  destruct (Z.leb_spec 0 pO); [|lia].
  destruct (Z.leb_spec (pO + 1) (Z.of_nat (length org))); [|lia].
  cbn [andb Z.leb]. cbv iota.
  assert (Hs : take (Z.to_nat 1) (drop (Z.to_nat pO) org)
               = [value_at new pN]).
  { rewrite <- Dnew, <- He, Dorg.
    apply list_eq. intros [|i].
    - rewrite lookup_take_lt, lookup_drop by (cbn; lia).
      now rewrite Nat.add_0_r, Hlk.
    - rewrite lookup_take_ge by (cbn; lia). reflexivity. }
  now rewrite Hs, Ht.
Qed.

Lemma J_del (cO cN pO pN k x y : Z) (b b' : bool) (o o' : Out) :
  J 0 cO cN pO pN b o ->
  calls o' = calls o ++ [Call DEL k x y pO pN] ->
  J 0 (value_at org (pO + k)) cN (pO + k) pN b' o'.
Proof.
  intros [Dorg Dnew Deql Dlen Dflag Dsame Dout] Hc.
  constructor; try reflexivity; try lia; try assumption.
  rewrite ?Z.sub_0_r in *.
  rewrite (replay_snoc o o' _ _ _ Dout Hc). cbn [replay].
  cbn [aiOpr azLen aiOrg aiNew azPosOrg azPosNew]. cbv zeta.
  rewrite length_written, !Z.eqb_refl by lia. reflexivity.
Qed.

Lemma J_bkt (cO cN pO pN k x y : Z) (b b' : bool) (o o' : Out) :
  J 0 cO cN pO pN b o ->
  calls o' = calls o ++ [Call BKT k x y pO pN] ->
  J 0 (value_at org (pO - k)) cN (pO - k) pN b' o'.
Proof.
  intros [Dorg Dnew Deql Dlen Dflag Dsame Dout] Hc.
  constructor; try reflexivity; try lia; try assumption.
  rewrite ?Z.sub_0_r in *.
  rewrite (replay_snoc o o' _ _ _ Dout Hc). cbn [replay].
  cbn [aiOpr azLen aiOrg aiNew azPosOrg azPosNew]. cbv zeta.
  rewrite length_written, !Z.eqb_refl by lia. reflexivity.
Qed.

Lemma J_flag (cO cN pO pN : Z) (b b' : bool) (o : Out) :
  J 0 cO cN pO pN b o -> J 0 cO cN pO pN b' o.
Proof. intros []. constructor; try assumption. reflexivity. Qed.

Lemma J_flush (e cO cN pO pN x y : Z) (b b' : bool) (o o' : Out) :
  J e cO cN pO pN b o -> 0 < e ->
  calls o' = calls o ++ [Call EQL e x y (pO - e) (pN - e)] ->
  J 0 cO cN pO pN b' o'.
Proof.
  intros [Dorg Dnew Deql Dlen Dflag Dsame Dout] He Hc.
  constructor; try reflexivity; try lia; try assumption.
  rewrite ?Z.sub_0_r.
  rewrite (replay_snoc o o' _ _ _ Dout Hc). cbn [replay].
  cbn [aiOpr azLen aiOrg aiNew azPosOrg azPosNew]. cbv zeta.
  rewrite length_written, !Z.eqb_refl by lia. cbn [andb].
  change (EQL =? EQL) with true. cbv iota.
  destruct (Dsame 0 ltac:(lia)) as [H0 _].
  destruct (Dsame (e - 1) ltac:(lia)) as [H1 _].
  apply value_at_in in H0 as [H0 _]. apply value_at_in in H1 as [H1 _].
  destruct (Z.leb_spec 0 (pO - e)); [|lia].
  destruct (Z.leb_spec 0 e); [|lia].
  destruct (Z.leb_spec (pO - e + e) (Z.of_nat (length org))); [|lia].
  cbn [andb]. cbv iota.
  rewrite (segment_same org new (pO - e) (pN - e) e) by (lia || exact Dsame).
  rewrite take_take_drop.
  replace (pO - e + e) with pO by lia.
  replace (Z.to_nat (pN - e) + Z.to_nat e)%nat with (Z.to_nat pN) by lia.
  reflexivity.
Qed.

Lemma J_end (cO cN pO pN : Z) (b : bool) (o o' : Out) :
  J 0 cO cN pO pN b o -> cN < 0 ->
  calls o' = calls o ++ [Call ESC 0 0 0 pO pN] ->
  replay org (calls o') 0 [] = Some (pO, new).
Proof.
  intros [Dorg Dnew Deql Dlen Dflag Dsame Dout] Hn Hc. rewrite ?Z.sub_0_r in *.
  rewrite (replay_snoc o o' _ _ _ Dout Hc). cbn [replay].
  cbn [aiOpr azLen aiOrg aiNew azPosOrg azPosNew]. cbv zeta.
  rewrite length_written, !Z.eqb_refl by lia. cbn.
  assert (Hp : pN = Z.of_nat (length new)).
  { destruct (Z.eq_dec pN (Z.of_nat (length new))) as [|Hne]; [assumption|].
    pose proof (value_at_ge new pN new_bytes ltac:(lia)). lia. }
  rewrite Hp, Nat2Z.id, firstn_all. reflexivity.
Qed.

End DiffSteps.

Section DiffRun.

Import JDefs.
Import DiffLoop.

Context {M Out : Type} `{JOut Out}.

Variables sizeof_hkey MAX_OFF_T miVerbse : Z.
Variable search :
  members (list Z) M -> Z -> Z -> Z -> Z -> Z
  -> Z * (Z * Z * Z) * members (list Z) M.
Variable calls : Out -> list call.
Variables org new : list Z.

Hypothesis put_calls :
  forall (o : Out) (a b c d e f : Z),
    calls (snd (put o a b c d e f)) = calls o ++ [Call a b c d e f].
Hypothesis search_files :
  forall (m : members (list Z) M) (a b c d e : Z),
    Files org new m -> Files org new (snd (search m a b c d e)).
Hypothesis new_bytes : Forall (fun b => 0 <= b) new.

#[local] Abbreviation J := (Described calls org new).
#[local] Abbreviation Fl := (Files (M := M) org new).
#[local] Abbreviation DI := (DiffInv calls org new).

Ltac put_step o1 Hc :=
  match goal with
  | |- context [put ?o ?a ?b ?c ?d ?e ?f] =>
      let b1 := fresh "b" in
      pose proof (put_calls o a b c d e f) as Hc;
      destruct (put o a b c d e f) as [b1 o1]; cbn [snd] in Hc
  | E : context [put ?o ?a ?b ?c ?d ?e ?f] |- _ =>
      let b1 := fresh "b" in
      pose proof (put_calls o a b c d e f) as Hc;
      destruct (put o a b c d e f) as [b1 o1]; cbn [snd] in Hc
  end.

Lemma get_org_mem (m : members (list Z) M) (p : Z) :
  Fl m -> get_org m p = (value_at org p, m).
Proof. intros [Ho _]. rewrite <- Ho. destruct m. reflexivity. Qed.

Lemma get_new_mem (m : members (list Z) M) (p : Z) :
  Fl m -> get_new m p = (value_at new p, m).
Proof. intros [_ Hn]. rewrite <- Hn. destruct m. reflexivity. Qed.

Lemma index_org_files (m : members (list Z) M) (c : Z) :
  Fl m -> Fl (index_org sizeof_hkey m c).
Proof.
  intros Hf. unfold index_org. destruct (JDiff.scan_add _ _ _). exact Hf.
Qed.

Lemma source_scan_files (l : locals) (m : members (list Z) M) :
  Fl m -> Fl (source_scan sizeof_hkey l m).
Proof.
  intros Hf. unfold source_scan. destruct (JDiff.jdiff_scan _ _ _ _ _).
  exact Hf.
Qed.

Lemma next_both_mem (l : locals) (m : members (list Z) M) :
  Fl m ->
  next_both l m
  = (Locals (value_at org (lzPosOrg l + 1)) (value_at new (lzPosNew l + 1))
       (lzPosOrg l + 1) (lzPosNew l + 1) (lbEql l) (lzEql l) (liFnd l)
       (lzAhd l) (lzSkpOrg l) (lzSkpNew l) (lzLapSml l), m).
Proof.
  intros Hf. unfold next_both.
  now rewrite (get_org_mem m _ Hf), (get_new_mem m _ Hf).
Qed.

Lemma next_new_mem (l : locals) (m : members (list Z) M) :
  Fl m ->
  next_new l m
  = (Locals (lcOrg l) (value_at new (lzPosNew l + 1)) (lzPosOrg l)
       (lzPosNew l + 1) (lbEql l) (lzEql l) (liFnd l) (lzAhd l)
       (lzSkpOrg l) (lzSkpNew l) (lzLapSml l), m).
Proof.
  intros Hf. unfold next_new. now rewrite (get_new_mem m _ Hf).
Qed.

(** [flushEql] puts the pending equal bytes. *)
Lemma flushEql_mem (cO cN pO pN : Z) (b : bool)
  (e fnd ahd so sn lap : Z) (o : Out) :
  J e cO cN pO pN b o ->
  exists o1,
    flushEql (Locals cO cN pO pN b e fnd ahd so sn lap) o
    = (Locals cO cN pO pN false 0 fnd ahd so sn lap, o1)
    /\ J 0 cO cN pO pN false o1.
Proof.
  intros HJ. unfold flushEql. cbn [lzEql lzPosOrg lzPosNew lcOrg lcNew
    liFnd lzAhd lzSkpOrg lzSkpNew lzLapSml].
  destruct (Z.gtb_spec e 0) as [He|He].
  - put_step o1 Hc. exists o1. split; [reflexivity|].
    now apply (J_flush calls org new e cO cN pO pN 0 0 b false o o1).
  - assert (e = 0) by (destruct HJ; lia). subst e.
    exists o. split; [reflexivity|]. now apply J_flag with b.
Qed.

(** The loops that count equal bytes keep them pending. *)
Lemma count_equal_J (scn : bool) (fuel : nat) :
  forall (cnt : Z) (l : locals) (m : members (list Z) M) (o : Out)
         (e cnt' : Z) (l' : locals) (m' : members (list Z) M),
    count_equal sizeof_hkey scn fuel cnt l m = Some (cnt', l', m') ->
    Fl m ->
    J (e + cnt) (lcOrg l) (lcNew l) (lzPosOrg l) (lzPosNew l) true o ->
    Fl m'
    /\ J (e + cnt') (lcOrg l') (lcNew l') (lzPosOrg l') (lzPosNew l') true o
    /\ lbEql l' = lbEql l /\ lzEql l' = lzEql l.
Proof.
  induction fuel as [|fuel IH]; intros cnt l m o e cnt' l' m' E Hf HJ;
    cbn [count_equal] in E;
    destruct (Z.eqb_spec (lcOrg l) (lcNew l)) as [Hc|Hc];
    destruct (Z.geb_spec (lcNew l) 0) as [Hn|Hn];
    destruct (lzPosNew l <? lzLapSml l); cbn [andb] in E;
    try discriminate;
    try (injection E as <- <- <-;
         split; [assumption|split; [assumption|split; reflexivity]]).
  set (m1 := if scn && _ then _ else m) in E.
  assert (Hf1 : Fl m1).
  { subst m1. destruct (scn && _); [now apply index_org_files | exact Hf]. }
  clearbody m1. rewrite (next_both_mem l m1 Hf1) in E.
  apply (IH _ _ _ o e) in E; [|exact Hf1|].
  - exact E.
  - cbn [lcOrg lcNew lzPosOrg lzPosNew].
    replace (e + (cnt + 1)) with (e + cnt + 1) by lia.
    eapply J_extend; [exact HJ | exact Hc | lia].
Qed.

(** The loop that puts modified bytes keeps the invariant. *)
Lemma put_mods_inv (fuel : nat) :
  forall (l : locals) (m : members (list Z) M) (o : Out) (l' : locals)
         (m' : members (list Z) M) (o' : Out),
    put_mods fuel l m o = Some (l', m', o') ->
    lzEql l = 0 -> DI l m o -> DI l' m' o'.
Proof.
  induction fuel as [|fuel IH]; intros l m o l' m' o' E He HI;
    cbn [put_mods] in E;
    destruct (negb (lcOrg l =? lcNew l)); cbn [andb] in E;
    destruct (Z.geb_spec (lcOrg l) 0) as [Ho|Ho]; cbn [andb] in E;
    destruct (Z.geb_spec (lcNew l) 0) as [Hn|Hn]; cbn [andb] in E;
    destruct (lzAhd l >? 0);
    try discriminate; try (injection E as <- <- <-; exact HI).
  destruct HI as [Hf HJ]. put_step o1 Hc.
  rewrite (next_both_mem _ m Hf) in E.
  apply IH in E; [exact E | destruct l; exact He |].
  split; [exact Hf|]. destruct l; cbn in *. subst.
  eapply J_mod; [exact HJ | lia | exact Hc].
Qed.

(** The loop that puts inserted bytes keeps the invariant. *)
Lemma put_inss_inv (fuel : nat) :
  forall (l : locals) (m : members (list Z) M) (o : Out) (l' : locals)
         (m' : members (list Z) M) (o' : Out),
    put_inss fuel l m o = Some (l', m', o') ->
    lzEql l = 0 -> DI l m o -> DI l' m' o'.
Proof.
  induction fuel as [|fuel IH]; intros l m o l' m' o' E He HI;
    cbn [put_inss] in E;
    destruct (lzSkpNew l >? 0); cbn [andb] in E;
    destruct (Z.gtb_spec (lcNew l) EOF) as [Hn|Hn];
    try discriminate; try (injection E as <- <- <-; exact HI).
  destruct HI as [Hf HJ]. put_step o1 Hc.
  rewrite (next_new_mem _ m Hf) in E.
  apply IH in E; [exact E | destruct l; exact He |].
  split; [exact Hf|]. destruct l; cbn in *. subst.
  eapply J_ins; [exact HJ | unfold EOF in Hn; lia | exact Hc].
Qed.

(** One turn of the loop of [jdiff] keeps the invariant. *)
Lemma jdiff_turn_inv (fuel : nat) (l : locals) (m : members (list Z) M)
  (o : Out) (l' : locals) (m' : members (list Z) M) (o' : Out) :
  jdiff_turn sizeof_hkey search fuel l m o = Some (inr l', m', o') ->
  0 <= lcNew l -> DI l m o -> DI l' m' o'.
Proof.
  intros E Hn [Hf HJ]. unfold jdiff_turn in E. cbv zeta in E.
  pose proof (source_scan_files l m Hf) as Hf1.
  set (m1 := source_scan sizeof_hkey l m) in *. clearbody m1.
  destruct l as [cO cN pO pN b e fnd ahd so sn lap].
  cbn [lcOrg lcNew lzPosOrg lzPosNew lbEql lzEql liFnd lzAhd lzSkpOrg
         lzSkpNew lzLapSml] in *.
  destruct (Z.eqb_spec cO cN) as [Hc|Hc].
  - destruct b; cbn [negb] in E.
    + (* count equal bytes *)
      destruct (count_equal _ _ _ _ _ _) as [[[cnt l1] m2]|] eqn:Ec;
        [|discriminate].
      injection E as <- <- <-.
      apply (count_equal_J _ _ _ _ _ o e) in Ec;
        [|exact Hf1|cbn; rewrite Z.add_0_r; exact HJ].
      destruct Ec as (Hf2 & HJ2 & Hb & He). split; [exact Hf2|].
      cbn in *. rewrite Hb, He. exact HJ2.
    + (* the first equal byte *)
      assert (He : e = 0) by (destruct HJ as [_ _ _ _ Hfl _ _]; now apply Hfl).
      subst e. put_step o1 Hp. rewrite (next_both_mem _ m1 Hf1) in E.
      injection E as <- <- <-. split; [exact Hf1|]. cbn.
      eapply J_eql1; [exact HJ | exact Hc | lia | exact Hp].
  - destruct (flushEql_mem cO cN pO pN b e fnd ahd so sn lap o HJ)
      as (o1 & Ef & HJ1).
    rewrite Ef in E. clear Ef.
    cbn [lcOrg lcNew lzPosOrg lzPosNew lbEql lzEql liFnd lzAhd lzSkpOrg
           lzSkpNew lzLapSml] in E.
    destruct (ahd >? 0).
    + (* output difference *)
      destruct (Z.ltb_spec cO 0) as [Ho|Ho].
      * put_step o2 Hp. unfold less_ahead in E.
        rewrite (next_new_mem _ m1 Hf1) in E.
        injection E as <- <- <-. split; [exact Hf1|]. cbn.
        eapply J_ins; [exact HJ1 | lia | exact Hp].
      * destruct (put_mods _ _ _ _) as [[[l2 m2] o2]|] eqn:Em;
          [|discriminate].
        injection E as <- <- <-.
        apply put_mods_inv in Em; [exact Em | reflexivity |].
        split; [exact Hf1 | exact HJ1].
    + destruct ((fnd =? 1) && (ahd =? 0)).
      * (* the solution was no solution *)
        injection E as <- <- <-. split; [exact Hf1 | exact HJ].
      * (* look for a new solution *)
        pose proof (search_files m1 pO pN so sn ahd Hf1) as Hf2.
        destruct (search m1 pO pN so sn ahd)
          as [[r [[so1 sn1] ahd1]] m2]. cbn [snd] in Hf2.
        cbn [lcOrg lcNew lzPosOrg lzPosNew lbEql lzEql liFnd lzAhd
               lzSkpOrg lzSkpNew lzLapSml] in E.
        destruct (r <? 0); [discriminate|].
        match type of E with
        | context [if so1 >? 0 then ?A else ?B] =>
            set (x := if so1 >? 0 then A else B) in E
        end.
        assert (Hx : exists l3 m3 o3,
                   x = (l3, m3, o3) /\ DI l3 m3 o3 /\ lzEql l3 = 0).
        { subst x. destruct (so1 >? 0).
          - put_step o2 Hp. rewrite (get_org_mem m2 _ Hf2).
            eexists _, _, _. split; [reflexivity|].
            split; [|reflexivity]. split; [exact Hf2|]. cbn.
            eapply J_del; [exact HJ1 | exact Hp].
          - destruct (so1 <? 0).
            + put_step o2 Hp. rewrite (get_org_mem m2 _ Hf2).
              eexists _, _, _. split; [reflexivity|].
              split; [|reflexivity]. split; [exact Hf2|]. cbn.
              replace (pO + so1) with (pO - - so1) by lia.
              eapply J_bkt; [exact HJ1 | exact Hp].
            + eexists _, _, _. split; [reflexivity|].
              split; [|reflexivity]. split; [exact Hf2 | exact HJ1]. }
        destruct Hx as (l3 & m3 & o3 & -> & HI3 & He3).
        destruct (lzSkpNew l3 >? 0).
        -- destruct (put_inss _ _ _ _) as [[[l4 m4] o4]|] eqn:Ei;
             [|discriminate].
           injection E as <- <- <-.
           now apply put_inss_inv in Ei.
        -- injection E as <- <- <-. exact HI3.
Qed.

(** A turn of the loop returns error codes only. *)
Lemma jdiff_turn_return (fuel : nat) (l : locals) (m : members (list Z) M)
  (o : Out) (liRet : Z) (m' : members (list Z) M) (o' : Out) :
  jdiff_turn sizeof_hkey search fuel l m o = Some (inl liRet, m', o') ->
  liRet < 0.
Proof.
  unfold jdiff_turn. cbv zeta.
  repeat match goal with
         | |- context [put ?o ?a ?b ?c ?d ?e ?f] =>
             destruct (put o a b c d e f)
         | |- context [next_both ?l ?m] => destruct (next_both l m)
         | |- context [next_new ?l ?m] => destruct (next_new l m)
         | |- context [get_org ?m ?p] => destruct (get_org m p)
         | |- context [flushEql ?l ?o] => destruct (flushEql l o)
         | |- context [search ?m ?a ?b ?c ?d ?e] =>
             destruct (search m a b c d e) as [[? [[? ?] ?]] ?]
         | |- context [count_equal ?a ?b ?c ?d ?e ?f] =>
             destruct (count_equal a b c d e f) as [[[? ?] ?]|]
         | |- context [put_mods ?a ?b ?c ?d] =>
             destruct (put_mods a b c d) as [[[? ?] ?]|]
         | |- context [put_inss ?a ?b ?c ?d] =>
             destruct (put_inss a b c d) as [[[? ?] ?]|]
         | |- context [if ?b <? 0 then Some (inl _, _, _) else _] =>
             destruct (Z.ltb_spec b 0)
         | |- context [if ?b then _ else _] => destruct b
         end;
    try discriminate.
  all: intros E; injection E as <- <- <-; assumption.
Qed.

Lemma next_lap_inv (l : locals) (m : members (list Z) M) (o : Out) :
  DI l m o -> DI (next_lap miVerbse l) m o.
Proof.
  intros HI. unfold next_lap. destruct (_ && _); [|exact HI].
  destruct l. exact HI.
Qed.

(** The loop of [jdiff] keeps the invariant, and leaves at the end of the
    destination file. *)
Lemma jdiff_loop_inv (fuel : nat) :
  forall (l : locals) (m : members (list Z) M) (o : Out) (l' : locals)
         (m' : members (list Z) M) (o' : Out),
    jdiff_loop sizeof_hkey miVerbse search fuel l m o
    = Some (inr l', m', o') ->
    DI l m o -> DI l' m' o' /\ lcNew l' < 0.
Proof.
  induction fuel as [|fuel IH]; intros l m o l' m' o' E HI;
    cbn [jdiff_loop] in E;
    (destruct (Z.geb_spec (lcNew l) 0) as [Hn|Hn];
     [|injection E as <- <- <-; split; [exact HI | lia]]);
    [discriminate|].
  destruct (jdiff_turn _ _ _ _ _ _) as [[[[liRet|l1] m1] o1]|] eqn:Et;
    try discriminate.
  apply jdiff_turn_inv in Et; [|lia|exact HI].
  apply IH in E; [exact E|]. now apply next_lap_inv.
Qed.

Lemma jdiff_loop_return (fuel : nat) :
  forall (l : locals) (m : members (list Z) M) (o : Out) (liRet : Z)
         (m' : members (list Z) M) (o' : Out),
    jdiff_loop sizeof_hkey miVerbse search fuel l m o
    = Some (inl liRet, m', o') ->
    liRet < 0.
Proof.
  induction fuel as [|fuel IH]; intros l m o liRet m' o' E;
    cbn [jdiff_loop] in E;
    (destruct (lcNew l >=? 0); [|discriminate]); [discriminate|].
  destruct (jdiff_turn _ _ _ _ _ _) as [[[[liRet1|l1] m1] o1]|] eqn:Et;
    try discriminate.
  - injection E as <- <- <-. now apply jdiff_turn_return in Et.
  - now apply IH in E.
Qed.

(** The code a turn of the loop returns is the return value of a call of
    [search]. *)
Lemma jdiff_turn_searched (fuel : nat) (l : locals)
  (m : members (list Z) M) (o : Out) (liRet : Z)
  (m' : members (list Z) M) (o' : Out) :
  jdiff_turn sizeof_hkey search fuel l m o = Some (inl liRet, m', o') ->
  exists (m0 : members (list Z) M) (a b c d e : Z),
    fst (fst (search m0 a b c d e)) = liRet.
Proof.
  unfold jdiff_turn. cbv zeta.
  repeat match goal with
         | |- context [put ?o ?a ?b ?c ?d ?e ?f] =>
             destruct (put o a b c d e f)
         | |- context [next_both ?l ?m] => destruct (next_both l m)
         | |- context [next_new ?l ?m] => destruct (next_new l m)
         | |- context [get_org ?m ?p] => destruct (get_org m p)
         | |- context [flushEql ?l ?o] => destruct (flushEql l o)
         | |- context [search ?m ?a ?b ?c ?d ?e] =>
             let Es := fresh "Es" in
             destruct (search m a b c d e) as [[? [[? ?] ?]] ?] eqn:Es
         | |- context [count_equal ?a ?b ?c ?d ?e ?f] =>
             destruct (count_equal a b c d e f) as [[[? ?] ?]|]
         | |- context [put_mods ?a ?b ?c ?d] =>
             destruct (put_mods a b c d) as [[[? ?] ?]|]
         | |- context [put_inss ?a ?b ?c ?d] =>
             destruct (put_inss a b c d) as [[[? ?] ?]|]
         | |- context [if ?b <? 0 then Some (inl _, _, _) else _] =>
             destruct (Z.ltb_spec b 0)
         | |- context [if ?b then _ else _] => destruct b
         end;
    try discriminate.
  all: intros E; injection E as <- <- <-.
  all: match goal with
       | Es : search ?m0 ?a ?b ?c ?d ?e = _ |- _ =>
           exists m0, a, b, c, d, e; now rewrite Es
       end.
Qed.

Lemma jdiff_loop_searched (fuel : nat) :
  forall (l : locals) (m : members (list Z) M) (o : Out) (liRet : Z)
         (m' : members (list Z) M) (o' : Out),
    jdiff_loop sizeof_hkey miVerbse search fuel l m o
    = Some (inl liRet, m', o') ->
    exists (m0 : members (list Z) M) (a b c d e : Z),
      fst (fst (search m0 a b c d e)) = liRet.
Proof.
  induction fuel as [|fuel IH]; intros l m o liRet m' o' E;
    cbn [jdiff_loop] in E;
    (destruct (lcNew l >=? 0); [|discriminate]); [discriminate|].
  destruct (jdiff_turn _ _ _ _ _ _) as [[[[liRet1|l1] m1] o1]|] eqn:Et;
    try discriminate.
  - injection E as <- <- <-. now apply jdiff_turn_searched in Et.
  - now apply IH in E.
Qed.

(** When [jdiff] returns [EXI_OK], the calls of [put] describe the
    destination file. *)
Lemma jdiff_replay (fuel : nat) (m : members (list Z) M) (o : Out)
  (m' : members (list Z) M) (o' : Out) :
  jdiff sizeof_hkey MAX_OFF_T miVerbse search fuel m o
  = Some (EXI_OK, m', o') ->
  Fl m -> calls o = [] ->
  exists p, replay org (calls o') 0 [] = Some (p, new).
Proof.
  intros E Hf Ho. unfold jdiff in E. cbv zeta in E.
  rewrite (get_org_mem m 0 Hf), (get_new_mem m 0 Hf) in E.
  set (lap := if miVerbse >? 0 then _ else _) in E. clearbody lap.
  destruct (jdiff_loop _ _ _ _ _ _ _) as [[[[liRet|l1] m1] o1]|] eqn:El;
    [| |discriminate].
  - injection E as -> <- <-. apply jdiff_loop_return in El.
    unfold EXI_OK in El. lia.
  - apply jdiff_loop_inv in El as [[Hf1 HJ1] Hneg].
    2:{ split; [exact Hf|]. cbn.
        constructor; try reflexivity; try lia. now rewrite Ho. }
    destruct l1 as [cO cN pO pN b e fnd ahd so sn lap1].
    cbn [lcOrg lcNew lzPosOrg lzPosNew lbEql lzEql] in *.
    destruct (flushEql_mem cO cN pO pN b e fnd ahd so sn lap1 o1 HJ1)
      as (o2 & Ef & HJ2).
    rewrite Ef in E. clear Ef. put_step o3 Hp.
    cbn [lcOrg lcNew lzPosOrg lzPosNew] in *.
    exists pO.
    assert (o' = o3) by (destruct (_ || _); now injection E). subst o'.
    eapply J_end; [exact new_bytes | exact HJ2 | exact Hneg | exact Hp].
Qed.

(** *** The loop of [jdiff] ends *)

Lemma add_reliability (s : JHashPos.t) (akCurHsh azPos aiEqlCnt : Z) :
  JHashPos.get_reliability s
  <= JHashPos.get_reliability
       (JHashPos.add sizeof_hkey s akCurHsh azPos aiEqlCnt).
Proof.
  unfold JHashPos.get_reliability, JHashPos.add, JHashPos.add_store,
    JHashPos.add_load.
  repeat match goal with
         | |- context [if ?b then _ else _] => destruct b
         end; cbn; lia.
Qed.

Lemma adds_reliability (cs : list JHashPos.call) :
  forall s : JHashPos.t,
    JHashPos.get_reliability s
    <= JHashPos.get_reliability (JHashPos.adds sizeof_hkey s cs).
Proof.
  induction cs as [|c cs IH]; intros s; [cbn; lia|].
  change (JHashPos.adds sizeof_hkey s (c :: cs))
    with (JHashPos.adds sizeof_hkey
            (JHashPos.add sizeof_hkey s (JHashPos.c_hsh c)
               (JHashPos.c_pos c) (JHashPos.c_eql c)) cs).
  etransitivity; [apply add_reliability | apply IH].
Qed.

Lemma index_org_reliable (m : members (list Z) M) (c : Z) :
  Reliable m -> Reliable (index_org sizeof_hkey m c).
Proof.
  unfold Reliable, index_org. destruct (JDiff.scan_add _ _ _) as [r1 c1].
  cbn [gpHsh]. intros Hr. etransitivity; [exact Hr | apply add_reliability].
Qed.

Lemma source_scan_reliable (l : locals) (m : members (list Z) M) :
  Reliable m -> Reliable (source_scan sizeof_hkey l m).
Proof.
  unfold Reliable, source_scan.
  destruct (JDiff.jdiff_scan _ _ _ _ _) as [r1 cs].
  cbn [gpHsh]. intros Hr. etransitivity; [exact Hr | apply adds_reliability].
Qed.

Lemma count_equal_returns (scn : bool) (fuel : nat) :
  forall (cnt : Z) (l : locals) (m : members (list Z) M),
    Fl m -> Reliable m -> lcNew l = value_at new (lzPosNew l) ->
    Z.of_nat (length new) - lzPosNew l < Z.of_nat fuel ->
    exists cnt' l' m',
      count_equal sizeof_hkey scn fuel cnt l m = Some (cnt', l', m')
      /\ Reliable m'
      /\ lzPosNew l <= lzPosNew l'
      /\ (lcOrg l = lcNew l -> 0 <= lcNew l -> lzPosNew l < lzLapSml l ->
          lzPosNew l < lzPosNew l')
      /\ liFnd l' = liFnd l /\ lzAhd l' = lzAhd l
      /\ lzLapSml l' = lzLapSml l.
Proof.
  induction fuel as [|fuel IH]; intros cnt l m Hf Hr Hv Hfuel;
    cbn [count_equal];
    destruct (Z.eqb_spec (lcOrg l) (lcNew l)) as [Hc|Hc];
    destruct (Z.geb_spec (lcNew l) 0) as [Hn|Hn];
    destruct (Z.ltb_spec (lzPosNew l) (lzLapSml l)) as [Hl|Hl];
    cbn [andb];
    try (eexists _, _, _; split; [reflexivity|];
         repeat split; try assumption; lia).
  - rewrite Hv in Hn. apply value_at_in in Hn. lia.
  - set (m1 := if scn && _ then _ else m).
    assert (Hf1 : Fl m1 /\ Reliable m1).
    { subst m1. destruct (scn && _); split; try assumption;
        first [now apply index_org_files | now apply index_org_reliable]. }
    destruct Hf1 as [Hf1 Hr1]. clearbody m1.
    rewrite (next_both_mem l m1 Hf1).
    rewrite Hv in Hn. apply value_at_in in Hn as [Hn _].
    edestruct (IH (cnt + 1)) as (cnt' & l' & m' & -> & Hr' & Hm & _ & Hk);
      [exact Hf1 | exact Hr1 | reflexivity | cbn; lia |].
    cbn in Hm, Hk. eexists _, _, _. split; [reflexivity|].
    repeat split; try assumption; try lia; apply Hk.
Qed.

Lemma put_mods_returns (fuel : nat) :
  forall (l : locals) (m : members (list Z) M) (o : Out),
    Fl m -> Reliable m -> lcNew l = value_at new (lzPosNew l) ->
    Z.of_nat (length new) - lzPosNew l < Z.of_nat fuel ->
    exists l' m' o',
      put_mods fuel l m o = Some (l', m', o')
      /\ Reliable m'
      /\ lzPosNew l <= lzPosNew l'
      /\ (lcOrg l <> lcNew l -> 0 <= lcOrg l -> 0 <= lcNew l ->
          0 < lzAhd l -> lzPosNew l < lzPosNew l')
      /\ lzLapSml l' = lzLapSml l.
Proof.
  induction fuel as [|fuel IH]; intros l m o Hf Hr Hv Hfuel;
    cbn [put_mods];
    destruct (Z.eqb_spec (lcOrg l) (lcNew l)) as [Hc|Hc];
    destruct (Z.geb_spec (lcOrg l) 0) as [Ho|Ho];
    destruct (Z.geb_spec (lcNew l) 0) as [Hn|Hn];
    destruct (Z.gtb_spec (lzAhd l) 0) as [Ha|Ha];
    cbn [andb negb];
    try (eexists _, _, _; split; [reflexivity|];
         repeat split; try assumption; lia).
  - rewrite Hv in Hn. apply value_at_in in Hn. lia.
  - put_step o1 Hp. rewrite (next_both_mem _ m Hf).
    rewrite Hv in Hn. apply value_at_in in Hn as [Hn _].
    edestruct (IH) as (l' & m' & o' & -> & Hr' & Hm & _ & Hk);
      [exact Hf | exact Hr | reflexivity | destruct l; cbn in *; lia |].
    destruct l; cbn in *. eexists _, _, _. split; [reflexivity|].
    repeat split; try assumption; lia.
Qed.

Lemma put_inss_returns (fuel : nat) :
  forall (l : locals) (m : members (list Z) M) (o : Out),
    Fl m -> Reliable m -> lcNew l = value_at new (lzPosNew l) ->
    Z.of_nat (length new) - lzPosNew l < Z.of_nat fuel ->
    exists l' m' o',
      put_inss fuel l m o = Some (l', m', o')
      /\ Reliable m'
      /\ lzPosNew l <= lzPosNew l'
      /\ (0 < lzSkpNew l -> 0 <= lcNew l -> lzPosNew l < lzPosNew l')
      /\ (lzPosNew l' = lzPosNew l ->
          lcOrg l' = lcOrg l /\ lcNew l' = lcNew l)
      /\ liFnd l' = liFnd l /\ lzAhd l' = lzAhd l
      /\ lzLapSml l' = lzLapSml l.
Proof.
  induction fuel as [|fuel IH]; intros l m o Hf Hr Hv Hfuel;
    cbn [put_inss];
    destruct (Z.gtb_spec (lzSkpNew l) 0) as [Hs|Hs];
    destruct (Z.gtb_spec (lcNew l) EOF) as [Hn|Hn];
    cbn [andb]; unfold EOF in *;
    try (eexists _, _, _; split; [reflexivity|];
         repeat split; try assumption; lia).
  - rewrite Hv in Hn.
    assert (Hn' : 0 <= value_at new (lzPosNew l)) by lia.
    apply value_at_in in Hn'. lia.
  - put_step o1 Hp. rewrite (next_new_mem _ m Hf).
    assert (Hn' : 0 <= value_at new (lzPosNew l)) by (rewrite <- Hv; lia).
    apply value_at_in in Hn' as [Hn' _].
    edestruct (IH) as (l' & m' & o' & -> & Hr' & Hm & _ & _ & Hk);
      [exact Hf | exact Hr | reflexivity | destruct l; cbn in *; lia |].
    destruct l; cbn in *. eexists _, _, _. split; [reflexivity|].
    repeat split; try assumption; try lia; apply Hk.
Qed.

Hypothesis search_ahead :
  forall (m : members (list Z) M) (a b c d e r so sn ahd : Z)
         (m' : members (list Z) M),
    search m a b c d e = (r, (so, sn, ahd), m') ->
    0 <= r -> 0 < ahd \/ (r = 1 /\ ahd = 0).
Hypothesis search_reliable :
  forall (m : members (list Z) M) (a b c d e : Z),
    Reliable m -> Reliable (snd (search m a b c d e)).
Hypothesis new_short : Z.of_nat (length new) < MAX_OFF_T.

#[local] Abbreviation n := (Z.of_nat (length new)).

Lemma phase_range (l : locals) : 0 <= phase l <= 2.
Proof.
  unfold phase. destruct (_ || _); [lia|]. destruct (_ && _); lia.
Qed.

(** The turn that calls [search]. *)
Lemma jdiff_search_returns (cO cN pO pN fnd ahd so sn lap : Z)
  (m1 : members (list Z) M) (o1 : Out) (fuel : nat) :
  Fl m1 -> Reliable m1 -> J 0 cO cN pO pN false o1 -> 0 <= cN ->
  n - pN < Z.of_nat fuel ->
  phase (Locals cO cN pO pN false 0 fnd ahd so sn lap) = 2 ->
  exists res m' o',
    (let '(liFnd1, (lzSkpOrg1, lzSkpNew1, lzAhd1), m) :=
       search m1 pO pN so sn ahd in
     let l :=
       Locals cO cN pO pN false 0 liFnd1 lzAhd1 lzSkpOrg1 lzSkpNew1 lap in
     if liFnd1 <? 0 then Some (inl liFnd1, m, o1)
     else
       let '(l, m, o) :=
         if lzSkpOrg l >? 0 then
           let '(_, o) :=
             put o1 DEL (lzSkpOrg l) 0 0 (lzPosOrg l) (lzPosNew l) in
           let '(c, m) := get_org m (lzPosOrg l + lzSkpOrg l) in
           (Locals c (lcNew l) (lzPosOrg l + lzSkpOrg l) (lzPosNew l)
              (lbEql l) (lzEql l) (liFnd l) (lzAhd l) (lzSkpOrg l)
              (lzSkpNew l) (lzLapSml l), m, o)
         else if lzSkpOrg l <? 0 then
           let '(_, o) :=
             put o1 BKT (- lzSkpOrg l) 0 0 (lzPosOrg l) (lzPosNew l) in
           let '(c, m) := get_org m (lzPosOrg l + lzSkpOrg l) in
           (Locals c (lcNew l) (lzPosOrg l + lzSkpOrg l) (lzPosNew l)
              (lbEql l) (lzEql l) (liFnd l) (lzAhd l) (lzSkpOrg l)
              (lzSkpNew l) (lzLapSml l), m, o)
         else (l, m, o1) in
       if lzSkpNew l >? 0 then
         match put_inss fuel l m o with
         | None => None
         | Some (l, m, o) => Some (inr l, m, o)
         end
       else Some (inr l, m, o)) = Some (res, m', o')
    /\ match res with
       | inl _ => True
       | inr l' =>
           Reliable m' /\ lzLapSml l' = lap
           /\ (pN < lzPosNew l'
               \/ lzPosNew l' = pN
                  /\ phase l'
                     < phase (Locals cO cN pO pN false 0 fnd ahd so sn lap))
       end.
Proof.
  intros Hf1 Hr1 HJ1 Hn Hfuel Hph. rewrite Hph.
  pose proof (d_new _ _ _ _ _ _ _ _ _ _ HJ1) as Hv.
  pose proof (search_files m1 pO pN so sn ahd Hf1) as Hf2.
  pose proof (search_reliable m1 pO pN so sn ahd Hr1) as Hr2.
  pose proof (search_ahead m1 pO pN so sn ahd) as Ha.
  destruct (search m1 pO pN so sn ahd) as [[r [[so1 sn1] ahd1]] m2].
  cbn [snd] in Hf2, Hr2. specialize (Ha _ _ _ _ _ eq_refl).
  cbv zeta.
  cbn [lcOrg lcNew lzPosOrg lzPosNew lbEql lzEql liFnd lzAhd lzSkpOrg
         lzSkpNew lzLapSml].
  destruct (Z.ltb_spec r 0) as [Hneg|Hpos];
    [eexists _, _, _; split; [reflexivity | exact I]|].
  specialize (Ha Hpos).
  match goal with
  | |- context [if so1 >? 0 then ?A else ?B] =>
      set (x := if so1 >? 0 then A else B)
  end.
  assert (Hx : exists c o3,
             x = (Locals c cN (pO + so1) pN false 0 r ahd1 so1 sn1 lap, m2,
                  o3)).
  { subst x. destruct (Z.gtb_spec so1 0).
    - put_step o2 Hp. rewrite (get_org_mem m2 _ Hf2). eauto.
    - destruct (Z.ltb_spec so1 0).
      + put_step o2 Hp. rewrite (get_org_mem m2 _ Hf2). eauto.
      + exists cO, o1. replace (pO + so1) with pO by lia. reflexivity. }
  destruct Hx as (c & o3 & ->).
  cbn [lcOrg lcNew lzPosOrg lzPosNew lbEql lzEql liFnd lzAhd lzSkpOrg
         lzSkpNew lzLapSml].
  destruct (Z.gtb_spec sn1 0) as [Hs|Hs].
  - edestruct (put_inss_returns fuel
                 (Locals c cN (pO + so1) pN false 0 r ahd1 so1 sn1 lap) m2
                 o3)
      as (l' & m' & o' & -> & Hr' & _ & Hk & _ & _ & _ & Hl');
      [exact Hf2 | exact Hr2 | exact Hv | exact Hfuel |].
    cbn in Hk, Hl'. eexists _, _, _. split; [reflexivity|].
    split; [exact Hr'|]. split; [exact Hl'|]. left. now apply Hk.
  - eexists _, _, _. split; [reflexivity|].
    split; [exact Hr2|]. split; [reflexivity|]. right.
    split; [reflexivity|]. unfold phase. cbn.
    destruct (c =? cN); [cbn; lia|]. cbn [orb].
    destruct Ha as [Ha|[-> ->]].
    + destruct (Z.gtb_spec ahd1 0); [lia|lia].
    + cbn. lia.
Qed.

(** A turn of the loop returns, and brings the loop nearer to its end. *)
Lemma jdiff_turn_returns (fuel : nat) (l : locals)
  (m : members (list Z) M) (o : Out) :
  DI l m o -> Reliable m -> 0 <= lcNew l -> lzPosNew l < lzLapSml l ->
  n - lzPosNew l < Z.of_nat fuel ->
  exists res m' o',
    jdiff_turn sizeof_hkey search fuel l m o = Some (res, m', o')
    /\ match res with
       | inl _ => True
       | inr l' =>
           Reliable m' /\ lzLapSml l' = lzLapSml l
           /\ (lzPosNew l < lzPosNew l'
               \/ lzPosNew l' = lzPosNew l /\ phase l' < phase l)
       end.
Proof.
  intros [Hf HJ] Hr Hn Hlap Hfuel. unfold jdiff_turn. cbv zeta.
  pose proof (source_scan_files l m Hf) as Hf1.
  pose proof (source_scan_reliable l m Hr) as Hr1.
  set (m1 := source_scan sizeof_hkey l m) in *. clearbody m1.
  destruct l as [cO cN pO pN b e fnd ahd so sn lap].
  cbn [lcOrg lcNew lzPosOrg lzPosNew lbEql lzEql liFnd lzAhd lzSkpOrg
         lzSkpNew lzLapSml] in *.
  pose proof (d_new _ _ _ _ _ _ _ _ _ _ HJ) as Hv.
  destruct (Z.eqb_spec cO cN) as [Hc|Hc].
  - destruct b; cbn [negb].
    + (* count equal bytes *)
      edestruct (count_equal_returns (miSrcScn m1 =? 0) fuel 0
                   (Locals cO cN pO pN true e fnd ahd so sn lap) m1)
        as (cnt' & l' & m' & -> & Hr' & _ & Hk & _ & _ & Hl');
        [exact Hf1 | exact Hr1 | exact Hv | exact Hfuel |].
      cbn in Hk, Hl'. eexists _, _, _. split; [reflexivity|].
      cbn. split; [exact Hr'|]. split; [exact Hl'|]. left. now apply Hk.
    + (* the first equal byte *)
      put_step o1 Hp. rewrite (next_both_mem _ m1 Hf1).
      eexists _, _, _. split; [reflexivity|].
      cbn. split; [exact Hr1|]. split; [reflexivity|]. left. lia.
  - destruct (flushEql_mem cO cN pO pN b e fnd ahd so sn lap o HJ)
      as (o1 & -> & HJ1).
    cbn [lcOrg lcNew lzPosOrg lzPosNew lbEql lzEql liFnd lzAhd lzSkpOrg
           lzSkpNew lzLapSml].
    destruct (Z.gtb_spec ahd 0) as [Ha|Ha].
    + (* output difference *)
      destruct (Z.ltb_spec cO 0) as [Ho|Ho].
      * put_step o2 Hp. unfold less_ahead.
        rewrite (next_new_mem _ m1 Hf1).
        eexists _, _, _. split; [reflexivity|].
        cbn. split; [exact Hr1|]. split; [reflexivity|]. left. lia.
      * edestruct (put_mods_returns fuel
                     (Locals cO cN pO pN false 0 fnd ahd so sn lap) m1 o1)
          as (l' & m' & o' & -> & Hr' & _ & Hk & Hl');
          [exact Hf1 | exact Hr1 | exact Hv | exact Hfuel |].
        cbn in Hk, Hl'. eexists _, _, _. split; [reflexivity|].
        split; [exact Hr'|]. split; [exact Hl'|]. left.
        apply Hk; assumption || lia.
    + destruct (Z.eqb_spec fnd 1) as [Hfnd|Hfnd];
        [destruct (Z.eqb_spec ahd 0) as [Hz|Hz]|]; cbn [andb].
      * (* the solution was no solution *)
        eexists _, _, _. split; [reflexivity|].
        split; [exact Hr1|]. split; [reflexivity|]. right.
        split; [reflexivity|]. unfold phase. cbn.
        assert (Hq : 1 <= Z.quot (JHashPos.get_reliability (gpHsh m1)) 2)
          by (apply Z.quot_le_lower_bound; [lia | exact Hr1]).
        destruct (Z.eqb_spec cO cN); [contradiction|].
        destruct (Z.gtb_spec (Z.quot (JHashPos.get_reliability (gpHsh m1)) 2)
                    0); [|lia].
        destruct (Z.gtb_spec ahd 0); [lia|].
        cbn [orb]. subst fnd ahd. cbn. lia.
      * apply (jdiff_search_returns cO cN pO pN fnd ahd so sn lap m1 o1);
          try assumption.
        unfold phase. cbn.
        destruct (Z.eqb_spec cO cN); [contradiction|].
        destruct (Z.gtb_spec ahd 0); [lia|].
        destruct (Z.eqb_spec ahd 0); [contradiction|].
        cbn. now rewrite andb_false_r.
      * apply (jdiff_search_returns cO cN pO pN fnd ahd so sn lap m1 o1);
          try assumption.
        unfold phase. cbn.
        destruct (Z.eqb_spec cO cN); [contradiction|].
        destruct (Z.gtb_spec ahd 0); [lia|].
        destruct (Z.eqb_spec fnd 1); [contradiction|]. reflexivity.
Qed.

Lemma next_lap_lap (l l' : locals) :
  Lap miVerbse n l -> lzLapSml l' = lzLapSml l ->
  Lap miVerbse n (next_lap miVerbse l').
Proof.
  unfold Lap, next_lap. intros HL Hl.
  destruct (Z.gtb_spec miVerbse 1) as [Hv|Hv];
    destruct (Z.leb_spec (lzLapSml l') (lzPosNew l')) as [Hp|Hp];
    cbn [andb].
  - left. cbn. unfold PGSMRK. lia.
  - left. lia.
  - right. lia.
  - right. lia.
Qed.

Lemma next_lap_rank (l : locals) :
  rank n (next_lap miVerbse l) = rank n l.
Proof. unfold next_lap. destruct (_ && _); [|reflexivity]. now destruct l. Qed.

(** The loop of [jdiff] ends. *)
Lemma jdiff_loop_ends (fuel : nat) :
  forall (l : locals) (m : members (list Z) M) (o : Out),
    DI l m o -> Reliable m -> Lap miVerbse n l ->
    rank n l < Z.of_nat fuel ->
    exists res m' o',
      jdiff_loop sizeof_hkey miVerbse search fuel l m o
      = Some (res, m', o').
Proof.
  induction fuel as [|fuel IH]; intros l m o HI Hr HL Hfuel;
    cbn [jdiff_loop];
    (destruct (Z.geb_spec (lcNew l) 0) as [Hn|Hn]; [|eauto]);
    pose proof (phase_range l) as Hph;
    pose proof HI as [_ HJ];
    pose proof (d_len _ _ _ _ _ _ _ _ _ _ HJ) as Hlen;
    unfold rank in Hfuel; [lia|].
  assert (Hin : lzPosNew l < n).
  { rewrite (d_new _ _ _ _ _ _ _ _ _ _ HJ) in Hn.
    apply value_at_in in Hn. lia. }
  assert (Hlap : lzPosNew l < lzLapSml l) by (destruct HL; lia).
  destruct (jdiff_turn_returns fuel l m o HI Hr Hn Hlap ltac:(lia))
    as (res & m1 & o1 & Et & Hres).
  rewrite Et. destruct res as [liRet|l1]; [eauto|].
  destruct Hres as (Hr1 & Hl1 & Hadv).
  pose proof (jdiff_turn_inv _ _ _ _ _ _ _ Et Hn HI) as HI1.
  pose proof HI1 as [_ HJ1].
  pose proof (d_len _ _ _ _ _ _ _ _ _ _ HJ1) as Hlen1.
  pose proof (phase_range l1) as Hph1.
  apply IH.
  - now apply next_lap_inv.
  - exact Hr1.
  - now apply next_lap_lap with l.
  - rewrite next_lap_rank. unfold rank. lia.
Qed.

(** With a [search] that tells how far to advance, [jdiff] returns. *)
Lemma jdiff_ends (m : members (list Z) M) (o : Out) :
  Forall (fun b => 0 <= b) org ->
  Fl m -> Reliable m -> calls o = [] ->
  exists r m' o',
    jdiff sizeof_hkey MAX_OFF_T miVerbse search (3 * length new + 3) m o
    = Some (r, m', o')
    /\ ((r < 0
         /\ exists (m0 : members (list Z) M) (a b c d e : Z),
              fst (fst (search m0 a b c d e)) = r)
        \/ (r = EXI_OK
            /\ exists p, replay org (calls o') 0 [] = Some (p, new))).
Proof.
  intros org_bytes Hf Hr Ho.
  assert (HE : exists r m' o',
             jdiff sizeof_hkey MAX_OFF_T miVerbse search
               (3 * length new + 3) m o = Some (r, m', o')).
  { unfold jdiff. cbv zeta.
    rewrite (get_org_mem m 0 Hf), (get_new_mem m 0 Hf).
    set (lap := if miVerbse >? 0 then _ else _).
    edestruct (jdiff_loop_ends (3 * length new + 3)
                 (Locals (value_at org 0) (value_at new 0) 0 0 false 0 0 0
                    0 0 lap) m o)
      as (res & m1 & o1 & ->).
    - split; [exact Hf|]. cbn.
      constructor; try reflexivity; try lia. now rewrite Ho.
    - exact Hr.
    - unfold Lap. cbn. subst lap.
      destruct (Z.gtb_spec miVerbse 0); destruct (Z.gtb_spec miVerbse 1);
        unfold PGSMRK; lia.
    - pose proof (phase_range
                    (Locals (value_at org 0) (value_at new 0) 0 0 false 0 0
                       0 0 0 lap)).
      unfold rank. cbn [lzPosNew]. lia.
    - destruct res as [liRet|l1]; [eauto|].
      destruct (flushEql l1 o1) as [l2 o2].
      destruct (put o2 ESC 0 0 0 (lzPosOrg l2) (lzPosNew l2)). eauto. }
  destruct HE as (r & m' & o' & E). exists r, m', o'.
  split; [exact E|].
  assert (Hcode : (r < 0
                   /\ exists (m0 : members (list Z) M) (a b c d e : Z),
                        fst (fst (search m0 a b c d e)) = r)
                  \/ r = EXI_OK).
  { pose proof E as E1. unfold jdiff in E1. cbv zeta in E1.
    rewrite (get_org_mem m 0 Hf), (get_new_mem m 0 Hf) in E1.
    set (lap := if miVerbse >? 0 then _ else _) in E1. clearbody lap.
    destruct (jdiff_loop _ _ _ _ _ _ _) as [[[[liRet|l1] m3] o1]|] eqn:El;
      [| |discriminate].
    - injection E1 as <- <- <-. left.
      split; [now apply jdiff_loop_return in El
             | now apply jdiff_loop_searched in El].
    - right. apply jdiff_loop_inv in El as [[Hf1 HJ1] Hneg].
      2:{ split; [exact Hf|]. cbn.
          constructor; try reflexivity; try lia. now rewrite Ho. }
      destruct l1 as [cO cN pO pN b e fnd ahd so sn lap1].
      cbn [lcOrg lcNew lzPosOrg lzPosNew lbEql lzEql] in *.
      destruct (flushEql_mem cO cN pO pN b e fnd ahd so sn lap1 o1 HJ1)
        as (o2 & Ef & HJ2).
      rewrite Ef in E1. clear Ef.
      destruct (put o2 ESC 0 0 0 _ _) as [b3 o3].
      cbn [lcOrg lcNew lzPosOrg lzPosNew] in E1.
      pose proof (value_at_floor org pO org_bytes) as HvO.
      pose proof (value_at_floor new pN new_bytes) as HvN.
      destruct HJ2 as [Dorg Dnew _ _ _ _ _]. rewrite <- Dorg in HvO.
      rewrite <- Dnew in HvN. unfold EOB, EOF in *.
      destruct (Z.ltb_spec cN (-1 - 1)); [lia|].
      destruct (Z.ltb_spec cO (-1 - 1)); [lia|].
      cbn [orb] in E1. now injection E1 as <- _ _. }
  destruct Hcode as [Hneg| ->]; [now left | right].
  split; [reflexivity|]. exact (jdiff_replay _ m o m' o' E Hf Ho).
Qed.

End DiffRun.

(** X19. Whatever [search] answers, [jdiff] does not describe another
    file: when it returns [EXI_OK] on two files held in memory, the calls
    of [put] it has made, executed as [jpatch] executes the operators,
    build the destination file from the source file, and every call
    carries the positions at which the patcher stands. *)
Theorem jdiff_describes_new {M Out : Type} `{DiffLoop.JOut Out}
  (sizeof_hkey MAX_OFF_T miVerbse : Z)
  (search : DiffLoop.members (list Z) M -> Z -> Z -> Z -> Z -> Z
            -> Z * (Z * Z * Z) * DiffLoop.members (list Z) M)
  (calls : Out -> list DiffLoop.call) (fuel : nat)
  (m m' : DiffLoop.members (list Z) M) (o o' : Out) :
  (forall (o : Out) (a b c d e f : Z),
      calls (snd (DiffLoop.put o a b c d e f))
      = calls o ++ [DiffLoop.Call a b c d e f]) ->
  (forall (m : DiffLoop.members (list Z) M) (a b c d e : Z),
      DiffLoop.mpFilOrg (snd (search m a b c d e)) = DiffLoop.mpFilOrg m
      /\ DiffLoop.mpFilNew (snd (search m a b c d e))
         = DiffLoop.mpFilNew m) ->
  Forall (fun b => 0 <= b) (DiffLoop.mpFilNew m) ->
  calls o = [] ->
  DiffLoop.jdiff sizeof_hkey MAX_OFF_T miVerbse search fuel m o
  = Some (JDefs.EXI_OK, m', o') ->
  exists p,
    replay (DiffLoop.mpFilOrg m) (calls o') 0 []
    = Some (p, DiffLoop.mpFilNew m).
Proof.
  intros Hput Hsearch Hbytes Ho E.
  eapply (jdiff_replay sizeof_hkey MAX_OFF_T miVerbse search calls
            (DiffLoop.mpFilOrg m) (DiffLoop.mpFilNew m) Hput);
    [| exact Hbytes | exact E | now split | exact Ho].
  intros m0 a b c d e [H1 H2]. destruct (Hsearch m0 a b c d e) as [H3 H4].
  split; congruence.
Qed.

Lemma jdiff_describes_new_witness :
  exists p,
    replay [1; 2; 3; 4; 5; 6] example_calls 0 []
    = Some (p, [1; 2; 9; 4; 5; 6; 7]).
Proof.
  eapply (jdiff_describes_new 4 (2 ^ 63 - 1) 0 (search_none 4)
            (fun o => o) 24 example_members _ [] example_calls).
  - intros; reflexivity.
  - intros; split; reflexivity.
  - repeat constructor; lia.
  - reflexivity.
  - vm_compute. reflexivity.
Defined.

(** X20. With a [search] that keeps the files and the reliability of the
    index and that tells to advance ([0 < azAhd], or a solution with
    [azAhd = 0]), [jdiff] returns on two files held in memory, within
    three turns of its loop for each byte of the destination file: a
    negative code that [search] returned, or [EXI_OK], and then the calls
    of [put] describe the destination file. *)
Theorem jdiff_returns {M Out : Type} `{DiffLoop.JOut Out}
  (sizeof_hkey MAX_OFF_T miVerbse : Z)
  (search : DiffLoop.members (list Z) M -> Z -> Z -> Z -> Z -> Z
            -> Z * (Z * Z * Z) * DiffLoop.members (list Z) M)
  (calls : Out -> list DiffLoop.call)
  (m : DiffLoop.members (list Z) M) (o : Out) :
  (forall (o : Out) (a b c d e f : Z),
      calls (snd (DiffLoop.put o a b c d e f))
      = calls o ++ [DiffLoop.Call a b c d e f]) ->
  (forall (m : DiffLoop.members (list Z) M) (a b c d e : Z),
      DiffLoop.mpFilOrg (snd (search m a b c d e)) = DiffLoop.mpFilOrg m
      /\ DiffLoop.mpFilNew (snd (search m a b c d e))
         = DiffLoop.mpFilNew m) ->
  (forall (m : DiffLoop.members (list Z) M) (a b c d e r so sn ahd : Z)
          (m' : DiffLoop.members (list Z) M),
      search m a b c d e = (r, (so, sn, ahd), m') ->
      0 <= r -> 0 < ahd \/ (r = 1 /\ ahd = 0)) ->
  (forall (m : DiffLoop.members (list Z) M) (a b c d e : Z),
      Reliable m -> Reliable (snd (search m a b c d e))) ->
  Forall (fun b => 0 <= b) (DiffLoop.mpFilOrg m) ->
  Forall (fun b => 0 <= b) (DiffLoop.mpFilNew m) ->
  Z.of_nat (length (DiffLoop.mpFilNew m)) < MAX_OFF_T ->
  Reliable m ->
  calls o = [] ->
  exists r m' o',
    DiffLoop.jdiff sizeof_hkey MAX_OFF_T miVerbse search
      (3 * length (DiffLoop.mpFilNew m) + 3) m o = Some (r, m', o')
    /\ ((r < 0
         /\ exists (m0 : DiffLoop.members (list Z) M) (a b c d e : Z),
              fst (fst (search m0 a b c d e)) = r)
        \/ (r = JDefs.EXI_OK
            /\ exists p,
                 replay (DiffLoop.mpFilOrg m) (calls o') 0 []
                 = Some (p, DiffLoop.mpFilNew m))).
Proof.
  intros Hput Hsearch Hahead Hrel Horg Hbytes Hshort Hr Ho.
  eapply (jdiff_ends sizeof_hkey MAX_OFF_T miVerbse search calls
            (DiffLoop.mpFilOrg m) (DiffLoop.mpFilNew m) Hput);
    [| exact Hbytes | exact Hahead | exact Hrel | exact Hshort | exact Horg
     | now split | exact Hr | exact Ho].
  intros m0 a b c d e [H1 H2]. destruct (Hsearch m0 a b c d e) as [H3 H4].
  split; congruence.
Qed.

Lemma jdiff_returns_witness :
  exists r m' o',
    DiffLoop.jdiff 4 (2 ^ 63 - 1) 0 (search_none 4) 24 example_members
      ([] : list DiffLoop.call) = Some (r, m', o')
    /\ ((r < 0
         /\ exists (m0 : DiffLoop.members (list Z) unit) (a b c d e : Z),
              fst (fst (search_none 4 m0 a b c d e)) = r)
        \/ (r = JDefs.EXI_OK
            /\ exists p,
                 replay [1; 2; 3; 4; 5; 6] o' 0 []
                 = Some (p, [1; 2; 9; 4; 5; 6; 7]))).
Proof.
  apply (jdiff_returns 4 (2 ^ 63 - 1) 0 (search_none 4) (fun o => o)
           example_members []).
  - intros; reflexivity.
  - intros; split; reflexivity.
  - intros m a b c d e r so sn ahd m' E _. injection E as <- <- <- <- <-.
    left. reflexivity.
  - intros m a b c d e Hr. exact Hr.
  - repeat constructor; lia.
  - repeat constructor; lia.
  - cbn. lia.
  - unfold Reliable. vm_compute. discriminate.
  - reflexivity.
Defined.
(** ** The sizes main settles on *)

Section MainSizesFacts.

Import MainSizes.

Lemma align_spec (llBuf liBlkSze : Z) :
  0 < llBuf -> 0 < liBlkSze ->
  let b := align llBuf liBlkSze in
  liBlkSze <= b /\ b mod liBlkSze = 0
  /\ b = Z.max (llBuf / liBlkSze) 1 * liBlkSze.
Proof.
  intros Hb Hk. unfold align.
  rewrite Z.rem_mod_nonneg by lia.
  pose proof (Z.mod_pos_bound llBuf liBlkSze Hk) as Hm.
  pose proof (Z.div_mod llBuf liBlkSze ltac:(lia)) as Hd.
  assert (Hq : 0 <= llBuf / liBlkSze) by (apply Z.div_pos; lia).
  destruct (Z.eqb_spec (llBuf mod liBlkSze) 0) as [Hz|Hz]; cbn [negb].
  - cbv zeta. assert (1 <= llBuf / liBlkSze) by nia.
    split; [nia|]. split; [exact Hz|]. nia.
  - cbv zeta.
    destruct (Z.leb_spec (llBuf - llBuf mod liBlkSze) 0) as [Hle|Hgt].
    + assert (llBuf / liBlkSze = 0) by nia.
      split; [lia|]. split; [apply Z_mod_same_full|]. nia.
    + assert (1 <= llBuf / liBlkSze) by nia.
      replace (llBuf - llBuf mod liBlkSze)
        with (llBuf / liBlkSze * liBlkSze) by lia.
      split; [nia|]. split; [apply Z_mod_mult|]. nia.
Qed.

Lemma buffer_sizes_kept (llBuf liBlkSze : Z) :
  0 < liBlkSze <= llBuf -> llBuf mod liBlkSze = 0 ->
  Construct.buffer_sizes llBuf liBlkSze = (llBuf, liBlkSze).
Proof.
  intros Hk Hm. unfold Construct.buffer_sizes.
  destruct (Z.eqb_spec llBuf 0); [lia|].
  destruct (Z.eqb_spec liBlkSze 0); [lia|]. cbv zeta.
  rewrite Z.rem_mod_nonneg by lia. rewrite Hm. cbn [Z.eqb negb].
  destruct (Z.eqb_spec llBuf 0); [lia|]. reflexivity.
Qed.

End MainSizesFacts.

(** X21. The buffer sizes that [main] passes to the two readers are
    multiples of the block size, of one block at least, and the block has
    4096 bytes at least: the constructor of [JFileAhead] keeps all of them
    as they are.  A lookahead range left at 0 becomes 4096 at least. *)
Theorem main_buffers_aligned (LONG_MAX int_bits : Z)
  (llBufOrg llBufNew liBlkSze liAhdMax : Z) (lbSeqOrg lbSeqNew : bool)
  (bufOrg bufNew blk ahd : Z) :
  MainSizes.buffers LONG_MAX int_bits llBufOrg llBufNew liBlkSze liAhdMax
    lbSeqOrg lbSeqNew = Some (bufOrg, bufNew, blk, ahd) ->
  blk = Z.max liBlkSze 4096
  /\ blk <= bufOrg /\ bufOrg mod blk = 0
  /\ blk <= bufNew /\ bufNew mod blk = 0
  /\ Construct.buffer_sizes bufOrg blk = (bufOrg, blk)
  /\ Construct.buffer_sizes bufNew blk = (bufNew, blk)
  /\ (liAhdMax = 0 -> 4096 <= ahd)
  /\ (liAhdMax <> 0 -> ahd = liAhdMax).
Proof.
  unfold MainSizes.buffers. cbv zeta.
  set (o := if llBufOrg >? 0 then llBufOrg else if lbSeqOrg then 32 else 1).
  set (n := if llBufNew >? 0 then llBufNew else if lbSeqNew then 16 else o).
  assert (Ho : 0 < o).
  { subst o. destruct (Z.gtb_spec llBufOrg 0); [lia|].
    destruct lbSeqOrg; lia. }
  assert (Hn : 0 < n).
  { subst n. destruct (Z.gtb_spec llBufNew 0); [lia|].
    destruct lbSeqNew; lia. }
  clearbody o n.
  destruct (Z.ltb_spec LONG_MAX (n * 1024 * 1024)) as [|Hln];
    [discriminate|].
  destruct (Z.ltb_spec LONG_MAX (o * 1024 * 1024)) as [|Hlo];
    [discriminate|].
  cbn [orb]. intros E. injection E as <- <- <- <-.
  set (k := if liBlkSze <? 4096 then 4096 else liBlkSze).
  assert (Hk : k = Z.max liBlkSze 4096).
  { subst k. destruct (Z.ltb_spec liBlkSze 4096); lia. }
  clearbody k.
  pose proof (align_spec (o * 1024 * 1024) k ltac:(lia) ltac:(lia))
    as (Ho1 & Ho2 & Ho3).
  pose proof (align_spec (n * 1024 * 1024) k ltac:(lia) ltac:(lia))
    as (Hn1 & Hn2 & Hn3).
  cbv zeta in *.
  repeat split; try assumption.
  - apply buffer_sizes_kept; [lia | exact Ho2].
  - apply buffer_sizes_kept; [lia | exact Hn2].
  - intros ->. change (0 =? 0) with true. cbv iota.
    destruct (_ >? _); destruct (Z.ltb_spec (MainSizes.to_int int_bits
      (MainSizes.align (n * 1024 * 1024) k - k)) 4096); lia.
  - intros Hne. destruct (Z.eqb_spec liAhdMax 0); [contradiction|].
    reflexivity.
Qed.

Lemma main_buffers_aligned_witness :
  32768 = Z.max 32768 4096
  /\ 32768 <= 1048576 /\ 1048576 mod 32768 = 0
  /\ 32768 <= 1048576 /\ 1048576 mod 32768 = 0
  /\ Construct.buffer_sizes 1048576 32768 = (1048576, 32768)
  /\ Construct.buffer_sizes 1048576 32768 = (1048576, 32768)
  /\ (0 = 0 -> 4096 <= 1015808)
  /\ (0 <> 0 -> 1015808 = 0).
Proof.
  apply (main_buffers_aligned (2 ^ 63 - 1) 32 0 0 32768 0 false false
           1048576 1048576 32768 1015808).
  reflexivity.
Defined.

(** X22. The offsets that [search] computes lead to the match it elected:
    once [azSkpOrg] and [azSkpNew] bytes are skipped, [azAhd] bytes further
    the two files stand at the match.  The source file is never taken
    back behind the base position, nothing is taken back on the
    destination file, and the answer tells [jdiff] to advance: [azAhd] is
    positive, or it is 0 and a solution is announced.  When nothing was
    found, [search] returns 0 and skips nothing on either file, and
    [azAhd] is the distance to the end of the scan, at least [SMPSZE]. *)
Theorem search_offsets_lead (sizeof_hkey : Z) (lbFnd : bool)
  (lzFndOrg lzFndNew azRedOrg azRedNew lzBseOrg mzAhdNew : Z) :
  0 < sizeof_hkey ->
  lzBseOrg <= azRedOrg -> lzBseOrg <= lzFndOrg -> azRedNew <= lzFndNew ->
  let '(r, (azSkpOrg, azSkpNew, azAhd)) :=
    JDiff.search_offsets sizeof_hkey lbFnd lzFndOrg lzFndNew azRedOrg
      azRedNew lzBseOrg mzAhdNew in
  (0 < azAhd \/ (r = 1 /\ azAhd = 0))
  /\ (lbFnd = false ->
      r = 0 /\ azSkpOrg = 0 /\ azSkpNew = 0
      /\ azAhd = Z.max (mzAhdNew - azRedNew) (SMPSZE sizeof_hkey))
  /\ 0 <= azSkpNew
  /\ lzBseOrg <= azRedOrg + azSkpOrg
  /\ (lbFnd = true ->
      r = 1
      /\ azRedOrg + azSkpOrg + azAhd = lzFndOrg
      /\ azRedNew + azSkpNew + azAhd = lzFndNew).
Proof.
  intros Hs Hb Hf Hn. unfold JDiff.search_offsets, SMPSZE.
  destruct lbFnd; cbn [negb].
  - destruct (Z.geb_spec lzFndOrg azRedOrg);
      [destruct (Z.geb_spec (lzFndOrg - azRedOrg) (lzFndNew - azRedNew))
      |destruct (Z.leb_spec (azRedOrg - lzFndOrg + lzFndNew - azRedNew)
                  (azRedOrg - lzBseOrg))];
      repeat split; try discriminate; lia.
  - destruct (Z.ltb_spec (mzAhdNew - azRedNew) (sizeof_hkey * 8));
      repeat split; try discriminate; lia.
Qed.

Lemma search_offsets_lead_witness :
  let '(r, (azSkpOrg, azSkpNew, azAhd)) :=
    JDiff.search_offsets 4 true 20 12 10 9 0 0 in
  (0 < azAhd \/ (r = 1 /\ azAhd = 0))
  /\ (true = false ->
      r = 0 /\ azSkpOrg = 0 /\ azSkpNew = 0
      /\ azAhd = Z.max (0 - 9) (SMPSZE 4))
  /\ 0 <= azSkpNew
  /\ 0 <= 10 + azSkpOrg
  /\ (true = true ->
      r = 1 /\ 10 + azSkpOrg + azAhd = 20 /\ 9 + azSkpNew + azAhd = 12).
Proof.
  apply (search_offsets_lead 4 true 20 12 10 9 0 0); lia.
Defined.
(** ** The output of regions *)

Section RgnFacts.

Import JDefs.

Variable JDIFF_LARGEFILE : bool.

Ltac split_opr x :=
  destruct (Z.eqb_spec x MOD) as [->|?];
  [|destruct (Z.eqb_spec x INS) as [->|?];
    [|destruct (Z.eqb_spec x DEL) as [->|?];
      [|destruct (Z.eqb_spec x BKT) as [->|?];
        [|destruct (Z.eqb_spec x EQL) as [->|?]]]]].

Ltac rgn_done :=
  cbn;
  repeat match goal with
         | H : ?x <> ?y |- context [?x =? ?y] =>
             rewrite (proj2 (Z.eqb_neq x y) H)
         end;
  repeat split; try reflexivity; try (exfalso; congruence);
  try lia.

(** The old operator is written: what was pending is counted. *)
Lemma put_old_counts (o : JOutRgn.t) (azPosOrg azPosNew : Z) :
  let o' := JOutRgn.put_old JDIFF_LARGEFILE o azPosOrg azPosNew in
  JOutRgn.gzOutBytDta o'
  = JOutRgn.gzOutBytDta o + pending MOD o + pending INS o
  /\ JOutRgn.gzOutBytEql o' = JOutRgn.gzOutBytEql o + pending EQL o
  /\ JOutRgn.gzOutBytDel o' = JOutRgn.gzOutBytDel o + pending DEL o
  /\ JOutRgn.gzOutBytBkt o' = JOutRgn.gzOutBytBkt o + pending BKT o
  /\ JOutRgn.gzOutBytEsc o' = JOutRgn.gzOutBytEsc o.
Proof.
  destruct o as [cur cnt ctl dta del bkt eql esc out].
  cbv zeta. unfold pending, JOutRgn.put_old.
  cbn [JOutRgn.siOprCur JOutRgn.szOprCnt JOutRgn.gzOutBytCtl
         JOutRgn.gzOutBytDta JOutRgn.gzOutBytDel JOutRgn.gzOutBytBkt
         JOutRgn.gzOutBytEql JOutRgn.gzOutBytEsc].
  split_opr cur; rgn_done.
Qed.

(** One call of [put]: what is counted and what is pending. *)
Lemma put_counts (o : JOutRgn.t) (c : DiffLoop.call) :
  let o' :=
    snd (JOutRgn.put JDIFF_LARGEFILE o (DiffLoop.aiOpr c)
           (DiffLoop.azLen c) (DiffLoop.aiOrg c) (DiffLoop.aiNew c)
           (DiffLoop.azPosOrg c) (DiffLoop.azPosNew c)) in
  JOutRgn.gzOutBytDta o' + pending MOD o' + pending INS o'
  = JOutRgn.gzOutBytDta o + pending MOD o + pending INS o
    + total MOD [c] + total INS [c]
  /\ JOutRgn.gzOutBytEql o' + pending EQL o'
     = JOutRgn.gzOutBytEql o + pending EQL o + total EQL [c]
  /\ JOutRgn.gzOutBytDel o' + pending DEL o'
     = JOutRgn.gzOutBytDel o + pending DEL o + total DEL [c]
  /\ JOutRgn.gzOutBytBkt o' + pending BKT o'
     = JOutRgn.gzOutBytBkt o + pending BKT o + total BKT [c]
  /\ JOutRgn.gzOutBytEsc o' = JOutRgn.gzOutBytEsc o + escapes [c].
Proof.
  destruct c as [opr len aorg anew porg pnew].
  cbv zeta. unfold total, escapes, JOutRgn.put.
  cbn [fold_right DiffLoop.aiOpr DiffLoop.azLen DiffLoop.aiOrg
         DiffLoop.aiNew DiffLoop.azPosOrg DiffLoop.azPosNew].
  destruct (Z.eqb_spec opr (JOutRgn.siOprCur o)) as [Hs|Hd]; cbn [negb].
  - (* the operator goes on *)
    destruct o as [cur cnt ctl dta del bkt eql esc out].
    cbn [JOutRgn.siOprCur] in Hs. subst cur. unfold pending.
    destruct (Z.eqb_spec anew ESC); split_opr opr; rgn_done.
  - (* the old operator is written *)
    pose proof (put_old_counts o porg pnew) as (H1 & H2 & H3 & H4 & H5).
    cbv zeta in *.
    destruct (JOutRgn.put_old JDIFF_LARGEFILE o porg pnew)
      as [cur1 cnt1 ctl1 dta1 del1 bkt1 eql1 esc1 out1].
    cbn [JOutRgn.siOprCur JOutRgn.szOprCnt JOutRgn.gzOutBytCtl
           JOutRgn.gzOutBytDta JOutRgn.gzOutBytDel JOutRgn.gzOutBytBkt
           JOutRgn.gzOutBytEql JOutRgn.gzOutBytEsc] in *.
    subst dta1 eql1 del1 bkt1 esc1.
    generalize (pending MOD o) (pending INS o) (pending EQL o)
      (pending DEL o) (pending BKT o). intros pm pi pe pd pb.
    unfold pending.
    destruct (Z.eqb_spec anew ESC); split_opr opr; rgn_done.
Qed.

Lemma total_cons (opr : Z) (c : DiffLoop.call) (cs : list DiffLoop.call) :
  total opr (c :: cs) = total opr [c] + total opr cs.
Proof. unfold total. cbn [fold_right]. destruct (_ =? _); lia. Qed.

Lemma escapes_cons (c : DiffLoop.call) (cs : list DiffLoop.call) :
  escapes (c :: cs) = escapes [c] + escapes cs.
Proof. unfold escapes. cbn [fold_right]. destruct (_ && _); lia. Qed.

(** A sequence of calls of [put]. *)
Lemma puts_counts (cs : list DiffLoop.call) :
  forall o : JOutRgn.t,
    let o' := puts JDIFF_LARGEFILE o cs in
    JOutRgn.gzOutBytDta o' + pending MOD o' + pending INS o'
    = JOutRgn.gzOutBytDta o + pending MOD o + pending INS o
      + total MOD cs + total INS cs
    /\ JOutRgn.gzOutBytEql o' + pending EQL o'
       = JOutRgn.gzOutBytEql o + pending EQL o + total EQL cs
    /\ JOutRgn.gzOutBytDel o' + pending DEL o'
       = JOutRgn.gzOutBytDel o + pending DEL o + total DEL cs
    /\ JOutRgn.gzOutBytBkt o' + pending BKT o'
       = JOutRgn.gzOutBytBkt o + pending BKT o + total BKT cs
    /\ JOutRgn.gzOutBytEsc o' = JOutRgn.gzOutBytEsc o + escapes cs.
Proof.
  induction cs as [|c cs IH]; intros o; cbv zeta.
  - cbn. lia.
  - change (puts JDIFF_LARGEFILE o (c :: cs))
      with (puts JDIFF_LARGEFILE
              (snd (JOutRgn.put JDIFF_LARGEFILE o (DiffLoop.aiOpr c)
                      (DiffLoop.azLen c) (DiffLoop.aiOrg c)
                      (DiffLoop.aiNew c) (DiffLoop.azPosOrg c)
                      (DiffLoop.azPosNew c))) cs).
    pose proof (put_counts o c) as (H1 & H2 & H3 & H4 & H5).
    cbv zeta in *.
    destruct (IH (snd (JOutRgn.put JDIFF_LARGEFILE o (DiffLoop.aiOpr c)
                         (DiffLoop.azLen c) (DiffLoop.aiOrg c)
                         (DiffLoop.aiNew c) (DiffLoop.azPosOrg c)
                         (DiffLoop.azPosNew c))))
      as (I1 & I2 & I3 & I4 & I5).
    rewrite (total_cons MOD), (total_cons INS), (total_cons EQL),
      (total_cons DEL), (total_cons BKT), escapes_cons.
    lia.
Qed.

Lemma pending_esc (opr : Z) (o : JOutRgn.t) :
  JOutRgn.siOprCur o = ESC -> opr <> ESC -> pending opr o = 0.
Proof.
  unfold pending. intros ->. destruct (Z.eqb_spec ESC opr); congruence.
Qed.

Lemma put_esc_cur (o : JOutRgn.t) (a b c d e : Z) :
  JOutRgn.siOprCur (snd (JOutRgn.put JDIFF_LARGEFILE o ESC a b c d e)) = ESC.
Proof.
  unfold JOutRgn.put.
  change ((ESC =? INS) || (ESC =? MOD)) with false.
  change ((ESC =? DEL) || (ESC =? BKT) || (ESC =? EQL)) with false.
  cbv iota. cbn [snd].
  destruct (Z.eqb_spec ESC (JOutRgn.siOprCur o)) as [He|He]; cbn [negb];
    [now symmetry | reflexivity].
Qed.

End RgnFacts.

(** X23. The counters of the output of regions add up: once the final
    [put (ESC, ...)] has come, the data counter has grown by the lengths
    of all [MOD] and [INS] calls, and the counters of equal, deleted and
    backtracked bytes by the lengths of the [EQL], [DEL] and [BKT] calls,
    in whatever order the calls came; the escape counter has grown by the
    number of [MOD] and [INS] calls that brought an [ESC] byte. *)
Theorem rgn_counters (JDIFF_LARGEFILE : bool) (o : JOutRgn.t)
  (cs : list DiffLoop.call) (azLen aiOrg aiNew azPosOrg azPosNew : Z) :
  JOutRgn.siOprCur o = JDefs.ESC ->
  let o' :=
    snd (JOutRgn.put JDIFF_LARGEFILE (puts JDIFF_LARGEFILE o cs) JDefs.ESC
           azLen aiOrg aiNew azPosOrg azPosNew) in
  JOutRgn.gzOutBytDta o'
  = JOutRgn.gzOutBytDta o + total JDefs.MOD cs + total JDefs.INS cs
  /\ JOutRgn.gzOutBytEql o' = JOutRgn.gzOutBytEql o + total JDefs.EQL cs
  /\ JOutRgn.gzOutBytDel o' = JOutRgn.gzOutBytDel o + total JDefs.DEL cs
  /\ JOutRgn.gzOutBytBkt o' = JOutRgn.gzOutBytBkt o + total JDefs.BKT cs
  /\ JOutRgn.gzOutBytEsc o' = JOutRgn.gzOutBytEsc o + escapes cs
  /\ JOutRgn.siOprCur o' = JDefs.ESC.
Proof.
  intros Hcur. cbv zeta.
  pose proof (puts_counts JDIFF_LARGEFILE cs o) as (H1 & H2 & H3 & H4 & H5).
  pose proof (put_counts JDIFF_LARGEFILE (puts JDIFF_LARGEFILE o cs)
                (DiffLoop.Call JDefs.ESC azLen aiOrg aiNew azPosOrg
                   azPosNew)) as (F1 & F2 & F3 & F4 & F5).
  cbv zeta in *.
  cbn [DiffLoop.aiOpr DiffLoop.azLen DiffLoop.aiOrg DiffLoop.aiNew
         DiffLoop.azPosOrg DiffLoop.azPosNew] in *.
  pose proof (put_esc_cur JDIFF_LARGEFILE (puts JDIFF_LARGEFILE o cs)
                azLen aiOrg aiNew azPosOrg azPosNew) as Hc.
  set (o' := snd (JOutRgn.put _ _ _ _ _ _ _ _)) in *. clearbody o'.
  rewrite !(pending_esc _ o' Hc) in * by (vm_compute; discriminate).
  rewrite !(pending_esc _ o Hcur) in * by (vm_compute; discriminate).
  change (total JDefs.MOD [_]) with 0 in F1.
  change (total JDefs.INS [_]) with 0 in F1.
  change (total JDefs.EQL [_]) with 0 in F2.
  change (total JDefs.DEL [_]) with 0 in F3.
  change (total JDefs.BKT [_]) with 0 in F4.
  change (escapes [_]) with 0 in F5.
  repeat split; try assumption; lia.
Qed.

Lemma rgn_counters_witness :
  let o := JOutRgn.mk JDefs.ESC 0 0 0 0 0 0 0 [] in
  let o' :=
    snd (JOutRgn.put true (puts true o example_calls) JDefs.ESC 0 0 0 7 7) in
  JOutRgn.gzOutBytDta o'
  = 0 + total JDefs.MOD example_calls + total JDefs.INS example_calls
  /\ JOutRgn.gzOutBytEql o' = 0 + total JDefs.EQL example_calls
  /\ JOutRgn.gzOutBytDel o' = 0 + total JDefs.DEL example_calls
  /\ JOutRgn.gzOutBytBkt o' = 0 + total JDefs.BKT example_calls
  /\ JOutRgn.gzOutBytEsc o' = 0 + escapes example_calls
  /\ JOutRgn.siOprCur o' = JDefs.ESC.
Proof.
  intros o.
  apply (rgn_counters true o example_calls 0 0 0 7 7). reflexivity.
Defined.

(** ** The difference of a file and a beginning of it *)

Section DiffPrefix.

Import JDefs.
Import DiffLoop.

Context {M Out : Type} `{JOut Out}.

Variables sizeof_hkey MAX_OFF_T miVerbse : Z.
Variable search :
  members (list Z) M -> Z -> Z -> Z -> Z -> Z
  -> Z * (Z * Z * Z) * members (list Z) M.
Variables org new : list Z.
Variable P : Out -> Prop.

Hypothesis new_prefix : new `prefix_of` org.
Hypothesis org_bytes : Forall (fun b => 0 <= b) org.
Hypothesis new_short : Z.of_nat (length new) < MAX_OFF_T.
Hypothesis put_eql :
  forall (o : Out) (len a b c d : Z), P o -> P (snd (put o EQL len a b c d)).
Hypothesis put_esc :
  forall (o : Out) (len a b c d : Z), P o -> P (snd (put o ESC len a b c d)).

#[local] Abbreviation n := (Z.of_nat (length new)).
#[local] Abbreviation Fl := (Files (M := M) org new).

#[local] Abbreviation Qp := (Abreast (M := M) org new).

Lemma value_low (f : list Z) (p : Z) :
  Forall (fun b => 0 <= b) f -> EOF <= value_at f p.
Proof.
  intros Hf. unfold value_at, JFile.mem_get, EOF. cbn [fst].
  destruct (_ && _); [|lia].
  destruct (f !! Z.to_nat p) as [b|] eqn:El; cbn; [|lia].
  rewrite Forall_forall in Hf.
  apply list_elem_of_lookup_2 in El. apply Hf in El. lia.
Qed.

Lemma new_bytes : Forall (fun b => 0 <= b) new.
Proof.
  destruct new_prefix as [k Hk]. rewrite Hk in org_bytes.
  now apply Forall_app in org_bytes as [Hn _].
Qed.

Lemma same_value (p : Z) :
  0 <= value_at new p -> value_at org p = value_at new p.
Proof.
  intros Hv. apply value_at_in in Hv as [Hr Hl].
  destruct new_prefix as [k Hk].
  unfold value_at at 1. unfold JFile.mem_get. cbn [fst].
  assert (Hlen : n <= Z.of_nat (length org)).
  { rewrite Hk, length_app. lia. }
  destruct (Z.leb_spec 0 p); [|lia].
  destruct (Z.ltb_spec p (Z.of_nat (length org))); [|lia].
  cbn [andb]. rewrite Hk, lookup_app_l by lia. now rewrite Hl.
Qed.

Lemma Qp_next (l : locals) (m : members (list Z) M) :
  Qp l m -> 0 <= lcNew l ->
  Qp (Locals (value_at org (lzPosOrg l + 1)) (value_at new (lzPosNew l + 1))
        (lzPosOrg l + 1) (lzPosNew l + 1) (lbEql l) (lzEql l) (liFnd l)
        (lzAhd l) (lzSkpOrg l) (lzSkpNew l) (lzLapSml l)) m
  /\ lcOrg l = lcNew l.
Proof.
  intros (Hf & Hp & Hr & Ho & Hn) Hv. rewrite Hn in Hv.
  pose proof (same_value _ Hv) as Hs.
  apply value_at_in in Hv as [Hv _].
  split; [|congruence].
  split; [exact Hf|]. cbn. rewrite Hp. repeat split; lia.
Qed.

Lemma count_equal_prefix (scn : bool) (fuel : nat) :
  forall (cnt : Z) (l : locals) (m : members (list Z) M),
    Qp l m -> n - lzPosNew l <= Z.of_nat fuel ->
    exists cnt' l' m',
      count_equal sizeof_hkey scn fuel cnt l m = Some (cnt', l', m')
      /\ Qp l' m'
      /\ (0 <= lcNew l -> lzPosNew l < lzLapSml l ->
          lzPosNew l < lzPosNew l')
      /\ lzPosNew l <= lzPosNew l'
      /\ lzLapSml l' = lzLapSml l.
Proof.
  induction fuel as [|fuel IH]; intros cnt l m HQ Hfuel;
    cbn [count_equal];
    destruct (Z.eqb_spec (lcOrg l) (lcNew l)) as [Hc|Hc];
    destruct (Z.geb_spec (lcNew l) 0) as [Hn|Hn];
    destruct (Z.ltb_spec (lzPosNew l) (lzLapSml l)) as [Hl|Hl];
    cbn [andb];
    try (eexists _, _, _; split; [reflexivity|];
         split; [exact HQ|]; repeat split; lia);
    try (destruct (Qp_next l m HQ ltac:(lia)) as [_ He]; contradiction).
  - destruct HQ as (_ & _ & Hr & _ & Hv). rewrite Hv in Hn.
    apply value_at_in in Hn. lia.
  - destruct (Qp_next l m HQ ltac:(lia)) as [HQ1 _].
    pose proof HQ as (Hf & _ & Hr & _ & Hv).
    rewrite Hv in Hn. apply value_at_in in Hn as [Hn _].
    set (m1 := if scn && _ then _ else m).
    assert (Hf1 : Fl m1).
    { subst m1. destruct (scn && _); [|exact Hf].
      now apply index_org_files. }
    clearbody m1. rewrite (next_both_mem org new l m1 Hf1).
    destruct HQ1 as (_ & HQ1).
    edestruct (IH (cnt + 1)) as (cnt' & l' & m' & -> & HQ' & _ & Hm & Hk);
      [split; [exact Hf1 | exact HQ1] | cbn; lia |].
    cbn in Hm, Hk. eexists _, _, _. split; [reflexivity|].
    split; [exact HQ'|]. repeat split; lia.
Qed.

Lemma flushEql_prefix (l : locals) (o : Out) :
  P o ->
  exists o',
    flushEql l o
    = (Locals (lcOrg l) (lcNew l) (lzPosOrg l) (lzPosNew l) false
         (if lzEql l >? 0 then 0 else lzEql l) (liFnd l) (lzAhd l)
         (lzSkpOrg l) (lzSkpNew l) (lzLapSml l), o')
    /\ P o'.
Proof.
  intros HP. unfold flushEql. destruct (lzEql l >? 0).
  - pose proof (put_eql o (lzEql l) 0 0 (lzPosOrg l - lzEql l)
                  (lzPosNew l - lzEql l) HP) as HP1.
    destruct (put o EQL _ _ _ _ _) as [b o1]. eauto.
  - eauto.
Qed.

(** A turn of the loop counts equal bytes. *)
Lemma jdiff_turn_prefix (fuel : nat) (l : locals)
  (m : members (list Z) M) (o : Out) :
  Qp l m -> P o -> 0 <= lcNew l -> lzPosNew l < lzLapSml l ->
  n - lzPosNew l <= Z.of_nat fuel ->
  exists l' m' o',
    jdiff_turn sizeof_hkey search fuel l m o = Some (inr l', m', o')
    /\ Qp l' m' /\ P o' /\ lzPosNew l < lzPosNew l'
    /\ lzLapSml l' = lzLapSml l.
Proof.
  intros HQ HP Hn Hlap Hfuel. unfold jdiff_turn. cbv zeta.
  assert (HQ1 : Qp l (source_scan sizeof_hkey l m)).
  { destruct HQ as (Hf & HQ). split; [|exact HQ].
    now apply source_scan_files. }
  set (m1 := source_scan sizeof_hkey l m) in *. clearbody m1.
  destruct (Qp_next l m1 HQ1 Hn) as [HQ2 He].
  destruct (Z.eqb_spec (lcOrg l) (lcNew l)) as [_|Hne]; [|contradiction].
  destruct (lbEql l) eqn:Eb; cbn [negb].
  - destruct (count_equal_prefix (miSrcScn m1 =? 0) fuel 0 l m1 HQ1 Hfuel)
      as (cnt' & l' & m' & -> & HQ' & Hadv & _ & Hl').
    eexists _, _, _. split; [reflexivity|].
    split; [exact HQ'|]. split; [exact HP|]. cbn. split; [|exact Hl'].
    now apply Hadv.
  - pose proof (put_eql o 1 (lcOrg l) (lcNew l) (lzPosOrg l) (lzPosNew l)
                  HP) as HP1.
    destruct (put o EQL _ _ _ _ _) as [b o1]. cbn [snd] in HP1.
    pose proof HQ1 as (Hf1 & _).
    rewrite (next_both_mem org new _ m1 Hf1).
    eexists _, _, _. split; [reflexivity|].
    cbn. split; [exact HQ2|]. split; [exact HP1|]. split; [lia|reflexivity].
Qed.

Lemma jdiff_loop_prefix (fuel : nat) :
  forall (l : locals) (m : members (list Z) M) (o : Out),
    Qp l m -> P o -> Lap miVerbse n l ->
    n - lzPosNew l < Z.of_nat fuel ->
    exists l' m' o',
      jdiff_loop sizeof_hkey miVerbse search fuel l m o
      = Some (inr l', m', o')
      /\ Qp l' m' /\ P o' /\ lcNew l' < 0.
Proof.
  induction fuel as [|fuel IH]; intros l m o HQ HP HL Hfuel;
    cbn [jdiff_loop];
    (destruct (Z.geb_spec (lcNew l) 0) as [Hn|Hn];
     [|eexists _, _, _; split; [reflexivity|];
       split; [exact HQ|]; split; [exact HP | lia]]);
    pose proof HQ as (_ & _ & Hr & _ & Hv); [lia|].
  assert (Hlap : lzPosNew l < lzLapSml l) by (destruct HL; lia).
  destruct (jdiff_turn_prefix fuel l m o HQ HP Hn Hlap ltac:(lia))
    as (l1 & m1 & o1 & -> & HQ1 & HP1 & Hadv & Hl1).
  apply IH.
  - unfold next_lap. destruct (_ && _); [|exact HQ1]. destruct l1. exact HQ1.
  - exact HP1.
  - now apply (next_lap_lap miVerbse new l).
  - unfold next_lap. destruct (_ && _); [destruct l1; cbn in *|]; lia.
Qed.

(** [jdiff] on a file and a beginning of it. *)
Lemma jdiff_prefix_run (m : members (list Z) M) (o : Out) :
  Fl m -> P o ->
  exists m' o',
    jdiff sizeof_hkey MAX_OFF_T miVerbse search (length new + 1) m o
    = Some (EXI_OK, m', o')
    /\ P o'.
Proof.
  intros Hf HP. unfold jdiff. cbv zeta.
  rewrite (get_org_mem org new m 0 Hf), (get_new_mem org new m 0 Hf).
  set (lap := if miVerbse >? 0 then _ else _).
  edestruct (jdiff_loop_prefix (length new + 1)
               (Locals (value_at org 0) (value_at new 0) 0 0 false 0 0 0 0
                  0 lap) m o)
    as (l1 & m1 & o1 & -> & HQ1 & HP1 & Hneg).
  - split; [exact Hf|]. cbn. repeat split; lia.
  - exact HP.
  - unfold Lap. cbn. subst lap.
    destruct (Z.gtb_spec miVerbse 0); destruct (Z.gtb_spec miVerbse 1);
      unfold PGSMRK; lia.
  - cbn. lia.
  - destruct (flushEql_prefix l1 o1 HP1) as (o2 & -> & HP2).
    cbn [lcOrg lcNew lzPosOrg lzPosNew].
    pose proof (put_esc o2 0 0 0 (lzPosOrg l1) (lzPosNew l1) HP2) as HP3.
    destruct (put o2 ESC _ _ _ _ _) as [b o3]. cbn [snd] in HP3.
    destruct HQ1 as (_ & _ & _ & Ho & Hv).
    pose proof (value_low org (lzPosNew l1) org_bytes).
    pose proof (value_low new (lzPosNew l1) new_bytes).
    destruct (Z.ltb_spec (lcNew l1) EOB); [unfold EOB in *; lia|].
    destruct (Z.ltb_spec (lcOrg l1) EOB); [unfold EOB in *; lia|].
    cbn [orb]. eauto.
Qed.

End DiffPrefix.

(** X24. When the destination file is the source file, or a beginning of
    it, [jdiff] returns [EXI_OK] whatever [search] would answer, and it
    puts nothing but [EQL] and the final [ESC]: every property of the
    output that calls of [put] with [EQL] and with [ESC] keep holds at the
    end. *)
Theorem jdiff_prefix {M Out : Type} `{DiffLoop.JOut Out}
  (sizeof_hkey MAX_OFF_T miVerbse : Z)
  (search : DiffLoop.members (list Z) M -> Z -> Z -> Z -> Z -> Z
            -> Z * (Z * Z * Z) * DiffLoop.members (list Z) M)
  (P : Out -> Prop) (m : DiffLoop.members (list Z) M) (o : Out) :
  DiffLoop.mpFilNew m `prefix_of` DiffLoop.mpFilOrg m ->
  Forall (fun b => 0 <= b) (DiffLoop.mpFilOrg m) ->
  Z.of_nat (length (DiffLoop.mpFilNew m)) < MAX_OFF_T ->
  (forall (o : Out) (len a b c d : Z),
      P o -> P (snd (DiffLoop.put o JDefs.EQL len a b c d))) ->
  (forall (o : Out) (len a b c d : Z),
      P o -> P (snd (DiffLoop.put o JDefs.ESC len a b c d))) ->
  P o ->
  exists m' o',
    DiffLoop.jdiff sizeof_hkey MAX_OFF_T miVerbse search
      (length (DiffLoop.mpFilNew m) + 1) m o
    = Some (JDefs.EXI_OK, m', o')
    /\ P o'.
Proof.
  intros Hpre Hbytes Hshort Heql Hesc HP.
  now apply (jdiff_prefix_run sizeof_hkey MAX_OFF_T miVerbse search
               (DiffLoop.mpFilOrg m) (DiffLoop.mpFilNew m) P).
Qed.

Lemma jdiff_prefix_witness :
  exists m' o',
    DiffLoop.jdiff 4 (2 ^ 63 - 1) 0 (search_none 4) 3
      (DiffLoop.Members [5; 6; 7] [5; 6]
         (JHashPos.create 4 7 56 (repeat 0 7) (repeat 0 7))
         JDiff.scan_start 1 0 tt) ([] : list DiffLoop.call)
    = Some (JDefs.EXI_OK, m', o')
    /\ Forall (fun c => DiffLoop.aiOpr c = JDefs.EQL
                        \/ DiffLoop.aiOpr c = JDefs.ESC) o'.
Proof.
  apply (jdiff_prefix 4 (2 ^ 63 - 1) 0 (search_none 4)
           (Forall (fun c => DiffLoop.aiOpr c = JDefs.EQL
                             \/ DiffLoop.aiOpr c = JDefs.ESC))
           (DiffLoop.Members [5; 6; 7] [5; 6]
              (JHashPos.create 4 7 56 (repeat 0 7) (repeat 0 7))
              JDiff.scan_start 1 0 tt) []).
  - exists [7]. reflexivity.
  - repeat constructor; try lia.
  - cbn. lia.
  - intros o len a b c d Ho. cbn. apply Forall_app. split; [exact Ho|].
    constructor; [now left | constructor].
  - intros o len a b c d Ho. cbn. apply Forall_app. split; [exact Ho|].
    constructor; [now right | constructor].
  - constructor.
Defined.

Section RgnPrefix.

Import JDefs.

Variable JDIFF_LARGEFILE : bool.

Lemma NoData_eql (o : JOutRgn.t) (len a b c d : Z) :
  NoData o -> NoData (snd (JOutRgn.put JDIFF_LARGEFILE o EQL len a b c d)).
Proof.
  destruct o as [cur cnt ctl dta del bkt eql esc out].
  unfold NoData. cbn [JOutRgn.gzOutBytDta JOutRgn.siOprCur].
  intros [-> [-> | ->]]; cbn; split; auto.
Qed.

Lemma NoData_esc (o : JOutRgn.t) (len a b c d : Z) :
  NoData o -> NoData (snd (JOutRgn.put JDIFF_LARGEFILE o ESC len a b c d)).
Proof.
  destruct o as [cur cnt ctl dta del bkt eql esc out].
  unfold NoData. cbn [JOutRgn.gzOutBytDta JOutRgn.siOprCur].
  intros [-> [-> | ->]]; cbn; split; auto.
Qed.

End RgnPrefix.

(** X25. With the output of regions, [jdiff] counts no data byte when the
    destination file is the source file or a beginning of it, and [main]
    then exits with code 0, the code of files without differences: a
    destination file that is only shorter than the source file is
    reported like an identical one. *)
Theorem rgn_prefix_no_difference {M : Type} (JDIFF_LARGEFILE : bool)
  (sizeof_hkey MAX_OFF_T miVerbse : Z)
  (search : DiffLoop.members (list Z) M -> Z -> Z -> Z -> Z -> Z
            -> Z * (Z * Z * Z) * DiffLoop.members (list Z) M)
  (m : DiffLoop.members (list Z) M) (o : JOutRgn.t) (liJPatch : Z) :
  DiffLoop.mpFilNew m `prefix_of` DiffLoop.mpFilOrg m ->
  Forall (fun b => 0 <= b) (DiffLoop.mpFilOrg m) ->
  Z.of_nat (length (DiffLoop.mpFilNew m)) < MAX_OFF_T ->
  JOutRgn.gzOutBytDta o = 0 ->
  JOutRgn.siOprCur o = JDefs.ESC ->
  exists m' o',
    DiffLoop.jdiff (H0 := rgn_out JDIFF_LARGEFILE) sizeof_hkey MAX_OFF_T
      miVerbse search (length (DiffLoop.mpFilNew m) + 1) m o
    = Some (JDefs.EXI_OK, m', o')
    /\ JOutRgn.gzOutBytDta o' = 0
    /\ Main.main Main.Diff JDefs.EXI_OK (JOutRgn.gzOutBytDta o') liJPatch
       = 0.
Proof.
  intros Hpre Hbytes Hshort Hd Hc.
  destruct (jdiff_prefix_run (H := rgn_out JDIFF_LARGEFILE) sizeof_hkey
              MAX_OFF_T miVerbse search (DiffLoop.mpFilOrg m)
              (DiffLoop.mpFilNew m) NoData Hpre Hbytes Hshort
              (NoData_eql JDIFF_LARGEFILE) (NoData_esc JDIFF_LARGEFILE)
              m o ltac:(now split) ltac:(split; [exact Hd | now left]))
    as (m' & o' & E & Hd' & _).
  exists m', o'. split; [exact E|]. split; [exact Hd'|].
  rewrite Hd'. reflexivity.
Qed.

Lemma rgn_prefix_no_difference_witness :
  exists m' o',
    DiffLoop.jdiff (H0 := rgn_out true) 4 (2 ^ 63 - 1) 0 (search_none 4) 3
      (DiffLoop.Members [5; 6; 7] [5; 6]
         (JHashPos.create 4 7 56 (repeat 0 7) (repeat 0 7))
         JDiff.scan_start 1 0 tt)
      (JOutRgn.mk JDefs.ESC 0 0 0 0 0 0 0 [])
    = Some (JDefs.EXI_OK, m', o')
    /\ JOutRgn.gzOutBytDta o' = 0
    /\ Main.main Main.Diff JDefs.EXI_OK (JOutRgn.gzOutBytDta o') 0 = 0.
Proof.
  apply (rgn_prefix_no_difference true 4 (2 ^ 63 - 1) 0 (search_none 4)
           (DiffLoop.Members [5; 6; 7] [5; 6]
              (JHashPos.create 4 7 56 (repeat 0 7) (repeat 0 7))
              JDiff.scan_start 1 0 tt)
           (JOutRgn.mk JDefs.ESC 0 0 0 0 0 0 0 []) 0).
  - exists [7]. reflexivity.
  - repeat constructor; try lia.
  - cbn. lia.
  - reflexivity.
  - reflexivity.
Defined.

(** ** Outputs that answer alike see the same run *)

Section DiffOutputs.

Import JDefs.
Import DiffLoop.

Context {F M Out1 Out2 : Type} `{JFile.ops F}.
Context {J1 : JOut Out1} {J2 : JOut Out2}.

Variables sizeof_hkey MAX_OFF_T miVerbse : Z.
Variable search :
  members F M -> Z -> Z -> Z -> Z -> Z -> Z * (Z * Z * Z) * members F M.
Variable R : Out1 -> Out2 -> Prop.

Hypothesis put_alike :
  forall (o1 : Out1) (o2 : Out2) (a b c d e f : Z),
    R o1 o2 ->
    fst (put o1 a b c d e f) = fst (put o2 a b c d e f)
    /\ R (snd (put o1 a b c d e f)) (snd (put o2 a b c d e f)).

Ltac put_alike_step :=
  match goal with
  | HR : R ?o1 ?o2 |- context [put ?o1 ?a ?b ?c ?d ?e ?f] =>
      let Hb := fresh "Hb" in
      let HR1 := fresh "HR" in
      destruct (put_alike o1 o2 a b c d e f HR) as [Hb HR1];
      destruct (put o1 a b c d e f) as [? ?];
      destruct (put o2 a b c d e f) as [? ?];
      cbn [fst snd] in Hb, HR1; try subst; clear HR
  end.

Lemma flushEql_alike (l : locals) (o1 : Out1) (o2 : Out2) :
  R o1 o2 ->
  fst (flushEql l o1) = fst (flushEql l o2)
  /\ R (snd (flushEql l o1)) (snd (flushEql l o2)).
Proof.
  intros HR. unfold flushEql. destruct (lzEql l >? 0).
  - put_alike_step. cbn. now split.
  - cbn. now split.
Qed.

Lemma put_mods_alike (fuel : nat) :
  forall (l : locals) (m : members F M) (o1 : Out1) (o2 : Out2),
    R o1 o2 -> same_run R (put_mods fuel l m o1) (put_mods fuel l m o2).
Proof.
  induction fuel as [|fuel IH]; intros l m o1 o2 HR; cbn [put_mods];
    destruct (_ && _); cbn; auto.
  put_alike_step. destruct (next_both _ m) as [l1 m1]. now apply IH.
Qed.

Lemma put_inss_alike (fuel : nat) :
  forall (l : locals) (m : members F M) (o1 : Out1) (o2 : Out2),
    R o1 o2 -> same_run R (put_inss fuel l m o1) (put_inss fuel l m o2).
Proof.
  induction fuel as [|fuel IH]; intros l m o1 o2 HR; cbn [put_inss];
    destruct (_ && _); cbn; auto.
  put_alike_step. destruct (next_new _ m) as [l1 m1]. now apply IH.
Qed.

Lemma jdiff_turn_alike (fuel : nat) (l : locals) (m : members F M)
  (o1 : Out1) (o2 : Out2) :
  R o1 o2 ->
  same_run R (jdiff_turn sizeof_hkey search fuel l m o1)
    (jdiff_turn sizeof_hkey search fuel l m o2).
Proof.
  intros HR. unfold jdiff_turn. cbv zeta.
  set (m1 := source_scan sizeof_hkey l m). clearbody m1.
  destruct (lcOrg l =? lcNew l).
  - destruct (negb (lbEql l)).
    + put_alike_step. destruct (next_both _ m1) as [l1 m2]. cbn. auto.
    + destruct (count_equal _ _ _ _ _ _) as [[[cnt l1] m2]|]; cbn; auto.
  - destruct (lzAhd l >? 0).
    + destruct (flushEql_alike l o1 o2 HR) as [Hl HR1].
      destruct (flushEql l o1) as [l1 o3].
      destruct (flushEql l o2) as [l2 o4]. cbn [fst snd] in Hl, HR1.
      subst l2. destruct (lcOrg l1 <? 0).
      * put_alike_step. destruct (next_new _ m1) as [l2 m2]. cbn. auto.
      * pose proof (put_mods_alike fuel l1 m1 o3 o4 HR1) as Hm.
        destruct (put_mods fuel l1 m1 o3) as [[[l3 m3] o5]|];
          destruct (put_mods fuel l1 m1 o4) as [[[l4 m4] o6]|];
          cbn in Hm |- *; try contradiction; auto.
        destruct Hm as [Hm HR2]. injection Hm as <- <-. auto.
    + destruct ((liFnd l =? 1) && (lzAhd l =? 0)); [cbn; auto|].
      destruct (flushEql_alike l o1 o2 HR) as [Hl HR1].
      destruct (flushEql l o1) as [l1 o3].
      destruct (flushEql l o2) as [l2 o4]. cbn [fst snd] in Hl, HR1.
      subst l2.
      destruct (search m1 _ _ _ _ _) as [[r [[so1 sn1] ahd1]] m2].
      cbn [lcOrg lcNew lzPosOrg lzPosNew lbEql lzEql liFnd lzAhd lzSkpOrg
             lzSkpNew lzLapSml].
      destruct (r <? 0); [cbn; auto|].
      assert (Hx : exists l3 m3 o5 o6,
                 R o5 o6
                 /\ (if so1 >? 0
                     then
                       let '(_, o) :=
                         put o3 DEL so1 0 0 (lzPosOrg l1) (lzPosNew l1) in
                       let '(c, m) := get_org m2 (lzPosOrg l1 + so1) in
                       (Locals c (lcNew l1) (lzPosOrg l1 + so1)
                          (lzPosNew l1) (lbEql l1) (lzEql l1) r ahd1 so1
                          sn1 (lzLapSml l1), m, o)
                     else if so1 <? 0
                     then
                       let '(_, o) :=
                         put o3 BKT (- so1) 0 0 (lzPosOrg l1)
                           (lzPosNew l1) in
                       let '(c, m) := get_org m2 (lzPosOrg l1 + so1) in
                       (Locals c (lcNew l1) (lzPosOrg l1 + so1)
                          (lzPosNew l1) (lbEql l1) (lzEql l1) r ahd1 so1
                          sn1 (lzLapSml l1), m, o)
                     else
                       (Locals (lcOrg l1) (lcNew l1) (lzPosOrg l1)
                          (lzPosNew l1) (lbEql l1) (lzEql l1) r ahd1 so1
                          sn1 (lzLapSml l1), m2, o3)) = (l3, m3, o5)
                 /\ (if so1 >? 0
                     then
                       let '(_, o) :=
                         put o4 DEL so1 0 0 (lzPosOrg l1) (lzPosNew l1) in
                       let '(c, m) := get_org m2 (lzPosOrg l1 + so1) in
                       (Locals c (lcNew l1) (lzPosOrg l1 + so1)
                          (lzPosNew l1) (lbEql l1) (lzEql l1) r ahd1 so1
                          sn1 (lzLapSml l1), m, o)
                     else if so1 <? 0
                     then
                       let '(_, o) :=
                         put o4 BKT (- so1) 0 0 (lzPosOrg l1)
                           (lzPosNew l1) in
                       let '(c, m) := get_org m2 (lzPosOrg l1 + so1) in
                       (Locals c (lcNew l1) (lzPosOrg l1 + so1)
                          (lzPosNew l1) (lbEql l1) (lzEql l1) r ahd1 so1
                          sn1 (lzLapSml l1), m, o)
                     else
                       (Locals (lcOrg l1) (lcNew l1) (lzPosOrg l1)
                          (lzPosNew l1) (lbEql l1) (lzEql l1) r ahd1 so1
                          sn1 (lzLapSml l1), m2, o4)) = (l3, m3, o6)).
      { destruct (so1 >? 0).
        - put_alike_step. destruct (get_org m2 _) as [c m3].
          eexists _, _, _, _. eauto.
        - destruct (so1 <? 0).
          + put_alike_step. destruct (get_org m2 _) as [c m3].
            eexists _, _, _, _. eauto.
          + eexists _, _, _, _. eauto. }
      destruct Hx as (l3 & m3 & o5 & o6 & HR2 & -> & ->).
      destruct (lzSkpNew l3 >? 0); [|cbn; auto].
      pose proof (put_inss_alike fuel l3 m3 o5 o6 HR2) as Hm.
      destruct (put_inss fuel l3 m3 o5) as [[[l4 m4] o7]|];
        destruct (put_inss fuel l3 m3 o6) as [[[l5 m5] o8]|];
        cbn in Hm |- *; try contradiction; auto.
      destruct Hm as [Hm HR3]. injection Hm as <- <-. auto.
Qed.

Lemma jdiff_loop_alike (fuel : nat) :
  forall (l : locals) (m : members F M) (o1 : Out1) (o2 : Out2),
    R o1 o2 ->
    same_run R (jdiff_loop sizeof_hkey miVerbse search fuel l m o1)
      (jdiff_loop sizeof_hkey miVerbse search fuel l m o2).
Proof.
  induction fuel as [|fuel IH]; intros l m o1 o2 HR; cbn [jdiff_loop];
    destruct (lcNew l >=? 0); cbn; auto.
  pose proof (jdiff_turn_alike fuel l m o1 o2 HR) as Ht.
  destruct (jdiff_turn sizeof_hkey search fuel l m o1)
    as [[[[r1|l1] m1] o3]|];
    destruct (jdiff_turn sizeof_hkey search fuel l m o2)
      as [[[[r2|l2] m2] o4]|];
    cbn [same_run] in Ht |- *; try contradiction; try exact I;
    destruct Ht as [Ht HR1]; try discriminate;
    injection Ht as <- <-; [now split | now apply IH].
Qed.

(** [jdiff] returns the same with both outputs. *)
Lemma jdiff_alike (fuel : nat) (m : members F M) (o1 : Out1) (o2 : Out2) :
  R o1 o2 ->
  same_run R (jdiff sizeof_hkey MAX_OFF_T miVerbse search fuel m o1)
    (jdiff sizeof_hkey MAX_OFF_T miVerbse search fuel m o2).
Proof.
  intros HR. unfold jdiff. cbv zeta.
  destruct (get_org m 0) as [c1 m1]. destruct (get_new m1 0) as [c2 m2].
  set (l0 := Locals _ _ _ _ _ _ _ _ _ _ _). clearbody l0.
  pose proof (jdiff_loop_alike fuel l0 m2 o1 o2 HR) as Hl.
  destruct (jdiff_loop sizeof_hkey miVerbse search fuel l0 m2 o1)
    as [[[[r1|l1] m3] o3]|];
    destruct (jdiff_loop sizeof_hkey miVerbse search fuel l0 m2 o2)
      as [[[[r2|l2] m4] o4]|];
    cbn [same_run] in Hl |- *; try contradiction; try exact I;
    destruct Hl as [Hl HR1]; try discriminate;
    injection Hl as <- <-; [now split|].
  - destruct (flushEql_alike l1 o3 o4 HR1) as [Hf HR2].
    destruct (flushEql l1 o3) as [l2 o5].
    destruct (flushEql l1 o4) as [l3 o6]. cbn [fst snd] in Hf, HR2.
    subst l3. put_alike_step. cbn. auto.
Qed.

End DiffOutputs.

(** ** The counters after a run of [jdiff] *)

Section RgnRun.

Import JDefs.

Variable JDIFF_LARGEFILE : bool.

(** What a patcher writes is what [EQL], [MOD] and [INS] announce. *)
Lemma replay_length (org : list Z) (cs : list DiffLoop.call) :
  forall (p : Z) (out : list Z) (p' : Z) (out' : list Z),
    replay org cs p out = Some (p', out') ->
    Z.of_nat (length out')
    = Z.of_nat (length out) + total EQL cs + total MOD cs + total INS cs.
Proof.
  induction cs as [|c cs IH]; intros p out p' out' E.
  - cbn in E. injection E as <- <-. cbn. lia.
  - rewrite (total_cons EQL), (total_cons MOD), (total_cons INS).
    cbn [replay] in E. cbv zeta in E. unfold total. cbn [fold_right].
    destruct (_ && _); [|discriminate].
    destruct (Z.eqb_spec (DiffLoop.aiOpr c) EQL) as [He|He].
    { destruct (Z.leb_spec 0 p); [|discriminate].
      destruct (Z.leb_spec 0 (DiffLoop.azLen c)); [|discriminate].
      destruct (Z.leb_spec (p + DiffLoop.azLen c) (Z.of_nat (length org)));
        [|discriminate].
      cbn [andb] in E. apply IH in E. rewrite E.
      rewrite length_app, length_take, length_drop.
      destruct (Z.eqb_spec (DiffLoop.aiOpr c) MOD);
        [unfold EQL, MOD in *; lia|].
      destruct (Z.eqb_spec (DiffLoop.aiOpr c) INS);
        [unfold EQL, INS in *; lia|].
      fold (total EQL cs) (total MOD cs) (total INS cs). lia. }
    destruct (Z.eqb_spec (DiffLoop.aiOpr c) MOD) as [Hm|Hm].
    { destruct (Z.eqb_spec (DiffLoop.azLen c) 1) as [Hl|]; [|discriminate].
      apply IH in E. rewrite E, length_app. cbn [length].
      destruct (Z.eqb_spec (DiffLoop.aiOpr c) INS);
        [unfold INS, MOD in *; lia|].
      fold (total EQL cs) (total MOD cs) (total INS cs). lia. }
    destruct (Z.eqb_spec (DiffLoop.aiOpr c) INS) as [Hi|Hi].
    { destruct (Z.eqb_spec (DiffLoop.azLen c) 1) as [Hl|]; [|discriminate].
      apply IH in E. rewrite E, length_app. cbn [length].
      fold (total EQL cs) (total MOD cs) (total INS cs). lia. }
    fold (total EQL cs) (total MOD cs) (total INS cs).
    destruct (DiffLoop.aiOpr c =? DEL);
      [|destruct (DiffLoop.aiOpr c =? BKT)]; apply IH in E; lia.
Qed.

Lemma puts_snoc (o : JOutRgn.t) (cs : list DiffLoop.call)
  (a b c d e f : Z) :
  snd (JOutRgn.put JDIFF_LARGEFILE (puts JDIFF_LARGEFILE o cs) a b c d e f)
  = puts JDIFF_LARGEFILE o (cs ++ [DiffLoop.Call a b c d e f]).
Proof. unfold puts. now rewrite fold_left_app. Qed.

(** The last call of a run that returns [EXI_OK] is the final [ESC]. *)
Lemma jdiff_final_esc {M : Type} (sizeof_hkey MAX_OFF_T miVerbse : Z)
  (search : DiffLoop.members (list Z) M -> Z -> Z -> Z -> Z -> Z
            -> Z * (Z * Z * Z) * DiffLoop.members (list Z) M)
  (fuel : nat) (m m' : DiffLoop.members (list Z) M) (o o' : JOutRgn.t) :
  DiffLoop.jdiff (H0 := rgn_out JDIFF_LARGEFILE) sizeof_hkey MAX_OFF_T
    miVerbse search fuel m o = Some (EXI_OK, m', o') ->
  JOutRgn.siOprCur o' = ESC.
Proof.
  unfold DiffLoop.jdiff. cbv zeta.
  destruct (DiffLoop.get_org m 0) as [c1 m1].
  destruct (DiffLoop.get_new m1 0) as [c2 m2].
  destruct (DiffLoop.jdiff_loop _ _ _ _ _ _ _) as [[[[r|l1] m3] o1]|] eqn:El;
    [| |discriminate].
  - intros E. injection E as -> <- <-.
    apply jdiff_loop_return in El. unfold EXI_OK in El. lia.
  - destruct (DiffLoop.flushEql l1 o1) as [l2 o2].
    pose proof (put_esc_cur JDIFF_LARGEFILE o2 0 0 0 (DiffLoop.lzPosOrg l2)
                  (DiffLoop.lzPosNew l2)) as Hc.
    change (DiffLoop.put o2 ESC 0 0 0 (DiffLoop.lzPosOrg l2)
              (DiffLoop.lzPosNew l2))
      with (JOutRgn.put JDIFF_LARGEFILE o2 ESC 0 0 0 (DiffLoop.lzPosOrg l2)
              (DiffLoop.lzPosNew l2)).
    destruct (JOutRgn.put JDIFF_LARGEFILE o2 ESC 0 0 0 _ _) as [b o3].
    cbn [snd] in Hc. intros E. now injection E as _ _ <-.
Qed.

End RgnRun.

(** X26. The counters of the output of regions tell the size of the
    destination file: when [jdiff] returns [EXI_OK] on two files held in
    memory, whatever [search] answered, the counter of equal bytes and the
    counter of data bytes have together grown by the number of bytes of
    the destination file. *)
Theorem rgn_counts_destination {M : Type} (JDIFF_LARGEFILE : bool)
  (sizeof_hkey MAX_OFF_T miVerbse : Z)
  (search : DiffLoop.members (list Z) M -> Z -> Z -> Z -> Z -> Z
            -> Z * (Z * Z * Z) * DiffLoop.members (list Z) M)
  (fuel : nat) (m m' : DiffLoop.members (list Z) M) (o o' : JOutRgn.t) :
  (forall (m : DiffLoop.members (list Z) M) (a b c d e : Z),
      DiffLoop.mpFilOrg (snd (search m a b c d e)) = DiffLoop.mpFilOrg m
      /\ DiffLoop.mpFilNew (snd (search m a b c d e))
         = DiffLoop.mpFilNew m) ->
  Forall (fun b => 0 <= b) (DiffLoop.mpFilNew m) ->
  JOutRgn.siOprCur o = JDefs.ESC ->
  DiffLoop.jdiff (H0 := rgn_out JDIFF_LARGEFILE) sizeof_hkey MAX_OFF_T
    miVerbse search fuel m o = Some (JDefs.EXI_OK, m', o') ->
  (JOutRgn.gzOutBytEql o' - JOutRgn.gzOutBytEql o)
  + (JOutRgn.gzOutBytDta o' - JOutRgn.gzOutBytDta o)
  = Z.of_nat (length (DiffLoop.mpFilNew m)).
Proof.
  intros Hsearch Hbytes Hcur E.
  pose proof (jdiff_final_esc JDIFF_LARGEFILE _ _ _ _ _ _ _ _ _ E) as Hcur'.
  pose proof (jdiff_alike (J1 := rgn_out JDIFF_LARGEFILE)
                (J2 := DiffLoop.calls_out) sizeof_hkey MAX_OFF_T miVerbse
                search (fun o1 cs => o1 = puts JDIFF_LARGEFILE o cs)) as Ha.
  specialize (Ha ltac:(intros o1 cs a b c d e f ->; split;
                        [reflexivity | apply puts_snoc])
                 fuel m o [] eq_refl).
  rewrite E in Ha.
  destruct (DiffLoop.jdiff sizeof_hkey MAX_OFF_T miVerbse search fuel m [])
    as [[[r m2] cs]|] eqn:Ec; cbn [same_run] in Ha; [|contradiction].
  destruct Ha as [Ha Ho]. injection Ha as <- <-.
  destruct (jdiff_replay (H := DiffLoop.calls_out) sizeof_hkey MAX_OFF_T
              miVerbse search (fun o => o)
              (DiffLoop.mpFilOrg m) (DiffLoop.mpFilNew m)
              ltac:(intros; reflexivity)
              ltac:(intros m0 a b c d e [H1 H2];
                    destruct (Hsearch m0 a b c d e) as [H3 H4];
                    split; congruence)
              Hbytes fuel m [] m' cs Ec ltac:(now split) eq_refl)
    as [p Hrep].
  apply replay_length in Hrep. cbn [length] in Hrep.
  pose proof (puts_counts JDIFF_LARGEFILE cs o) as (H1 & H2 & _).
  cbv zeta in *. rewrite <- Ho in H1, H2.
  rewrite !(pending_esc _ o' Hcur') in * by (vm_compute; discriminate).
  rewrite !(pending_esc _ o Hcur) in * by (vm_compute; discriminate).
  lia.
Qed.

Lemma rgn_counts_destination_witness :
  exists m' o',
    DiffLoop.jdiff (H0 := rgn_out true) 4 (2 ^ 63 - 1) 0 (search_none 4) 24
      example_members (JOutRgn.mk JDefs.ESC 0 0 0 0 0 0 0 [])
    = Some (JDefs.EXI_OK, m', o')
    /\ (JOutRgn.gzOutBytEql o' - 0) + (JOutRgn.gzOutBytDta o' - 0) = 7.
Proof.
  eexists _, _. split; [vm_compute; reflexivity|].
  eapply (rgn_counts_destination true 4 (2 ^ 63 - 1) 0 (search_none 4) 24
            example_members _ (JOutRgn.mk JDefs.ESC 0 0 0 0 0 0 0 [])).
  - intros; split; reflexivity.
  - repeat constructor; try lia.
  - reflexivity.
  - vm_compute. reflexivity.
Defined.
